(* ===== verification/_CoqProject ===== *)
-Q . S2P
Prelude.v
PyStr.v
Uuid.v
Utf8.v
PathLabel.v
Text.v
Rbac.v
ScopeFilters.v
Access.v
GrantCache.v
Policy.v
QueryDsl.v
QueryDslFacts.v
Json.v
PyNum.v
Catalog.v
HashPolicy.v
Sidecar.v
Metadata.v
Alerts.v
Walk.v
Move.v
Associate.v
MoveFacts.v
WalkFacts.v
Scan.v
ScanFacts.v
AgentMeta.v
AgentSync.v
AgentSyncFacts.v
Reconcile.v
ReconcileFacts.v
Verify.v
Commands.v
CommandsFacts.v
AgentCert.v
Enrollment.v
EnrollmentFacts.v
AgentServer.v
Transfers.v
TransfersFacts.v
ShareMap.v
ShareMapFacts.v
UpdateGate.v
UpdateGateFacts.v
ConfigSettings.v
ConfigRollout.v
ConfigGroups.v
ConfigFacts.v
