(* ===== verification/Prelude.v ===== *)
(** * Filearr: a verification library

    Filearr catalogues file libraries: a scan walks the files and keeps one row per file,
    remote agents replicate their own catalogues, a query language and a search index
    look things up, and a permission model decides who sees what.  This library models
    the parts of [src/backend/filearr] that carry that logic as Rocq functions translated
    from the Python source, and proves what makes them correct.  Definitions keep the
    names of the source; a name that Python writes with a leading underscore keeps it.

    ** Conventions

    - A Python function that can raise returns [result E A] ([Ok] or [Err]), [E] listing
      the exceptions of the component; [None] stands for an [OSError] or a [ValueError]
      where there is only one.
    - Text that may hold any code point is [text], a list of code points ([Utf8],
      [Text]); text the components only compare or split is a [string] of 8-bit
      characters ([PyStr]), the code points U+0000 to U+00FF: the query language is one
      of these.  Integers are [Z]; times are microseconds since the epoch,
      UTC, where the code has floats or datetimes.
    - Rows of a table are a [gmap] from ids; a UUID is its 128-bit integer ([Uuid]).
      Where the database chooses an order (an unordered query, the order of a flush),
      the order is a parameter and the theorems quantify over it.
    - Code outside the repository is a parameter: hash functions, the gitignore matcher,
      the XML parser, the Unicode tables beyond ASCII ([uni_lower], [uni_decimal],
      [uni_digit]), the SQL and search engines ([SqlEngine], [MeiliEngine], classes whose
      laws are the documented semantics; a [MeiliEngine] reads an expression as the filter
      it spells), [float.__repr__], SHA-256 and xxhash, X.509
      certificates with their signatures, JSON Web Tokens, base64, pydantic's conversions,
      [re.compile], CronSim, [ZoneInfo], [fromisoformat], the collation of the database,
      the validation of a command result by its schema, the ids the database hands out.
      A theorem that needs more of one of them has it as a hypothesis, and its witness
      instantiates it.
    - Recursion that is not structural runs on fuel: the directory walk on the size of the
      tree, the batching of entries on their number, slices on the length of the list, the
      removal of a substring on the length of the text, the cascade of a deleted agent on
      the number of its rows, the search of a free agent name on the number of agents.
      [walk_exact], [delivered_all], [chunks_concat], [cascade_exact] and
      [free_name_total] show that this fuel is enough.  An upload in chunks of [n] bytes
      takes [length src / n + 1] requests ([upload_completes]); a phased rollout takes one
      tick more than it has tiers left ([rollout_completes]).

    ** The parts

    - Permissions.  [PathLabel] (rbac.py: path segments as ltree labels), [Rbac] (rbac.py,
      roles.py: roles, grants, [evaluate]), [ScopeFilters] (rbac_sql.py,
      tenant_tokens.py: the same decision compiled to SQL and to a search filter),
      [Access] (security.py, exports.py: the request gates and item decisions),
      [GrantCache] (grant_cache.py, search_scope.py: the cache of grants, also as a step
      relation in which loads are suspended across mutations), [Policy] (policy.py:
      grants flattened for agents).  The theorems: [evaluate] is the documented
      algorithm, both compiled filters admit exactly the items it allows (of the search
      filter it is the printed expression, read back by a reader of its own, that has this
      one meaning for all documents), labels are
      injective and decode, gates admit nobody without the scope, a cached grant is fresh
      unless a mutation overlaps its load and never older than its time to live.
    - Query language.  [QueryDsl], [QueryDslFacts] (querydsl.py): lexer, parser, printer;
      round trip, allow-list of dynamic keys, the exceptions that escape, for texts of the
      code points U+0000 to U+00FF.
    - Scan.  [Walk] and [WalkFacts] (scan.py, presets.py: the walk and its accounting),
      [HashPolicy] (hashpolicy.py, schedule.py), [Catalog] (models.py, extract.py: the
      row and its hashes), [Move] and [MoveFacts] (move.py: renames within and across
      libraries under the unique index), [Sidecar], [Metadata] and [Associate]
      (sidecar.py, nfo.py, jriver.py, associate.py: sidecars and their metadata),
      [Alerts] (alerts/: file-watch rules, dedup keys, drafts), [Scan] and [ScanFacts]
      (scan.py: one run, as the sequence of its commits and enqueued jobs).  The walk
      lists exactly the admitted files; a run never loses a row, tombstones only what a
      walk without an error did not find (a directory that denies access is no error to
      it: what lies below is tombstoned too, unseen, and the denial is counted), enqueues
      only committed rows, refuses an empty mount; transfers
      keep identities; at most one undelivered alert per group and item.
    - Agents.  [AgentMeta] (agentsync.py, embed.py, chunking.py: the extraction result an
      agent sends and its fold into the metadata column), [AgentSync], [AgentSyncFacts]
      (agentsync.py, api/agent_commands.py: the sequence check, the plan and the apply
      transaction of a replication batch, agent authentication), [Reconcile],
      [ReconcileFacts] (the digests, the paged sessions and the anti-join of a full
      sweep), [Verify] (verify.py: one file's report against its row, with the stamp of the
      verification), [Commands],
      [CommandsFacts] (the command table: queueing, polls, acknowledgements, completions,
      the expiry sweep).  A log delivered by any sequence of batches, repeated, reordered
      or refused, is applied exactly once (with one library root per relative path in a
      batch) and touches no other agent's rows; a matching
      digest means equal manifests, a finished sweep makes the catalogue the manifest, and
      the next start matches; agents cannot write the reserved metadata keys; each request
      moves each command along the state machine, a command ends once its time is up and
      the sweeps have run, is delivered a bounded number of times, and only to its agent.
    - Enrollment.  [AgentCert] (agentcert.py, the CA part of agentsync.py: certificate
      requests, the proof of a rebind), [Enrollment], [EnrollmentFacts] (api/agents.py,
      agentsync.py: tokens, registration, binding, revocation and the purge of an agent's
      rows), [AgentServer] (every request of the agent surface and of its operators as one
      server over one state).  A token enrolls one agent, an agent's certificate moves
      only along its life cycle, revocation is final and every endpoint refuses a revoked
      agent from then on, a purge leaves no row of the agent.
    - Transfers.  [PyNum] (numbers and UUIDs from text), [Transfers] and [TransfersFacts]
      (transfers.py, api/agent_staging.py, api/transfers.py, staging_sweep.py: the
      transfer table, the staging files and the resumable upload).  A request is one atomic
      step; a write, an fsync or a commit that fails is an argument of the step ([c_taken],
      [ending]).  Interrupted and resumed in any way, failed writes and commits
      included, an upload assembles the bytes of the source, unless the commit of a failed
      verification is lost, which has removed the file already; only bytes whose hash was checked against the catalogue are served; every
      transfer moves along its state machine; the sweep removes exactly the expired.
    - Share locations.  [ShareMap], [ShareMapFacts] (transfers.py, share_map.py,
      share_resolution.py, api/agent_share_maps.py, api/items.py: the mappings of agents'
      paths to network shares, the mount map file and the link of an item).  The most
      specific mapping wins among those in scope (the code does not look at the library of
      a mapping, so the theorem leaves mappings of other libraries out); a link in the form
      of a URL made from the mappings of the operators carries no credentials (a UNC may).
    - Configuration.  [UpdateGate], [UpdateGateFacts] (update_gate.py, versioncmp.py: the
      update window, the embargo, the comparison of version texts), [ConfigSettings]
      (agent_config.py, policy.py, schedule.py: what the two documents of a group accept),
      [ConfigRollout] (agent_config.py, worker.py: tiers, buckets and the state machine of
      a phased rollout, which the worker spells out twice), [ConfigGroups] and
      [ConfigFacts] (agent_config.py, api/agent_config_groups.py, api/agent_policies.py,
      worker.py: groups, numbered snapshots, membership, the merged document an agent
      polls, the minute tick).  A tick commits each rollout on its own; the model gives it
      a number of commits after which the worker dies.  Every request is a sequence of the
      steps of [config_step], which keep [configs_ok]; the merged document is the last
      setter of every key, in the order of priority, name and id, each group at the version
      it publishes or offers the agent; along calm requests ([calm_request]) no agent is delivered an
      older version than before; a rollout completes.  A version text counts as
      the numbers of the dotted run it begins with, and the comparison is theirs.
    ** What is left out, and why

    Most HTTP handlers, the task wiring, the report SQL, the media extractors and the
    search-engine client call external services and hold little logic of their own; the
    Go agent and the web frontend are in other languages.  Of the modelled files, each
    component's note in the manifest names what is missing: the taxonomy tables, progress
    notifications, alert delivery, the occurrences of a cron schedule, session cookies,
    password hashing, the ranges a file response serves and the stream tokens, the
    installer configuration, audit events.  Requests of agents
    and operators are served one at a time, with the rows other transactions hold locked
    given where the code skips them; two overlapping transactions on one row are not
    modelled.  A run's wall-clock throughput counters are not modelled. *)
From stdpp Require Export base gmap sets list strings sorting numbers pretty.
From Stdlib Require Export ZArith Lia Ascii.
From stdpp Require Import options.

Open Scope Z_scope.
Open Scope stdpp_scope.

(** ** Results of fallible operations

    Python code that raises is modelled as a function into [result E A]; the
    error type [E] lists the exceptions of the component. *)

Inductive result (E A : Type) : Type :=
  | Ok (a : A)
  | Err (e : E).
Arguments Ok {E A} a.
Arguments Err {E A} e.

Global Instance result_eq_dec {E A} `{EqDecision E, EqDecision A} :
  EqDecision (result E A).
Proof. solve_decision. Defined.

Definition result_bind {E A B} (r : result E A) (f : A → result E B) : result E B :=
  match r with Ok a => f a | Err e => Err e end.

Declare Scope filearr_scope.
Delimit Scope filearr_scope with filearr.
Notation "x <-! e ; k" := (result_bind e (λ x, k))
  (at level 100, e at next level, k at level 200, right associativity) : filearr_scope.
Notation "' p <-! e ; k" := (result_bind e (λ x, match x with p => k end))
  (at level 100, p pattern, e at next level, k at level 200, right associativity, only parsing) : filearr_scope.
Open Scope filearr_scope.

(** [mapM] over a list, stopping at the first error as a Python loop that raises. *)
Fixpoint result_mapM {E A B} (f : A → result E B) (l : list A) : result E (list B) :=
  match l with
  | [] => Ok []
  | x :: l' => y <-! f x; ys <-! result_mapM f l'; Ok (y :: ys)
  end.

(** ** Slices *)

Fixpoint chunks {A} (fuel n : nat) (l : list A) : list (list A) :=
  match fuel, l with
  | O, _ | _, [] => []
  | S k, _ => take n l :: chunks k n (drop n l)
  end.
(** [l[i : i + n] for i in range(0, len(l), n)] *)
Definition chunked {A} (n : nat) (l : list A) : list (list A) := chunks (length l) n l.

Lemma result_bind_ok {E A B} (r : result E A) (f : A → result E B) b :
  result_bind r f = Ok b ↔ ∃ a, r = Ok a ∧ f a = Ok b.
Proof. destruct r; naive_solver. Qed.

Lemma result_mapM_ok {E A B} (f : A → result E B) l ks :
  result_mapM f l = Ok ks ↔ Forall2 (λ x y, f x = Ok y) l ks.
Proof.
  revert ks. induction l as [|x l IH]; intros ks; simpl.
  - split; [intros [= <-]; constructor | by inversion 1].
  - rewrite result_bind_ok. setoid_rewrite result_bind_ok. setoid_rewrite IH. split.
    + intros (y & Hy & ys & Hys & [= <-]). by constructor.
    + inversion 1; subst. eauto 10.
Qed.

(** ** Tactics and hint databases *)

Create HintDb filearr.

(** Splits every boolean connective of the hypotheses and the goal into
    propositions, the usual first step after unfolding a guard of the code. *)
Ltac bool_to_prop :=
  repeat match goal with
  | H : _ && _ = true |- _ => apply andb_true_iff in H; destruct H
  | H : _ || _ = false |- _ => apply orb_false_iff in H; destruct H
  | H : negb _ = true |- _ => apply negb_true_iff in H
  | H : negb _ = false |- _ => apply negb_false_iff in H
  | H : bool_decide _ = true |- _ => apply bool_decide_eq_true in H
  | H : bool_decide _ = false |- _ => apply bool_decide_eq_false in H
  | H : (_ =? _)%Z = true |- _ => apply Z.eqb_eq in H
  | H : (_ =? _)%Z = false |- _ => apply Z.eqb_neq in H
  | H : (_ <? _)%Z = true |- _ => apply Z.ltb_lt in H
  | H : (_ <? _)%Z = false |- _ => apply Z.ltb_ge in H
  | H : (_ <=? _)%Z = true |- _ => apply Z.leb_le in H
  | H : (_ <=? _)%Z = false |- _ => apply Z.leb_gt in H
  end.

(** Case analysis on the innermost [match]/[if] scrutinee of the goal. *)
Ltac case_goal :=
  match goal with
  | |- context [match ?x with _ => _ end] =>
    lazymatch x with context [match _ with _ => _ end] => fail | _ => destruct x eqn:? end
  end.

(** One goal for each element of the closed list of a membership hypothesis. *)
Ltac elem_cases H :=
  first
    [ apply elem_of_cons in H as [H|H]; [first [subst | idtac]|elem_cases H]
    | exfalso; by apply elem_of_nil in H ].

(** ** List lemmas shared by the components *)

(** A Python list comprehension with a condition is [filterb]. *)
Abbreviation filterb := List.filter.

Lemma elem_of_filterb {A} (f : A → bool) (x : A) (l : list A) :
  x ∈ filterb f l ↔ x ∈ l ∧ f x = true.
Proof. rewrite !list_elem_of_In. apply filter_In. Qed.

Lemma filterb_nil {A} (f : A → bool) (l : list A) :
  filterb f l = [] ↔ ∀ x, x ∈ l → f x = false.
Proof.
  split.
  - intros Hnil x Hx. destruct (f x) eqn:Hf; [|done].
    assert (x ∈ filterb f l) as Hin by (by rewrite elem_of_filterb).
    rewrite Hnil in Hin. by apply not_elem_of_nil in Hin.
  - intros Hall. destruct (filterb f l) as [|y l'] eqn:Hl; [done|].
    assert (y ∈ filterb f l) as Hy by (rewrite Hl; left).
    apply elem_of_filterb in Hy as [Hy Hf]. by rewrite Hall in Hf.
Qed.

Lemma filterb_ext {A} (f g : A → bool) (l : list A) :
  (∀ x, x ∈ l → f x = g x) → filterb f l = filterb g l.
Proof.
  induction l as [|x l IH]; intros H; [done|]. cbn [List.filter].
  rewrite (H x (list_elem_of_here _ _)), IH; [done|]. intros y Hy. apply H. by apply list_elem_of_further.
Qed.

Lemma existsb_elem {A} (f : A → bool) (l : list A) :
  existsb f l = true ↔ ∃ x, x ∈ l ∧ f x = true.
Proof.
  rewrite existsb_exists. by setoid_rewrite list_elem_of_In.
Qed.

Lemma forallb_elem {A} (f : A → bool) (l : list A) :
  forallb f l = true ↔ ∀ x, x ∈ l → f x = true.
Proof.
  rewrite forallb_forall. by setoid_rewrite list_elem_of_In.
Qed.

(** The maximum of a measure over a list, 0 for the empty list. *)
Fixpoint max_of {A} (f : A → nat) (l : list A) : nat :=
  match l with [] => 0%nat | x :: l' => Nat.max (f x) (max_of f l') end.

Lemma max_of_ge {A} (f : A → nat) l x : x ∈ l → (f x ≤ max_of f l)%nat.
Proof. induction 1; simpl; lia. Qed.

Lemma max_of_attained {A} (f : A → nat) l :
  l ≠ [] → ∃ x, x ∈ l ∧ f x = max_of f l.
Proof.
  induction l as [|a l IH]; [done|intros _]. simpl.
  destruct (decide (l = [])) as [->|Hl].
  - exists a. split; [left|simpl; lia].
  - destruct (IH Hl) as (x & Hx & Hf).
    destruct (decide (max_of f l ≤ f a)%nat).
    + exists a. split; [left|lia].
    + exists x. split; [by right|lia].
Qed.

(** Two prefixes of one list are comparable: the shorter is a prefix of the longer. *)
Lemma prefix_chain {A} (k1 k2 l : list A) :
  k1 `prefix_of` l → k2 `prefix_of` l → (length k1 ≤ length k2)%nat →
  k1 `prefix_of` k2.
Proof.
  intros [r1 ->] [r2 Hr] Hlen. exists (drop (length k1) k2).
  assert (k1 = take (length k1) k2) as Hk1.
  { apply (f_equal (take (length k1))) in Hr.
    rewrite take_app_length, take_app_le in Hr by done. done. }
  rewrite Hk1 at 1. by rewrite take_drop.
Qed.

Lemma prefix_same_length {A} (k1 k2 l : list A) :
  k1 `prefix_of` l → k2 `prefix_of` l → length k1 = length k2 → k1 = k2.
Proof.
  intros H1 H2 Hlen.
  assert (k1 `prefix_of` k2) as [r ->] by (eapply prefix_chain; eauto; lia).
  rewrite length_app in Hlen. destruct r; [by rewrite app_nil_r|simpl in Hlen; lia].
Qed.

(** A map is injective on a list as soon as another duplicate-free map factors
    through it. *)
Lemma NoDup_map_factor {A B C} (f : A → B) (g : A → C) (l : list A) :
  NoDup (map g l) → (∀ x y, x ∈ l → y ∈ l → f x = f y → g x = g y) → NoDup (map f l).
Proof.
  induction l as [|x l IH]; [constructor|]. cbn [map]. intros Hg Hfg.
  apply NoDup_cons in Hg as [Hx Hg]. constructor.
  - intros Hin. apply list_elem_of_fmap in Hin as (y & Hf & Hy). destruct Hx.
    rewrite (Hfg x y); [by apply (list_elem_of_fmap_2 g)|left|by right|done].
  - apply IH; [done|]. intros y z Hy Hz. apply Hfg; by right.
Qed.

Lemma elem_of_list_take {A} (x : A) n l : x ∈ take n l → x ∈ l.
Proof. rewrite <- (take_drop n l) at 2. intros. apply elem_of_app. by left. Qed.

Lemma elem_of_list_drop {A} (x : A) n l : x ∈ drop n l → x ∈ l.
Proof. rewrite <- (take_drop n l) at 2. intros. apply elem_of_app. by right. Qed.

Lemma chunks_elem {A} fuel n (l c : list A) x : c ∈ chunks fuel n l → x ∈ c → x ∈ l.
Proof.
  revert l. induction fuel as [|k IH]; intros l; [by intros ?%not_elem_of_nil|].
  destruct l as [|y l]; [by intros ?%not_elem_of_nil|]. cbn [chunks].
  intros [->|H]%elem_of_cons Hx; [by eapply elem_of_list_take|].
  specialize (IH _ H Hx). by eapply elem_of_list_drop.
Qed.

Lemma chunks_concat {A} n (l : list A) : (0 < n)%nat → List.concat (chunked n l) = l.
Proof.
  intros Hn. unfold chunked.
  assert (∀ fuel (l : list A), (length l ≤ fuel)%nat → List.concat (chunks fuel n l) = l) as H; [|by apply H].
  clear l. induction fuel as [|k IH]; intros l Hl; [destruct l; [done|cbn in Hl; lia]|].
  destruct l as [|x l]; [done|]. cbn [chunks List.concat]. rewrite IH; [apply take_drop|].
  rewrite length_drop. cbn [length] in *. lia.
Qed.

(** The map built from the pairs of a function is that function. *)
Lemma list_to_map_graph `{Countable K} {V} (l : list (K * V)) (F : K → option V) :
  (∀ k v, (k, v) ∈ l ↔ F k = Some v) → ∀ k, (list_to_map l : gmap K V) !! k = F k.
Proof.
  intros Hl k. destruct (list_to_map l !! k) as [v|] eqn:Hk.
  - apply elem_of_list_to_map_2 in Hk. symmetry. by apply Hl.
  - destruct (F k) as [v|] eqn:Hf; [|done]. apply not_elem_of_list_to_map_2 in Hk. destruct Hk.
    apply list_elem_of_fmap. exists (k, v). split; [done|by apply Hl].
Qed.

(** In a sorted list the elements of a downward closed predicate come first. *)
Lemma filterb_take_sorted {A} (R : relation A) (P : A → bool) l n :
  StronglySorted R l → (∀ x y, R x y → P y = true → P x = true) →
  length (filterb P (take n l)) = Nat.min n (length (filterb P l)).
Proof.
  intros Hs. revert n. induction Hs as [|x l Hl IH Hx]; intros n Hdown; [destruct n; cbn; lia|].
  destruct n as [|n]; [done|]. cbn [take List.filter]. destruct (P x) eqn:Hp; [cbn [length]; rewrite IH; [lia|done]|].
  assert (∀ y, y ∈ l → P y = false) as Hno.
  { intros y Hy. destruct (P y) eqn:Hpy; [|done]. rewrite Forall_forall in Hx. by rewrite (Hdown x y (Hx y Hy) Hpy) in Hp. }
  assert (filterb P l = []) as -> by (by apply filterb_nil).
  assert (filterb P (take n l) = []) as -> by (apply filterb_nil; intros y Hy; apply Hno; by eapply elem_of_list_take).
  cbn. lia.
Qed.

Lemma nodup_map_filterb {A B} (f : A → B) (P : A → bool) l : NoDup (map f l) → NoDup (map f (filterb P l)).
Proof.
  induction l as [|x l IH]; [done|]. cbn. intros [Hx Hl]%NoDup_cons. destruct (P x); [|by apply IH].
  cbn. constructor; [|by apply IH]. intros (y & Hy & [Hin _]%elem_of_filterb)%list_elem_of_fmap.
  destruct Hx. rewrite Hy. by apply list_elem_of_fmap_2.
Qed.

Lemma filterb_filterb {A} (f g : A → bool) l : filterb f (filterb g l) = filterb (λ x, g x && f x) l.
Proof. induction l as [|x l IH]; [done|]. cbn. destruct (g x); cbn; [|done]. by rewrite IH. Qed.

Lemma filterb_length_perm {A} (f : A → bool) l k : l ≡ₚ k → length (filterb f l) = length (filterb f k).
Proof. induction 1; cbn; repeat case_match; cbn; congruence. Qed.

(** An element occurs once in a list without repetitions. *)
Lemma count_nodup (i : Z) l : NoDup l → i ∈ l → length (filterb (Z.eqb i) l) = 1%nat.
Proof.
  induction 1 as [|x l Hx Hl IH]; [by intros ?%not_elem_of_nil|]. cbn. intros [->|Hi]%elem_of_cons.
  - rewrite Z.eqb_refl. cbn. replace (filterb (Z.eqb x) l) with (@nil Z); [done|]. symmetry. apply filterb_nil.
    intros y Hy. apply Z.eqb_neq. by intros <-.
  - destruct (Z.eqb_spec i x) as [->|]; [done|]. by apply IH.
Qed.
