(* ===== verification/PyStr.v ===== *)
(** * Python strings

    A Python [str] is a [string] here: one 8-bit character per code point, so the
    text the components compare is text over U+0000..U+00FF.  This file holds the
    [str] methods the modelled code calls ([split], [join], [startswith], [strip],
    [lower], [isspace], ...), with their tables over that range, and the lemmas
    the components share. *)
From S2P Require Import Prelude.
From Stdlib Require Import DecimalString DecimalN DecimalPos.
From stdpp Require Import options.

(** ** Append and prefixes *)

Lemma app_empty_r s : s +:+ "" = s.
Proof. induction s as [|c s IH]; [done|]. change (String c (s +:+ "") = String c s). by rewrite IH. Qed.

Lemma app_assoc_str s1 s2 s3 : s1 +:+ (s2 +:+ s3) = (s1 +:+ s2) +:+ s3.
Proof.
  induction s1 as [|c s1 IH]; [done|].
  change (String c (s1 +:+ (s2 +:+ s3)) = String c ((s1 +:+ s2) +:+ s3)). by rewrite IH.
Qed.

Lemma app_cons_str c s1 s2 : String c s1 +:+ s2 = String c (s1 +:+ s2).
Proof. done. Qed.

Lemma length_app_str s1 s2 :
  String.length (s1 +:+ s2) = (String.length s1 + String.length s2)%nat.
Proof. induction s1 as [|c s1 IH]; [done|]. rewrite app_cons_str. simpl. by rewrite IH. Qed.

(** [s.startswith(p)] *)
Fixpoint startswith (s p : string) {struct p} : bool :=
  match p, s with
  | "", _ => true
  | String _ _, "" => false
  | String c p', String d s' => Ascii.eqb c d && startswith s' p'
  end.

Lemma startswith_spec s p : startswith s p = true ↔ ∃ r, s = p +:+ r.
Proof.
  revert s. induction p as [|c p IH]; intros s; simpl.
  - split; [by exists s | done].
  - destruct s as [|d s].
    { split; [done | intros [r Hr]; by rewrite app_cons_str in Hr]. }
    rewrite andb_true_iff, Ascii.eqb_eq, IH. split.
    + intros [-> [r ->]]. by exists r.
    + intros [r Hr]. rewrite app_cons_str in Hr. injection Hr as -> ->. eauto.
Qed.

Lemma startswith_app p r : startswith (p +:+ r) p = true.
Proof. apply startswith_spec. by exists r. Qed.

(** ** Characters *)

Fixpoint str_forall (f : ascii → bool) (s : string) : bool :=
  match s with "" => true | String c s' => f c && str_forall f s' end.

Fixpoint str_exists (f : ascii → bool) (s : string) : bool :=
  match s with "" => false | String c s' => f c || str_exists f s' end.

(** [c in s] for a one-character string [c] *)
Definition has_char (c : ascii) (s : string) : bool := str_exists (Ascii.eqb c) s.

Lemma str_forall_app f s1 s2 :
  str_forall f (s1 +:+ s2) = str_forall f s1 && str_forall f s2.
Proof.
  induction s1 as [|c s1 IH]; [done|]. rewrite app_cons_str. simpl.
  by rewrite IH, andb_assoc.
Qed.

Lemma str_exists_app f s1 s2 :
  str_exists f (s1 +:+ s2) = str_exists f s1 || str_exists f s2.
Proof.
  induction s1 as [|c s1 IH]; [done|]. rewrite app_cons_str. simpl.
  by rewrite IH, orb_assoc.
Qed.

Lemma str_exists_forall f s : str_exists f s = false ↔ str_forall (λ c, negb (f c)) s = true.
Proof.
  induction s as [|c s IH]; simpl; [done|].
  rewrite orb_false_iff, andb_true_iff, negb_true_iff. by rewrite IH.
Qed.

Lemma str_forall_impl (f g : ascii → bool) s :
  (∀ c, f c = true → g c = true) → str_forall f s = true → str_forall g s = true.
Proof.
  intros Hfg. induction s as [|c s IH]; simpl; [done|].
  rewrite !andb_true_iff. naive_solver.
Qed.

Definition code (c : ascii) : N := N_of_ascii c.

(** [str.isspace] on U+0000..U+00FF *)
Definition is_space (c : ascii) : bool :=
  let n := code c in
  ((9 <=? n) && (n <=? 13) || (28 <=? n) && (n <=? 32) || (n =? 133) || (n =? 160))%N.

(** [str.isdecimal]: the digits [int] accepts. *)
Definition is_decimal (c : ascii) : bool :=
  let n := code c in ((48 <=? n) && (n <=? 57))%N.

(** [str.isdigit] also holds of the superscripts U+00B2, U+00B3 and U+00B9. *)
Definition is_digit (c : ascii) : bool :=
  let n := code c in (is_decimal c || (n =? 178) || (n =? 179) || (n =? 185))%N.

(** [str.isalpha]: ASCII letters, U+00AA, U+00B5, U+00BA and the Latin-1 letters
    (U+00C0..U+00FF without the signs U+00D7 and U+00F7). *)
Definition is_alpha (c : ascii) : bool :=
  let n := code c in
  ((65 <=? n) && (n <=? 90) || (97 <=? n) && (n <=? 122) ||
   (n =? 170) || (n =? 181) || (n =? 186) ||
   (192 <=? n) && (n <=? 255) && negb (n =? 215) && negb (n =? 247))%N.

(** [str.isalnum]: letters, digits and the vulgar fractions U+00BC..U+00BE, which
    are numeric. *)
Definition is_alnum (c : ascii) : bool :=
  let n := code c in (is_alpha c || is_digit c || (188 <=? n) && (n <=? 190))%N.

(** [str.lower] on one character *)
Definition lower_char (c : ascii) : ascii :=
  let n := code c in
  if ((65 <=? n) && (n <=? 90) || (192 <=? n) && (n <=? 222) && negb (n =? 215))%N
  then ascii_of_N (n + 32) else c.

Fixpoint lower (s : string) : string :=
  match s with "" => "" | String c s' => String (lower_char c) (lower s') end.

Lemma lower_char_idem c : lower_char (lower_char c) = lower_char c.
Proof. by destruct c as [[] [] [] [] [] [] [] []]. Qed.

Lemma lower_idem s : lower (lower s) = lower s.
Proof. induction s as [|c s IH]; [done|]. simpl. by rewrite lower_char_idem, IH. Qed.

(** Lower-casing neither creates nor removes an ASCII character that is not a
    letter, nor a space. *)
Lemma lower_char_space c : is_space (lower_char c) = is_space c.
Proof. by destruct c as [[] [] [] [] [] [] [] []]. Qed.

(** ** Splitting and joining on one character *)

Fixpoint split_char (sep : ascii) (s : string) : list string :=
  match s with
  | "" => [""]
  | String c s' =>
      if Ascii.eqb c sep then "" :: split_char sep s'
      else match split_char sep s' with
           | [] => [String c ""]
           | w :: ws => String c w :: ws
           end
  end.

(** [sep.join(words)] *)
Fixpoint join (sep : string) (ws : list string) : string :=
  match ws with
  | [] => ""
  | [w] => w
  | w :: ws' => w +:+ sep +:+ join sep ws'
  end.

Definition sep_str (c : ascii) : string := String c "".

Lemma split_char_not_nil sep s : split_char sep s ≠ [].
Proof. destruct s as [|c s]; simpl; [done|]. repeat case_match; done. Qed.

Lemma split_char_app sep s1 s2 :
  split_char sep (s1 +:+ String sep s2) = split_char sep s1 ++ split_char sep s2.
Proof.
  induction s1 as [|c s1 IH].
  - change ("" +:+ String sep s2) with (String sep s2). simpl. by rewrite Ascii.eqb_refl.
  - rewrite app_cons_str. simpl. destruct (Ascii.eqb c sep); [by rewrite IH|].
    rewrite IH. destruct (split_char sep s1) eqn:Hs; [by apply split_char_not_nil in Hs|done].
Qed.

Lemma split_char_fresh sep s : has_char sep s = false → split_char sep s = [s].
Proof.
  unfold has_char. induction s as [|c s IH]; simpl; [done|].
  rewrite orb_false_iff, Ascii.eqb_sym. intros [-> Hs]. by rewrite (IH Hs).
Qed.

Lemma split_char_fresh_elem sep s w : w ∈ split_char sep s → has_char sep w = false.
Proof.
  unfold has_char. revert w. induction s as [|c s IH]; intros w; simpl.
  - intros ->%list_elem_of_singleton. done.
  - destruct (Ascii.eqb c sep) eqn:Hc.
    + intros [->|Hw]%elem_of_cons; [done|by apply IH].
    + destruct (split_char sep s) as [|w0 ws] eqn:Hs; [by apply split_char_not_nil in Hs|].
      intros [->|Hw]%elem_of_cons.
      * simpl. rewrite Ascii.eqb_sym, Hc. simpl. apply IH. left.
      * apply IH. by right.
Qed.

Lemma join_cons sep w ws : ws ≠ [] → join sep (w :: ws) = w +:+ sep +:+ join sep ws.
Proof. by destruct ws. Qed.

Lemma join_split sep s : join (sep_str sep) (split_char sep s) = s.
Proof.
  induction s as [|c s IH]; [done|]. simpl.
  destruct (Ascii.eqb c sep) eqn:Hc.
  - apply Ascii.eqb_eq in Hc as ->.
    rewrite join_cons by apply split_char_not_nil. rewrite IH. done.
  - destruct (split_char sep s) as [|w ws] eqn:Hs; [by apply split_char_not_nil in Hs|].
    rewrite <- IH. destruct ws; done.
Qed.

Lemma join_app sep l1 l2 :
  l1 ≠ [] → l2 ≠ [] → join sep (l1 ++ l2) = join sep l1 +:+ sep +:+ join sep l2.
Proof.
  intros H1 H2. induction l1 as [|w l1 IH]; [done|].
  destruct (decide (l1 = [])) as [->|Hl1]; [by apply join_cons|].
  rewrite <- app_comm_cons, join_cons by (by destruct l1). rewrite (IH Hl1), join_cons by done.
  by rewrite !app_assoc_str.
Qed.

Lemma split_join sep ws :
  ws ≠ [] → (∀ w, w ∈ ws → has_char sep w = false) →
  split_char sep (join (sep_str sep) ws) = ws.
Proof.
  induction ws as [|w ws IH]; [done|]. intros _ Hfresh.
  destruct (decide (ws = [])) as [->|Hws].
  - simpl. apply split_char_fresh, Hfresh. left.
  - rewrite join_cons by done. change (sep_str sep +:+ ?s) with (String sep s).
    rewrite split_char_app, (split_char_fresh sep w) by (apply Hfresh; left).
    rewrite IH; [done|done|]. intros w' Hw'. apply Hfresh. by right.
Qed.

Lemma split_inj sep s1 s2 : split_char sep s1 = split_char sep s2 → s1 = s2.
Proof. intros H. by rewrite <- (join_split sep s1), <- (join_split sep s2), H. Qed.

(** Prefixes of the split are exactly the equal-or-separator-bounded prefixes of the text. *)
Lemma split_prefix sep p s :
  split_char sep p `prefix_of` split_char sep s ↔
  s = p ∨ startswith s (p +:+ sep_str sep) = true.
Proof.
  rewrite startswith_spec. split.
  - intros [r Hr]. destruct (decide (r = [])) as [->|Hne].
    + left. rewrite app_nil_r in Hr. by apply split_inj in Hr.
    + right. exists (join (sep_str sep) r).
      rewrite <- (join_split sep s), Hr, join_app by (done || apply split_char_not_nil).
      by rewrite join_split, !app_assoc_str.
  - intros [->|[r ->]]; [done|]. rewrite <- app_assoc_str.
    change (sep_str sep +:+ r) with (String sep r). rewrite split_char_app. by eexists.
Qed.

(** ** Quotes and line ends *)

(** The text of one double quote *)
Definition DQ : string := String "034"%char "".

(** What [$] of a regular expression leaves: the text without one final newline. *)
Fixpoint strip_final_newline (s : string) : string :=
  match s with
  | "" => ""
  | String c "" => if Ascii.eqb c "010" then "" else s
  | String c s' => String c (strip_final_newline s')
  end.

Lemma strip_newline_cons c s :
  s ≠ "" → strip_final_newline (String c s) = String c (strip_final_newline s).
Proof. by destruct s. Qed.

(** ** Decimal numerals *)

(** [str(n)] of a non-negative integer *)
Definition dec (n : N) : string := NilEmpty.string_of_uint (N.to_uint n).

Lemma uint_string_decimal d : str_forall is_decimal (NilEmpty.string_of_uint d) = true.
Proof. by induction d. Qed.

Lemma dec_decimal n : str_forall is_decimal (dec n) = true.
Proof. apply uint_string_decimal. Qed.

Lemma dec_not_empty n : dec n ≠ "".
Proof.
  unfold dec. destruct n as [|p]; [done|]. simpl.
  pose proof (Unsigned.to_uint_nonnil p) as Hp. destruct (Pos.to_uint p); done.
Qed.

(** [int(str(n)) == n] *)
Lemma dec_parse n : NilEmpty.uint_of_string (dec n) = Some (N.to_uint n).
Proof. apply NilEmpty.usu. Qed.

Lemma dec_inj n m : dec n = dec m → n = m.
Proof.
  intros H. apply (f_equal NilEmpty.uint_of_string) in H. rewrite !dec_parse in H.
  injection H as H. by rewrite <- (DecimalN.Unsigned.of_to n), H, DecimalN.Unsigned.of_to.
Qed.
