(* ===== verification/Uuid.v ===== *)
(** * UUIDs

    Python's [uuid.UUID] as the code uses it: [UUID.hex] and [str(UUID)]; the parser is in
    PyNum.v.  A UUID object is its 128-bit integer. *)
From S2P Require Import Prelude PyStr.
From stdpp Require Import options.

(** ** Hexadecimal digits *)

Definition hex_digit (d : Z) : ascii :=
  ascii_of_N (Z.to_N (if d <? 10 then 48 + d else 87 + d)).

(** The lowercase digits, the alphabet [frozenset("0123456789abcdef")]. *)
Definition is_hex_digit (c : ascii) : bool :=
  let n := code c in ((48 <=? n) && (n <=? 57) || (97 <=? n) && (n <=? 102))%N.

(** The value of a hexadecimal digit in either case, as [int(c, 16)] reads it. *)
Definition hex_val (c : ascii) : option Z :=
  let n := Z.of_N (code c) in
  if (48 <=? n) && (n <=? 57) then Some (n - 48)
  else if (97 <=? n) && (n <=? 102) then Some (n - 87)
  else if (65 <=? n) && (n <=? 70) then Some (n - 55)
  else None.

Lemma hex_digit_cases d :
  0 ≤ d < 16 → d ∈ [0; 1; 2; 3; 4; 5; 6; 7; 8; 9; 10; 11; 12; 13; 14; 15].
Proof.
  intros Hd.
  assert (d = 0 ∨ d = 1 ∨ d = 2 ∨ d = 3 ∨ d = 4 ∨ d = 5 ∨ d = 6 ∨ d = 7 ∨ d = 8 ∨
    d = 9 ∨ d = 10 ∨ d = 11 ∨ d = 12 ∨ d = 13 ∨ d = 14 ∨ d = 15) by lia.
  rewrite !elem_of_cons. tauto.
Qed.

(** Checks a property of the sixteen digits one by one. *)
Lemma hex_digit_forall (P : Z → Prop) :
  Forall P [0; 1; 2; 3; 4; 5; 6; 7; 8; 9; 10; 11; 12; 13; 14; 15] →
  ∀ d, 0 ≤ d < 16 → P d.
Proof. rewrite Forall_forall. intros HP d Hd. by apply HP, hex_digit_cases. Qed.

Lemma hex_val_digit d : 0 ≤ d < 16 → hex_val (hex_digit d) = Some d.
Proof. apply (hex_digit_forall (λ d, hex_val (hex_digit d) = Some d)). by repeat constructor. Qed.

Lemma hex_digit_is_hex d : 0 ≤ d < 16 → is_hex_digit (hex_digit d) = true.
Proof. apply (hex_digit_forall (λ d, is_hex_digit (hex_digit d) = true)). by repeat constructor. Qed.

Lemma is_hex_digit_not_underscore c : is_hex_digit c = true → Ascii.eqb c "_" = false.
Proof. by destruct c as [[] [] [] [] [] [] [] []]. Qed.

(** ** [UUID.hex] and [str(UUID)] *)

(** The [n] low hexadecimal digits of [z], most significant first. *)
Fixpoint hexn (n : nat) (z : Z) : string :=
  match n with
  | O => ""
  | S k => hexn k (z / 16) +:+ sep_str (hex_digit (z mod 16))
  end.

(** [UUID.hex]: 32 digits. *)
Definition uuid_hex (u : Z) : string := hexn 32 u.

(** [str(UUID)]: the digits in groups of 8-4-4-4-12. *)
Definition uuid_str (u : Z) : string :=
  let h := uuid_hex u in
  String.substring 0 8 h +:+ "-" +:+ String.substring 8 4 h +:+ "-" +:+
  String.substring 12 4 h +:+ "-" +:+ String.substring 16 4 h +:+ "-" +:+
  String.substring 20 12 h.

Lemma hexn_hex n z : str_forall is_hex_digit (hexn n z) = true.
Proof.
  revert z. induction n as [|n IH]; intros z; [done|]. simpl.
  rewrite str_forall_app, IH. simpl. rewrite andb_true_r.
  apply hex_digit_is_hex. apply Z.mod_pos_bound. lia.
Qed.

Lemma hexn_length n z : String.length (hexn n z) = n.
Proof.
  revert z. induction n as [|n IH]; intros z; [done|]. simpl.
  rewrite length_app_str, IH. simpl. lia.
Qed.

Lemma app_char_inj s1 s2 c1 c2 :
  s1 +:+ sep_str c1 = s2 +:+ sep_str c2 → s1 = s2 ∧ c1 = c2.
Proof.
  revert s2. induction s1 as [|a s1 IH]; intros [|b s2] H; rewrite ?app_cons_str in H.
  - by injection H.
  - exfalso. injection H as _ H. destruct s2; done.
  - exfalso. injection H as _ H. destruct s1; done.
  - injection H as -> H. destruct (IH s2 H) as [-> ->]. done.
Qed.

Lemma hex_digit_inj d1 d2 : 0 ≤ d1 < 16 → 0 ≤ d2 < 16 → hex_digit d1 = hex_digit d2 → d1 = d2.
Proof.
  intros H1 H2 Heq. apply (f_equal hex_val) in Heq.
  rewrite !hex_val_digit in Heq by done. by injection Heq.
Qed.

Lemma hexn_inj n z1 z2 :
  0 ≤ z1 < 16 ^ Z.of_nat n → 0 ≤ z2 < 16 ^ Z.of_nat n → hexn n z1 = hexn n z2 → z1 = z2.
Proof.
  revert z1 z2. induction n as [|n IH]; intros z1 z2 H1 H2 Heq; simpl in Heq.
  - change (Z.of_nat 0) with 0 in *. lia.
  - apply app_char_inj in Heq as [Hq Hr].
    rewrite Nat2Z.inj_succ, Z.pow_succ_r in H1, H2 by lia.
    apply IH in Hq; [|split; [apply Z.div_pos; lia|apply Z.div_lt_upper_bound; lia]..].
    apply hex_digit_inj in Hr; [|apply Z.mod_pos_bound; lia..].
    rewrite (Z.div_mod z1 16), (Z.div_mod z2 16) by lia. by rewrite Hq, Hr.
Qed.

(** A UUID object is a 128-bit value. *)
Definition is_uuid (u : Z) : Prop := 0 ≤ u < 2 ^ 128.

Lemma uuid_hex_inj u1 u2 : is_uuid u1 → is_uuid u2 → uuid_hex u1 = uuid_hex u2 → u1 = u2.
Proof. intros H1 H2. by apply hexn_inj. Qed.
