(* ===== verification/Utf8.v ===== *)
(** * UTF-8

    [str.encode("utf-8")] and the strict [bytes.decode("utf-8")] over code points
    and bytes as integers.  Python texts that may hold any code point (the path
    segments of [rbac.py]) are lists of code points. *)
From S2P Require Import Prelude.
From stdpp Require Import options.

(** A Unicode text: its code points. *)
Abbreviation text := (list Z).

(** Code points that UTF-8 can carry: all but the surrogates. *)
Definition is_scalar (n : Z) : bool :=
  (0 <=? n) && (n <? 55296) || (57344 <=? n) && (n <=? 1114111).

(** The encoding of one code point; [None] is [UnicodeEncodeError]. *)
Definition utf8_char (n : Z) : option (list Z) :=
  if negb (is_scalar n) then None
  else if n <? 128 then Some [n]
  else if n <? 2048 then Some [192 + n / 64; 128 + n mod 64]
  else if n <? 65536 then Some [224 + n / 4096; 128 + n / 64 mod 64; 128 + n mod 64]
  else Some [240 + n / 262144; 128 + n / 4096 mod 64; 128 + n / 64 mod 64; 128 + n mod 64].

Fixpoint utf8_encode (s : text) : option (list Z) :=
  match s with
  | [] => Some []
  | ch :: s' =>
      match utf8_char ch, utf8_encode s' with
      | Some bs, Some bs' => Some (bs ++ bs')
      | _, _ => None
      end
  end.

Definition is_cont (b : Z) : bool := (128 <=? b) && (b <? 192).

(** Strict decoding: truncated, overlong and surrogate sequences are errors. *)
Fixpoint utf8_decode (bs : list Z) : option text :=
  match bs with
  | [] => Some []
  | b0 :: r0 =>
      if (0 <=? b0) && (b0 <? 128) then cons b0 <$> utf8_decode r0
      else match r0 with
      | [] => None
      | b1 :: r1 =>
          if (194 <=? b0) && (b0 <? 224) && is_cont b1
          then cons ((b0 - 192) * 64 + (b1 - 128)) <$> utf8_decode r1
          else match r1 with
          | [] => None
          | b2 :: r2 =>
              let n3 := (b0 - 224) * 4096 + (b1 - 128) * 64 + (b2 - 128) in
              if (224 <=? b0) && (b0 <? 240) && is_cont b1 && is_cont b2 &&
                 (2048 <=? n3) && is_scalar n3
              then cons n3 <$> utf8_decode r2
              else match r2 with
              | [] => None
              | b3 :: r3 =>
                  let n4 := (b0 - 240) * 262144 + (b1 - 128) * 4096 +
                            (b2 - 128) * 64 + (b3 - 128) in
                  if (240 <=? b0) && (b0 <? 245) && is_cont b1 && is_cont b2 &&
                     is_cont b3 && (65536 <=? n4) && is_scalar n4
                  then cons n4 <$> utf8_decode r3
                  else None
              end
          end
      end
  end.

Ltac Zify.zify_post_hook ::= Z.to_euclidean_division_equations.

(** Boolean arithmetic goals, [is_scalar] and [is_cont] included. *)
Ltac bool_lia := unfold is_scalar, is_cont in *; lia.

Lemma utf8_char_scalar n bs : utf8_char n = Some bs → is_scalar n = true.
Proof. unfold utf8_char. by destruct (is_scalar n). Qed.

Lemma utf8_char_ascii n : 0 ≤ n < 128 → utf8_char n = Some [n].
Proof.
  intros Hn. unfold utf8_char. replace (is_scalar n) with true by bool_lia.
  simpl. by replace (n <? 128) with true by lia.
Qed.

(** The bytes of a non-ASCII code point are all at least 128. *)
Lemma utf8_char_high n bs :
  128 ≤ n → utf8_char n = Some bs → Forall (λ b, 128 ≤ b < 256) bs.
Proof.
  intros Hn. unfold utf8_char. destruct (is_scalar n) eqn:Hs; [|done]. simpl.
  replace (n <? 128) with false by lia.
  repeat case_match; intros [= <-]; repeat constructor; bool_lia.
Qed.

Lemma utf8_char_bytes n bs : utf8_char n = Some bs → Forall (λ b, 0 ≤ b < 256) bs.
Proof.
  intros H. destruct (decide (n < 128)).
  - pose proof (utf8_char_scalar _ _ H) as Hs. rewrite utf8_char_ascii in H by bool_lia.
    injection H as <-. repeat constructor; bool_lia.
  - eapply Forall_impl; [eapply utf8_char_high; [|exact H]; lia|]. simpl. lia.
Qed.

Lemma utf8_decode_char n bs r :
  utf8_char n = Some bs → utf8_decode (bs ++ r) = cons n <$> utf8_decode r.
Proof.
  intros H. pose proof (utf8_char_scalar _ _ H) as Hs. revert H.
  unfold utf8_char. rewrite Hs. simpl.
  destruct (n <? 128) eqn:H1; [|destruct (n <? 2048) eqn:H2; [|destruct (n <? 65536) eqn:H3]];
    intros [= <-]; simpl.
  - by replace ((0 <=? n) && (n <? 128)) with true by bool_lia.
  - replace ((0 <=? 192 + n / 64) && (192 + n / 64 <? 128)) with false by lia.
    replace (_ && _ && _) with true by bool_lia. do 2 f_equal. lia.
  - replace ((0 <=? 224 + n / 4096) && (224 + n / 4096 <? 128)) with false by lia.
    replace ((194 <=? 224 + n / 4096) && (224 + n / 4096 <? 224) &&
      is_cont (128 + (n / 64) mod 64)) with false by bool_lia.
    replace ((224 + n / 4096 - 224) * 4096 + (128 + n / 64 mod 64 - 128) * 64 +
      (128 + n mod 64 - 128)) with n by lia.
    replace (_ && _ && _ && _ && _ && _) with true; [done|]. rewrite Hs. bool_lia.
  - replace ((0 <=? 240 + n / 262144) && (240 + n / 262144 <? 128)) with false by lia.
    replace ((194 <=? 240 + n / 262144) && (240 + n / 262144 <? 224) &&
      is_cont (128 + (n / 4096) mod 64)) with false by bool_lia.
    replace ((224 <=? 240 + n / 262144) && (240 + n / 262144 <? 240)) with false by lia.
    simpl.
    replace ((240 + n / 262144 - 240) * 262144 + (128 + n / 4096 mod 64 - 128) * 4096 +
      (128 + n / 64 mod 64 - 128) * 64 + (128 + n mod 64 - 128)) with n by lia.
    replace (_ && _ && _ && _ && _ && _ && _) with true; [done|]. rewrite Hs. bool_lia.
Qed.

Lemma utf8_roundtrip s bs : utf8_encode s = Some bs → utf8_decode bs = Some s.
Proof.
  revert bs. induction s as [|n s IH]; simpl; intros bs; [by intros [= <-]|].
  destruct (utf8_char n) as [b|] eqn:Hn; [|done].
  destruct (utf8_encode s) as [b'|]; [|done]. intros [= <-].
  by rewrite (utf8_decode_char n b b' Hn), (IH b').
Qed.

Lemma utf8_encode_bytes s bs : utf8_encode s = Some bs → Forall (λ b, 0 ≤ b < 256) bs.
Proof.
  revert bs. induction s as [|n s IH]; simpl; intros bs; [intros [= <-]; constructor|].
  destruct (utf8_char n) as [b|] eqn:Hn; [|done].
  destruct (utf8_encode s) as [b'|]; [|done]. intros [= <-].
  apply Forall_app. split; [by eapply utf8_char_bytes|by apply IH].
Qed.

Lemma utf8_encode_nonempty s bs : utf8_encode s = Some bs → s ≠ [] → bs ≠ [].
Proof.
  intros H Hs ->. apply utf8_roundtrip in H. simpl in H. by injection H.
Qed.
