(* ===== verification/PathLabel.v ===== *)
(** * ltree path labels ([rbac.py])

    The mapping of a relative path to the dotted [ltree] value the permission
    hierarchy is keyed on: [encode_path_label]/[decode_path_label],
    [library_label], [encode_rel_path] and [path_to_ltree].  A path is a [text]
    (any code points); a label and an ltree value are [string]s. *)
From S2P Require Import Prelude PyStr Uuid Utf8.
From stdpp Require Import options.

Inductive label_error :=
  | UnicodeEncodeError
  | UnicodeDecodeError
  | MalformedEscape (i : nat).

(** [_PASSTHROUGH]: the code points [a-z0-9]. *)
Definition passthrough (n : Z) : bool := (97 <=? n) && (n <=? 122) || (48 <=? n) && (n <=? 57).

Definition chr (n : Z) : ascii := ascii_of_N (Z.to_N n).
Definition ord (c : ascii) : Z := Z.of_N (code c).

(** [f"_{byte:02x}"] *)
Definition escape_byte (b : Z) : string :=
  String "_" (String (hex_digit (b / 16)) (String (hex_digit (b mod 16)) "")).

Definition LTREE_LABEL_MAX_ENCODED : nat := 200.
Definition HASH_SENTINEL : string := "h__".

(** The text U+FFFD "hashed" U+FFFD that stands for an irreversible label. *)
Definition HASHED_LABEL : text := [65533; 104; 97; 115; 104; 101; 100; 65533].

(** The escapes of one character of a segment. *)
Definition char_label (ch : Z) : result label_error string :=
  if passthrough ch then Ok (sep_str (chr ch))
  else match utf8_char ch with
       | Some bs => Ok (join "" (map escape_byte bs))
       | None => Err UnicodeEncodeError
       end.

(** The loop of [decode_path_label]: [i] is the index of the head of [label]. *)
Fixpoint decode_bytes (i : nat) (label : string) : result label_error (list Z) :=
  match label with
  | "" => Ok []
  | String c rest =>
      if Ascii.eqb c "_" then
        match rest with
        | String a (String b rest') =>
            match (if is_hex_digit a && is_hex_digit b then hex_val a else None),
                  hex_val b with
            | Some x, Some y => bs <-! decode_bytes (i + 3) rest'; Ok (16 * x + y :: bs)
            | _, _ => Err (MalformedEscape i)
            end
        | _ => Err (MalformedEscape i)
        end
      else bs <-! decode_bytes (i + 1) rest; Ok (ord c :: bs)
  end.

Definition decode_path_label (label : string) : result label_error text :=
  if bool_decide (label = "_") then Ok []
  else if startswith label HASH_SENTINEL then Ok HASHED_LABEL
  else
    buf <-! decode_bytes 0 label;
    match utf8_decode buf with
    | Some s => Ok s
    | None => Err UnicodeDecodeError
    end.

(** [rel_path.split(sep)] on code points *)
Fixpoint split_text (sep : Z) (s : text) : list text :=
  match s with
  | [] => [[]]
  | c :: s' =>
      if c =? sep then [] :: split_text sep s'
      else match split_text sep s' with
           | [] => [[c]]
           | w :: ws => (c :: w) :: ws
           end
  end.

(** [library_label] of a [uuid.UUID] *)
Definition library_label (library_id : Z) : string := "lib_" +:+ uuid_hex library_id.

Section encoder.
(** [hashlib.blake2b(data, digest_size=8).hexdigest()] *)
Context (blake2b64 : list Z → string).

Definition _hash_label (segment : text) : result label_error string :=
  match utf8_encode segment with
  | Some bs => Ok (HASH_SENTINEL +:+ blake2b64 bs)
  | None => Err UnicodeEncodeError
  end.

Definition encode_path_label (segment : text) : result label_error string :=
  match segment with
  | [] => Ok "_"
  | _ =>
      out <-! result_mapM char_label segment;
      let label := join "" out in
      if (LTREE_LABEL_MAX_ENCODED <? String.length label)%nat
      then _hash_label segment else Ok label
  end.

Definition encode_rel_path (rel_path : text) (sep : Z) : result label_error string :=
  labels <-! result_mapM encode_path_label (split_text sep rel_path);
  Ok (join "." labels).

Definition path_to_ltree (rel_path : text) (library_id : option Z) (sep : Z) :
    result label_error string :=
  encoded <-! encode_rel_path rel_path sep;
  match library_id with
  | None => Ok encoded
  | Some u => Ok (library_label u +:+ "." +:+ encoded)
  end.
End encoder.

Definition SLASH : Z := 47.

(** ** The base encoding of a byte string *)

Definition byte_label (b : Z) : string :=
  if passthrough b then sep_str (chr b) else escape_byte b.

Definition bytes_label (bs : list Z) : string := join "" (map byte_label bs).

Lemma join_empty_cons w ws : join "" (w :: ws) = w +:+ join "" ws.
Proof. destruct ws; simpl; [by rewrite app_empty_r|done]. Qed.

#[local] Arguments join : simpl never.

Lemma join_empty_app l1 l2 : join "" (l1 ++ l2) = join "" l1 +:+ join "" l2.
Proof.
  induction l1 as [|w l1 IH]; [done|].
  by rewrite <- app_comm_cons, !join_empty_cons, IH, app_assoc_str.
Qed.

Lemma bytes_label_app l1 l2 : bytes_label (l1 ++ l2) = bytes_label l1 +:+ bytes_label l2.
Proof. unfold bytes_label. by rewrite map_app, join_empty_app. Qed.

Lemma bytes_label_cons b bs : bytes_label (b :: bs) = byte_label b +:+ bytes_label bs.
Proof. unfold bytes_label. simpl map. by rewrite join_empty_cons. Qed.

Lemma passthrough_range n : passthrough n = true → 48 ≤ n < 128.
Proof. unfold passthrough. lia. Qed.

Lemma char_label_spec ch :
  char_label ch = match utf8_char ch with
                  | Some bs => Ok (bytes_label bs)
                  | None => Err UnicodeEncodeError
                  end.
Proof.
  unfold char_label. destruct (passthrough ch) eqn:Hp.
  - pose proof (passthrough_range ch Hp). rewrite utf8_char_ascii by lia.
    unfold bytes_label, byte_label. simpl. by rewrite Hp.
  - destruct (utf8_char ch) as [bs|] eqn:Hu; [|done]. f_equal. unfold bytes_label.
    f_equal. apply map_ext_in. intros b Hb%list_elem_of_In.
    assert (passthrough b = false) as Hb'; [|unfold byte_label; by rewrite Hb'].
    destruct (decide (ch < 128)).
    + pose proof (utf8_char_scalar _ _ Hu). rewrite utf8_char_ascii in Hu by bool_lia.
      injection Hu as <-. by apply list_elem_of_singleton in Hb as ->.
    + apply utf8_char_high in Hu; [|lia]. rewrite Forall_forall in Hu. apply Hu in Hb.
      unfold passthrough. lia.
Qed.

Lemma labels_spec s :
  join "" <$> (match result_mapM char_label s with Ok l => Some l | Err _ => None end)
  = bytes_label <$> utf8_encode s.
Proof.
  induction s as [|ch s IH]; [done|]. simpl. rewrite char_label_spec.
  destruct (utf8_char ch) as [bs|]; [|done]. simpl.
  destruct (result_mapM char_label s) as [l|]; destruct (utf8_encode s) as [bs'|];
    simpl in *; try done; injection IH as IH.
  by rewrite join_empty_cons, IH, bytes_label_app.
Qed.

(** ** Decoding inverts the base encoding *)

Lemma chr_ord n : 0 ≤ n < 256 → ord (chr n) = n.
Proof.
  intros Hn. unfold ord, chr, code. rewrite N_ascii_embedding by lia. lia.
Qed.

Lemma chr_not_underscore n : passthrough n = true → Ascii.eqb (chr n) "_" = false.
Proof.
  intros Hp. apply Ascii.eqb_neq. intros He. apply (f_equal ord) in He.
  rewrite chr_ord in He by (apply passthrough_range in Hp; lia).
  subst n. by vm_compute in Hp.
Qed.

Lemma byte_nibbles b : 0 ≤ b < 256 → 0 ≤ b / 16 < 16 ∧ 0 ≤ b mod 16 < 16.
Proof. lia. Qed.

Lemma decode_bytes_label bs i :
  Forall (λ b, 0 ≤ b < 256) bs → decode_bytes i (bytes_label bs) = Ok bs.
Proof.
  intros Hbs. revert i. induction Hbs as [|b bs Hb Hbs IH]; intros i; [done|].
  rewrite bytes_label_cons. unfold byte_label. destruct (passthrough b) eqn:Hp.
  - unfold sep_str. rewrite app_cons_str. simpl.
    rewrite (chr_not_underscore b Hp). change ("" +:+ bytes_label bs) with (bytes_label bs).
    rewrite IH. simpl. by rewrite chr_ord.
  - destruct (byte_nibbles b Hb) as [Hh Hl].
    unfold escape_byte. rewrite !app_cons_str. simpl.
    rewrite !hex_digit_is_hex, !hex_val_digit by done. simpl.
    change ("" +:+ bytes_label bs) with (bytes_label bs). rewrite IH. simpl.
    do 2 f_equal. lia.
Qed.

(** A base label does not start with two underscores, hence never with "h__". *)
Lemma bytes_label_underscores bs r :
  Forall (λ b, 0 ≤ b < 256) bs → bytes_label bs ≠ String "_" (String "_" r).
Proof.
  destruct 1 as [|b bs Hb _]; [done|]. rewrite bytes_label_cons. unfold byte_label.
  destruct (passthrough b) eqn:Hp.
  - unfold sep_str. rewrite app_cons_str. intros [= He _].
    apply chr_not_underscore in Hp. by rewrite He in Hp.
  - unfold escape_byte. rewrite !app_cons_str. intros [= He _].
    destruct (byte_nibbles b Hb) as [Hh _]. apply hex_digit_is_hex in Hh.
    apply is_hex_digit_not_underscore in Hh. by rewrite He in Hh.
Qed.

Lemma bytes_label_not_hashed bs :
  Forall (λ b, 0 ≤ b < 256) bs → startswith (bytes_label bs) HASH_SENTINEL = false.
Proof.
  intros Hbs. apply not_true_is_false. rewrite startswith_spec. intros [r Hr].
  destruct Hbs as [|b bs Hb Hbs]; [done|]. rewrite bytes_label_cons in Hr.
  unfold byte_label in Hr. destruct (passthrough b) eqn:Hp.
  - unfold sep_str in Hr. rewrite app_cons_str in Hr. injection Hr as _ Hr.
    by eapply bytes_label_underscores in Hr.
  - unfold escape_byte in Hr. rewrite app_cons_str in Hr. by injection Hr.
Qed.

Lemma bytes_label_length bs : (length bs ≤ String.length (bytes_label bs))%nat.
Proof.
  induction bs as [|b bs IH]; [done|]. rewrite bytes_label_cons, length_app_str.
  unfold byte_label. case_match; simpl; lia.
Qed.

Lemma bytes_label_not_empty bs : bs ≠ [] → Forall (λ b, 0 ≤ b < 256) bs → bytes_label bs ≠ "_".
Proof.
  intros Hne Hbs Heq. pose proof (decode_bytes_label bs 0 Hbs) as Hd.
  by rewrite Heq in Hd.
Qed.

(** ** The encoder: cases, round trip, injectivity *)

(** Whether a segment is replaced by its digest: its base encoding is too long. *)
Definition over_long (bs : list Z) : Prop :=
  (LTREE_LABEL_MAX_ENCODED < String.length (bytes_label bs))%nat.

(** A label character that is a separator of neither ltree nor SQL. *)
Definition label_char (c : ascii) : bool :=
  let n := ord c in passthrough n || (n =? 95).

Section encoder_facts.
Context (blake2b64 : list Z → string).
(** [hexdigest] returns lowercase hexadecimal digits. *)
Context (Hhex : ∀ bs, str_forall is_hex_digit (blake2b64 bs) = true).

Local Abbreviation encode := (encode_path_label blake2b64).

Lemma encode_empty : encode [] = Ok "_".
Proof. done. Qed.

Lemma encode_base s bs :
  s ≠ [] → utf8_encode s = Some bs → ¬ over_long bs → encode s = Ok (bytes_label bs).
Proof.
  intros Hs Hu Hlen. pose proof (labels_spec s) as Hl. rewrite Hu in Hl.
  unfold encode_path_label. destruct s as [|ch s]; [done|].
  destruct (result_mapM char_label (ch :: s)) as [out|] eqn:Ho; [|done].
  injection Hl as Hl. cbn [result_bind]. rewrite Hl.
  unfold over_long in Hlen. by case Nat.ltb_spec.
Qed.

Lemma encode_hashed s bs :
  s ≠ [] → utf8_encode s = Some bs → over_long bs →
  encode s = Ok (HASH_SENTINEL +:+ blake2b64 bs).
Proof.
  intros Hs Hu Hlen. pose proof (labels_spec s) as Hl. rewrite Hu in Hl.
  unfold encode_path_label, _hash_label. destruct s as [|ch s]; [done|].
  destruct (result_mapM char_label (ch :: s)) as [out|] eqn:Ho; [|done].
  injection Hl as Hl. cbn [result_bind]. rewrite Hl.
  unfold over_long in Hlen. case Nat.ltb_spec; [by rewrite Hu|lia].
Qed.

Lemma encode_error s : utf8_encode s = None → encode s = Err UnicodeEncodeError.
Proof.
  intros Hu. destruct s as [|ch s]; [done|]. unfold encode_path_label.
  assert (∀ l, utf8_encode l = None → result_mapM char_label l = Err UnicodeEncodeError) as Hm.
  { clear. induction l as [|c l IH]; simpl; [done|]. rewrite char_label_spec.
    destruct (utf8_char c); [|done]. destruct (utf8_encode l); [done|]. intros _.
    simpl. by rewrite (IH eq_refl). }
  by rewrite (Hm _ Hu).
Qed.

Lemma encode_cases s l :
  encode s = Ok l →
  s = [] ∧ l = "_" ∨
  s ≠ [] ∧ ∃ bs, utf8_encode s = Some bs ∧
    (¬ over_long bs ∧ l = bytes_label bs ∨
     over_long bs ∧ l = HASH_SENTINEL +:+ blake2b64 bs).
Proof.
  intros He. destruct (decide (s = [])) as [->|Hs].
  { injection He as <-. by left. }
  right. split; [done|]. destruct (utf8_encode s) as [bs|] eqn:Hu.
  - exists bs. split; [done|]. destruct (decide (over_long bs)) as [Ho|Ho].
    + rewrite (encode_hashed s bs) in He by done. injection He as <-. by right.
    + rewrite (encode_base s bs) in He by done. injection He as <-. by left.
  - by rewrite encode_error in He.
Qed.

Lemma decode_encode s bs :
  utf8_encode s = Some bs → ¬ over_long bs → s ≠ [] →
  decode_path_label (bytes_label bs) = Ok s.
Proof.
  intros Hu Ho Hs. pose proof (utf8_encode_bytes s bs Hu) as Hb.
  unfold decode_path_label.
  rewrite bool_decide_eq_false_2 by
    (apply bytes_label_not_empty; eauto using utf8_encode_nonempty).
  rewrite bytes_label_not_hashed, decode_bytes_label by done. simpl.
  by rewrite (utf8_roundtrip s bs Hu).
Qed.

Lemma base_not_empty s bs : s ≠ [] → utf8_encode s = Some bs → bytes_label bs ≠ "_".
Proof.
  intros Hs Hu. apply bytes_label_not_empty;
    eauto using utf8_encode_bytes, utf8_encode_nonempty.
Qed.

(** Two distinct over-long segments with one digest. *)
Definition digest_collision (s1 s2 : text) : Prop :=
  ∃ bs1 bs2, utf8_encode s1 = Some bs1 ∧ utf8_encode s2 = Some bs2 ∧
    over_long bs1 ∧ over_long bs2 ∧ bs1 ≠ bs2 ∧ blake2b64 bs1 = blake2b64 bs2.

Lemma encode_inj_or s1 s2 lbl :
  encode s1 = Ok lbl → encode s2 = Ok lbl → s1 = s2 ∨ digest_collision s1 s2.
Proof.
  intros H1 H2.
  apply encode_cases in H1 as [[-> ->]|(Hs1 & bs1 & Hu1 & H1)];
    apply encode_cases in H2 as [[-> H2]|(Hs2 & bs2 & Hu2 & H2)].
  - by left.
  - exfalso. destruct H2 as [[_ H2]|[_ H2]]; [|done].
    by eapply (base_not_empty s2 bs2 Hs2 Hu2).
  - exfalso. subst lbl. destruct H1 as [[_ H1]|[_ H1]]; [|done].
    by eapply (base_not_empty s1 bs1 Hs1 Hu1).
  - destruct (decide (bs1 = bs2)) as [<-|Hne].
    { left. apply utf8_roundtrip in Hu1, Hu2. congruence. }
    right. exists bs1, bs2.
    destruct H1 as [[Ho1 ->]|[Ho1 ->]]; destruct H2 as [[Ho2 H2]|[Ho2 H2]].
    + exfalso. apply (f_equal (decode_bytes 0)) in H2.
      rewrite !decode_bytes_label in H2 by eauto using utf8_encode_bytes. by injection H2.
    + exfalso. pose proof (bytes_label_not_hashed bs1 (utf8_encode_bytes _ _ Hu1)) as Hf.
      by rewrite H2, startswith_app in Hf.
    + exfalso. pose proof (bytes_label_not_hashed bs2 (utf8_encode_bytes _ _ Hu2)) as Hf.
      by rewrite <- H2, startswith_app in Hf.
    + apply (inj (String.append HASH_SENTINEL)) in H2. done.
Qed.

(** The segments of [l] never collide. *)
Definition no_collision (l : list text) : Prop :=
  ∀ s1 s2, s1 ∈ l → s2 ∈ l → ¬ digest_collision s1 s2.

Lemma encode_inj_on l s1 s2 lbl :
  no_collision l → s1 ∈ l → s2 ∈ l →
  encode s1 = Ok lbl → encode s2 = Ok lbl → s1 = s2.
Proof. intros Hnc Hs1 Hs2 H1 H2. destruct (encode_inj_or s1 s2 lbl H1 H2); [done|].
  by destruct (Hnc s1 s2 Hs1 Hs2). Qed.

(** *** Alphabet and structure of ltree values *)

Lemma hex_label_char c : is_hex_digit c = true → label_char c = true.
Proof. by destruct c as [[] [] [] [] [] [] [] []]. Qed.

Lemma bytes_label_alphabet bs :
  Forall (λ b, 0 ≤ b < 256) bs → str_forall label_char (bytes_label bs) = true.
Proof.
  induction 1 as [|b bs Hb _ IH]; [done|].
  rewrite bytes_label_cons, str_forall_app, IH, andb_true_r.
  unfold byte_label. destruct (passthrough b) eqn:Hp; simpl.
  - unfold label_char. by rewrite chr_ord, Hp by lia.
  - destruct (byte_nibbles b Hb) as [Hh Hl].
    by rewrite !hex_label_char by (by apply hex_digit_is_hex).
Qed.

Lemma encode_alphabet s l : encode s = Ok l → str_forall label_char l = true.
Proof using Hhex.
  intros [[-> ->]|(_ & bs & Hu & [[_ ->]|[_ ->]])]%encode_cases; [done|..].
  - eauto using bytes_label_alphabet, utf8_encode_bytes.
  - rewrite str_forall_app. simpl.
    eapply str_forall_impl; [exact hex_label_char|apply Hhex].
Qed.

Lemma label_no_dot l : str_forall label_char l = true → has_char "." l = false.
Proof.
  intros Hl. apply str_exists_forall. eapply str_forall_impl; [|exact Hl].
  by intros [[] [] [] [] [] [] [] []].
Qed.

Lemma split_text_not_nil sep s : split_text sep s ≠ [].
Proof. destruct s as [|c s]; simpl; [done|]. repeat case_match; done. Qed.

Lemma split_text_app sep a b : split_text sep (a ++ sep :: b) = split_text sep a ++ split_text sep b.
Proof.
  induction a as [|c a IH]; cbn; [by rewrite Z.eqb_refl|].
  destruct (c =? sep); [by rewrite IH|]. rewrite IH. destruct (split_text sep a) eqn:E; [by apply split_text_not_nil in E|done].
Qed.

Lemma split_fresh sep w : sep ∉ w → split_text sep w = [w].
Proof.
  induction w as [|c w IH]; intros H; [done|]. apply not_elem_of_cons in H as [Hc H]. cbn. rewrite (IH H).
  destruct (Z.eqb_spec c sep); [by subst|done].
Qed.

Lemma library_label_no_dot u : has_char "." (library_label u) = false.
Proof.
  apply label_no_dot. unfold library_label.
  rewrite str_forall_app. apply andb_true_iff. split; [done|].
  exact (str_forall_impl _ _ _ hex_label_char (hexn_hex 32 u)).
Qed.

Lemma split_rel_path p sep enc :
  encode_rel_path blake2b64 p sep = Ok enc →
  Forall2 (λ s l, encode s = Ok l) (split_text sep p) (split_char "." enc).
Proof using Hhex.
  unfold encode_rel_path. rewrite result_bind_ok. intros (ls & Hls & [= <-]).
  apply result_mapM_ok in Hls.
  change (join "." ls) with (join (sep_str ".") ls).
  rewrite split_join; [exact Hls|..].
  - intros ->. apply Forall2_length in Hls. simpl in Hls.
    by apply length_zero_iff_nil, split_text_not_nil in Hls.
  - intros w Hw. apply list_elem_of_lookup in Hw as [i Hi].
    eapply Forall2_lookup_r in Hls as (s & _ & Hs); [|exact Hi].
    eauto using label_no_dot, encode_alphabet.
Qed.

Lemma split_path_to_ltree p u sep enc :
  path_to_ltree blake2b64 p (Some u) sep = Ok enc →
  ∃ ls, split_char "." enc = library_label u :: ls ∧
        Forall2 (λ s l, encode s = Ok l) (split_text sep p) ls.
Proof using Hhex.
  unfold path_to_ltree. rewrite result_bind_ok. intros (e & He & [= <-]).
  exists (split_char "." e). split; [|by apply split_rel_path].
  change ("." +:+ e) with (String "." e).
  by rewrite split_char_app, split_char_fresh by apply library_label_no_dot.
Qed.

(** Encoding reflects and preserves prefixes of segment sequences. *)
Lemma encode_prefix l s1 s2 l1 l2 :
  no_collision l → (∀ s, s ∈ s1 → s ∈ l) → (∀ s, s ∈ s2 → s ∈ l) →
  Forall2 (λ s x, encode s = Ok x) s1 l1 → Forall2 (λ s x, encode s = Ok x) s2 l2 →
  l1 `prefix_of` l2 ↔ s1 `prefix_of` s2.
Proof.
  intros Hnc. revert s2 l1 l2. induction s1 as [|a s1 IH]; intros s2 l1 l2 Hs1 Hs2 H1 H2.
  { inversion H1; subst. split; intros _; apply prefix_nil. }
  inversion H1 as [|? x ? l1' Hx H1']; subst.
  destruct s2 as [|b s2]; inversion H2 as [|? y ? l2' Hy H2']; subst.
  { split; intros H; by apply prefix_nil_not in H. }
  specialize (IH s2 l1' l2' (λ s Hs, Hs1 s (proj2 (elem_of_cons s1 s a) (or_intror Hs)))
    (λ s Hs, Hs2 s (proj2 (elem_of_cons s2 s b) (or_intror Hs))) H1' H2').
  split; intros Hp.
  - pose proof (prefix_cons_inv_1 _ _ _ _ Hp) as ->.
    apply prefix_cons_inv_2, IH in Hp.
    assert (a = b) as -> by (eapply (encode_inj_on l); [| | |exact Hx|exact Hy];
      [done|apply Hs1; left|apply Hs2; left]).
    by apply prefix_cons.
  - pose proof (prefix_cons_inv_1 _ _ _ _ Hp) as ->.
    apply prefix_cons_inv_2, IH in Hp. rewrite Hx in Hy. injection Hy as ->.
    by apply prefix_cons.
Qed.
End encoder_facts.

(** ** Properties *)

(** A path segment whose encoding fits a label is recovered from its label:
    [decode_path_label] inverts [encode_path_label] on every segment UTF-8 can
    carry (the empty one included) unless the label is a digest. *)
Theorem label_roundtrip blake2b64 s bs :
  utf8_encode s = Some bs → ¬ over_long bs →
  ∃ l, encode_path_label blake2b64 s = Ok l ∧ decode_path_label l = Ok s.
Proof.
  intros Hu Ho. destruct (decide (s = [])) as [->|Hs]; [by exists "_"|].
  exists (bytes_label bs). split; [by apply encode_base|by apply decode_encode].
Qed.

(** The segment "Résumé_1.txt" *)
Definition example_segment : text :=
  [82; 233; 115; 117; 109; 233; 95; 49; 46; 116; 120; 116].

Lemma label_roundtrip_witness :
  ∃ l, encode_path_label (λ _, "") example_segment = Ok l ∧
       decode_path_label l = Ok example_segment.
Proof.
  eapply label_roundtrip; [vm_compute; reflexivity|].
  unfold over_long. vm_compute. lia.
Defined.

(** C31: distinct segments never share a label (ruling R1): two segments with one
    label are equal, or both are over-long and their 64-bit digests collide.  In
    particular a digest label never equals the label of a short segment. *)
Theorem label_injective blake2b64 s1 s2 l :
  encode_path_label blake2b64 s1 = Ok l → encode_path_label blake2b64 s2 = Ok l →
  s1 = s2 ∨ digest_collision blake2b64 s1 s2.
Proof. apply encode_inj_or. Qed.

Lemma label_injective_witness :
  [70; 111; 111] = [70; 111; 111] ∨ digest_collision (λ _, "") [70; 111; 111] [70; 111; 111].
Proof. eapply label_injective; vm_compute; reflexivity. Defined.
