(* ===== verification/Text.v ===== *)
(** * Text operations

    The [str] and [os.path] operations the scan side of the program uses, on texts as
    lists of code points.  [str.lower] of a code point beyond ASCII is a table of the
    Unicode database, the parameter [uni_lower] of the definitions that lower-case;
    the table gives capital sigma one lower form, whatever its neighbours. *)
From S2P Require Import Prelude PyStr Utf8 PathLabel.
From stdpp Require Import options.

(** An ASCII literal as text *)
Fixpoint txt (s : string) : text :=
  match s with "" => [] | String c s' => ord c :: txt s' end.

Definition NUL : Z := 0.
Definition DOT : Z := 46.

(** [t.startswith(p)], [t.endswith(p)] and [p in t] *)
Fixpoint starts_with (t p : text) : bool :=
  match p, t with
  | [], _ => true
  | b :: p', a :: t' => (a =? b) && starts_with t' p'
  | _ :: _, [] => false
  end.
Definition ends_with (t p : text) : bool := starts_with (rev t) (rev p).
Fixpoint contains (t p : text) : bool :=
  starts_with t p || match t with [] => false | _ :: t' => contains t' p end.

Definition has_code (c : Z) (t : text) : bool := existsb (Z.eqb c) t.

(** [t[:-n]], [n > 0] *)
Definition drop_last (n : nat) (t : text) : text := take (length t - n) t.

(** The parts before and after the last [c] *)
Fixpoint rsplit (c : Z) (t : text) : option (text * text) :=
  match t with
  | [] => None
  | x :: t' =>
      match rsplit c t' with
      | Some (a, b) => Some (x :: a, b)
      | None => if x =? c then Some ([], t') else None
      end
  end.

(** [t.lstrip(c)], [t.rstrip(c)], [t.strip(c)] *)
Fixpoint lstrip (c : Z) (t : text) : text :=
  match t with x :: t' => if x =? c then lstrip c t' else t | [] => [] end.
Definition rstrip (c : Z) (t : text) : text := rev (lstrip c (rev t)).
Definition strip (c : Z) (t : text) : text := rstrip c (lstrip c t).

Definition mem (t : text) (l : list text) : bool := bool_decide (t ∈ l).

(** [sep.join(ts)] for a one-character [sep] *)
Fixpoint join_text (sep : Z) (ts : list text) : text :=
  match ts with [] => [] | [t] => t | t :: ts' => t ++ sep :: join_text sep ts' end.

(** The part after the last [c], the whole text without one *)
Definition after_last (c : Z) (t : text) : text := match rsplit c t with Some (_, b) => b | None => t end.

(** Python's order on [str]: lexicographic in the code points. *)
Fixpoint text_le (a b : text) : bool :=
  match a, b with
  | [], _ => true
  | _ :: _, [] => false
  | x :: a', y :: b' => (x <? y) || ((x =? y) && text_le a' b')
  end.

(** [t or None] *)
Definition or_none (t : text) : option text := match t with [] => None | _ => Some t end.

(** [str.isspace], and the line ends of [str.splitlines] *)
Definition is_space (c : Z) : bool :=
  (9 <=? c) && (c <=? 13) || (28 <=? c) && (c <=? 32) || (8192 <=? c) && (c <=? 8202) ||
  bool_decide (c ∈ [133; 160; 5760; 8232; 8233; 8239; 8287; 12288]).
Definition is_line_end (c : Z) : bool :=
  (10 <=? c) && (c <=? 13) || (28 <=? c) && (c <=? 30) || bool_decide (c ∈ [133; 8232; 8233]).

(** The runs of code points outside [sep], empty runs dropped: [t.split()], and the
    non-empty lines of [t.splitlines()]. *)
Fixpoint runs (sep : Z → bool) (cur : text) (t : text) : list text :=
  let flush := if bool_decide (cur = []) then [] else [rev cur] in
  match t with
  | [] => flush
  | c :: t' => if sep c then flush ++ runs sep [] t' else runs sep (c :: cur) t'
  end.
Definition words (t : text) : list text := runs is_space [] t.
Definition lines (t : text) : list text := runs is_line_end [] t.

(** [t.strip()] *)
Fixpoint lstrip_space (t : text) : text :=
  match t with c :: t' => if is_space c then lstrip_space t' else t | [] => [] end.
Definition strip_space (t : text) : text := rev (lstrip_space (rev (lstrip_space t))).

(** The longest prefix of code points that satisfy [p] *)
Fixpoint take_while (p : Z → bool) (t : text) : text :=
  match t with c :: t' => if p c then c :: take_while p t' else [] | [] => [] end.

(** ** Numbers *)

Section numbers.
(** The decimal value and [str.isdigit] of a code point beyond ASCII *)
Context (uni_decimal : Z → option Z) (uni_digit : Z → bool).

Definition decimal (c : Z) : option Z :=
  if (48 <=? c) && (c <=? 57) then Some (c - 48) else if c <? 128 then None else uni_decimal c.

Definition is_digit (c : Z) : bool := (48 <=? c) && (c <=? 57) || (128 <=? c) && uni_digit c.

(** [int] of a text of digits; [None]: [ValueError], also past the limit of 4300 digits *)
Definition INT_MAX_DIGITS : nat := 4300.
Definition int_of_digits (t : text) : option Z :=
  if bool_decide (t = []) || bool_decide (INT_MAX_DIGITS < length t)%nat then None
  else foldl (λ acc c, n ← acc; d ← decimal c; Some (10 * n + d)) (Some 0) t.
End numbers.

(** ** [os.path] *)

Definition basename (p : text) : text :=
  match rsplit SLASH p with Some (_, b) => b | None => p end.

Definition dirname (p : text) : text :=
  match rsplit SLASH p with
  | None => []
  | Some (a, _) =>
      let head := a ++ [SLASH] in
      if forallb (Z.eqb SLASH) head then head else rstrip SLASH head
  end.

(** Root and extension: the last dot of the file name, unless only dots precede it. *)
Definition splitext (p : text) : text * text :=
  match rsplit DOT (basename p) with
  | Some (a, b) =>
      if forallb (Z.eqb DOT) a then (p, [])
      else (drop_last (S (length b)) p, DOT :: b)
  | None => (p, [])
  end.

(** [os.path.join(a, b)] *)
Definition join_path (a b : text) : text :=
  if starts_with b [SLASH] then b
  else if bool_decide (a = []) || ends_with a [SLASH] then a ++ b
  else a ++ SLASH :: b.

(** ** Lower case *)

Section lower.
Context (uni_lower : Z → list Z).

Definition lower_code (c : Z) : list Z :=
  if (65 <=? c) && (c <=? 90) then [c + 32]
  else if c <? 128 then [c] else uni_lower c.

Definition tlower (t : text) : text := t ≫= lower_code.
End lower.

(** ** Facts *)

Lemma starts_with_spec t p : starts_with t p = true ↔ p `prefix_of` t.
Proof.
  revert t. induction p as [|b p IH]; intros t; [split; [intros _; apply prefix_nil|by destruct t]|].
  destruct t as [|a t]; cbn.
  - split; [done|]. by intros ?%prefix_nil_inv.
  - rewrite andb_true_iff, Z.eqb_eq, IH. split; [intros [-> H]; by apply prefix_cons|].
    intros H. split; [symmetry; by eapply prefix_cons_inv_1|by eapply prefix_cons_inv_2].
Qed.

Lemma ends_with_spec t p : ends_with t p = true ↔ p `suffix_of` t.
Proof.
  unfold ends_with. rewrite starts_with_spec. split; intros [k Hk].
  - exists (rev k). rewrite <- (rev_involutive t), Hk, rev_app_distr. by rewrite rev_involutive.
  - exists (rev k). by rewrite Hk, rev_app_distr.
Qed.

Lemma has_code_spec c t : has_code c t = true ↔ c ∈ t.
Proof.
  unfold has_code. rewrite existsb_elem. split; [by intros (x & ? & ->%Z.eqb_eq)|].
  intros H. exists c. by rewrite Z.eqb_refl.
Qed.

Lemma rsplit_none c t : rsplit c t = None ↔ c ∉ t.
Proof.
  induction t as [|x t IH]; cbn; [split; [intros _; apply not_elem_of_nil|done]|].
  rewrite not_elem_of_cons. destruct (rsplit c t) as [[a b]|].
  - split; [done|]. intros [_ H]. by apply IH in H.
  - destruct (Z.eqb_spec x c) as [->|Hne]; [split; [done|by intros [? _]]|].
    split; [|done]. intros _. split; [congruence|by apply IH].
Qed.

Lemma rsplit_app c a b : c ∉ b → rsplit c (a ++ c :: b) = Some (a, b).
Proof.
  intros Hb. induction a as [|x a IH]; cbn.
  - rewrite (proj2 (rsplit_none c b) Hb). by rewrite Z.eqb_refl.
  - by rewrite IH.
Qed.

Lemma rsplit_some c t a b : rsplit c t = Some (a, b) ↔ t = a ++ c :: b ∧ c ∉ b.
Proof.
  split; [|by intros [-> ?]; apply rsplit_app].
  revert a. induction t as [|x t IH]; intros a; cbn [rsplit]; [done|].
  destruct (rsplit c t) as [[a' b']|] eqn:Hr.
  - intros [= <- <-]. by destruct (IH a' eq_refl) as [-> Hb].
  - destruct (Z.eqb_spec x c) as [->|]; [|done]. intros [= <- <-]. by apply rsplit_none in Hr.
Qed.

Lemma basename_no_slash p : SLASH ∉ basename p.
Proof.
  unfold basename. destruct (rsplit SLASH p) as [[a b]|] eqn:Hr.
  - by apply rsplit_some in Hr as [_ ?].
  - by apply rsplit_none.
Qed.

Lemma starts_with_app p q : starts_with (p ++ q) p = true.
Proof. apply starts_with_spec. by eexists. Qed.

Lemma txt_app a b : txt (a +:+ b) = txt a ++ txt b.
Proof. induction a as [|c a IH]; [done|]. rewrite app_cons_str. simpl. by rewrite IH. Qed.

Lemma ord_inj a b : ord a = ord b → a = b.
Proof. unfold ord, code. intros H%N2Z.inj. by rewrite <- (ascii_N_embedding a), H, ascii_N_embedding. Qed.

Lemma txt_inj a b : txt a = txt b → a = b.
Proof.
  revert b. induction a as [|c a IH]; intros [|d b]; simpl; try done.
  intros [= Hc Hab]. f_equal; [by apply ord_inj|by apply IH].
Qed.

Lemma elem_of_rev_text (c : Z) (t : text) : c ∈ rev t ↔ c ∈ t.
Proof. by rewrite <- Permutation_rev. Qed.

Lemma split_text_sub sep t p x : p ∈ split_text sep t → x ∈ p → x ∈ t.
Proof.
  revert p. induction t as [|c t IH]; intros p; cbn [split_text].
  - intros ->%list_elem_of_singleton ?%not_elem_of_nil. done.
  - destruct (c =? sep).
    + intros [->|Hp]%elem_of_cons Hx; [by apply not_elem_of_nil in Hx|right; by eapply IH].
    + destruct (split_text sep t) as [|w ws].
      * intros ->%list_elem_of_singleton [->|?%not_elem_of_nil]%elem_of_cons; [left|done].
      * intros [->|Hp]%elem_of_cons Hx.
        -- apply elem_of_cons in Hx as [->|Hx]; [left|right]. eapply IH; [left|done].
        -- right. eapply IH; [by right|done].
Qed.

Lemma split_text_length sep t p : p ∈ split_text sep t → (length p ≤ length t)%nat.
Proof.
  revert p. induction t as [|c t IH]; intros p; cbn [split_text].
  - intros ->%list_elem_of_singleton. cbn. lia.
  - destruct (c =? sep).
    + intros [->|Hp%IH]%elem_of_cons; cbn; lia.
    + destruct (split_text sep t) as [|w ws]; [intros ->%list_elem_of_singleton; cbn; lia|].
      intros [->|Hp]%elem_of_cons; [specialize (IH w (list_elem_of_here _ _))|specialize (IH p (list_elem_of_further _ _ _ Hp))];
        cbn; lia.
Qed.

Lemma lstrip_space_sub t c : c ∈ lstrip_space t → c ∈ t.
Proof.
  induction t as [|x t IH]; [done|]. cbn [lstrip_space]. destruct (is_space x); [|done]. intros H. right. by apply IH.
Qed.

Lemma strip_space_sub t c : c ∈ strip_space t → c ∈ t.
Proof.
  unfold strip_space. rewrite elem_of_rev_text. intros H%lstrip_space_sub. rewrite elem_of_rev_text in H.
  by apply lstrip_space_sub.
Qed.

Lemma length_lstrip_space t : (length (lstrip_space t) ≤ length t)%nat.
Proof. induction t as [|x t IH]; [done|]. cbn [lstrip_space]. destruct (is_space x); cbn [length]; lia. Qed.

Lemma length_strip_space t : (length (strip_space t) ≤ length t)%nat.
Proof.
  unfold strip_space. rewrite length_rev.
  pose proof (length_lstrip_space (rev (lstrip_space t))) as H1. pose proof (length_lstrip_space t) as H2.
  rewrite length_rev in H1. lia.
Qed.

Lemma join_text_inj sep l1 l2 :
  length l1 = length l2 → (∀ t, t ∈ l1 ∨ t ∈ l2 → sep ∉ t) → join_text sep l1 = join_text sep l2 → l1 = l2.
Proof.
  revert l2. induction l1 as [|a l1 IH]; intros [|b l2] Hlen Hno H; try done.
  injection Hlen as Hlen.
  destruct l1 as [|a2 l1], l2 as [|b2 l2]; try done; cbn [join_text] in H; [by subst|].
  assert (∀ (x y r1 r2 : text), sep ∉ x → sep ∉ y → x ++ sep :: r1 = y ++ sep :: r2 → x = y ∧ r1 = r2) as Hsplit.
  { clear. induction x as [|c x IH]; intros [|d y] r1 r2 Hx Hy H; simplify_eq/=; [done|set_solver|set_solver|].
    apply not_elem_of_cons in Hx as [_ Hx], Hy as [_ Hy].
    match goal with H : _ ++ _ = _ |- _ => by destruct (IH y r1 r2 Hx Hy H) as [-> ->] end. }
  apply Hsplit in H as [-> H]; [|apply Hno; set_solver|apply Hno; set_solver].
  f_equal. apply IH; [done| |done]. intros t [Ht|Ht]; apply Hno; set_solver.
Qed.

Lemma after_last_sub c t x : x ∈ after_last c t → x ∈ t.
Proof.
  unfold after_last. destruct (rsplit c t) as [[a b]|] eqn:H; [|done].
  apply rsplit_some in H as [-> _]. set_solver.
Qed.

Lemma join_split_text sep s : join_text sep (split_text sep s) = s.
Proof.
  induction s as [|c s IH]; [done|]. simpl.
  destruct (split_text sep s) as [|w ws] eqn:Hs; [by apply split_text_not_nil in Hs|].
  case Z.eqb_spec; intros Hc; [subst c; simpl in *; by rewrite IH|].
  rewrite <- IH. by destruct ws.
Qed.

Lemma runs_sub sep cur t w c : w ∈ runs sep cur t → c ∈ w → c ∈ cur ∨ c ∈ t.
Proof.
  revert cur. induction t as [|x t IH]; intros cur; cbn [runs].
  - case_bool_decide; [by intros ?%not_elem_of_nil|].
    intros ->%list_elem_of_singleton. rewrite elem_of_rev_text. by left.
  - destruct (sep x).
    + intros [Hw|Hw]%elem_of_app Hc; [|apply (IH _ Hw) in Hc as [?%not_elem_of_nil|Hc]; [done|right; by right]].
      case_bool_decide; [by apply not_elem_of_nil in Hw|].
      apply list_elem_of_singleton in Hw as ->. rewrite elem_of_rev_text in Hc. by left.
    + intros Hw Hc. apply (IH _ Hw) in Hc as [[->|Hc]%elem_of_cons|Hc]; [right; left|by left|right; by right].
Qed.

Lemma join_text_sub sep ts c : c ∈ join_text sep ts → c = sep ∨ ∃ t, t ∈ ts ∧ c ∈ t.
Proof.
  induction ts as [|t ts IH]; [by intros ?%not_elem_of_nil|]. destruct ts as [|u ts].
  - intros Hc. right. exists t. split; [left|done].
  - change (join_text sep (t :: u :: ts)) with (t ++ sep :: join_text sep (u :: ts)).
    intros [Hc|[->|Hc%IH]%elem_of_cons]%elem_of_app; [|by left|].
    + right. exists t. split; [left|done].
    + destruct Hc as [->|(v & Hv & Hc)]; [by left|]. right. exists v. split; [by right|done].
Qed.

(** [text_le] is a linear order. *)
#[export] Instance text_le_trans : Transitive (λ a b, text_le a b = true).
Proof.
  intros a. induction a as [|x a IH]; intros [|y b] [|z c]; cbn [text_le]; try done. intros H1 H2.
  apply orb_true_iff in H1 as [H1|[H1 Ha]%andb_true_iff], H2 as [H2|[H2 Hb]%andb_true_iff]; bool_to_prop; apply orb_true_iff;
    try (left; apply Z.ltb_lt; lia).
  right. apply andb_true_iff. split; [apply Z.eqb_eq; lia|by eapply IH].
Qed.

#[export] Instance text_le_total : Total (λ a b, text_le a b = true).
Proof.
  intros a. induction a as [|x a IH]; intros [|y b]; cbn [text_le]; [by left|by left|by right|].
  destruct (Z.lt_trichotomy x y) as [H|[->|H]].
  - left. apply orb_true_iff. left. by apply Z.ltb_lt.
  - rewrite Z.ltb_irrefl, Z.eqb_refl. cbn. apply IH.
  - right. apply orb_true_iff. left. by apply Z.ltb_lt.
Qed.

Lemma text_le_antisym a b : text_le a b = true → text_le b a = true → a = b.
Proof.
  revert b. induction a as [|x a IH]; intros [|y b]; cbn [text_le]; try done. intros H1 H2.
  apply orb_true_iff in H1 as [H1|[H1 Ha]%andb_true_iff], H2 as [H2|[H2 Hb]%andb_true_iff]; bool_to_prop; try lia.
  f_equal; [done|by apply IH].
Qed.
