(* ===== verification/Rbac.v ===== *)
(** * Permission evaluation ([rbac.py], [roles.py])

    Roles and their ceilings, path grants, and [evaluate]: the effective
    permission of a role over an item path.  Module [Roles] is the role registry
    that turns a role name into a [Role]. *)
From S2P Require Import Prelude PyStr Uuid Utf8 PathLabel.
From stdpp Require Import options.

(** ** Actions, roles and grants *)

Definition ACTIONS : gset string :=
  {["search_metadata"; "search_content"; "download"; "upload"; "modify"; "delete";
    "edit_metadata"; "manage_alerts"]}.

Record Role := mkRole {
  role_name : string;
  ceiling : gset string;
  scopes : gset string;
  bypass : bool;
}.

Definition USER_CEILING : gset string :=
  {["search_metadata"; "search_content"; "download"; "upload"; "modify";
    "edit_metadata"; "manage_alerts"]}.
Definition VIEWER_CEILING : gset string := {["search_metadata"; "search_content"]}.

Definition ADMIN : Role := mkRole "admin" ACTIONS {["admin"; "write"; "read"]} true.
Definition USER : Role := mkRole "user" USER_CEILING {["write"; "read"]} false.
Definition VIEWER : Role := mkRole "viewer" VIEWER_CEILING {["read"]} false.
Definition BUILTIN_ROLES : list Role := [ADMIN; USER; VIEWER].

Record PathGrant := mkGrant {
  g_path : string;
  g_action : string;
  g_allow : bool;
  g_group_ref : option string;
  g_principal_ref : option string;
}.

(** A grant as the constructor call without references builds it. *)
Definition grant (p a : string) (allow : bool) : PathGrant := mkGrant p a allow None None.

(** The number of ltree labels of the grant path. *)
Definition specificity (g : PathGrant) : nat := length (split_char "." (g_path g)).

Inductive DecisionReason :=
  | admin_bypass | explicit_deny | explicit_allow | no_grant_default_deny | ceiling_clamped.

Record Decision := mkDecision {
  allowed : bool;
  reason : DecisionReason;
  winner : option PathGrant;
}.

(** ** [evaluate] *)

Definition _is_ancestor_or_self (grant_path item_path : string) : bool :=
  let g := split_char "." grant_path in
  let it := split_char "." item_path in
  if (length it <? length g)%nat then false
  else bool_decide (take (length g) it = g).

(** The grants of [action] that cover [item_path]. *)
Definition matches (action item_path : string) (g : PathGrant) : bool :=
  bool_decide (g_action g = action) && _is_ancestor_or_self (g_path g) item_path.

Definition evaluate (grants : list PathGrant) (role : Role) (item_path action : string) :
    Decision :=
  if bypass role then mkDecision true admin_bypass None
  else if negb (bool_decide (action ∈ ceiling role)) then mkDecision false ceiling_clamped None
  else
    let matching := filterb (matches action item_path) grants in
    match matching with
    | [] => mkDecision false no_grant_default_deny None
    | g0 :: _ =>
        let best_specificity := max_of specificity matching in
        let finalists := filterb (λ g, (specificity g =? best_specificity)%nat) matching in
        let denies := filterb (λ g, negb (g_allow g)) finalists in
        match denies with
        | d :: _ => mkDecision false explicit_deny (Some d)
        | [] => mkDecision true explicit_allow (Some (hd g0 finalists))
        end
    end.

(** ** Facts about ancestors *)

Lemma is_ancestor_prefix g i :
  _is_ancestor_or_self g i = true ↔ split_char "." g `prefix_of` split_char "." i.
Proof.
  unfold _is_ancestor_or_self. case Nat.ltb_spec; intros Hlen.
  - split; [done|]. intros H%prefix_length. lia.
  - rewrite bool_decide_eq_true. split.
    + intros <-. apply prefix_take.
    + intros [r ->]. apply take_app_length.
Qed.

Lemma is_ancestor_text g i :
  _is_ancestor_or_self g i = true ↔ i = g ∨ startswith i (g +:+ ".") = true.
Proof. rewrite is_ancestor_prefix. apply split_prefix. Qed.

Lemma matches_spec a i g :
  matches a i g = true ↔ g_action g = a ∧ _is_ancestor_or_self (g_path g) i = true.
Proof. unfold matches. by rewrite andb_true_iff, bool_decide_eq_true. Qed.

(** The grants of one item form a chain: equally specific ones have the same path. *)
Lemma matches_same_specificity a i g1 g2 :
  matches a i g1 = true → matches a i g2 = true →
  specificity g1 = specificity g2 → g_path g1 = g_path g2.
Proof.
  rewrite !matches_spec, !is_ancestor_prefix. intros [_ H1] [_ H2] Hs.
  eapply split_inj, prefix_same_length; eauto.
Qed.

Lemma matches_deeper a i g1 g2 :
  matches a i g1 = true → matches a i g2 = true →
  (specificity g1 ≤ specificity g2)%nat → _is_ancestor_or_self (g_path g1) (g_path g2) = true.
Proof.
  rewrite !matches_spec, !is_ancestor_prefix. intros [_ H1] [_ H2] Hs.
  by eapply prefix_chain.
Qed.

(** ** The specification of [evaluate] *)

(** [g] decides: it covers the item and no covering grant is deeper. *)
Definition deepest (grants : list PathGrant) (i a : string) (g : PathGrant) : Prop :=
  g ∈ grants ∧ matches a i g = true ∧
  ∀ g', g' ∈ grants → matches a i g' = true → (specificity g' ≤ specificity g)%nat.

(** The permission a principal has, declaratively: the bypass, or an action within
    the ceiling that some covering grant allows while every covering deny is
    strictly shallower than it. *)
Definition permitted (grants : list PathGrant) (role : Role) (i a : string) : Prop :=
  bypass role = true ∨
  a ∈ ceiling role ∧
  ∃ g, g ∈ grants ∧ matches a i g = true ∧ g_allow g = true ∧
    ∀ d, d ∈ grants → matches a i d = true → g_allow d = false →
      (specificity d < specificity g)%nat.

Lemma finalist_spec grants i a g :
  let matching := filterb (matches a i) grants in
  g ∈ filterb (λ g, (specificity g =? max_of specificity matching)%nat) matching ↔
  deepest grants i a g.
Proof.
  simpl. rewrite !elem_of_filterb. unfold deepest. split.
  - intros [[Hg Hm] Hs%Nat.eqb_eq]. split_and!; [done..|].
    intros g' Hg' Hm'. rewrite Hs. apply max_of_ge. by rewrite elem_of_filterb.
  - intros (Hg & Hm & Hmax). split; [done|]. apply Nat.eqb_eq.
    assert (filterb (matches a i) grants ≠ []) as Hne.
    { intros Hnil. assert (g ∈ filterb (matches a i) grants) as Hin
        by (by rewrite elem_of_filterb). rewrite Hnil in Hin. by apply not_elem_of_nil in Hin. }
    destruct (max_of_attained specificity _ Hne) as (x & Hx & Hxs).
    pose proof (max_of_ge specificity (filterb (matches a i) grants) g) as Hge.
    rewrite elem_of_filterb in Hge, Hx. specialize (Hge (conj Hg Hm)).
    destruct Hx as [Hx Hxm]. specialize (Hmax x Hx Hxm). lia.
Qed.

(** A covering grant list that is not empty has a deepest grant. *)
Lemma deepest_exists grants i a :
  (∃ g, g ∈ grants ∧ matches a i g = true) → ∃ g, deepest grants i a g.
Proof.
  intros (g & Hg & Hm).
  assert (filterb (matches a i) grants ≠ []) as Hne.
  { intros Hnil. assert (g ∈ filterb (matches a i) grants) as Hin
      by (by rewrite elem_of_filterb). rewrite Hnil in Hin. by apply not_elem_of_nil in Hin. }
  destruct (max_of_attained specificity _ Hne) as (x & Hx & Hxs).
  exists x. apply finalist_spec. rewrite elem_of_filterb. split; [done|].
  by apply Nat.eqb_eq.
Qed.

(** The decision the algorithm documents, one rule per outcome. *)
Inductive decision_spec (grants : list PathGrant) (role : Role) (i a : string) :
    Decision → Prop :=
  | spec_bypass :
      bypass role = true →
      decision_spec grants role i a (mkDecision true admin_bypass None)
  | spec_clamped :
      bypass role = false → a ∉ ceiling role →
      decision_spec grants role i a (mkDecision false ceiling_clamped None)
  | spec_default :
      bypass role = false → a ∈ ceiling role →
      (∀ g, g ∈ grants → matches a i g = false) →
      decision_spec grants role i a (mkDecision false no_grant_default_deny None)
  | spec_deny d :
      bypass role = false → a ∈ ceiling role →
      deepest grants i a d → g_allow d = false →
      decision_spec grants role i a (mkDecision false explicit_deny (Some d))
  | spec_allow g :
      bypass role = false → a ∈ ceiling role →
      deepest grants i a g → (∀ g', deepest grants i a g' → g_allow g' = true) →
      decision_spec grants role i a (mkDecision true explicit_allow (Some g)).

Lemma evaluate_decision grants role i a :
  decision_spec grants role i a (evaluate grants role i a).
Proof.
  unfold evaluate. destruct (bypass role) eqn:Hb; [by constructor|].
  case_bool_decide as Ha; simpl; [|by constructor].
  destruct (filterb (matches a i) grants) as [|g0 l] eqn:Hm.
  { constructor; [done..|]. by apply filterb_nil. }
  rewrite <- Hm. set (fin := filterb _ (filterb (matches a i) grants)).
  assert (∀ g, g ∈ fin ↔ deepest grants i a g) as Hfin by (intros g; apply finalist_spec).
  destruct (filterb (λ g, negb (g_allow g)) fin) as [|d ds] eqn:Hd.
  - assert (∀ g, g ∈ fin → g_allow g = true) as Hal.
    { intros g Hg. apply negb_false_iff. by apply (proj1 (filterb_nil _ _) Hd). }
    assert (hd g0 fin ∈ fin) as Hhd.
    { destruct fin as [|f fin'] eqn:Hf; [|by left]. exfalso.
      destruct (deepest_exists grants i a) as [g Hg%Hfin].
      - exists g0. apply elem_of_filterb. rewrite Hm. left.
      - by apply not_elem_of_nil in Hg. }
    constructor; [done..|by apply Hfin|]. intros g' Hg'. by apply Hal, Hfin.
  - assert (d ∈ filterb (λ g, negb (g_allow g)) fin) as Hin by (rewrite Hd; left).
    apply elem_of_filterb in Hin as [Hin Hal%negb_true_iff].
    constructor; [done..|by apply Hfin|done].
Qed.

Lemma decision_permitted grants role i a d :
  decision_spec grants role i a d → allowed d = true ↔ permitted grants role i a.
Proof.
  unfold permitted.
  destruct 1 as [Hb|Hb Ha|Hb Ha Hno|d Hb Ha Hd Hal|g Hb Ha Hg Hal]; simpl; rewrite Hb.
  - split; [by left|done].
  - split; [done|]. by intros [?|[? _]].
  - split; [done|]. intros [?|(_ & g & Hg & Hm & _)]; [done|]. by rewrite Hno in Hm.
  - split; [done|]. intros [?|(_ & g & Hg & Hm & Hga & Hlt)]; [done|].
    destruct Hd as (Hd & Hdm & Hmax). specialize (Hmax g Hg Hm).
    specialize (Hlt d Hd Hdm Hal). lia.
  - split; [|done]. intros _. right. split; [done|]. exists g.
    destruct Hg as (Hg & Hm & Hmax).
    split_and!; [done..|by apply Hal|].
    intros d Hd Hdm Hda. pose proof (Hmax d Hd Hdm).
    destruct (decide (specificity d = specificity g)) as [Heq|]; [|lia].
    assert (deepest grants i a d) as Hdd.
    { split_and!; [done..|]. by rewrite Heq. }
    apply Hal in Hdd. congruence.
Qed.

Lemma evaluate_allowed_iff grants role i a :
  allowed (evaluate grants role i a) = true ↔ permitted grants role i a.
Proof. apply decision_permitted, evaluate_decision. Qed.

Lemma permitted_perm grants1 grants2 role i a :
  (∀ g, g ∈ grants1 ↔ g ∈ grants2) → permitted grants1 role i a → permitted grants2 role i a.
Proof. unfold permitted. intros Heq. setoid_rewrite Heq. done. Qed.

(** ** The role registry ([roles.py]) *)

Module Roles.

(** A row of the [roles] table; [None] is SQL [NULL]. *)
Record RoleRow := mkRow {
  row_name : string;
  row_scopes : option (list string);
  row_ceiling_actions : option (list string);
  row_display_name : option string;
  row_description : option string;
  row_builtin : bool;
}.

Record RoleInfo := mkInfo {
  info_role : Role;
  info_display_name : string;
  info_description : string;
  info_builtin : bool;
}.

(** [x or y] on an optional text: [None] and [""] are falsy. *)
Definition or_str (x : option string) (y : string) : string :=
  match x with Some s => if bool_decide (s = "") then y else s | None => y end.

Definition _builtins : gmap string Role :=
  list_to_map (map (λ r, (role_name r, r)) BUILTIN_ROLES).

Definition empty_role (name : string) : Role := mkRole name ∅ ∅ false.

Definition get (_roles : gmap string Role) (name : option string) : Role :=
  match name with
  | None => empty_role ""
  | Some n =>
      if bool_decide (n = "") then empty_role ""
      else match _roles !! n with
           | Some r => r
           | None =>
               match _builtins !! n with Some b => b | None => empty_role n end
           end
  end.

Definition known (_roles : gmap string Role) (name : option string) : bool :=
  match name with
  | None => false
  | Some n => negb (bool_decide (n = "")) &&
      (bool_decide (is_Some (_roles !! n)) || bool_decide (is_Some (_builtins !! n)))
  end.

Definition BUILTIN_RANK (name : string) : Z :=
  if bool_decide (name = "viewer") then 0
  else if bool_decide (name = "user") then 1
  else if bool_decide (name = "admin") then 2 else -1.

Definition key : Type := Z * Z * Z * Z * string.

Definition privilege_key (_roles : gmap string Role) (name : string) : key :=
  let r := get _roles (Some name) in
  let scope_rank :=
    if bool_decide ("write" ∈ scopes r) then 2
    else if bool_decide ("read" ∈ scopes r) then 1 else 0 in
  (if bypass r then 1 else 0, scope_rank, Z.of_nat (size (ceiling r)),
   BUILTIN_RANK name, name).

(** [a < b] on the tuples, compared component by component. *)
Definition key_ltb (a b : key) : bool :=
  let '(a1, a2, a3, a4, a5) := a in
  let '(b1, b2, b3, b4, b5) := b in
  if negb (a1 =? b1) then a1 <? b1
  else if negb (a2 =? b2) then a2 <? b2
  else if negb (a3 =? b3) then a3 <? b3
  else if negb (a4 =? b4) then a4 <? b4
  else String.ltb a5 b5.

(** [max(c :: l, key=...)]: the first of the maximal elements. *)
Fixpoint max_key (k : string → key) (best : string) (l : list string) : string :=
  match l with
  | [] => best
  | x :: l' => max_key k (if key_ltb (k best) (k x) then x else best) l'
  end.

Definition pick_highest (_roles : gmap string Role) (candidates : list string) :
    option string :=
  match filterb (λ c, known _roles (Some c)) candidates with
  | [] => None
  | c :: l => Some (max_key (privilege_key _roles) c l)
  end.

Definition row_role (row : RoleRow) : Role :=
  let scopes := list_to_set (default [] (row_scopes row)) in
  mkRole (row_name row)
    (list_to_set (filterb (λ a, bool_decide (a ∈ ACTIONS))
       (default [] (row_ceiling_actions row))))
    scopes (bool_decide ("admin" ∈ (scopes : gset string))).

Definition row_info (row : RoleRow) : RoleInfo :=
  mkInfo (row_role row) (or_str (row_display_name row) (row_name row))
    (or_str (row_description row) "") (row_builtin row).

(** [d.setdefault(k, v)] *)
Definition setdefault {V} (k : string) (v : V) (d : gmap string V) : gmap string V :=
  match d !! k with Some _ => d | None => <[k := v]> d end.

Definition _install (rows : list RoleRow) : gmap string Role * gmap string RoleInfo :=
  let roles := fold_left (λ m row, <[row_name row := row_role row]> m) rows ∅ in
  let infos := fold_left (λ m row, <[row_name row := row_info row]> m) rows ∅ in
  (fold_left (λ m b, setdefault (role_name b) b m) BUILTIN_ROLES roles,
   fold_left (λ m b, setdefault (role_name b) (mkInfo b (role_name b) "" true) m)
     BUILTIN_ROLES infos).

(** *** Facts *)

(** A registry role built from the table: its actions are in the vocabulary and
    it bypasses path evaluation exactly when it has the admin scope. *)
Definition role_wf (r : Role) : Prop :=
  ceiling r ⊆ ACTIONS ∧ (bypass r = true ↔ "admin" ∈ scopes r).

Definition registry_wf (m : gmap string Role) : Prop :=
  map_Forall (λ n r, role_name r = n ∧ role_wf r) m.

Lemma row_role_wf row : role_wf (row_role row).
Proof.
  split; simpl.
  - intros a. rewrite elem_of_list_to_set, elem_of_filterb, bool_decide_eq_true. tauto.
  - apply bool_decide_eq_true.
Qed.

Lemma builtin_wf b : b ∈ BUILTIN_ROLES → role_wf b.
Proof.
  intros Hb. assert (b = ADMIN ∨ b = USER ∨ b = VIEWER) as Hc by set_solver.
  split.
  - apply (bool_decide_unpack (ceiling b ⊆ ACTIONS)).
    destruct Hc as [->|[->| ->]]; by vm_compute.
  - destruct Hc as [->|[->| ->]]; simpl; set_solver.
Qed.

Lemma registry_insert_wf m n r :
  registry_wf m → role_name r = n → role_wf r → registry_wf (<[n := r]> m).
Proof. intros Hm Hn Hr. by apply map_Forall_insert_2. Qed.

Lemma registry_setdefault_wf m b :
  registry_wf m → role_wf b → registry_wf (setdefault (role_name b) b m).
Proof. unfold setdefault. intros. case_match; [done|]. by apply registry_insert_wf. Qed.

Lemma fold_setdefault_wf bs m :
  (∀ b, b ∈ bs → role_wf b) → registry_wf m →
  registry_wf (fold_left (λ m b, setdefault (role_name b) b m) bs m).
Proof.
  revert m. induction bs as [|b bs IH]; simpl; intros m Hbs Hm; [done|].
  apply IH; [intros b' Hb'; apply Hbs; by right|].
  apply registry_setdefault_wf; [done|]. apply Hbs. left.
Qed.

Lemma fold_rows_wf rows m :
  registry_wf m →
  registry_wf (fold_left (λ m row, <[row_name row := row_role row]> m) rows m).
Proof.
  revert m. induction rows as [|row rows IH]; simpl; intros m Hm; [done|].
  apply IH, registry_insert_wf; [done..|apply row_role_wf].
Qed.

Lemma install_wf rows : registry_wf (_install rows).1.
Proof.
  apply fold_setdefault_wf; [apply builtin_wf|].
  apply fold_rows_wf, map_Forall_empty.
Qed.

Lemma builtins_wf : registry_wf _builtins.
Proof.
  apply map_Forall_to_list. unfold _builtins. rewrite map_to_list_to_map; [|].
  - repeat constructor; by apply builtin_wf; set_solver.
  - apply (bool_decide_unpack _). by vm_compute.
Qed.

Lemma setdefault_known {V} k k' (v : V) m :
  is_Some (m !! k) ∨ k = k' → is_Some (setdefault k' v m !! k).
Proof.
  unfold setdefault. intros [Hk| ->]; destruct (m !! k') eqn:Hm; try by eauto.
  - destruct (decide (k = k')) as [->|Hne]; [rewrite Hm in Hk; by destruct Hk|].
    by rewrite lookup_insert_ne.
  - rewrite lookup_insert_eq. eauto.
Qed.

Lemma fold_setdefault_known k bs m :
  is_Some (m !! k) ∨ (∃ b, b ∈ bs ∧ role_name b = k) →
  is_Some (fold_left (λ m b, setdefault (role_name b) b m) bs m !! k).
Proof.
  revert m. induction bs as [|b bs IH]; simpl; intros m [Hm|(b' & Hb' & Hk)].
  - done.
  - by apply not_elem_of_nil in Hb'.
  - apply IH. left. apply setdefault_known. by left.
  - apply IH. apply elem_of_cons in Hb' as [->|Hb']; [left|right; eauto].
    apply setdefault_known. by right.
Qed.

Lemma get_wf m name : registry_wf m → role_wf (get m name).
Proof.
  assert (∀ n, role_wf (empty_role n)) as He.
  { intros n. split; simpl; [set_solver|]. split; [done|set_solver]. }
  intros Hm. destruct name as [n|]; simpl; [|done]. case_bool_decide; [done|].
  destruct (m !! n) as [r|] eqn:Hr; [by apply Hm in Hr as [_ Hr]|].
  destruct (_builtins !! n) as [b|] eqn:Hb; [by apply builtins_wf in Hb as [_ Hb]|done].
Qed.

Lemma get_unknown m name : known m name = false → get m name =
  empty_role (match name with Some n => n | None => "" end).
Proof.
  destruct name as [n|]; simpl; [|done].
  case_bool_decide as Hn; [by subst|]. simpl.
  rewrite orb_false_iff, !bool_decide_eq_false, <- !eq_None_not_Some.
  by intros [-> ->].
Qed.

(** *** The order of [privilege_key] *)

Lemma str_ltb_leb a b : String.ltb a b = negb (String.leb b a).
Proof.
  unfold String.ltb, String.leb. rewrite (String.compare_antisym b a).
  by destruct (String.compare a b).
Qed.

Lemma str_leb_trans a b c :
  String.leb a b = true → String.leb b c = true → String.leb a c = true.
Proof.
  intros H1 H2. apply Is_true_true.
  apply (transitivity (R := String.le) (y := b)); by apply Is_true_true.
Qed.

(** [key_ltb] is negatively transitive. *)
Lemma key_ltb_negtrans a b c :
  key_ltb a b = false → key_ltb b c = false → key_ltb a c = false.
Proof.
  destruct a as [[[[a1 a2] a3] a4] a5], b as [[[[b1 b2] b3] b4] b5],
    c as [[[[c1 c2] c3] c4] c5]. simpl. rewrite !str_ltb_leb.
  destruct (Z.eqb_spec a1 b1), (Z.eqb_spec b1 c1), (Z.eqb_spec a1 c1); simpl; try lia.
  destruct (Z.eqb_spec a2 b2), (Z.eqb_spec b2 c2), (Z.eqb_spec a2 c2); simpl; try lia.
  destruct (Z.eqb_spec a3 b3), (Z.eqb_spec b3 c3), (Z.eqb_spec a3 c3); simpl; try lia.
  destruct (Z.eqb_spec a4 b4), (Z.eqb_spec b4 c4), (Z.eqb_spec a4 c4); simpl; try lia.
  rewrite !negb_false_iff. intros H1 H2. by apply str_leb_trans with b5.
Qed.

Lemma key_ltb_irrefl a : key_ltb a a = false.
Proof.
  destruct a as [[[[a1 a2] a3] a4] a5]. simpl. rewrite !Z.eqb_refl. simpl.
  rewrite str_ltb_leb, negb_false_iff.
  by destruct (String.leb_total a5 a5).
Qed.

Lemma key_ltb_asym a b : key_ltb a b = true → key_ltb b a = false.
Proof.
  intros Hab. apply not_true_is_false. intros Hba.
  destruct a as [[[[a1 a2] a3] a4] a5], b as [[[[b1 b2] b3] b4] b5].
  simpl in *. rewrite !str_ltb_leb in *.
  destruct (Z.eqb_spec a1 b1), (Z.eqb_spec b1 a1); simpl in *; try lia.
  destruct (Z.eqb_spec a2 b2), (Z.eqb_spec b2 a2); simpl in *; try lia.
  destruct (Z.eqb_spec a3 b3), (Z.eqb_spec b3 a3); simpl in *; try lia.
  destruct (Z.eqb_spec a4 b4), (Z.eqb_spec b4 a4); simpl in *; try lia.
  apply negb_true_iff in Hab, Hba.
  destruct (String.leb_total a5 b5); congruence.
Qed.

Lemma max_key_spec k best l :
  max_key k best l ∈ best :: l ∧
  ∀ x, x ∈ best :: l → key_ltb (k (max_key k best l)) (k x) = false.
Proof.
  revert best. induction l as [|y l IH]; intros best; simpl.
  { split; [left|]. intros x ->%list_elem_of_singleton. apply key_ltb_irrefl. }
  destruct (IH (if key_ltb (k best) (k y) then y else best)) as [Hin Hmax].
  split; [destruct (key_ltb (k best) (k y)); set_solver|].
  intros x Hx. destruct (key_ltb (k best) (k y)) eqn:Hlt.
  - apply elem_of_cons in Hx as [->|Hx]; [|by apply Hmax].
    eapply key_ltb_negtrans; [apply Hmax; left|by apply key_ltb_asym].
  - apply elem_of_cons in Hx as [->|Hx]; [apply Hmax; left|].
    apply elem_of_cons in Hx as [->|Hx]; [|apply Hmax; by right].
    eapply key_ltb_negtrans; [apply Hmax; left|done].
Qed.
End Roles.

(** ** Properties *)

(** C1: [evaluate] is the documented algorithm: its decision (outcome, reason and
    winning grant) is one of the five rules of [decision_spec], and the outcome is
    the declarative [permitted]: the bypass, or an in-ceiling action some covering
    grant allows with every covering deny strictly shallower. *)
Theorem evaluate_decides grants role item_path action :
  decision_spec grants role item_path action (evaluate grants role item_path action) ∧
  (allowed (evaluate grants role item_path action) = true ↔
   permitted grants role item_path action).
Proof. split; [apply evaluate_decision|apply evaluate_allowed_iff]. Qed.

(** A grant on a directory covers that directory and its descendants in the
    same library, and nothing else: on encoded scopes, [_is_ancestor_or_self]
    holds exactly when the libraries agree and the segments of the granted
    directory are a prefix of the segments of the item. *)
Theorem directory_grant_scope blake2b64 d p u v g i :
  (∀ bs, str_forall is_hex_digit (blake2b64 bs) = true) →
  no_collision blake2b64 (split_text SLASH d ++ split_text SLASH p) →
  is_uuid u → is_uuid v →
  path_to_ltree blake2b64 d (Some u) SLASH = Ok g →
  path_to_ltree blake2b64 p (Some v) SLASH = Ok i →
  _is_ancestor_or_self g i = true ↔
  u = v ∧ split_text SLASH d `prefix_of` split_text SLASH p.
Proof.
  intros Hhex Hnc Hu Hv Hg Hi. rewrite is_ancestor_prefix.
  apply (split_path_to_ltree _ Hhex) in Hg as (lg & -> & Hlg).
  apply (split_path_to_ltree _ Hhex) in Hi as (li & -> & Hli).
  rewrite <- (encode_prefix _ _ (split_text SLASH d) (split_text SLASH p) lg li Hnc)
    by (done || set_solver).
  split.
  - intros Hp. pose proof (prefix_cons_inv_1 _ _ _ _ Hp) as Hl.
    apply prefix_cons_inv_2 in Hp. split; [|done].
    apply (inj (String.append "lib_")) in Hl. by apply uuid_hex_inj in Hl.
  - intros [-> Hp]. by apply prefix_cons.
Qed.

(** The directory "a" and the item "a/b" of one library *)
Lemma directory_grant_scope_witness :
  let blake := λ _ : list Z, "0123456789abcdef" in
  ∃ g i, path_to_ltree blake [97] (Some 7) SLASH = Ok g ∧
         path_to_ltree blake [97; 47; 98] (Some 7) SLASH = Ok i ∧
         (_is_ancestor_or_self g i = true ↔
          7 = 7 ∧ split_text SLASH [97] `prefix_of` split_text SLASH [97; 47; 98]).
Proof.
  eexists _, _. split_and!; [vm_compute; reflexivity..|].
  eapply (directory_grant_scope (λ _, "0123456789abcdef")); [done| |done|done|vm_compute; reflexivity..].
  intros s1 s2 H1 H2 (bs1 & bs2 & Hb1 & _ & Ho & _).
  vm_compute in H1.
  repeat (apply elem_of_cons in H1 as [->|H1];
    [injection Hb1 as <-; unfold over_long in Ho; vm_compute in Ho; lia|]).
  by apply not_elem_of_nil in H1.
Defined.

(** The role registry fails closed.  After [_install] of any rows of the
    [roles] table, every resolved role stays inside the action vocabulary and
    bypasses path evaluation exactly when it has the admin scope; the three builtin
    roles are always known; and a name that is not known resolves to a role that
    [evaluate] denies everything, whatever its grants. *)
Theorem registry_fail_closed rows name grants item_path action :
  let _roles := (Roles._install rows).1 in
  Roles.role_wf (Roles.get _roles name) ∧
  (∀ b, b ∈ BUILTIN_ROLES → Roles.known _roles (Some (role_name b)) = true) ∧
  (Roles.known _roles name = false →
   allowed (evaluate grants (Roles.get _roles name) item_path action) = false).
Proof.
  intros _roles. split_and!.
  - apply Roles.get_wf, Roles.install_wf.
  - intros b Hb. assert (role_name b ≠ "") as Hne by set_solver.
    unfold Roles.known. rewrite bool_decide_eq_false_2 by done. simpl.
    rewrite bool_decide_eq_true_2; [done|]. apply Roles.fold_setdefault_known. eauto.
  - intros Hk. by rewrite (Roles.get_unknown _ _ Hk).
Qed.

Lemma registry_fail_closed_witness :
  allowed (evaluate [grant "lib_1" "search_metadata" true]
    (Roles.get (Roles._install []).1 (Some "auditor")) "lib_1" "search_metadata") = false.
Proof. by apply (registry_fail_closed [] (Some "auditor")). Defined.

(** [pick_highest] returns a known candidate whose privilege key no known
    candidate exceeds, and [None] exactly when no candidate is known. *)
Theorem pick_highest_maximal _roles candidates :
  match Roles.pick_highest _roles candidates with
  | Some r => r ∈ candidates ∧ Roles.known _roles (Some r) = true ∧
      ∀ c, c ∈ candidates → Roles.known _roles (Some c) = true →
        Roles.key_ltb (Roles.privilege_key _roles r) (Roles.privilege_key _roles c) = false
  | None => ∀ c, c ∈ candidates → Roles.known _roles (Some c) = false
  end.
Proof.
  unfold Roles.pick_highest.
  destruct (filterb _ candidates) as [|c l] eqn:Hf; [by apply filterb_nil|].
  destruct (Roles.max_key_spec (Roles.privilege_key _roles) c l) as [Hin Hmax].
  rewrite <- Hf in Hin, Hmax. apply elem_of_filterb in Hin as [??].
  split_and!; [done..|]. intros x Hx Hk. apply Hmax. by apply elem_of_filterb.
Qed.
