(* ===== verification/ScopeFilters.v ===== *)
(** * Collection-level permission filters ([rbac_sql.py], [tenant_tokens.py])

    Two compilers turn a principal's grants into a filter that a query engine
    evaluates over many items: [scope_where_clause] builds a SQL predicate over
    [items.path_scope], [compile_scope_filter] a Meilisearch expression over the
    document's ancestor array.  Both are proved to admit exactly the items
    [Rbac.evaluate] allows.  The engines are interfaces: [SqlEngine] and
    [MeiliEngine] state what their documentation promises. *)
From S2P Require Import Prelude PyStr Rbac.
From stdpp Require Import options.

(** ** Effective scopes, shared by both compilers *)

(** [{g.path for g in grants if g.action == action and g.allow is allow}] *)
Definition scopes_of (action : string) (allow : bool) (grants : list PathGrant) : gset string :=
  list_to_set (map g_path
    (filterb (λ g, bool_decide (g_action g = action) && Bool.eqb (g_allow g) allow) grants)).

(** [sorted(s)] of a set of scopes *)
Definition sorted (s : gset string) : list string := merge_sort (≤)%string (elements s).

Lemma elem_of_sorted x s : x ∈ sorted s ↔ x ∈ s.
Proof. unfold sorted. by rewrite merge_sort_Permutation, elem_of_elements. Qed.

Lemma elem_of_scopes_of p a al grants :
  p ∈ scopes_of a al grants ↔
  ∃ g, g ∈ grants ∧ g_action g = a ∧ g_allow g = al ∧ g_path g = p.
Proof.
  unfold scopes_of. rewrite elem_of_list_to_set, list_elem_of_In, in_map_iff.
  setoid_rewrite <- list_elem_of_In. setoid_rewrite elem_of_filterb.
  setoid_rewrite andb_true_iff. setoid_rewrite bool_decide_eq_true.
  setoid_rewrite eqb_true_iff. naive_solver.
Qed.

(** The items a deny-aware scope filter admits: some allowed and not denied scope
    covers the item and no denied scope strictly below it does. *)
Definition scope_admits (grants : list PathGrant) (action item : string) : Prop :=
  ∃ s, s ∈ scopes_of action true grants ∖ scopes_of action false grants ∧
    _is_ancestor_or_self s item = true ∧
    ∀ d, d ∈ scopes_of action false grants → startswith d (s +:+ ".") = true →
      _is_ancestor_or_self d item = false.

(** Longest-prefix-wins and deny-wins-at-a-tie, as a statement about scopes. *)
Lemma scope_admits_permitted grants role action item :
  bypass role = false → action ∈ ceiling role →
  scope_admits grants action item ↔ permitted grants role item action.
Proof.
  intros Hb Hc. unfold scope_admits, permitted. setoid_rewrite elem_of_difference.
  setoid_rewrite elem_of_scopes_of. split.
  - intros (s & [(g & Hg & Ha & Hal & <-) Hnd] & Hcov & Hden).
    right. split; [done|]. exists g.
    assert (matches action item g = true) as Hm by (by apply matches_spec).
    split_and!; [done..|]. intros d Hd Hdm Hda.
    apply Nat.nle_gt. intros Hle. pose proof (matches_deeper _ _ _ _ Hm Hdm Hle) as Hanc.
    pose proof (proj1 (matches_spec _ _ _) Hdm) as [Hdact Hdcov].
    apply is_ancestor_text in Hanc as [Heq|Hst].
    + apply Hnd. by exists d.
    + rewrite (Hden (g_path d)) in Hdcov; [done|by exists d|done].
  - intros [?|(_ & g & Hg & Hm & Hal & Hlt)]; [congruence|].
    pose proof (proj1 (matches_spec _ _ _) Hm) as [Hact Hcov].
    assert (∀ d, d ∈ grants → g_action d = action → g_allow d = false →
      _is_ancestor_or_self (g_path d) item = true → (specificity d < specificity g)%nat) as Hlt'.
    { intros d Hd Ha Hda Hdc. apply Hlt; [done|by apply matches_spec|done]. }
    exists (g_path g). split_and!.
    + by exists g.
    + intros (d & Hd & Ha & Hda & Hp).
      specialize (Hlt' d Hd Ha Hda). rewrite Hp in Hlt'. specialize (Hlt' Hcov).
      unfold specificity in Hlt'. rewrite Hp in Hlt'. lia.
    + done.
    + intros p (d & Hd & Ha & Hda & <-) Hst. apply not_true_is_false. intros Hdc.
      specialize (Hlt' d Hd Ha Hda Hdc). unfold specificity in Hlt'.
      assert (split_char "." (g_path g) `prefix_of` split_char "." (g_path d)) as Hp
        by (apply split_prefix; by right).
      apply prefix_length in Hp. lia.
Qed.

(** ** The SQL predicate ([rbac_sql.py]) *)

(** The SQLAlchemy constructs the compiler uses over one column. *)
Inductive pred :=
  | PFalse
  | PEq (s : string)                  (* column = :s *)
  | PStartsWith (s : string)          (* starts_with(column, :s) *)
  | PLtreeDescendant (s : string)     (* column <@ CAST(:s AS ltree) *)
  | POr (l : list pred)
  | PAnd (p q : pred)
  | PNot (p : pred).

(** SQL truth values: [None] is [NULL]. *)
Definition sql_or (a b : option bool) : option bool :=
  match a, b with
  | Some true, _ | _, Some true => Some true
  | Some false, Some false => Some false
  | _, _ => None
  end.
Definition sql_and (a b : option bool) : option bool :=
  match a, b with
  | Some false, _ | _, Some false => Some false
  | Some true, Some true => Some true
  | _, _ => None
  end.
Definition sql_not (a : option bool) : option bool := negb <$> a.

(** What Postgres documents about the predicates: three-valued connectives, every
    comparison [NULL] on a [NULL] column, [starts_with] the literal prefix test and
    [<@] the descendant-or-self test on label paths. *)
Class SqlEngine := {
  sql_eval : pred → option string → option bool;
  sql_eval_false col : sql_eval PFalse col = Some false;
  sql_eval_eq s col : sql_eval (PEq s) col = (λ v, bool_decide (v = s)) <$> col;
  sql_eval_starts s col : sql_eval (PStartsWith s) col = (λ v, startswith v s) <$> col;
  sql_eval_ltree s col :
    sql_eval (PLtreeDescendant s) col =
    (λ v, bool_decide (split_char "." s `prefix_of` split_char "." v)) <$> col;
  sql_eval_or l col :
    sql_eval (POr l) col = foldr (λ p r, sql_or (sql_eval p col) r) (Some false) l;
  sql_eval_and p q col :
    sql_eval (PAnd p q) col = sql_and (sql_eval p col) (sql_eval q col);
  sql_eval_not p col : sql_eval (PNot p) col = sql_not (sql_eval p col);
}.

(** [_SCOPE_RE.match]: [^[a-z0-9_.]+$], whose [$] also matches before a final newline. *)
Definition scope_char (c : ascii) : bool :=
  let n := code c in
  ((97 <=? n) && (n <=? 122) || (48 <=? n) && (n <=? 57) || (n =? 95) || (n =? 46))%N.

Definition _valid_scope (scope : string) : bool :=
  let body := strip_final_newline scope in
  negb (bool_decide (body = "")) && str_forall scope_char body.

Definition _covers (scope : string) (use_ltree : bool) : pred :=
  if use_ltree then PLtreeDescendant scope
  else POr [PEq scope; PStartsWith (scope +:+ ".")].

(** The term of one allowed scope: the scope minus the denies strictly below it. *)
Definition scope_term (deny : gset string) (use_ltree : bool) (a : string) : pred :=
  let covered := _covers a use_ltree in
  let under := filterb (λ d, startswith d (a +:+ ".")) (elements deny) in
  match under with
  | [] => covered
  | _ => PAnd covered (PNot (POr (map (λ d, _covers d use_ltree) under)))
  end.

(** [None] is "no filter". *)
Definition scope_where_clause (role : Role) (grants : list PathGrant) (action : string)
    (use_ltree : bool) : option pred :=
  if bypass role then None
  else if negb (bool_decide (action ∈ ceiling role)) then Some PFalse
  else
    let deny := scopes_of action false grants in
    let allow := scopes_of action true grants ∖ deny in
    if negb (forallb _valid_scope (elements (allow ∪ deny))) then Some PFalse
    else if bool_decide (allow = ∅) then Some PFalse
    else
      let terms := map (scope_term deny use_ltree) (sorted allow) in
      match terms with [t] => Some t | _ => Some (POr terms) end.

(** Whether a query with this filter returns a row with this [path_scope]. *)
Definition sql_admits `{SqlEngine} (clause : option pred) (path_scope : option string) : bool :=
  match clause with
  | None => true
  | Some p => bool_decide (sql_eval p path_scope = Some true)
  end.

(** A reference engine. *)
Fixpoint ref_sql_eval (p : pred) (col : option string) : option bool :=
  match p with
  | PFalse => Some false
  | PEq s => (λ v, bool_decide (v = s)) <$> col
  | PStartsWith s => (λ v, startswith v s) <$> col
  | PLtreeDescendant s =>
      (λ v, bool_decide (split_char "." s `prefix_of` split_char "." v)) <$> col
  | POr l => foldr (λ p r, sql_or (ref_sql_eval p col) r) (Some false) l
  | PAnd p q => sql_and (ref_sql_eval p col) (ref_sql_eval q col)
  | PNot p => sql_not (ref_sql_eval p col)
  end.

Definition reference_sql : SqlEngine.
Proof. refine {| sql_eval := ref_sql_eval |}; done. Defined.

Section sql_facts.
Context `{SqlEngine}.

Lemma sql_or_true a b : sql_or a b = Some true ↔ a = Some true ∨ b = Some true.
Proof. destruct a as [[]|], b as [[]|]; naive_solver. Qed.

Lemma sql_and_true a b : sql_and a b = Some true ↔ a = Some true ∧ b = Some true.
Proof. destruct a as [[]|], b as [[]|]; naive_solver. Qed.

Lemma eval_or_true l col :
  sql_eval (POr l) col = Some true ↔ ∃ p, p ∈ l ∧ sql_eval p col = Some true.
Proof.
  rewrite sql_eval_or. induction l as [|p l IH]; simpl.
  - split; [done|]. by intros (p & Hp%not_elem_of_nil & _).
  - rewrite sql_or_true, IH. set_solver.
Qed.

Lemma eval_or_null l col :
  (∀ p, p ∈ l → sql_eval p col ≠ Some true) → sql_eval (POr l) col ≠ Some true.
Proof. rewrite eval_or_true. naive_solver. Qed.

(** Both column types decide coverage. *)
Lemma eval_covers s use_ltree v :
  sql_eval (_covers s use_ltree) (Some v) = Some (_is_ancestor_or_self s v).
Proof.
  destruct use_ltree; simpl.
  - rewrite sql_eval_ltree. simpl. f_equal. apply eq_bool_prop_intro.
    rewrite !Is_true_true, bool_decide_eq_true. symmetry. apply is_ancestor_prefix.
  - rewrite sql_eval_or. simpl. rewrite sql_eval_eq, sql_eval_starts. simpl.
    pose proof (is_ancestor_text s v) as Ha.
    case_bool_decide; destruct (startswith v (s +:+ ".")); simpl; f_equal;
      destruct (_is_ancestor_or_self s v); naive_solver.
Qed.

Lemma eval_covers_null s use_ltree : sql_eval (_covers s use_ltree) None = None.
Proof.
  destruct use_ltree; simpl; [by rewrite sql_eval_ltree|].
  rewrite sql_eval_or. simpl. by rewrite sql_eval_eq, sql_eval_starts.
Qed.

Lemma eval_denies l use_ltree v :
  sql_eval (POr (map (λ d, _covers d use_ltree) l)) (Some v) =
  Some (existsb (λ d, _is_ancestor_or_self d v) l).
Proof.
  rewrite sql_eval_or. induction l as [|d l IH]; simpl; [done|].
  rewrite IH, eval_covers. by destruct (_is_ancestor_or_self d v), (existsb _ l).
Qed.

Lemma eval_term deny use_ltree a v :
  sql_eval (scope_term deny use_ltree a) (Some v) = Some true ↔
  _is_ancestor_or_self a v = true ∧
  ∀ d, d ∈ deny → startswith d (a +:+ ".") = true → _is_ancestor_or_self d v = false.
Proof.
  unfold scope_term. set (under := filterb _ _).
  assert (∀ d, d ∈ under ↔ d ∈ deny ∧ startswith d (a +:+ ".") = true) as Hu.
  { intros d. unfold under. by rewrite elem_of_filterb, elem_of_elements. }
  assert (sql_eval (match under with [] => _covers a use_ltree | _ =>
      PAnd (_covers a use_ltree) (PNot (POr (map (λ d, _covers d use_ltree) under))) end)
    (Some v) = Some true ↔ _is_ancestor_or_self a v = true ∧
      existsb (λ d, _is_ancestor_or_self d v) under = false) as ->.
  { destruct under as [|d l] eqn:Hund; [rewrite eval_covers; simpl; intuition congruence|].
    rewrite <- Hund, sql_eval_and, sql_and_true, sql_eval_not, eval_denies, eval_covers.
    simpl. destruct (existsb _ under); simpl; intuition congruence. }
  rewrite <- not_true_iff_false, existsb_elem. split; intros [Hc Hd]; (split; [done|]).
  - intros d Hdd Hst. apply not_true_iff_false. intros Hda. apply Hd. exists d.
    by rewrite Hu.
  - intros (d & [Hdd Hst]%Hu & Hda). rewrite Hd in Hda; done.
Qed.

Lemma eval_terms terms col :
  terms ≠ [] →
  (sql_admits (match terms with [t] => Some t | _ => Some (POr terms) end) col = true ↔
   ∃ t, t ∈ terms ∧ sql_eval t col = Some true).
Proof.
  intros Hne. destruct terms as [|t [|t' l]]; [done|..]; simpl.
  - rewrite bool_decide_eq_true. set_solver.
  - rewrite bool_decide_eq_true. apply eval_or_true.
Qed.

(** A term is never true of a row whose scope is [NULL]. *)
Lemma eval_term_null deny use_ltree a : sql_eval (scope_term deny use_ltree a) None ≠ Some true.
Proof.
  unfold scope_term. case_match; [by rewrite eval_covers_null|].
  rewrite sql_eval_and, sql_and_true, eval_covers_null. by intros [? _].
Qed.

Lemma clause_admits role grants action use_ltree item :
  bypass role = false → action ∈ ceiling role →
  (∀ g, g ∈ grants → g_action g = action → _valid_scope (g_path g) = true) →
  sql_admits (scope_where_clause role grants action use_ltree) (Some item) = true ↔
  scope_admits grants action item.
Proof.
  intros Hb Hc Hvalid. unfold scope_where_clause. cbv zeta. rewrite Hb.
  rewrite (bool_decide_eq_true_2 (action ∈ ceiling role)) by done. cbn [negb].
  set (deny := scopes_of action false grants).
  set (allow := scopes_of action true grants ∖ deny).
  assert (forallb _valid_scope (elements (allow ∪ deny)) = true) as ->.
  { apply forallb_elem. intros s. rewrite elem_of_elements. unfold allow, deny.
    rewrite elem_of_union, elem_of_difference, !elem_of_scopes_of.
    intros [[(g & Hg & Ha & _ & <-) _]|(g & Hg & Ha & _ & <-)]; by apply Hvalid. }
  cbn [negb]. case_bool_decide as Hempty.
  { simpl. rewrite sql_eval_false. split; [done|].
    intros (s & Hs & _). fold deny in Hs. fold allow in Hs. set_solver. }
  rewrite eval_terms.
  - unfold scope_admits. split.
    + intros (t & Ht & Hev). apply list_elem_of_In, in_map_iff in Ht as (a & <- & Ha).
      apply list_elem_of_In, elem_of_sorted in Ha. apply eval_term in Hev. by exists a.
    + intros (a & Ha & Hcov). exists (scope_term deny use_ltree a). split.
      * apply list_elem_of_In, in_map, list_elem_of_In. by apply elem_of_sorted.
      * by apply eval_term.
  - intros Hnil%map_eq_nil. apply Hempty. apply set_eq. intros x.
    rewrite <- (elem_of_sorted x allow), Hnil. set_solver.
Qed.

(** Corrupt scopes only remove rows. *)
Lemma clause_invalid role grants action use_ltree col :
  bypass role = false →
  sql_admits (scope_where_clause role grants action use_ltree) col = true →
  ∀ g, g ∈ grants → g_action g = action → _valid_scope (g_path g) = true.
Proof.
  intros Hb. unfold scope_where_clause. cbv zeta. rewrite Hb.
  case_bool_decide; simpl; [|by rewrite sql_eval_false].
  destruct (forallb _ _) eqn:Hv; simpl; [|by rewrite sql_eval_false].
  intros _ g Hg Ha. rewrite forallb_elem in Hv. apply Hv. rewrite elem_of_elements.
  destruct (g_allow g) eqn:Hal.
  - destruct (decide (g_path g ∈ scopes_of action false grants)) as [Hd|Hd]; [set_solver|].
    apply elem_of_union_l, elem_of_difference. split; [|done].
    apply elem_of_scopes_of. by exists g.
  - apply elem_of_union_r, elem_of_scopes_of. by exists g.
Qed.

Lemma clause_null role grants action use_ltree :
  bypass role = false →
  sql_admits (scope_where_clause role grants action use_ltree) None = false.
Proof.
  intros Hb. unfold scope_where_clause. cbv zeta. rewrite Hb.
  destruct (bool_decide (action ∈ ceiling role)); simpl; [|by rewrite sql_eval_false].
  destruct (forallb _ _); simpl; [|by rewrite sql_eval_false].
  set (deny := scopes_of action false grants).
  set (allow := scopes_of action true grants ∖ deny).
  case_bool_decide as He; simpl; [by rewrite sql_eval_false|].
  apply not_true_iff_false. rewrite eval_terms.
  - intros (t & Ht & Hev). apply list_elem_of_In, in_map_iff in Ht as (a & <- & _).
    by apply eval_term_null in Hev.
  - intros Hnil%map_eq_nil. apply He, set_eq. intros x.
    rewrite <- (elem_of_sorted x allow), Hnil. set_solver.
Qed.
End sql_facts.

(** C23: the SQL scope filter is [evaluate] over rows: for scopes of the ltree
    alphabet, and whichever column type the deployment has, the predicate of
    [scope_where_clause] admits exactly the rows [evaluate] allows. *)
Theorem sql_filter_exact `{SqlEngine} role grants action use_ltree item :
  (∀ g, g ∈ grants → g_action g = action → _valid_scope (g_path g) = true) →
  sql_admits (scope_where_clause role grants action use_ltree) (Some item) =
  allowed (evaluate grants role item action).
Proof.
  intros Hvalid. apply eq_bool_prop_intro. rewrite !Is_true_true, evaluate_allowed_iff.
  destruct (bypass role) eqn:Hb.
  { unfold scope_where_clause. rewrite Hb. split; [by left|done]. }
  destruct (decide (action ∈ ceiling role)) as [Hc|Hc].
  { rewrite clause_admits by done. by apply scope_admits_permitted. }
  unfold scope_where_clause. rewrite Hb, bool_decide_eq_false_2 by done. simpl.
  rewrite sql_eval_false. split; [done|]. intros [?|[? _]]; congruence.
Qed.

Lemma sql_filter_exact_witness :
  sql_admits (H := reference_sql)
    (scope_where_clause USER [grant "lib_1.a" "download" true; grant "lib_1.a.b" "download" false]
       "download" false) (Some "lib_1.a.c") =
  allowed (evaluate [grant "lib_1.a" "download" true; grant "lib_1.a.b" "download" false]
             USER "lib_1.a.c" "download").
Proof.
  apply (sql_filter_exact (H := reference_sql)). intros g Hg _.
  apply elem_of_cons in Hg as [->|Hg]; [reflexivity|].
  apply elem_of_cons in Hg as [->|Hg]; [reflexivity|]. by apply not_elem_of_nil in Hg.
Defined.

(** The SQL scope filter fails closed, corrupt grants included: without the
    bypass it admits only rows [evaluate] allows, and never a row whose
    [path_scope] is [NULL]. *)
Theorem sql_filter_fail_closed `{SqlEngine} role grants action use_ltree col :
  bypass role = false →
  sql_admits (scope_where_clause role grants action use_ltree) col = true →
  ∃ item, col = Some item ∧ allowed (evaluate grants role item action) = true.
Proof.
  intros Hb Had. destruct col as [item|]; [|by rewrite clause_null in Had].
  exists item. split; [done|].
  pose proof (clause_invalid role grants action use_ltree _ Hb Had) as Hvalid.
  rewrite evaluate_allowed_iff. revert Had.
  destruct (decide (action ∈ ceiling role)) as [Hc|Hc].
  - rewrite clause_admits by done. by apply scope_admits_permitted.
  - unfold scope_where_clause. rewrite Hb, bool_decide_eq_false_2 by done. simpl.
    by rewrite sql_eval_false.
Qed.

Lemma sql_filter_fail_closed_witness :
  ∃ item, Some "lib_1.a.c" = Some item ∧
    allowed (evaluate [grant "lib_1.a" "download" true] USER item "download") = true.
Proof.
  apply (sql_filter_fail_closed (H := reference_sql) USER _ _ true); vm_compute; reflexivity.
Defined.

(** ** The Meilisearch filter ([tenant_tokens.py]) *)

Definition FILTER_SIZE_CEILING : nat := 4096.
Definition PATH_SCOPE_ATTR : string := "path_scope".
Definition _ATTR_IS_SIDECAR : string := "is_sidecar".
Definition _SEARCH_ACTIONS : gset string := {["search_metadata"; "search_content"]}.

(** [CompilationRefused(size, ceiling, clause_count)] *)
Inductive refusal := CompilationRefused (size ceiling clause_count : nat).

Definition _escape_scope (scope : string) : string := DQ +:+ scope +:+ DQ.

Record CompiledFilter := mkFilter { expression : string; filter_scopes : list string }.

(** The inputs: grants, or decisions that carry their winning grant. *)
Definition as_grant (g : PathGrant + Decision) : option PathGrant :=
  match g with inl g => Some g | inr d => winner d end.

Definition _guard (expr : string) (clause_count ceiling : nat) : result refusal () :=
  if (ceiling <? String.length expr)%nat
  then Err (CompilationRefused (String.length expr) ceiling clause_count)
  else Ok ().

(** [f"{PATH_SCOPE_ATTR} IN [{joined}]"] *)
Definition in_expr (l : list string) : string :=
  PATH_SCOPE_ATTR +:+ " IN [" +:+ join ", " (map _escape_scope l) +:+ "]".

(** The loop of [compile_filter]: first occurrences, in order. *)
Definition collect_scope (acc : list string * gset string) (g : PathGrant + Decision) :
    list string * gset string :=
  let '(scopes, seen) := acc in
  match as_grant g with
  | None => acc
  | Some grant =>
      if negb (g_allow grant) then acc
      else if negb (bool_decide (g_action grant ∈ _SEARCH_ACTIONS)) then acc
      else if bool_decide (g_path grant ∈ seen) then acc
      else (scopes ++ [g_path grant], {[g_path grant]} ∪ seen)
  end.

Definition compile_filter (grants : list (PathGrant + Decision)) (include_sidecars : bool) :
    result refusal CompiledFilter :=
  let '(scopes, _) := fold_left collect_scope grants ([], ∅) in
  let with_sidecars (e : string) :=
    if include_sidecars then e else e +:+ " AND " +:+ _ATTR_IS_SIDECAR +:+ " = false" in
  match scopes with
  | [] =>
      let expression := with_sidecars (PATH_SCOPE_ATTR +:+ " IN []") in
      _ <-! _guard expression 0 FILTER_SIZE_CEILING; Ok (mkFilter expression [])
  | _ =>
      let ordered := merge_sort (≤)%string scopes in
      let expression := with_sidecars (in_expr ordered) in
      _ <-! _guard expression (length ordered) FILTER_SIZE_CEILING;
      Ok (mkFilter expression ordered)
  end.

Definition scope_ancestors (path_scope : string) : list string :=
  if bool_decide (path_scope = "") then []
  else
    let labels := split_char "." path_scope in
    map (λ i, join "." (take (i + 1) labels)) (seq 0 (length labels)).

Definition _descendant_denies (allow : string) (deny_scopes : gset string) : list string :=
  merge_sort (≤)%string (filterb (λ d, startswith d (allow +:+ ".")) (elements deny_scopes)).

Definition allow_and_deny (grants : list (PathGrant + Decision)) (action : string) :
    gset string * gset string :=
  let gs := omap as_grant grants in
  (scopes_of action true gs ∖ scopes_of action false gs, scopes_of action false gs).

(** [f"({PATH_SCOPE_ATTR} = {a} AND NOT {PATH_SCOPE_ATTR} IN [{under}])"] *)
Definition complex_term (a : string) (under : list string) : string :=
  "(" +:+ PATH_SCOPE_ATTR +:+ " = " +:+ _escape_scope a +:+ " AND NOT " +:+
  in_expr under +:+ ")".

Definition compile_scope_filter (grants : list (PathGrant + Decision)) (action : string)
    (include_sidecars : bool) (ceiling : nat) : result refusal CompiledFilter :=
  let '(allow_scopes, deny_scopes) := allow_and_deny grants action in
  let under a := _descendant_denies a deny_scopes in
  let simple := filterb (λ a, bool_decide (under a = [])) (sorted allow_scopes) in
  let complex := filterb (λ a, negb (bool_decide (under a = []))) (sorted allow_scopes) in
  let complex_terms := map (λ a, complex_term a (under a)) complex in
  let terms := (match simple with [] => [] | _ => [in_expr simple] end) ++ complex_terms in
  let allow_expr :=
    match terms with
    | [] => PATH_SCOPE_ATTR +:+ " IN []"
    | [t] => t
    | _ => "(" +:+ join " OR " terms +:+ ")"
    end in
  let expression :=
    if include_sidecars then allow_expr
    else "(" +:+ allow_expr +:+ ") AND " +:+ _ATTR_IS_SIDECAR +:+ " = false" in
  _ <-! _guard expression (size allow_scopes + size deny_scopes) ceiling;
  Ok (mkFilter expression (sorted allow_scopes)).

(** [None] is "no filter". *)
Definition rbac_filter_for (role : Role) (grants : list (PathGrant + Decision))
    (action : string) (include_sidecars : bool) (ceiling : nat) :
    result refusal (option string) :=
  if bypass role then Ok None
  else
    f <-! compile_scope_filter grants action include_sidecars ceiling;
    Ok (Some (expression f)).

(** *** The filter language *)

Inductive mfilter :=
  | MEq (s : string)              (* path_scope = s *)
  | MIn (l : list string)         (* path_scope IN [l] *)
  | MNot (f : mfilter)
  | MAnd (f g : mfilter)
  | MOr (l : list mfilter)
  | MParen (f : mfilter)
  | MPrimary.                     (* is_sidecar = false *)

Fixpoint render (f : mfilter) : string :=
  match f with
  | MEq s => PATH_SCOPE_ATTR +:+ " = " +:+ _escape_scope s
  | MIn l => in_expr l
  | MNot f => "NOT " +:+ render f
  | MAnd f g => render f +:+ " AND " +:+ render g
  | MOr l => join " OR " (map render l)
  | MParen f => "(" +:+ render f +:+ ")"
  | MPrimary => _ATTR_IS_SIDECAR +:+ " = false"
  end.

Record doc := mkDoc { doc_path_scope : list string; doc_is_sidecar : bool }.

(** A scope that reads back from between double quotes: labels have neither character. *)
Definition plain_char (c : ascii) : bool := negb (bool_decide (c = "034"%char)) && negb (bool_decide (c = "092"%char)).
Fixpoint plain_scope (s : string) : bool :=
  match s with "" => true | String c s' => plain_char c && plain_scope s' end.

(** The printed form of [f] reads back: its scopes are plain, and parentheses stand where the
    operators need them, [k] being the loosest one outside parentheses: 1 [NOT], 2 [AND], 3 [OR]. *)
Fixpoint readable (k : nat) (f : mfilter) : bool :=
  match f with
  | MEq s => plain_scope s
  | MIn l => forallb plain_scope l
  | MPrimary => true
  | MParen g => readable 3 g
  | MNot g => (1 <=? k)%nat && readable 1 g
  | MAnd g h => (2 <=? k)%nat && readable 1 g && readable 2 h
  | MOr l => (3 <=? k)%nat && (2 <=? length l)%nat && forallb (readable 2) l
  end.

















Lemma lower k f : readable (S k) f = true → match k, f with O, MNot _ => True | S O, MAnd _ _ => True | S (S O), MOr _ => True | _, _ => readable k f = true end.
Proof. destruct f; try done; destruct k as [|[|[|k]]]; cbn; try done. Qed.





Fixpoint ref_meili (f : mfilter) (d : doc) : bool :=
  match f with
  | MEq s => bool_decide (s ∈ doc_path_scope d)
  | MIn l => existsb (λ s, bool_decide (s ∈ doc_path_scope d)) l
  | MNot f => negb (ref_meili f d)
  | MAnd f g => ref_meili f d && ref_meili g d
  | MOr l => existsb (λ f, ref_meili f d) l
  | MParen f => ref_meili f d
  | MPrimary => negb (doc_is_sidecar d)
  end.


(** The syntax tree of the filter [compile_scope_filter] prints. *)
Definition scope_ast (grants : list (PathGrant + Decision)) (action : string)
    (include_sidecars : bool) : mfilter :=
  let '(allow_scopes, deny_scopes) := allow_and_deny grants action in
  let under a := _descendant_denies a deny_scopes in
  let simple := filterb (λ a, bool_decide (under a = [])) (sorted allow_scopes) in
  let complex := filterb (λ a, negb (bool_decide (under a = []))) (sorted allow_scopes) in
  let terms := (match simple with [] => [] | _ => [MIn simple] end) ++
    map (λ a, MParen (MAnd (MEq a) (MNot (MIn (under a))))) complex in
  let allow :=
    match terms with [] => MIn [] | [t] => t | _ => MParen (MOr terms) end in
  if include_sidecars then allow else MAnd (MParen allow) MPrimary.

(** *** Facts *)


Lemma scope_ast_render grants action include_sidecars ceiling :
  let expr := render (scope_ast grants action include_sidecars) in
  let '(allow, deny) := allow_and_deny grants action in
  compile_scope_filter grants action include_sidecars ceiling =
  if (ceiling <? String.length expr)%nat
  then Err (CompilationRefused (String.length expr) ceiling (size allow + size deny))
  else Ok (mkFilter expr (sorted allow)).
Proof.
  unfold compile_scope_filter, scope_ast.
  destruct (allow_and_deny grants action) as [allow deny]. cbv zeta.
  set (simple := filterb _ (sorted allow)).
  set (complex := filterb _ (sorted allow)).
  set (terms := (match simple with [] => [] | _ => [in_expr simple] end) ++ _).
  set (nodes := (match simple with [] => [] | _ => [MIn simple] end) ++ _).
  assert (map render nodes = terms) as Hterms.
  { unfold nodes, terms. rewrite map_app, map_map. f_equal; [by destruct simple|].
    apply map_ext. intros a. unfold complex_term. cbn [render].
    change " AND NOT " with (" AND " +:+ "NOT "). by rewrite <- !app_assoc_str. }
  assert (render (match nodes with [] => MIn [] | [t] => t | _ => MParen (MOr nodes) end) =
    match terms with [] => PATH_SCOPE_ATTR +:+ " IN []" | [t] => t
      | _ => "(" +:+ join " OR " terms +:+ ")" end) as <-.
  { rewrite <- Hterms. by destruct nodes as [|n1 [|n2 l]]. }
  set (ast := match nodes with [] => _ | _ => _ end).
  assert (render (if include_sidecars then ast else MAnd (MParen ast) MPrimary) =
    if include_sidecars then render ast
    else "(" +:+ render ast +:+ ") AND " +:+ _ATTR_IS_SIDECAR +:+ " = false") as <-.
  { destruct include_sidecars; [done|]. simpl. by rewrite <- !app_assoc_str. }
  unfold _guard. by destruct (_ <? _)%nat.
Qed.

Section meili_facts.
Context `{MeiliEngine}.








End meili_facts.






(** The compiler refuses instead of coarsening: above the ceiling it returns
    the size of the exact expression, its ceiling and the clause count, and
    otherwise exactly that expression. *)
Theorem compile_refuses_or_exact grants action include_sidecars ceil :
  let expr := render (scope_ast grants action include_sidecars) in
  let '(allow, deny) := allow_and_deny grants action in
  compile_scope_filter grants action include_sidecars ceil =
  if (ceil <? String.length expr)%nat
  then Err (CompilationRefused (String.length expr) ceil (size allow + size deny))
  else Ok (mkFilter expr (sorted allow)).
Proof. apply scope_ast_render. Qed.

(** The search filter does not clamp to the role ceiling: a role that may read but
    whose ceiling excludes [search_metadata] is denied by [evaluate] and by the SQL
    filter, while its search filter matches the granted documents. *)
Theorem search_filter_ignores_ceiling :
  let role := mkRole "auditor" {["download"]} {["read"]} false in
  let grants := [grant "lib_1" "search_metadata" true] in
  reason (evaluate grants role "lib_1.a" "search_metadata") = ceiling_clamped ∧
  scope_where_clause role grants "search_metadata" true = Some PFalse ∧
  rbac_filter_for role (map inl grants) "search_metadata" true 4096 =
    Ok (Some (render (MIn ["lib_1"]))) ∧
  ref_meili (MIn ["lib_1"]) (mkDoc (scope_ancestors "lib_1.a") false) = true.
Proof. vm_compute. done. Qed.
