(* ===== verification/Access.v ===== *)
(** * Request authorisation ([security.py], [exports.py])

    The API-key check, the dependency factories that guard an endpoint
    ([require_scope], [require_search_scope], [require_permission]), the
    privilege-ceiling rule, and [PermissionContext]: per-item 404/403 decisions,
    the collection filters and the snapshot a background export carries. *)
From S2P Require Import Prelude PyStr Rbac ScopeFilters.
From stdpp Require Import options.

(** An [HTTPException] with its status, or the [AttributeError] of a context that
    has no role. *)
Inductive access_error :=
  | Http (status : Z)
  | AttributeError.

Definition HTTP_401_UNAUTHORIZED : Z := 401.
Definition HTTP_403_FORBIDDEN : Z := 403.
Definition HTTP_404_NOT_FOUND : Z := 404.
Definition HTTP_422_UNPROCESSABLE_ENTITY : Z := 422.

(** ** Coarse scopes *)

Definition _SCOPE_IMPLIES (s : string) : gset string :=
  if bool_decide (s = "read") then {["read"]}
  else if bool_decide (s = "write") then {["read"; "write"]}
  else if bool_decide (s = "admin") then {["read"; "write"; "admin"]}
  else ∅.

Definition expand_scopes (scopes : list string) : gset string :=
  fold_left (λ out s, out ∪ _SCOPE_IMPLIES s) scopes ∅.

(** [require_grant_ceiling]: the same-or-less rule. *)
Definition require_grant_ceiling (requested granted : gset string) : result access_error () :=
  if bool_decide (requested ∖ granted = ∅) then Ok () else Err (Http HTTP_403_FORBIDDEN).

Definition _ACTION_COARSE_SCOPE (action : string) : option string :=
  if bool_decide (action ∈ ["search_metadata"; "search_content"; "download"]) then Some "read"
  else if bool_decide (action ∈ ["upload"; "modify"; "delete"; "edit_metadata"; "manage_alerts"])
  then Some "write" else None.

(** ** API keys *)

Record ApiKey := mkKey {
  k_prefix : string;
  k_scopes : list string;
  k_expires_at : option Z;
  k_llm_role : option string;
  k_service_account : option string;
  k_last_used_at : option Z;
}.

Record Principal := mkPrincipal {
  p_id : string;
  p_global_role : string;
  p_disabled_at : option Z;
}.

(** The tables a request reads and the actor it stamps on [request.state]. *)
Record Request := mkRequest {
  api_keys : gmap string ApiKey;          (* by [key_hash] *)
  principals : gmap string Principal;     (* by id *)
  actor : option string;
}.

Section requests.
(** [hashlib.sha256(token.encode()).hexdigest()] *)
Context (sha256 : string → string).
(** [settings.auth_enabled], and the role registry *)
Context (auth_enabled : bool) (_roles : gmap string Role).

Definition scopes_for_role (role : string) : gset string := scopes (Roles.get _roles (Some role)).

Definition touch (now : Z) (k : ApiKey) : ApiKey :=
  mkKey (k_prefix k) (k_scopes k) (k_expires_at k) (k_llm_role k) (k_service_account k)
    (Some now).

(** [disabled_at] of the owning service account, if the key has one. *)
Definition owner_disabled (st : Request) (k : ApiKey) : bool :=
  match k_service_account k with
  | None => false
  | Some a => bool_decide (is_Some (principals st !! a ≫= p_disabled_at))
  end.

Definition _verify_credentials (token scope : string) (st : Request) (now : Z) :
    result access_error Request :=
  let key_hash := sha256 token in
  match api_keys st !! key_hash with
  | None => Err (Http HTTP_401_UNAUTHORIZED)
  | Some k =>
      if match k_expires_at k with Some e => e <? now | None => false end
      then Err (Http HTTP_401_UNAUTHORIZED)
      else if bool_decide (is_Some (k_llm_role k)) then Err (Http HTTP_403_FORBIDDEN)
      else if owner_disabled st k then Err (Http HTTP_401_UNAUTHORIZED)
      else if negb (bool_decide (scope ∈ k_scopes k)) && negb (bool_decide ("admin" ∈ k_scopes k))
      then Err (Http HTTP_403_FORBIDDEN)
      else Ok (mkRequest (<[key_hash := touch now k]> (api_keys st)) (principals st)
                 (Some (k_prefix k)))
  end.

Definition set_actor (st : Request) (a : string) : Request :=
  mkRequest (api_keys st) (principals st) (Some a).

(** [creds] is the bearer token; [principal] what the session cookie resolves to. *)
Definition require_scope (scope : string) (creds : option string)
    (principal : option Principal) (st : Request) (now : Z) : result access_error Request :=
  if negb auth_enabled then Ok st
  else match creds with
  | Some token => _verify_credentials token scope st now
  | None =>
      match principal with
      | Some p =>
          if negb (bool_decide (scope ∈ scopes_for_role (p_global_role p)))
          then Err (Http HTTP_403_FORBIDDEN)
          else Ok (set_actor st ("principal:" +:+ p_id p))
      | None => Err (Http HTTP_401_UNAUTHORIZED)
      end
  end.

(** [load_principal_grants], and [settings.meili_scope_filter_ceiling]. *)
Context (load_grants : Principal → Role * list PathGrant) (filter_ceiling : nat).

Definition scope_filter_for_principal (p : Principal) (action : string) :
    result refusal (option string) :=
  let '(role, grants) := load_grants p in
  rbac_filter_for role (map inl grants) action true filter_ceiling.

(** Returns the request and the filter to inject ([None]: no filter). *)
Definition require_search_scope (scope : string) (creds : option string)
    (principal : option Principal) (st : Request) (now : Z) :
    result access_error (Request * option string) :=
  if negb auth_enabled then Ok (st, None)
  else match creds with
  | Some token => st' <-! _verify_credentials token scope st now; Ok (st', None)
  | None =>
      match principal with
      | Some p =>
          if negb (bool_decide (scope ∈ scopes_for_role (p_global_role p)))
          then Err (Http HTTP_403_FORBIDDEN)
          else
            let st' := set_actor st ("principal:" +:+ p_id p) in
            match scope_filter_for_principal p "search_metadata" with
            | Ok f => Ok (st', f)
            | Err _ => Err (Http HTTP_422_UNPROCESSABLE_ENTITY)
            end
      | None => Err (Http HTTP_401_UNAUTHORIZED)
      end
  end.

(** The prefix of a [principal:<id>] actor. *)
Definition principal_of_actor (a : string) : option string :=
  if startswith a "principal:" then Some (String.substring 10 (String.length a - 10) a) else None.

(** The key whose (unique) prefix is the actor. *)
Definition key_by_prefix (st : Request) (a : string) : option ApiKey :=
  snd <$> List.find (λ '(_, k), bool_decide (k_prefix k = a)) (map_to_list (api_keys st)).

Definition caller_scopes (st : Request) : gset string :=
  if negb auth_enabled then {["read"; "write"; "admin"]}
  else match actor st with
  | None => ∅
  | Some a =>
      if bool_decide (a = "") then ∅
      else match principal_of_actor a with
      | Some pid =>
          match principals st !! pid with
          | None => ∅
          | Some p => expand_scopes (elements (scopes_for_role (p_global_role p)))
          end
      | None =>
          match key_by_prefix st a with
          | Some k => expand_scopes (k_scopes k)
          | None => ∅
          end
      end
  end.
(** What an operator's request brings; the actor names the requester. *)
Record OperatorCall := mkCall { creds : option string; caller : option Principal; tables : Request }.

(** An endpoint behind [Depends(require_scope(scope))] over the state [S] *)
Definition scoped {S R} (refused : Z → R) (scope : string) (call : OperatorCall) (now : Z)
    (handler : option string → S * R) (st : S) : S * R :=
  match require_scope scope (creds call) (caller call) (tables call) now with
  | Err (Http s) => (st, refused s)
  | Err AttributeError => (st, refused 500)
  | Ok r => handler (actor r ≫= principal_of_actor)
  end.

Lemma scoped_cases {S R} (refused : Z → R) scope call now (handler : option string → S * R) st st' r :
  scoped refused scope call now handler st = (st', r) → st' = st ∨ ∃ by_, handler by_ = (st', r).
Proof using Type.
  unfold scoped. destruct (require_scope _ _ _ _ _) as [q|[]]; [by right; eexists| |]; intros [= <- _]; by left.
Qed.
End requests.

(** ** [PermissionContext] *)

Definition VISIBILITY_ACTION : string := "search_metadata".

Record PermissionContext := mkContext {
  unrestricted : bool;
  ctx_action : string;
  ctx_role : option Role;
  ctx_grants : list PathGrant;
  ctx_use_ltree : bool;
}.

(** [action or self.action]: an empty action is falsy. *)
Definition or_action (action : option string) (dflt : string) : string :=
  match action with
  | Some a => if bool_decide (a = "") then dflt else a
  | None => dflt
  end.

Definition _allows (self : PermissionContext) (path_scope : option string) (action : string) :
    result access_error bool :=
  if unrestricted self then Ok true
  else match path_scope with
  | None => Ok false
  | Some p =>
      match ctx_role self with
      | Some role => Ok (allowed (evaluate (ctx_grants self) role p action))
      | None => Err AttributeError
      end
  end.

Definition authorize_item (self : PermissionContext) (path_scope : option string)
    (action : option string) : result access_error () :=
  if unrestricted self then Ok ()
  else
    let act := or_action action (ctx_action self) in
    if bool_decide (act = VISIBILITY_ACTION) then
      ok <-! _allows self path_scope VISIBILITY_ACTION;
      if negb ok then Err (Http HTTP_404_NOT_FOUND) else Ok ()
    else
      ok <-! _allows self path_scope act;
      if (ok : bool) then Ok ()
      else
        visible <-! _allows self path_scope VISIBILITY_ACTION;
        if (visible : bool) then Err (Http HTTP_403_FORBIDDEN) else Err (Http HTTP_404_NOT_FOUND).

Definition can (self : PermissionContext) (path_scope : option string) (action : option string) :
    result access_error bool :=
  if unrestricted self then Ok true
  else _allows self path_scope (or_action action (ctx_action self)).

Definition require_capability (self : PermissionContext) (action : string) :
    result access_error () :=
  if unrestricted self then Ok ()
  else match ctx_role self with
  | None => Err (Http HTTP_403_FORBIDDEN)
  | Some role =>
      if negb (bool_decide (action ∈ ceiling role)) then Err (Http HTTP_403_FORBIDDEN)
      else if negb (existsb (λ g, bool_decide (g_action g = action) && g_allow g) (ctx_grants self))
      then Err (Http HTTP_403_FORBIDDEN)
      else Ok ()
  end.

(** The JSON object of a queued export job. *)
Record Snapshot := mkSnapshot {
  snap_role : string;
  snap_ceiling : list string;
  snap_bypass : bool;
  snap_use_ltree : bool;
  snap_grants : list (string * string * bool);   (* path, action, allow *)
}.

Definition scope_snapshot (self : PermissionContext) : result access_error (option Snapshot) :=
  if unrestricted self then Ok None
  else match ctx_role self with
  | None => Err AttributeError
  | Some role =>
      Ok (Some (mkSnapshot (role_name role) (sorted (ceiling role)) (bypass role)
        (ctx_use_ltree self)
        (map (λ g, (g_path g, g_action g, g_allow g)) (ctx_grants self))))
  end.

Definition sql_clause (self : PermissionContext) (action : option string) :
    result access_error (option pred) :=
  if unrestricted self then Ok None
  else match ctx_role self with
  | None => Err AttributeError
  | Some role =>
      Ok (scope_where_clause role (ctx_grants self) (or_action action VISIBILITY_ACTION)
        (ctx_use_ltree self))
  end.

(** [exports.scope_clause_from_snapshot] *)
Definition scope_clause_from_snapshot (snapshot : option Snapshot) (action : string) : option pred :=
  match snapshot with
  | None => None
  | Some s =>
      let role := mkRole (snap_role s) (list_to_set (snap_ceiling s)) ∅ (snap_bypass s) in
      let grants := map (λ '(p, a, al), grant p a al) (snap_grants s) in
      scope_where_clause role grants action (snap_use_ltree s)
  end.

(** [require_permission]: authentication and coarse gate as [require_scope], then
    the context the endpoint checks items with. *)
Definition require_permission (sha256 : string → string) (auth_enabled : bool)
    (_roles : gmap string Role) (load_grants : Principal → Role * list PathGrant)
    (uses_ltree : bool) (action : string) (coarse : option string)
    (creds : option string) (principal : option Principal) (st : Request) (now : Z) :
    result access_error (Request * PermissionContext) :=
  let coarse_scope := or_action coarse (default "read" (_ACTION_COARSE_SCOPE action)) in
  let open := mkContext true action None [] false in
  if negb auth_enabled then Ok (st, open)
  else match creds with
  | Some token =>
      st' <-! _verify_credentials sha256 token coarse_scope st now; Ok (st', open)
  | None =>
      match principal with
      | Some p =>
          if negb (bool_decide (coarse_scope ∈ scopes_for_role _roles (p_global_role p)))
          then Err (Http HTTP_403_FORBIDDEN)
          else
            let st' := set_actor st ("principal:" +:+ p_id p) in
            if bypass (Roles.get _roles (Some (p_global_role p))) then Ok (st', open)
            else
              let '(role, grants) := load_grants p in
              Ok (st', mkContext false action (Some role) grants uses_ltree)
      | None => Err (Http HTTP_401_UNAUTHORIZED)
      end
  end.

(** ** Facts *)

Lemma scopes_of_map a al grants :
  scopes_of a al (map (λ g, grant (g_path g) (g_action g) (g_allow g)) grants) =
  scopes_of a al grants.
Proof.
  apply set_eq. intros p. rewrite !elem_of_scopes_of. split.
  - intros (g & Hg & Ha & Hal & Hp).
    apply list_elem_of_In, in_map_iff in Hg as (g' & <- & Hg').
    exists g'. by rewrite list_elem_of_In.
  - intros (g & Hg & Ha & Hal & Hp).
    exists (grant (g_path g) (g_action g) (g_allow g)). split; [|done].
    apply list_elem_of_In, in_map_iff. exists g. by rewrite <- list_elem_of_In.
Qed.

(** The clause depends on the role's bypass and ceiling and on the grants' path,
    action and effect only. *)
Lemma where_clause_ext r1 r2 grants action use_ltree :
  bypass r1 = bypass r2 → ceiling r1 = ceiling r2 →
  scope_where_clause r1 (map (λ g, grant (g_path g) (g_action g) (g_allow g)) grants)
    action use_ltree = scope_where_clause r2 grants action use_ltree.
Proof. intros Hb Hc. unfold scope_where_clause. by rewrite Hb, Hc, !scopes_of_map. Qed.

Lemma list_to_set_sorted (s : gset string) : list_to_set (sorted s) = s.
Proof. apply set_eq. intros x. by rewrite elem_of_list_to_set, elem_of_sorted. Qed.

Lemma verify_credentials_ok sha256 token scope st now st' :
  _verify_credentials sha256 token scope st now = Ok st' →
  ∃ k, api_keys st !! sha256 token = Some k ∧
    (∀ e, k_expires_at k = Some e → now ≤ e) ∧ k_llm_role k = None ∧
    owner_disabled st k = false ∧ (scope ∈ k_scopes k ∨ "admin" ∈ k_scopes k) ∧
    st' = mkRequest (<[sha256 token := touch now k]> (api_keys st)) (principals st)
            (Some (k_prefix k)).
Proof.
  unfold _verify_credentials. destruct (api_keys st !! _) as [k|] eqn:Hk; [|done].
  destruct (match k_expires_at k with Some e => e <? now | None => false end) eqn:He; [done|].
  case_bool_decide as Hl; [done|]. destruct (owner_disabled st k) eqn:Ho; [done|].
  destruct (negb (bool_decide (scope ∈ k_scopes k)) && _) eqn:Hs; [done|]. intros [= <-].
  exists k. split_and!; [done| | | done | |done].
  - intros e Hexp. rewrite Hexp in He. by apply Z.ltb_ge in He.
  - by apply eq_None_not_Some.
  - apply andb_false_iff in Hs. rewrite !negb_false_iff, !bool_decide_eq_true in Hs. done.
Qed.

(** ** Properties *)

(** The effective permission of a scoped context on an item. *)
Definition item_ok (self : PermissionContext) (role : Role) (path_scope : option string)
    (action : string) : bool :=
  match path_scope with
  | None => false
  | Some p => allowed (evaluate (ctx_grants self) role p action)
  end.

(** The 404-versus-403 ruling.  A scoped context lets an action through exactly
    when [evaluate] allows it on the item's stored scope; a refused action answers
    403 only if the item is visible to the caller and 404 otherwise, so the
    existence of an invisible item is never revealed; an item without a scope is
    invisible; and [can] is the same decision. *)
Theorem authorize_item_verdict self role path_scope action :
  unrestricted self = false → ctx_role self = Some role →
  let act := or_action action (ctx_action self) in
  authorize_item self path_scope action =
    (if item_ok self role path_scope act then Ok ()
     else if item_ok self role path_scope VISIBILITY_ACTION then Err (Http HTTP_403_FORBIDDEN)
     else Err (Http HTTP_404_NOT_FOUND)) ∧
  can self path_scope action = Ok (item_ok self role path_scope act).
Proof.
  intros Hu Hr act.
  assert (∀ a, _allows self path_scope a = Ok (item_ok self role path_scope a)) as Hal.
  { intros a. unfold _allows, item_ok. rewrite Hu, Hr. by destruct path_scope. }
  unfold authorize_item, can. rewrite Hu. fold act. rewrite !Hal. simpl. split; [|done].
  case_bool_decide as Hact; [rewrite Hact|done]. by destruct (item_ok _ _ _ VISIBILITY_ACTION).
Qed.

Lemma authorize_item_verdict_witness :
  let self := mkContext false "download" (Some USER)
    [grant "lib_1" "search_metadata" true] false in
  authorize_item self (Some "lib_1.a") None = Err (Http HTTP_403_FORBIDDEN) ∧
  authorize_item self (Some "lib_2.a") None = Err (Http HTTP_404_NOT_FOUND).
Proof.
  intros self. split.
  - rewrite (proj1 (authorize_item_verdict self USER _ None eq_refl eq_refl)). reflexivity.
  - rewrite (proj1 (authorize_item_verdict self USER _ None eq_refl eq_refl)). reflexivity.
Defined.

(** A background export is scoped like the request that queued it: rebuilding
    the predicate from the JSON snapshot of a scoped context gives the predicate
    [sql_clause] gives in the request, for every action. *)
Theorem snapshot_roundtrip self role action :
  unrestricted self = false → ctx_role self = Some role → action ≠ "" →
  ∃ snap, scope_snapshot self = Ok (Some snap) ∧
    sql_clause self (Some action) = Ok (scope_clause_from_snapshot (Some snap) action).
Proof.
  intros Hu Hr Ha. unfold scope_snapshot, sql_clause. rewrite Hu, Hr.
  eexists. split; [done|]. unfold or_action. rewrite bool_decide_eq_false_2 by done.
  f_equal. simpl. rewrite map_map, list_to_set_sorted. symmetry. by apply where_clause_ext.
Qed.

Lemma snapshot_roundtrip_witness :
  let self := mkContext false "download" (Some VIEWER) [grant "lib_1" "download" true] true in
  ∃ snap, scope_snapshot self = Ok (Some snap) ∧
    sql_clause self (Some "download") = Ok (scope_clause_from_snapshot (Some snap) "download").
Proof. apply (snapshot_roundtrip _ VIEWER); [reflexivity|reflexivity|discriminate]. Defined.

(** C29: with authentication enabled [require_permission] admits a request only with
    a live main-API key that holds the coarse scope (never an expired key, an LLM
    facade key, or a key of a disabled service account), or with a session whose
    role holds the coarse scope; and a session context is unrestricted exactly when
    the role bypasses path evaluation. *)
Theorem permission_gate sha256 _roles load_grants uses_ltree action coarse creds principal
    st now st' ctx :
  let coarse_scope := or_action coarse (default "read" (_ACTION_COARSE_SCOPE action)) in
  require_permission sha256 true _roles load_grants uses_ltree action coarse creds principal
    st now = Ok (st', ctx) →
  (∃ token k, creds = Some token ∧ api_keys st !! sha256 token = Some k ∧
     (∀ e, k_expires_at k = Some e → now ≤ e) ∧ k_llm_role k = None ∧
     owner_disabled st k = false ∧ (coarse_scope ∈ k_scopes k ∨ "admin" ∈ k_scopes k) ∧
     actor st' = Some (k_prefix k)) ∨
  (∃ p, creds = None ∧ principal = Some p ∧
     coarse_scope ∈ scopes_for_role _roles (p_global_role p) ∧
     actor st' = Some ("principal:" +:+ p_id p) ∧
     unrestricted ctx = bypass (Roles.get _roles (Some (p_global_role p))) ∧
     (unrestricted ctx = false → ctx_role ctx = Some (load_grants p).1 ∧
        ctx_grants ctx = (load_grants p).2)).
Proof.
  intros coarse_scope. unfold require_permission. fold coarse_scope. simpl.
  destruct creds as [token|].
  - rewrite result_bind_ok. intros (st1 & Hv & [= -> <-]).
    apply verify_credentials_ok in Hv as (k & Hk & He & Hl & Ho & Hs & ->).
    left. by exists token, k.
  - destruct principal as [p|]; [|done]. case_bool_decide as Hs; [simpl|done].
    intros Heq. right. exists p. destruct (bypass _) eqn:Hb.
    + injection Heq as <- <-. done.
    + destruct (load_grants p) as [role grants]. injection Heq as <- <-. done.
Qed.

Lemma permission_gate_witness :
  let p := mkPrincipal "u1" "viewer" None in
  let st := mkRequest ∅ ∅ None in
  ∃ st' ctx,
    require_permission (λ t, t) true ∅ (λ _, (VIEWER, [])) false "search_metadata" None None
      (Some p) st 0 = Ok (st', ctx) ∧
    ((∃ token k, None = Some token ∧ api_keys st !! token = Some k ∧
       (∀ e, k_expires_at k = Some e → 0 ≤ e) ∧ k_llm_role k = None ∧
       owner_disabled st k = false ∧ ("read" ∈ k_scopes k ∨ "admin" ∈ k_scopes k) ∧
       actor st' = Some (k_prefix k)) ∨
     (∃ q, None = @None string ∧ Some p = Some q ∧
       "read" ∈ scopes_for_role ∅ (p_global_role q) ∧
       actor st' = Some ("principal:" +:+ p_id q) ∧
       unrestricted ctx = bypass (Roles.get ∅ (Some (p_global_role q))) ∧
       (unrestricted ctx = false → ctx_role ctx = Some VIEWER ∧ ctx_grants ctx = []))).
Proof.
  eexists _, _. split; [vm_compute; reflexivity|].
  refine (permission_gate (λ t, t) ∅ (λ _, (VIEWER, [])) false "search_metadata" None None
    (Some (mkPrincipal "u1" "viewer" None)) (mkRequest ∅ ∅ None) 0 _ _ _).
  vm_compute. reflexivity.
Defined.
