(* ===== verification/GrantCache.v ===== *)
(** * The grant cache ([search_scope.py], [grant_cache.py])

    [load_principal_grants] reads a principal's role and effective grants from the
    tables; [load_grants] caches them per request and, for 30 seconds and one
    generation, per process.  The process is asynchronous: a load suspends between
    reading the tables and storing the entry, so besides the uninterrupted function
    the file has a step relation in which mutations interleave with loads. *)
From S2P Require Import Prelude Rbac.
From stdpp Require Import options.

(** ** The tables *)

(** A row of [path_grants]. *)
Record GrantRow := mkGrantRow {
  gr_scope : string;
  gr_action : string;
  gr_effect : string;
  gr_subject_kind : string;
  gr_subject_id : string;
}.

Record Db := mkDb {
  global_role : gmap string (option string);      (* principal id -> global_role *)
  members : list (string * string);               (* (group id, principal id) *)
  grant_rows : list GrantRow;
}.

Definition grants_value : Type := Role * list PathGrant.

Definition row_grant (r : GrantRow) : PathGrant :=
  mkGrant (gr_scope r) (gr_action r) (bool_decide (gr_effect r = "allow"))
    (if bool_decide (gr_subject_kind r = "group") then Some (gr_subject_id r) else None)
    (if bool_decide (gr_subject_kind r = "principal") then Some (gr_subject_id r) else None).

(** The [WHERE] of the grant query: the principal's own rows, and those of its groups. *)
Definition row_applies (principal_id : string) (group_ids : list string) (r : GrantRow) : bool :=
  (bool_decide (gr_subject_kind r = "principal") && bool_decide (gr_subject_id r = principal_id)) ||
  (bool_decide (gr_subject_kind r = "group") && bool_decide (gr_subject_id r ∈ group_ids)).

Definition load_principal_grants (_roles : gmap string Role) (db : Db) (principal_id : string) :
    grants_value :=
  match global_role db !! principal_id with
  | None => (Roles.get _roles None, [])
  | Some role =>
      let group_ids :=
        map fst (filterb (λ '(_, p), bool_decide (p = principal_id)) (members db)) in
      (Roles.get _roles role,
       map row_grant (filterb (row_applies principal_id group_ids) (grant_rows db)))
  end.

(** ** The cache *)

Definition TTL_SECONDS : Z := 30.

Record Entry := mkEntry { e_generation : Z; e_expires : Z; e_value : grants_value }.

(** The process state: the module globals, the tables, the clock, the loads that
    are suspended between reading the tables and storing their entry (principal,
    time the load started, value read), and the history of the tables. *)
Record Proc := mkProc {
  generation : Z;
  cache : gmap string Entry;
  db : Db;
  clock : Z;
  inflight : list (string * Z * grants_value);
  history : list (Z * Db);
}.

Section cache.
Context (_roles : gmap string Role).
Local Abbreviation read := (load_principal_grants _roles).

Definition cache_hit (st : Proc) (principal_id : string) (now : Z) : option grants_value :=
  match cache st !! principal_id with
  | Some ent =>
      if (e_generation ent =? generation st) && (now <? e_expires ent)
      then Some (e_value ent) else None
  | None => None
  end.

(** [_cache[principal_id] = (_generation, now + _TTL_SECONDS, role, grants)] *)
Definition store (st : Proc) (principal_id : string) (now : Z) (v : grants_value) : Proc :=
  mkProc (generation st)
    (<[principal_id := mkEntry (generation st) (now + TTL_SECONDS) v]> (cache st))
    (db st) (clock st) (inflight st) (history st).

(** A load that nothing interrupts.  [memo] is [request.state._rbac_grant_memo]
    ([None]: no request). *)
Definition load_grants (memo : option (gmap string grants_value)) (st : Proc)
    (principal_id : string) (now : Z) :
    grants_value * option (gmap string grants_value) * Proc :=
  match memo ≫= (.!! principal_id) with
  | Some hit => (hit, memo, st)
  | None =>
      let '(v, st') :=
        match cache_hit st principal_id now with
        | Some v => (v, st)
        | None => let v := read (db st) principal_id in (v, store st principal_id now v)
        end in
      (v, (λ m, <[principal_id := v]> m) <$> memo, st')
  end.

(** ** Interleavings *)

Definition begin_load (st : Proc) (principal_id : string) : Proc :=
  mkProc (generation st) (cache st) (db st) (clock st)
    ((principal_id, clock st, read (db st) principal_id) :: inflight st)
    ((clock st, db st) :: history st).

Definition finish_load (st : Proc) (p : string) (now : Z) (v : grants_value)
    (rest : list (string * Z * grants_value)) : Proc :=
  let st' := store st p now v in
  mkProc (generation st') (cache st') (db st') (clock st') rest (history st').

(** A handler commits its change and calls [bump_generation]. *)
Definition mutate (st : Proc) (db' : Db) : Proc :=
  mkProc (generation st + 1) (cache st) db' (clock st) (inflight st) (history st).

Definition tick (st : Proc) (t : Z) : Proc :=
  mkProc (generation st) (cache st) (db st) t (inflight st) (history st).

Inductive step : Proc → Proc → Prop :=
  | step_begin st p : cache_hit st p (clock st) = None → step st (begin_load st p)
  | step_finish st l1 l2 p now v :
      inflight st = l1 ++ (p, now, v) :: l2 → step st (finish_load st p now v (l1 ++ l2))
  | step_mutate st db' : step st (mutate st db')
  | step_tick st t : clock st ≤ t → step st (tick st t).

Definition initial (d : Db) (t : Z) : Proc := mkProc 0 ∅ d t [] [].

(** ** Coherence: what holds when no mutation overlaps a load *)

Definition entry_coherent (st : Proc) (p : string) (e : Entry) : Prop :=
  e_generation e ≤ generation st ∧
  (e_generation e = generation st → e_value e = read (db st) p).

Definition coherent (st : Proc) : Prop := map_Forall (entry_coherent st) (cache st).

Definition inflight_current (st : Proc) : Prop :=
  Forall (λ '(p, _, v), v = read (db st) p) (inflight st).

Lemma coherent_hit st p now v : coherent st → cache_hit st p now = Some v → v = read (db st) p.
Proof.
  unfold cache_hit. intros Hc. destruct (cache st !! p) as [e|] eqn:He; [|done].
  destruct (_ && _) eqn:Hg; [|done]. intros [= <-]. bool_to_prop.
  by apply (Hc p e He).
Qed.

Lemma coherent_store st p now v : coherent st → v = read (db st) p → coherent (store st p now v).
Proof.
  intros Hc ->. apply map_Forall_insert_2; [split; simpl; [lia|done]|].
  exact Hc.
Qed.

Lemma coherent_mutate st db' : coherent st → coherent (mutate st db').
Proof.
  intros Hc p e He. destruct (Hc p e He) as [Hle _]. split; simpl; lia.
Qed.

(** Steps in which a mutation never happens while a load is in flight. *)
Inductive quiet_step : Proc → Proc → Prop :=
  | quiet_mutate st db' : inflight st = [] → quiet_step st (mutate st db')
  | quiet_begin st p : cache_hit st p (clock st) = None → quiet_step st (begin_load st p)
  | quiet_finish st l1 l2 p now v :
      inflight st = l1 ++ (p, now, v) :: l2 → quiet_step st (finish_load st p now v (l1 ++ l2))
  | quiet_tick st t : clock st ≤ t → quiet_step st (tick st t).

Lemma quiet_coherent st st' :
  quiet_step st st' → coherent st ∧ inflight_current st → coherent st' ∧ inflight_current st'.
Proof.
  unfold inflight_current. intros Hs [Hc Hi]. destruct Hs as [st db' He|st p _|st l1 l2 p now v Hl|st t _].
  - split; [by apply coherent_mutate|]. simpl. rewrite He. constructor.
  - split; [exact Hc|]. by constructor.
  - rewrite Hl, Forall_app, Forall_cons in Hi. destruct Hi as (H1 & Hv & H2).
    split; [by apply (coherent_store st p now v)|]. by apply Forall_app.
  - done.
Qed.

Lemma initial_coherent d t : coherent (initial d t) ∧ inflight_current (initial d t).
Proof. split; [apply map_Forall_empty|constructor]. Qed.

Lemma quiet_reachable st st' :
  rtc quiet_step st st' → coherent st ∧ inflight_current st → coherent st' ∧ inflight_current st'.
Proof. induction 1; eauto using quiet_coherent. Qed.

(** ** Bounded staleness, whatever the interleaving *)

(** [v] was what the tables held for [p] at some moment after [t0]. *)
Definition was_current (st : Proc) (p : string) (v : grants_value) (t0 : Z) : Prop :=
  ∃ t d, (t, d) ∈ history st ∧ t0 ≤ t ∧ v = read d p.

Definition recent (st : Proc) : Prop :=
  map_Forall (λ p e, was_current st p (e_value e) (e_expires e - TTL_SECONDS)) (cache st) ∧
  Forall (λ '(p, now, v), was_current st p v now) (inflight st).

Lemma was_current_mono st st' p v t0 :
  (∀ x, x ∈ history st → x ∈ history st') → was_current st p v t0 → was_current st' p v t0.
Proof. intros Hh (t & d & Hin & Ht). exists t, d. auto. Qed.

Lemma recent_step st st' : step st st' → recent st → recent st'.
Proof.
  intros Hs [Hc Hi]. destruct Hs as [st p _|st l1 l2 p now v Hl|st db'|st t _]; [|split..].
  - assert (∀ x, x ∈ history st → x ∈ history (begin_load st p)) as Hm by (intros; by right).
    split; simpl.
    + intros q e He. eapply was_current_mono, Hc, He. exact Hm.
    + constructor.
      * exists (clock st), (db st). split_and!; [left|lia|done].
      * eapply Forall_impl; [exact Hi|]. intros [[q n] w]. by apply was_current_mono.
  - rewrite Hl, Forall_app, Forall_cons in Hi. destruct Hi as (_ & Hv & _). simpl.
    apply map_Forall_insert_2; [|exact Hc]. simpl. by replace (now + _ - _) with now by lia.
  - rewrite Hl, Forall_app, Forall_cons in Hi. destruct Hi as (H1 & _ & H2). by apply Forall_app.
  - exact Hc.
  - exact Hi.
  - exact Hc.
  - exact Hi.
Qed.

Lemma recent_reachable st st' : rtc step st st' → recent st → recent st'.
Proof. induction 1; eauto using recent_step. Qed.
End cache.

(** ** Properties *)

(** one decision per request: once a request has resolved a principal's grants,
    every later resolution of the same request returns the same value and reads
    neither the process cache nor the tables, whatever happened in between. *)
Theorem request_self_consistent roles m st p now st' now' :
  let '(v, memo, _) := load_grants roles (Some m) st p now in
  load_grants roles memo st' p now' = (v, memo, st').
Proof.
  unfold load_grants at 1. simpl. destruct (m !! p) as [hit|] eqn:Hm; simpl.
  - unfold load_grants. simpl. by rewrite Hm.
  - destruct (cache_hit st p now) as [v|]; simpl; unfold load_grants; simpl;
      by rewrite lookup_insert_eq.
Qed.

(** C32: "a revoked grant never lingers": as long as no mutation lands while a load is
    suspended, a load returns what the tables hold at that moment, whichever way it
    gets the value, and leaves a cache of which that stays true. *)
Theorem load_fresh_when_quiet roles d t st p now :
  rtc (quiet_step roles) (initial d t) st →
  let '(v, _, st') := load_grants roles None st p now in
  v = load_principal_grants roles (db st) p ∧ coherent roles st' ∧
  ∀ q later w, cache_hit st' q later = Some w → w = load_principal_grants roles (db st) q.
Proof.
  intros Hr. destruct (quiet_reachable roles _ _ Hr (initial_coherent roles d t)) as [Hc _].
  unfold load_grants. simpl. destruct (cache_hit st p now) as [v|] eqn:Hh; simpl.
  - split_and!; [by eapply coherent_hit|done|]. intros q l w. by apply coherent_hit.
  - split_and!; [done|by apply coherent_store|]. intros q l w Hw.
    by apply (coherent_hit roles (store st p now (load_principal_grants roles (db st) p)) q l);
      [apply coherent_store|].
Qed.

(** "the TTL is only a backstop": in every interleaving, a value served from the
    cache is one that the tables held for that principal less than 30 seconds
    before. *)
Theorem staleness_bounded roles d t st p now v :
  rtc (step roles) (initial d t) st →
  cache_hit st p now = Some v →
  ∃ t' d', (t', d') ∈ history st ∧ now < t' + TTL_SECONDS ∧ v = load_principal_grants roles d' p.
Proof.
  intros Hr Hh.
  destruct (recent_reachable roles _ _ Hr) as [Hc _]; [split; [apply map_Forall_empty|constructor]|].
  unfold cache_hit in Hh. destruct (cache st !! p) as [e|] eqn:He; [|done].
  destruct (_ && _) eqn:Hg in Hh; [|done]. injection Hh as <-. bool_to_prop.
  destruct (Hc p e He) as (t' & d' & Hin & Ht & Hv). exists t', d'. split_and!; [done|lia|done].
Qed.

(** *** Witnesses and the interleaving that breaks freshness *)

Definition db_granted : Db :=
  mkDb {["u" := Some "viewer"]} [] [mkGrantRow "lib" "search_metadata" "allow" "principal" "u"].
Definition db_revoked : Db := mkDb {["u" := Some "viewer"]} [] [].
Definition some_roles : gmap string Role := {["viewer" := VIEWER]}.

Definition loaded : Proc :=
  finish_load (begin_load some_roles (initial db_granted 100) "u") "u" 100
    (load_principal_grants some_roles db_granted "u") [].

Lemma load_fresh_when_quiet_witness :
  let '(v, _, st') := load_grants some_roles None (mutate loaded db_revoked) "u" 101 in
  v = load_principal_grants some_roles db_revoked "u" ∧ coherent some_roles st' ∧
  ∀ q later w, cache_hit st' q later = Some w → w = load_principal_grants some_roles db_revoked q.
Proof.
  apply (load_fresh_when_quiet some_roles db_granted 100 (mutate loaded db_revoked) "u" 101).
  eapply rtc_l; [by apply (quiet_begin _ _ "u")|].
  eapply rtc_l; [by apply (quiet_finish _ _ [] [] "u" 100)|].
  eapply rtc_l; [by apply quiet_mutate|]. constructor.
Defined.

Lemma staleness_bounded_witness :
  cache_hit loaded "u" 129 = Some (load_principal_grants some_roles db_granted "u") ∧
  ∃ t' d', (t', d') ∈ history loaded ∧ 129 < t' + TTL_SECONDS ∧
    load_principal_grants some_roles db_granted "u" = load_principal_grants some_roles d' "u".
Proof.
  split; [reflexivity|].
  apply (staleness_bounded some_roles db_granted 100 loaded "u" 129); [|reflexivity].
  eapply rtc_l; [by apply (step_begin _ _ "u")|].
  eapply rtc_l; [by apply (step_finish _ _ [] [] "u" 100)|]. constructor.
Defined.

(** The interleaving: begin a load, revoke, finish the load. *)
Definition raced : Proc :=
  finish_load (mutate (begin_load some_roles (initial db_granted 100) "u") db_revoked) "u" 100
    (load_principal_grants some_roles db_granted "u") [].

(** The generation is read when the entry is stored, after the suspension: a load
    that started before a revocation stores the old grants under the new generation,
    and the revoked grant is honoured although no load or mutation is pending. *)
Theorem revoked_grant_lingers :
  rtc (step some_roles) (initial db_granted 100) raced ∧ db raced = db_revoked ∧
  inflight raced = [] ∧
  let view (v : grants_value) := allowed (evaluate (snd v) (fst v) "lib.p" "search_metadata") in
  view (load_grants some_roles None raced "u" 129).1.1 = true ∧
  view (load_principal_grants some_roles (db raced) "u") = false.
Proof.
  split_and!; [|done|done|split; reflexivity].
  eapply rtc_l; [by apply (step_begin _ _ "u")|].
  eapply rtc_l; [by apply (step_mutate _ _ db_revoked)|].
  eapply rtc_l; [by apply (step_finish _ _ [] [] "u" 100)|]. constructor.
Qed.
