(* ===== verification/Policy.v ===== *)
(** * Path-scope policies for agents ([policy.py])

    [flatten_path_grants] turns a principal's path grants into the list of path
    globs an agent applies locally.  It is fail-closed: what an OR-combined
    allow-list cannot express is an error, never a wider scope. *)
From S2P Require Import Prelude PyStr Uuid Utf8 PathLabel Text Rbac ScopeFilters.
From stdpp Require Import options.

(** [PathScopeFlattenError] (with its two causes) and the [ValueError]s of
    [decode_path_label]. *)
Inductive flatten_error :=
  | DenyGrant (path : string)
  | HashedLabel (path : string)
  | LabelError (e : label_error).

(** ** Text *)

Definition sorted_texts (s : gset text) : list text := merge_sort text_le (elements s).

(** ** The code *)

(** [_LIB_LABEL_RE.match(label)]: [$] also matches before a final newline. *)
Definition _LIB_LABEL_RE (label : string) : bool :=
  let body := strip_final_newline label in
  startswith body "lib_" && (String.length body =? 36)%nat &&
  str_forall is_hex_digit (String.substring 4 32 body).

Definition decode_segment (path label : string) : result flatten_error text :=
  match decode_path_label label with
  | Err e => Err (LabelError e)
  | Ok seg => if bool_decide (seg = HASHED_LABEL) then Err (HashedLabel path) else Ok seg
  end.

Definition _ltree_to_rel_path (path : string) (strip_library_prefix : bool) :
    result flatten_error text :=
  let labels := split_char "." path in
  let labels :=
    match labels with
    | l0 :: rest => if strip_library_prefix && _LIB_LABEL_RE l0 then rest else labels
    | [] => labels
    end in
  segments <-! result_mapM (decode_segment path) labels;
  Ok (join_text SLASH segments).

(** ["**"] and [f"{rel}/**"] *)
Definition STARS : text := [42; 42].
Definition scope_globs (rel : text) : list text :=
  match rel with [] => [STARS] | _ => [rel; rel ++ SLASH :: STARS] end.

(** The loop of [flatten_path_grants] with its accumulator [predicates]. *)
Fixpoint flatten_loop (strip_library_prefix : bool) (read_grants : list PathGrant)
    (predicates : gset text) : result flatten_error (gset text) :=
  match read_grants with
  | [] => Ok predicates
  | g :: rest =>
      if negb (g_allow g) then Err (DenyGrant (g_path g))
      else
        rel <-! _ltree_to_rel_path (g_path g) strip_library_prefix;
        flatten_loop strip_library_prefix rest (predicates ∪ list_to_set (scope_globs rel))
  end.

Definition flatten_path_grants (grants : list PathGrant) (read_action : string)
    (strip_library_prefix : bool) : result flatten_error (list text) :=
  let read_grants := filterb (λ g, bool_decide (g_action g = read_action)) grants in
  predicates <-! flatten_loop strip_library_prefix read_grants ∅;
  Ok (sorted_texts predicates).

(** ** Lemmas *)

Lemma substring_all s : String.substring 0 (String.length s) s = s.
Proof. induction s as [|c s IH]; simpl; [done|by rewrite IH]. Qed.

Lemma strip_newline_hex s : str_forall is_hex_digit s = true → strip_final_newline s = s.
Proof.
  induction s as [|c s IH]; [done|]. simpl. intros [Hc Hs]%andb_true_iff.
  destruct s as [|d s]; [|by rewrite (IH Hs)].
  case Ascii.eqb_spec; [by intros ->|done].
Qed.

Lemma library_label_matches u : _LIB_LABEL_RE (library_label u) = true.
Proof.
  unfold _LIB_LABEL_RE, library_label.
  pose proof (hexn_hex 32 u) as Hhex. pose proof (hexn_length 32 u) as Hlen.
  unfold uuid_hex. set (h := hexn 32 u) in *. clearbody h.
  assert (h ≠ "") as Hne by (by intros ->).
  change ("lib_" +:+ h) with (String "l" (String "i" (String "b" (String "_" h)))).
  rewrite !strip_newline_cons by done. rewrite strip_newline_hex by done.
  cbn [String.length String.substring]. rewrite Hlen. simpl. rewrite <- Hlen, substring_all. done.
Qed.

Section flatten.
Context (blake2b64 : list Z → string).
Context (Hhex : ∀ bs, str_forall is_hex_digit (blake2b64 bs) = true).

(** A path every segment of which survives encoding: none is over-long, and none is
    the marker text of a digest. *)
Definition plain_path (rel : text) : Prop :=
  ∀ s bs, s ∈ split_text SLASH rel → utf8_encode s = Some bs →
    ¬ over_long bs ∧ s ≠ HASHED_LABEL.

Lemma decode_segment_encode path s l bs :
  encode_path_label blake2b64 s = Ok l → utf8_encode s = Some bs → ¬ over_long bs →
  s ≠ HASHED_LABEL → decode_segment path l = Ok s.
Proof.
  intros He Hu Ho Hh. unfold decode_segment.
  assert (decode_path_label l = Ok s) as ->; [|by rewrite bool_decide_eq_false_2].
  apply encode_cases in He as [[-> ->]|(Hs & bs' & Hu' & [[_ ->]|[Ho' _]])]; [done|..];
    rewrite Hu in Hu'; injection Hu' as <-; [by apply decode_encode|done].
Qed.

Lemma rel_path_roundtrip rel u path :
  path_to_ltree blake2b64 rel (Some u) SLASH = Ok path → plain_path rel →
  _ltree_to_rel_path path true = Ok rel.
Proof using Hhex.
  intros He Hp. apply split_path_to_ltree in He as (ls & Hls & HF); [|done].
  unfold _ltree_to_rel_path. rewrite Hls. cbv zeta iota. rewrite library_label_matches.
  simpl. rewrite result_bind_ok. exists (split_text SLASH rel).
  split; [|by rewrite join_split_text].
  apply result_mapM_ok. unfold plain_path in Hp. clear Hls. revert Hp.
  induction HF as [|s l ss ls' Hs HF IH]; intros Hp; constructor.
  - destruct (utf8_encode s) as [bs|] eqn:Hu; [|by rewrite encode_error in Hs].
    destruct (Hp s bs) as [Ho Hh]; [left|done|]. by eapply decode_segment_encode.
  - apply IH. intros s' bs Hin. apply Hp. by right.
Qed.

(** The grant allows [rel] of some library. *)
Definition allows_path (g : PathGrant) (rel : text) : Prop :=
  g_allow g = true ∧ plain_path rel ∧
  ∃ u, path_to_ltree blake2b64 rel (Some u) SLASH = Ok (g_path g).

Lemma flatten_loop_ok gs rels acc :
  Forall2 allows_path gs rels →
  flatten_loop true gs acc = Ok (acc ∪ list_to_set (rels ≫= scope_globs)).
Proof using Hhex.
  intros HF. revert acc. induction HF as [|g rel gs rels (Ha & Hp & u & Hg) HF IH]; intros acc.
  { simpl. f_equal. set_solver. }
  cbn [flatten_loop]. rewrite Ha, (rel_path_roundtrip rel u) by done.
  cbn [negb result_bind mbind list_bind]. rewrite IH, list_to_set_app_L. f_equal. set_solver.
Qed.
End flatten.

Lemma flatten_loop_deny strip gs acc g :
  g ∈ gs → g_allow g = false → ∃ e, flatten_loop strip gs acc = Err e.
Proof.
  intros Hin Hd. revert acc. induction Hin as [g gs|g g' gs Hin IH]; intros acc; simpl.
  - rewrite Hd. eauto.
  - destruct (g_allow g'); simpl; [|eauto].
    destruct (_ltree_to_rel_path _ _); simpl; eauto.
Qed.

Lemma decode_hashed path l :
  startswith l HASH_SENTINEL = true → decode_segment path l = Err (HashedLabel path).
Proof.
  intros Hl. unfold decode_segment, decode_path_label. rewrite Hl.
  by case bool_decide_reflect; [intros ->|].
Qed.

Lemma mapM_decode_hashed path ls l :
  l ∈ ls → startswith l HASH_SENTINEL = true → ∃ e, result_mapM (decode_segment path) ls = Err e.
Proof.
  intros Hin Hl. induction Hin as [l ls|l l' ls Hin IH]; simpl.
  - rewrite decode_hashed by done. eauto.
  - destruct (decode_segment path l'); simpl; [|eauto]. destruct (IH Hl) as [e ->]. simpl. eauto.
Qed.

Lemma hashed_not_library l :
  startswith l HASH_SENTINEL = true → _LIB_LABEL_RE l = false.
Proof.
  rewrite startswith_spec. intros [r ->]. unfold _LIB_LABEL_RE.
  change (HASH_SENTINEL +:+ r) with (String "h" (String "_" (String "_" r))).
  by rewrite strip_newline_cons.
Qed.

Lemma ltree_hashed path strip l :
  l ∈ split_char "." path → startswith l HASH_SENTINEL = true →
  ∃ e, _ltree_to_rel_path path strip = Err e.
Proof.
  intros Hin Hl. unfold _ltree_to_rel_path.
  assert (∀ ls, l ∈ ls → ∃ e, result_bind (result_mapM (decode_segment path) ls)
    (λ segments, Ok (join_text SLASH segments)) = Err e) as Hm.
  { intros ls H. destruct (mapM_decode_hashed path ls l H Hl) as [e ->]. simpl. eauto. }
  destruct (split_char "." path) as [|l0 rest]; [by apply Hm|]. cbv zeta.
  destruct (strip && _LIB_LABEL_RE l0) eqn:Hs; [|by apply Hm]. apply Hm.
  apply andb_true_iff in Hs as [_ Hs].
  apply elem_of_cons in Hin as [->|Hin]; [by rewrite hashed_not_library in Hs|done].
Qed.

Lemma flatten_loop_hashed strip gs acc g l :
  g ∈ gs → l ∈ split_char "." (g_path g) → startswith l HASH_SENTINEL = true →
  ∃ e, flatten_loop strip gs acc = Err e.
Proof.
  intros Hin Hl Hh. revert acc. induction Hin as [g gs|g g' gs Hin IH]; intros acc; simpl.
  - destruct (g_allow g); simpl; [|eauto].
    destruct (ltree_hashed (g_path g) strip l Hl Hh) as [e ->]. simpl. eauto.
  - destruct (g_allow g'); simpl; [|eauto].
    destruct (_ltree_to_rel_path _ _); simpl; eauto.
Qed.

(** ** Properties *)

(** C38: flattening is exact on the grants it accepts: when every read grant is an allow
    on the encoded path of a relative path of some library, the predicate list is,
    sorted and without duplicates, the path itself and its subtree for each of them
    ("**" for a library root), whatever the other actions' grants are. *)
Theorem flatten_exact blake2b64 grants read_action rels :
  (∀ bs, str_forall is_hex_digit (blake2b64 bs) = true) →
  Forall2 (allows_path blake2b64)
    (filterb (λ g, bool_decide (g_action g = read_action)) grants) rels →
  flatten_path_grants grants read_action true =
    Ok (sorted_texts (list_to_set (rels ≫= scope_globs))).
Proof.
  intros Hhex HF. unfold flatten_path_grants.
  rewrite (flatten_loop_ok blake2b64 Hhex _ rels) by done. simpl. by rewrite (left_id_L ∅ _).
Qed.

(** Flattening never widens a scope it cannot express: a deny for the read action,
    or a digest label anywhere in a read grant, makes the whole list an error. *)
Theorem flatten_fail_closed grants read_action strip g :
  g ∈ grants → g_action g = read_action →
  g_allow g = false ∨ (∃ l, l ∈ split_char "." (g_path g) ∧ startswith l HASH_SENTINEL = true) →
  ∃ e, flatten_path_grants grants read_action strip = Err e.
Proof.
  intros Hin Ha Hbad. unfold flatten_path_grants.
  assert (g ∈ filterb (λ g, bool_decide (g_action g = read_action)) grants) as Hf
    by (rewrite elem_of_filterb, bool_decide_eq_true; done).
  destruct Hbad as [Hd|(l & Hl & Hh)].
  - destruct (flatten_loop_deny strip _ ∅ g Hf Hd) as [e ->]. simpl. eauto.
  - destruct (flatten_loop_hashed strip _ ∅ g l Hf Hl Hh) as [e ->]. simpl. eauto.
Qed.

Definition lib_one : string := library_label 1.

(** A read grant on "a/b", one on the library root and a modify deny. *)
Definition policy_grants : list PathGrant :=
  [grant (lib_one +:+ ".a.b") "search_metadata" true;
   grant (lib_one +:+ "._") "search_metadata" true;
   grant (lib_one +:+ ".a") "modify" false].

Lemma plain_example rel :
  forallb (λ s, match utf8_encode s with
    | Some bs => (String.length (bytes_label bs) <=? 200)%nat
    | None => true end && negb (bool_decide (s = HASHED_LABEL))) (split_text SLASH rel) = true →
  plain_path rel.
Proof.
  rewrite forallb_elem. intros H s bs Hs Hu. specialize (H s Hs). rewrite Hu in H.
  bool_to_prop. apply Nat.leb_le in H. unfold over_long, LTREE_LABEL_MAX_ENCODED. split; [lia|done].
Qed.

Lemma flatten_exact_witness :
  flatten_path_grants policy_grants "search_metadata" true =
    Ok (sorted_texts (list_to_set ([[97; 47; 98]; []] ≫= scope_globs))).
Proof.
  apply (flatten_exact (λ _, "")); [done|].
  change (filterb _ policy_grants) with
    [grant (lib_one +:+ ".a.b") "search_metadata" true; grant (lib_one +:+ "._") "search_metadata" true].
  assert (∀ p rel, path_to_ltree (λ _, "") rel (Some 1) SLASH = Ok p → plain_path rel →
    allows_path (λ _, "") (grant p "search_metadata" true) rel) as Ha.
  { intros p rel Hp Hr. split_and!; [done|done|by exists 1]. }
  apply Forall2_cons; split; [|apply Forall2_cons; split; [|constructor]];
    (apply Ha; [vm_compute; reflexivity|apply plain_example; vm_compute; reflexivity]).
Defined.

Lemma flatten_fail_closed_witness :
  ∃ e, flatten_path_grants (grant "lib_x.a" "search_metadata" false :: policy_grants)
    "search_metadata" true = Err e.
Proof.
  apply (flatten_fail_closed _ _ _ (grant "lib_x.a" "search_metadata" false));
    [left|reflexivity|by left].
Defined.
