(* ===== verification/QueryDsl.v ===== *)
(** * The query language ([querydsl.py])

    Lexer, token parser, value parsers and printer of the query language.  The
    typed AST is the source's; [parse] returns a query or the exception it raises:
    [ParseError] with its position and code, or a [ValueError] of [int] (which
    rejects the superscript digits that [str.isdigit] accepts, and literals of more
    than 4300 digits).  A text is a string of the code points U+0000 to U+00FF; the
    source takes all of Unicode, and what lies above, its digits and spaces among it, is
    not modelled. *)
From S2P Require Import Prelude PyStr.
From Stdlib Require Import DecimalString DecimalN.
From stdpp Require Import options.

Inductive error_code :=
  | unterminated_quote | empty_value | fuzzy_on_filter | bad_size_value | bad_size_suffix
  | bad_time_value | bad_date | bad_hash | bad_range | bad_meta_key | bad_cf_key.

Inductive exn :=
  | ParseError (position : nat) (code : error_code)
  | ValueError.

Abbreviation res := (result exn).

(** ** Integers and strings *)

(** [sys.get_int_max_str_digits()] *)
Definition INT_MAX_STR_DIGITS : nat := 4300.

(** [int(s)] of a text without spaces, sign or underscores *)
Definition int (s : string) : res N :=
  match NilEmpty.uint_of_string s with
  | Some d =>
      if (INT_MAX_STR_DIGITS <? String.length s)%nat then Err ValueError else Ok (N.of_uint d)
  | None => Err ValueError
  end.

(** [str(n)] *)
Definition str_int (n : N) : res string :=
  let s := dec n in
  if (INT_MAX_STR_DIGITS <? String.length s)%nat then Err ValueError else Ok s.

(** [s[n:]] and [s[:n]] *)
Fixpoint str_drop (n : nat) (s : string) : string :=
  match n, s with S n', String _ s' => str_drop n' s' | _, _ => s end.
Fixpoint str_take (n : nat) (s : string) : string :=
  match n, s with S n', String c s' => String c (str_take n' s') | _, _ => "" end.

(** [s[:-1]] and [s[-1]] *)
Definition str_init (s : string) : string := str_take (String.length s - 1) s.
Definition str_last (s : string) : option ascii := String.get (String.length s - 1) s.

(** ["\.\." in s] and [s.split("\.\.")] *)
Fixpoint has_dots (s : string) : bool :=
  match s with "" => false | String _ s' => startswith s ".." || has_dots s' end.

Fixpoint split_dots (s : string) : list string :=
  match s with
  | "" => [""]
  | String c s' =>
      match s' with
      | String d s'' =>
          if Ascii.eqb c "." && Ascii.eqb d "." then "" :: split_dots s''
          else match split_dots s' with
               | [] => [String c ""]
               | w :: ws => String c w :: ws
               end
      | "" => [String c ""]
      end
  end.

(** [s.lstrip(".")] *)
Fixpoint lstrip_dot (s : string) : string :=
  match s with String c s' => if Ascii.eqb c "." then lstrip_dot s' else s | "" => "" end.

(** [c.upper()] for the characters whose upper case is in the suffix table *)
Definition upper_char (c : ascii) : ascii :=
  let n := code c in
  if ((97 <=? n) && (n <=? 122))%N then ascii_of_N (n - 32) else c.

(** ** Vocabulary *)

Definition KEYS : list string :=
  ["kind"; "group"; "ext"; "size"; "modified"; "created"; "path"; "tag"; "hash"].
Definition _LIST_KEYS : list string := ["ext"].
Definition _SIZE_KEYS : list string := ["size"].
Definition _TIME_KEYS : list string := ["modified"; "created"].
Definition _HASH_KEYS : list string := ["hash"].
Definition _LOWER_KEYS : list string := ["kind"; "group"; "ext"; "hash"].

Definition mem (x : string) (l : list string) : bool := bool_decide (x ∈ l).

Definition _SIZE_SUFFIX (c : ascii) : option N :=
  if Ascii.eqb c "K" then Some (1024 ^ 1)%N
  else if Ascii.eqb c "M" then Some (1024 ^ 2)%N
  else if Ascii.eqb c "G" then Some (1024 ^ 3)%N
  else if Ascii.eqb c "T" then Some (1024 ^ 4)%N else None.

Definition _DURATION_UNIT (c : ascii) : option N :=
  if Ascii.eqb c "s" then Some 1%N
  else if Ascii.eqb c "m" then Some 60%N
  else if Ascii.eqb c "h" then Some 3600%N
  else if Ascii.eqb c "d" then Some 86400%N
  else if Ascii.eqb c "w" then Some 604800%N else None.

Definition META_PREFIX : string := "meta.".
Definition CF_PREFIX : string := "cf.".
Definition MAX_DYNAMIC_KEY_LEN : nat := 64.

Definition key_char (c : ascii) : bool :=
  let n := code c in
  ((97 <=? n) && (n <=? 122) || (48 <=? n) && (n <=? 57) || (n =? 95))%N.

(** [[a-z0-9_]+] *)
Definition key_segment (s : string) : bool := negb (bool_decide (s = "")) && str_forall key_char s.

(** [_DYNAMIC_KEY_RE.fullmatch(sub)] *)
Fixpoint key_segments (segs : list string) : bool :=
  match segs with
  | [] => false
  | [s] => key_segment s || bool_decide (s = "*")
  | s :: rest => key_segment s && key_segments rest
  end.
Definition _DYNAMIC_KEY_RE (sub : string) : bool := key_segments (split_char "." sub).

(** [_HEX_RE.match]: [$] also matches before a final newline. *)
Definition _HEX_RE (s : string) : bool :=
  let body := strip_final_newline s in
  negb (bool_decide (body = "")) &&
  str_forall (λ c, let n := code c in ((48 <=? n) && (n <=? 57) || (97 <=? n) && (n <=? 102))%N) body.

(** ** The AST *)

Inductive filter_value :=
  | StringValue (value : string)
  | ListValue (values : list string)
  | SizeValue (op : string) (lo : N) (hi : option N)
  | DurationValue (op : string) (lo : N) (hi : option N)
  | DateValue (op : string) (lo : string) (hi : option string)
  | MetaValue (op : string) (lo : string) (hi : option string).

Record Term := mkTerm { t_value : string; t_negated : bool; t_fuzzy : bool }.
Record Filter := mkQFilter { f_key : string; f_value : filter_value; f_negated : bool }.
Record Query := mkQuery { terms : list Term; filters : list Filter }.

(** [Query.fuzzy] *)
Definition fuzzy (q : Query) : bool := existsb t_fuzzy (terms q).

(** ** Value parsers *)

Definition _read_comparator (val : string) : option string * string :=
  if mem (str_take 2 val) [">="; "<="] then (Some (str_take 2 val), str_drop 2 val)
  else if mem (str_take 1 val) [">"; "<"; "="] then (Some (str_take 1 val), str_drop 1 val)
  else (None, val).

Definition _parse_size_num (s : string) (pos : nat) : res N :=
  match str_last s with
  | None => Err (ParseError pos bad_size_value)
  | Some c =>
      sn <-! (if is_alpha c then
                match _SIZE_SUFFIX (upper_char c) with
                | Some m => Ok (m, str_init s)
                | None => Err (ParseError pos bad_size_suffix)
                end
              else Ok (1%N, s));
      let '(m, numpart) := sn in
      if bool_decide (numpart = "") || negb (str_forall is_digit numpart)
      then Err (ParseError pos bad_size_value)
      else n <-! int numpart; Ok (n * m)%N
  end.

Definition _parse_size (val : string) (pos : nat) : res filter_value :=
  let '(op, rest) := _read_comparator val in
  match op with
  | None =>
      if has_dots val then
        match split_dots val with
        | [a; b] =>
            if bool_decide (a = "") || bool_decide (b = "") then Err (ParseError pos bad_range)
            else lo <-! _parse_size_num a pos; hi <-! _parse_size_num b pos;
                 Ok (SizeValue "range" lo (Some hi))
        | _ => Err (ParseError pos bad_range)
        end
      else n <-! _parse_size_num val pos; Ok (SizeValue "=" n None)
  | Some op =>
      if has_dots rest then Err (ParseError pos bad_range)
      else n <-! _parse_size_num rest pos; Ok (SizeValue op n None)
  end.

(** [^\d{4}-\d{2}-\d{2}$] ([$]: an optional final newline) *)
Definition _DATE_RE (s : string) : bool :=
  match strip_final_newline s with
  | String a (String b (String c (String d (String h1 (String e (String f (String h2
      (String g (String h ""))))))))) =>
      forallb is_decimal [a; b; c; d; e; f; g; h] && Ascii.eqb h1 "-" && Ascii.eqb h2 "-"
  | _ => false
  end.

Definition digit_val (c : ascii) : Z := Z.of_N (code c) - 48.

Definition is_leap (y : Z) : bool :=
  (y mod 4 =? 0) && (negb (y mod 100 =? 0) || (y mod 400 =? 0)).

Definition days_in_month (y m : Z) : Z :=
  if m =? 2 then (if is_leap y then 29 else 28)
  else if bool_decide (m ∈ [4; 6; 9; 11]) then 30 else 31.

(** [date.fromisoformat(s)] of a text [_DATE_RE] matches: year, month and day, [None]
    where it raises [ValueError]. *)
Definition fromisoformat (s : string) : option (Z * Z * Z) :=
  match s with
  | String a (String b (String c (String d (String _ (String e (String f (String _
      (String g (String h ""))))))))) =>
      let y := 1000 * digit_val a + 100 * digit_val b + 10 * digit_val c + digit_val d in
      let m := 10 * digit_val e + digit_val f in
      let dd := 10 * digit_val g + digit_val h in
      if (1 <=? y) && (1 <=? m) && (m <=? 12) && (1 <=? dd) && (dd <=? days_in_month y m)
      then Some (y, m, dd) else None
  | _ => None
  end.

(** [_DURATION_RE.match(s)]: the groups [\d+] and the unit *)
Definition _DURATION_RE (s : string) : option (string * N) :=
  let body := strip_final_newline s in
  match str_last body with
  | Some c =>
      match _DURATION_UNIT c with
      | Some u =>
          let digits := str_init body in
          if negb (bool_decide (digits = "")) && str_forall is_decimal digits
          then Some (digits, u) else None
      | None => None
      end
  | None => None
  end.

Inductive time_atom :=
  | Date (s : string)
  | Duration (seconds : N).

Definition _parse_time_atom (s : string) (pos : nat) : res time_atom :=
  if bool_decide (s = "") then Err (ParseError pos bad_time_value)
  else if _DATE_RE s then
    match fromisoformat s with
    | Some _ => Ok (Date s)
    | None => Err (ParseError pos bad_date)
    end
  else match _DURATION_RE s with
       | Some (digits, u) => n <-! int digits; Ok (Duration (n * u))
       | None => Err (ParseError pos bad_time_value)
       end.

Definition _build_time (op : string) (a : time_atom) : filter_value :=
  match a with
  | Date s => DateValue op s None
  | Duration n => DurationValue op n None
  end.

Definition _parse_time (val : string) (pos : nat) : res filter_value :=
  let '(op, rest) := _read_comparator val in
  match op with
  | None =>
      if has_dots val then
        match split_dots val with
        | [a; b] =>
            if bool_decide (a = "") || bool_decide (b = "") then Err (ParseError pos bad_range)
            else
              v1 <-! _parse_time_atom a pos; v2 <-! _parse_time_atom b pos;
              match v1, v2 with
              | Date s1, Date s2 => Ok (DateValue "range" s1 (Some s2))
              | Duration n1, Duration n2 => Ok (DurationValue "range" n1 (Some n2))
              | _, _ => Err (ParseError pos bad_range)
              end
        | _ => Err (ParseError pos bad_range)
        end
      else v <-! _parse_time_atom val pos; Ok (_build_time "=" v)
  | Some op =>
      if has_dots rest then Err (ParseError pos bad_range)
      else v <-! _parse_time_atom rest pos; Ok (_build_time op v)
  end.

Definition _parse_meta_value (val : string) (pos : nat) : res filter_value :=
  let '(op, rest) := _read_comparator val in
  match op with
  | None =>
      if has_dots val then
        match split_dots val with
        | [a; b] =>
            if bool_decide (a = "") || bool_decide (b = "") then Err (ParseError pos bad_range)
            else Ok (MetaValue "range" a (Some b))
        | _ => Err (ParseError pos bad_range)
        end
      else Ok (MetaValue "=" val None)
  | Some op =>
      if has_dots rest then Err (ParseError pos bad_range)
      else if bool_decide (rest = "") then Err (ParseError pos empty_value)
      else Ok (MetaValue op rest None)
  end.

Definition _is_dynamic_key (key : string) : bool :=
  startswith key META_PREFIX || startswith key CF_PREFIX.

(** The subkey [_validate_dynamic_key] inspects *)
Definition dynamic_sub (key : string) : string :=
  if startswith key META_PREFIX then str_drop 5 key else str_drop 3 key.

Definition sub_ok (sub : string) : bool :=
  negb (bool_decide (sub = "")) && (String.length sub <=? MAX_DYNAMIC_KEY_LEN)%nat &&
  _DYNAMIC_KEY_RE sub.

Definition _validate_dynamic_key (key : string) (pos : nat) : res () :=
  let code := if startswith key META_PREFIX then bad_meta_key else bad_cf_key in
  if sub_ok (dynamic_sub key) then Ok () else Err (ParseError pos code).

(** The body of the loop over the items of a list value *)
Definition list_item (pos : nat) (part : string) : res string :=
  let part := lstrip_dot part in
  if bool_decide (part = "") then Err (ParseError pos empty_value) else Ok part.

Definition _parse_filter_value (key val : string) (pos : nat) : res filter_value :=
  if bool_decide (val = "") then Err (ParseError pos empty_value)
  else if _is_dynamic_key key then _parse_meta_value val pos
  else
    let val := if mem key _LOWER_KEYS then lower val else val in
    if mem key _LIST_KEYS then
      out <-! result_mapM (list_item pos) (split_char ";" val);
      Ok (ListValue out)
    else if mem key _HASH_KEYS then
      if _HEX_RE val then Ok (StringValue val) else Err (ParseError pos bad_hash)
    else if mem key _SIZE_KEYS then _parse_size val pos
    else if mem key _TIME_KEYS then _parse_time val pos
    else Ok (StringValue val).

(** ** Lexer *)

(** (character, in_quote, original_index) *)
Definition Char : Type := ascii * bool * nat.
Definition ch (x : Char) : ascii := x.1.1.
Definition quoted (x : Char) : bool := x.1.2.
Definition index (x : Char) : nat := x.2.

Definition QUOTE : ascii := "034".

(** The loop of [_lex] over [s[i:]]. *)
Fixpoint lex_loop (s : string) (i : nat) (tokens : list (list Char)) (cur : option (list Char))
    (in_quote : bool) (quote_start : nat) : res (list (list Char)) :=
  match s with
  | "" =>
      if in_quote then Err (ParseError quote_start unterminated_quote)
      else Ok (match cur with Some t => tokens ++ [t] | None => tokens end)
  | String c s' =>
      if in_quote then
        if Ascii.eqb c QUOTE then lex_loop s' (S i) tokens cur false quote_start
        else lex_loop s' (S i) tokens ((λ t, t ++ [(c, true, i)]) <$> cur) true quote_start
      else if Ascii.eqb c QUOTE then
        lex_loop s' (S i) tokens (Some (default [] cur)) true i
      else if is_space c then
        match cur with
        | Some t => lex_loop s' (S i) (tokens ++ [t]) None false quote_start
        | None => lex_loop s' (S i) tokens None false quote_start
        end
      else lex_loop s' (S i) tokens (Some (default [] cur ++ [(c, false, i)])) false quote_start
  end.

Definition _lex (s : string) : res (list (list Char)) := lex_loop s 0 [] None false 0.

(** ** Token parser *)

(** ["".join(c for c, _, _ in chars)] *)
Definition char_text (l : list Char) : string := foldr (λ x s, String (ch x) s) "" l.

(** A leading unquoted character of [set], with its index *)
Definition take_prefix (set : string) (pairs : list Char) : option nat * list Char :=
  match pairs with
  | x :: rest => if negb (quoted x) && has_char (ch x) set then (Some (index x), rest) else (None, pairs)
  | [] => (None, pairs)
  end.

(** The index of the first unquoted colon *)
Fixpoint find_colon (l : list Char) : option nat :=
  match l with
  | [] => None
  | x :: rest => if Ascii.eqb (ch x) ":" && negb (quoted x) then Some 0%nat else S <$> find_colon rest
  end.

Definition _parse_token (pairs : list Char) : res (option (Term + Filter)) :=
  let '(neg_pos, pairs) := take_prefix "-!" pairs in
  let '(fuzzy_pos, rest) := take_prefix "~" pairs in
  let negated := bool_decide (is_Some neg_pos) in
  let fuzzy := bool_decide (is_Some fuzzy_pos) in
  let term :=
    let value := char_text rest in
    if bool_decide (value = "") then None else Some (inl (mkTerm value negated fuzzy)) in
  match find_colon rest with
  | Some (S j) =>
      let colon := S j in
      let key_chars := take colon rest in
      let key := char_text key_chars in
      let key_unquoted := forallb (λ x, negb (quoted x)) key_chars in
      let key_pos := from_option index 0%nat (head key_chars) in
      let lkey := lower key in
      let is_known := mem lkey KEYS in
      let is_dynamic := _is_dynamic_key key in
      if key_unquoted && (is_known || is_dynamic) then
        match fuzzy_pos with
        | Some p => Err (ParseError p fuzzy_on_filter)
        | None =>
            _ <-! (if is_dynamic then _validate_dynamic_key key key_pos else Ok ());
            let store_key := if is_dynamic then key else lkey in
            let colon_index := from_option index 0%nat (rest !! colon) in
            let value := char_text (drop (S colon) rest) in
            fv <-! _parse_filter_value store_key value (S colon_index);
            Ok (Some (inr (mkQFilter store_key fv negated)))
        end
      else Ok term
  | _ => Ok term
  end.

Fixpoint parse_tokens (tokens : list (list Char)) : res (list (Term + Filter)) :=
  match tokens with
  | [] => Ok []
  | pairs :: rest =>
      node <-! _parse_token pairs;
      nodes <-! parse_tokens rest;
      Ok (match node with Some n => n :: nodes | None => nodes end)
  end.

Definition sum_left {A B} (x : A + B) : option A := match x with inl a => Some a | inr _ => None end.
Definition sum_right {A B} (x : A + B) : option B := match x with inr b => Some b | inl _ => None end.

Definition parse (s : string) : res Query :=
  tokens <-! _lex s;
  nodes <-! parse_tokens tokens;
  Ok (mkQuery (omap sum_left nodes) (omap sum_right nodes)).

(** ** Printer *)

Definition _needs_quote (v : string) : bool :=
  match v with
  | "" => true
  | String c _ =>
      str_exists is_space v || has_char ":" v || has_char c ("-!~" +:+ DQ)
  end.

Definition quote_if_needed (v : string) : string :=
  if _needs_quote v then DQ +:+ v +:+ DQ else v.

Definition op_str (op : string) : string := if bool_decide (op = "=") then "" else op.

(** [str(hi)] of the optional upper bound of a range: ["None"] when it is absent *)
Definition hi_str (hi : option string) : string := default "None" hi.

Definition value_str (v : filter_value) : res string :=
  match v with
  | StringValue s => Ok (quote_if_needed s)
  | ListValue l => Ok (join ";" l)
  | SizeValue op lo hi =>
      a <-! str_int lo;
      if bool_decide (op = "range") then
        b <-! match hi with Some h => str_int h | None => Ok "None" end;
        Ok (a +:+ ".." +:+ b)
      else Ok (op_str op +:+ a)
  | DurationValue op lo hi =>
      a <-! str_int lo;
      if bool_decide (op = "range") then
        b <-! match hi with Some h => str_int h | None => Ok "None" end;
        Ok (a +:+ "s.." +:+ b +:+ "s")
      else Ok (op_str op +:+ a +:+ "s")
  | DateValue op lo hi =>
      if bool_decide (op = "range") then Ok (lo +:+ ".." +:+ hi_str hi)
      else Ok (op_str op +:+ lo)
  | MetaValue op lo hi =>
      if bool_decide (op = "range") then Ok (lo +:+ ".." +:+ hi_str hi)
      else Ok (op_str op +:+ lo)
  end.

Definition term_str (t : Term) : string :=
  (if t_negated t then "-" else "") +:+ (if t_fuzzy t then "~" else "") +:+
  quote_if_needed (t_value t).

Definition filter_str (f : Filter) : res string :=
  v <-! value_str (f_value f);
  Ok ((if f_negated f then "-" else "") +:+ f_key f +:+ ":" +:+ v).

Definition query_str (q : Query) : res string :=
  fs <-! result_mapM filter_str (filters q);
  Ok (join " " (fs ++ map term_str (terms q))).
