(* ===== verification/QueryDslFacts.v ===== *)
(** * The query language: facts and properties

    What [parse] returns and raises, and the round trip with the printer. *)
From S2P Require Import Prelude PyStr QueryDsl.
From Stdlib Require Import DecimalString DecimalN DecimalPos.
From stdpp Require Import options.

(** ** Substrings keep what holds of every character *)

Lemma str_forall_drop f n s : str_forall f s = true → str_forall f (str_drop n s) = true.
Proof.
  revert s. induction n as [|n IH]; intros [|c s]; simpl; try done.
  intros [_ Hs]%andb_true_iff. by apply IH.
Qed.

Lemma str_forall_take f n s : str_forall f s = true → str_forall f (str_take n s) = true.
Proof.
  revert s. induction n as [|n IH]; intros [|c s]; simpl; try done.
  intros [-> Hs]%andb_true_iff. by apply IH.
Qed.

Lemma str_forall_init f s : str_forall f s = true → str_forall f (str_init s) = true.
Proof. apply str_forall_take. Qed.

Lemma str_forall_lstrip f s : str_forall f s = true → str_forall f (lstrip_dot s) = true.
Proof.
  induction s as [|c s IH]; simpl; [done|]. destruct (Ascii.eqb c "."); [|done].
  intros [_ Hs]%andb_true_iff. by apply IH.
Qed.

Lemma str_forall_split f sep s w :
  str_forall f s = true → w ∈ split_char sep s → str_forall f w = true.
Proof.
  revert w. induction s as [|c s IH]; intros w; simpl.
  { intros _ ->%list_elem_of_singleton. done. }
  intros [Hc Hs]%andb_true_iff. destruct (Ascii.eqb c sep).
  { intros [->|Hw]%elem_of_cons; [done|by apply IH]. }
  destruct (split_char sep s) as [|w0 ws].
  { intros ->%list_elem_of_singleton. simpl. by rewrite Hc. }
  intros [->|Hw]%elem_of_cons; [simpl; rewrite Hc; apply IH; [done|left]|].
  apply IH; [done|by right].
Qed.

Lemma length_str_drop n s : (String.length (str_drop n s) ≤ String.length s)%nat.
Proof. revert s. induction n as [|n IH]; intros [|c s]; simpl; try lia. specialize (IH s). lia. Qed.

Lemma length_str_take n s : (String.length (str_take n s) ≤ String.length s)%nat.
Proof. revert s. induction n as [|n IH]; intros [|c s]; simpl; try lia. specialize (IH s). lia. Qed.

Lemma take_drop_str n s : str_take n s +:+ str_drop n s = s.
Proof.
  revert s. induction n as [|n IH]; intros [|c s]; simpl; try done.
  by rewrite app_cons_str, IH.
Qed.

(** *** [split("..")] *)

Lemma split_dots_cons c s :
  split_dots (String c s) =
  if Ascii.eqb c "." && startswith s "." then "" :: split_dots (str_drop 1 s)
  else match split_dots s with [] => [String c ""] | w :: ws => String c w :: ws end.
Proof.
  destruct s as [|d s]; [by destruct (Ascii.eqb c ".")|].
  change (startswith (String d s) ".") with (Ascii.eqb "." d && true).
  rewrite andb_true_r, (Ascii.eqb_sym "." d).
  change (split_dots (String c (String d s))) with
    (if Ascii.eqb c "." && Ascii.eqb d "." then "" :: split_dots s
     else match split_dots (String d s) with
          | [] => [String c ""] | w :: ws => String c w :: ws end).
  done.
Qed.

Lemma split_dots_ind (P : string → Prop) :
  P "" → (∀ c s, P s → P (str_drop 1 s) → P (String c s)) → ∀ s, P s.
Proof.
  intros H0 HS s.
  assert (P s ∧ P (str_drop 1 s)) as [H _]; [|exact H].
  induction s as [|c s [IH1 IH2]]; [done|]. split; [by apply HS|exact IH1].
Qed.

Lemma split_dots_not_nil s : split_dots s ≠ [].
Proof. destruct s as [|c s]; [done|]. rewrite split_dots_cons. repeat case_match; done. Qed.

Lemma join_split_dots s : join ".." (split_dots s) = s.
Proof.
  induction s as [|c s IH1 IH2] using split_dots_ind; [done|]. rewrite split_dots_cons.
  destruct (Ascii.eqb c "." && startswith s ".") eqn:Hd.
  - apply andb_true_iff in Hd as [->%Ascii.eqb_eq Hs].
    rewrite join_cons by apply split_dots_not_nil. rewrite IH2.
    apply startswith_spec in Hs as [r ->]. done.
  - destruct (split_dots s) as [|w ws] eqn:Hs; [by apply split_dots_not_nil in Hs|].
    rewrite <- IH1. by destruct ws.
Qed.

Lemma str_forall_split_dots f s w :
  str_forall f s = true → w ∈ split_dots s → str_forall f w = true.
Proof.
  revert w. induction s as [|c s IH1 IH2] using split_dots_ind; intros w.
  { intros _ ->%list_elem_of_singleton. done. }
  rewrite split_dots_cons. cbn [str_forall]. intros [Hc Hs]%andb_true_iff.
  destruct (Ascii.eqb c "." && startswith s ".").
  { intros [->|Hw]%elem_of_cons; [done|]. apply IH2; [by apply str_forall_drop|done]. }
  destruct (split_dots s) as [|w0 ws].
  { intros ->%list_elem_of_singleton. simpl. by rewrite Hc. }
  intros [->|Hw]%elem_of_cons; [simpl; rewrite Hc; apply IH1; [done|left]|].
  apply IH1; [done|by right].
Qed.

Lemma split_dots_pair s a b : split_dots s = [a; b] → s = a +:+ ".." +:+ b.
Proof. intros H. by rewrite <- (join_split_dots s), H. Qed.

Lemma split_dots_fresh a b :
  has_char "." a = false → split_dots b = [b] → split_dots (a +:+ ".." +:+ b) = [a; b].
Proof.
  unfold has_char. intros Ha Hb. induction a as [|c a IH].
  - change ("" +:+ ".." +:+ b) with (String "." (String "." b)). simpl. by rewrite Hb.
  - rewrite app_cons_str. cbn [str_exists] in Ha. apply orb_false_iff in Ha as [Hc Ha].
    rewrite split_dots_cons, (Ascii.eqb_sym c), Hc. cbn [andb]. by rewrite (IH Ha).
Qed.

Lemma split_dots_single b : has_char "." b = false → split_dots b = [b].
Proof.
  unfold has_char. induction b as [|c b IH]; [done|]. cbn [str_exists].
  intros [Hc Hb]%orb_false_iff.
  rewrite split_dots_cons, (Ascii.eqb_sym c), Hc. cbn [andb]. by rewrite (IH Hb).
Qed.

Lemma has_dots_app a b : has_dots (a +:+ ".." +:+ b) = true.
Proof. induction a as [|c a IH]; [done|]. rewrite app_cons_str. simpl. rewrite IH. apply orb_true_r. Qed.

Lemma has_dots_fresh s : has_char "." s = false → has_dots s = false.
Proof.
  unfold has_char. induction s as [|c s IH]; [done|]. simpl. intros [Hc Hs]%orb_false_iff.
  rewrite (IH Hs), orb_false_r. by rewrite Hc.
Qed.

(** ** The comparator *)

Definition CMP : list string := [">="; "<="; ">"; "<"; "="].

Lemma read_comparator_some val op rest :
  _read_comparator val = (Some op, rest) → val = op +:+ rest ∧ op ∈ CMP.
Proof.
  unfold _read_comparator, mem. case_bool_decide as H2; [|case_bool_decide as H1; [|done]];
    intros Heq; apply pair_equal_spec in Heq as [Heq Hr]; apply (inj Some) in Heq;
    rewrite <- Heq, <- Hr, take_drop_str; (split; [done|set_solver]).
Qed.

Lemma read_comparator_none val rest : _read_comparator val = (None, rest) → rest = val.
Proof. unfold _read_comparator. repeat case_match; by intros [= <-]. Qed.

(** A text that does not start with a comparator character has no comparator. *)
Definition no_cmp (s : string) : bool :=
  match s with "" => true | String c _ => negb (has_char c "><=") end.

Lemma read_comparator_plain s : no_cmp s = true → _read_comparator s = (None, s).
Proof.
  destruct s as [|c s]; [done|]. unfold no_cmp, _read_comparator, mem. intros Hc.
  rewrite !bool_decide_eq_false_2; [done|..];
    intros Hin; destruct s; simpl in Hin;
    repeat (apply elem_of_cons in Hin as [Hin|Hin]; [injection Hin as ->; done|]);
    by apply elem_of_nil in Hin.
Qed.

Lemma read_comparator_one o s :
  o ∈ [">"; "<"; "="]%char → o = "="%char ∨ startswith s "=" = false →
  _read_comparator (String o s) = (Some (String o ""), s).
Proof.
  intros Ho Hs. unfold _read_comparator, mem. rewrite bool_decide_eq_false_2.
  - rewrite bool_decide_eq_true_2; [done|].
    repeat (apply elem_of_cons in Ho as [->|Ho]; [set_solver|]). by apply elem_of_nil in Ho.
  - intros Hin. destruct s as [|c s].
    { repeat (apply elem_of_cons in Hin as [Hin|Hin]; [done|]). by apply elem_of_nil in Hin. }
    change (str_take 2 (String o (String c s))) with (String o (String c "")) in Hin.
    assert (c = "="%char ∧ o ≠ "="%char) as [-> Hne].
    { repeat (apply elem_of_cons in Hin as [Hin|Hin]; [by injection Hin as -> ->|]).
      by apply elem_of_nil in Hin. }
    by destruct Hs.
Qed.

Lemma read_comparator_two op s : op ∈ [">="; "<="] → _read_comparator (op +:+ s) = (Some op, s).
Proof. intros H. by elem_cases H. Qed.

(** ** What the parsers raise *)

Definition superscript (c : ascii) : bool := is_digit c && negb (is_decimal c).

(** No superscript digit, and at most 4300 characters: every number is one [int] reads. *)
Definition tame (s : string) : bool :=
  str_forall (λ c, negb (superscript c)) s && (String.length s <=? INT_MAX_STR_DIGITS)%nat.

Lemma tame_le s t :
  (str_forall (λ c, negb (superscript c)) s = true → str_forall (λ c, negb (superscript c)) t = true) →
  (String.length t ≤ String.length s)%nat → tame t = false → tame s = false.
Proof.
  unfold tame. rewrite !andb_false_iff, !Nat.leb_gt. intros Hf Hl [Ht|Ht]; [left|right; lia].
  destruct (str_forall _ s); [by rewrite Hf in Ht|done].
Qed.

Lemma tame_drop n s : tame (str_drop n s) = false → tame s = false.
Proof. apply tame_le; [apply str_forall_drop|apply length_str_drop]. Qed.

Lemma tame_init s : tame (str_init s) = false → tame s = false.
Proof. apply tame_le; [apply str_forall_init|apply length_str_take]. Qed.

Lemma length_split_dots s w : w ∈ split_dots s → (String.length w ≤ String.length s)%nat.
Proof.
  revert w. induction s as [|c s IH1 IH2] using split_dots_ind; intros w.
  { intros ->%list_elem_of_singleton. done. }
  rewrite split_dots_cons. pose proof (length_str_drop 1 s) as Hd. cbn [String.length].
  destruct (Ascii.eqb c "." && startswith s ".").
  { intros [->|Hw]%elem_of_cons; [simpl; lia|]. specialize (IH2 w Hw). lia. }
  destruct (split_dots s) as [|w0 ws].
  { intros ->%list_elem_of_singleton. simpl. lia. }
  intros [->|Hw]%elem_of_cons.
  - specialize (IH1 w0 ltac:(left)). simpl. lia.
  - specialize (IH1 w ltac:(by right)). lia.
Qed.

Lemma tame_split_dots s w : w ∈ split_dots s → tame w = false → tame s = false.
Proof.
  intros Hw. apply tame_le; [|by apply length_split_dots].
  intros Hs. by eapply str_forall_split_dots.
Qed.

Lemma strip_newline_take s : strip_final_newline s = s ∨ strip_final_newline s = str_init s.
Proof.
  induction s as [|c s IH]; [by left|]. destruct s as [|d s].
  - simpl. destruct (Ascii.eqb c "010"); [by right|by left].
  - change (strip_final_newline (String c (String d s))) with
      (String c (strip_final_newline (String d s))).
    destruct IH as [-> | ->]; [by left|right].
    unfold str_init. cbn [String.length]. rewrite !Nat.sub_succ, !Nat.sub_0_r. done.
Qed.

Lemma tame_strip s : tame (strip_final_newline s) = false → tame s = false.
Proof. destruct (strip_newline_take s) as [-> | ->]; [done|apply tame_init]. Qed.

Lemma str_forall_strip f s : str_forall f s = true → str_forall f (strip_final_newline s) = true.
Proof. destruct (strip_newline_take s) as [-> | ->]; [done|apply str_forall_init]. Qed.

(** The outcome is a value, a [ParseError] at a position that satisfies [P], or a
    [ValueError] whose cause is in [s]. *)
Definition raises {A} (P : nat → Prop) (s : string) (r : res A) : Prop :=
  match r with
  | Ok _ => True
  | Err (ParseError p _) => P p
  | Err ValueError => tame s = false
  end.

Lemma raises_bind {A B} P s (r : res A) (f : A → res B) :
  raises P s r → (∀ a, r = Ok a → raises P s (f a)) → raises P s (x <-! r; f x).
Proof. destruct r as [a|[p c|]]; simpl; auto. Qed.

Lemma raises_sub {A} (P Q : nat → Prop) s t (r : res A) :
  (tame t = false → tame s = false) → (∀ p, P p → Q p) → raises P t r → raises Q s r.
Proof. destruct r as [a|[p c|]]; simpl; auto. Qed.

Lemma uint_of_decimals s : str_forall is_decimal s = true → is_Some (NilEmpty.uint_of_string s).
Proof.
  induction s as [|c s IH]; [by eexists|]. cbn [str_forall]. intros [Hc Hs]%andb_true_iff.
  destruct (IH Hs) as [d Hd]. cbn [NilEmpty.uint_of_string]. rewrite Hd. clear -Hc.
  destruct c as [[] [] [] [] [] [] [] []]; try done; by eexists.
Qed.

Lemma int_raises (P : nat → Prop) s : str_forall is_digit s = true → raises P s (int s).
Proof.
  intros Hs. unfold int. destruct (NilEmpty.uint_of_string s) as [d|] eqn:Hd; simpl.
  - destruct (Nat.ltb_spec INT_MAX_STR_DIGITS (String.length s)); simpl; [|done].
    unfold tame. apply andb_false_iff. right. by apply Nat.leb_gt.
  - unfold tame. apply andb_false_iff. left.
    destruct (str_forall (λ c, negb (superscript c)) s) eqn:Hf; [|done]. exfalso.
    destruct (uint_of_decimals s) as [d Hd']; [|by rewrite Hd in Hd'].
    clear Hd. induction s as [|c s IH]; [done|]. cbn [str_forall] in *. unfold superscript in *.
    apply andb_true_iff in Hs as [Hc Hs], Hf as [Hc' Hf]. rewrite IH by done.
    rewrite Hc in Hc'. cbn [andb] in Hc'. by destruct (is_decimal c).
Qed.

Lemma parse_size_num_raises s pos : raises (eq pos) s (_parse_size_num s pos).
Proof.
  unfold _parse_size_num. destruct (str_last s) as [c|]; [|done].
  destruct (is_alpha c); [destruct (_SIZE_SUFFIX (upper_char c)) as [m|]; [|done]|];
    cbn [result_bind]; (destruct (_ || _) eqn:Hd; [done|]); bool_to_prop;
    apply raises_bind; try done; [|by apply int_raises].
  eapply raises_sub, int_raises; [apply tame_init|done|done].
Qed.

Lemma comparator_rest val op rest :
  _read_comparator val = (op, rest) → tame rest = false → tame val = false.
Proof.
  unfold _read_comparator. repeat case_match; intros [= <- <-]; [apply (tame_drop 2)|apply (tame_drop 1)|done].
Qed.

Lemma parse_size_raises val pos : raises (eq pos) val (_parse_size val pos).
Proof.
  unfold _parse_size. destruct (_read_comparator val) as [op rest] eqn:Hc.
  pose proof (comparator_rest _ _ _ Hc) as Hr.
  destruct op as [op|].
  - destruct (has_dots rest); [done|]. apply raises_bind; [|done].
    eapply raises_sub, parse_size_num_raises; done.
  - destruct (has_dots val); [|apply raises_bind; [apply parse_size_num_raises|done]].
    pose proof (tame_split_dots val) as Hs.
    destruct (split_dots val) as [|a [|b [|]]]; try done.
    destruct (_ || _); [done|].
    apply raises_bind; [|intros ? _; apply raises_bind; [|done]];
      eapply raises_sub, parse_size_num_raises; try done; apply Hs; set_solver.
Qed.

Lemma parse_time_atom_raises s pos : raises (eq pos) s (_parse_time_atom s pos).
Proof.
  unfold _parse_time_atom. destruct (bool_decide (s = "")); [done|].
  destruct (_DATE_RE s); [by destruct (fromisoformat s)|].
  destruct (_DURATION_RE s) as [[ds u]|] eqn:Hd; [|done].
  unfold _DURATION_RE in Hd. destruct (str_last _); [|done]. destruct (_DURATION_UNIT _); [|done].
  destruct (_ && _) eqn:Hg in Hd; [|done]. injection Hd as <- <-. bool_to_prop.
  apply raises_bind; [|done]. eapply raises_sub, int_raises; [|done|].
  - intros Ht. by apply tame_strip, tame_init.
  - eapply str_forall_impl; [|done]. intros c Hc. unfold is_digit. by rewrite Hc.
Qed.

Lemma parse_time_raises val pos : raises (eq pos) val (_parse_time val pos).
Proof.
  unfold _parse_time. destruct (_read_comparator val) as [op rest] eqn:Hc.
  pose proof (comparator_rest _ _ _ Hc) as Hr.
  destruct op as [op|].
  - destruct (has_dots rest); [done|]. apply raises_bind; [|done].
    eapply raises_sub, parse_time_atom_raises; done.
  - destruct (has_dots val); [|apply raises_bind; [apply parse_time_atom_raises|done]].
    pose proof (tame_split_dots val) as Hs.
    destruct (split_dots val) as [|a [|b [|]]]; try done.
    destruct (_ || _); [done|].
    apply raises_bind; [|intros v1 _; apply raises_bind; [|by intros v2 _; destruct v1, v2]];
      eapply raises_sub, parse_time_atom_raises; try done; apply Hs; set_solver.
Qed.

Lemma parse_meta_raises val pos : raises (eq pos) val (_parse_meta_value val pos).
Proof. unfold _parse_meta_value. repeat case_match; done. Qed.

Lemma known_not_lower key :
  mem key _LOWER_KEYS = true → mem key _LIST_KEYS = false → mem key _HASH_KEYS = false →
  mem key _SIZE_KEYS = false ∧ mem key _TIME_KEYS = false.
Proof.
  unfold mem. intros H _ _. bool_to_prop.
  by elem_cases H.
Qed.

Lemma list_items_raises (P : nat → Prop) s (pos : nat) l :
  P pos → raises P s (result_mapM (list_item pos) l).
Proof.
  intros HP. induction l as [|w l IH]; simpl; [done|].
  apply raises_bind; [by unfold list_item; destruct (bool_decide _)|intros ? _].
  by apply raises_bind.
Qed.

Lemma parse_filter_value_raises key val pos :
  raises (eq pos) val (_parse_filter_value key val pos).
Proof.
  unfold _parse_filter_value. destruct (bool_decide (val = "")); [done|].
  destruct (_is_dynamic_key key); [apply parse_meta_raises|].
  destruct (mem key _LIST_KEYS) eqn:Hl.
  { apply raises_bind; [by apply list_items_raises|done]. }
  destruct (mem key _HASH_KEYS) eqn:Hh; [by destruct (_HEX_RE _)|].
  destruct (mem key _LOWER_KEYS) eqn:Hlow.
  - destruct (known_not_lower key) as [-> ->]; done.
  - destruct (mem key _SIZE_KEYS); [apply parse_size_raises|].
    destruct (mem key _TIME_KEYS); [apply parse_time_raises|done].
Qed.

(** ** The lexer *)

Section lexer.
(** [f] holds of every character that is not a quote; [n] is the length of the input. *)
Context (f : ascii → bool) (n : nat).

Definition char_ok (x : Char) : Prop := f (ch x) = true ∧ ch x ≠ QUOTE ∧ (index x < n)%nat.

Definition token_ok (t : list Char) : Prop := Forall char_ok t ∧ (length t ≤ n)%nat.

Definition cur_ok (i : nat) (cur : option (list Char)) : Prop :=
  match cur with Some t => Forall char_ok t ∧ (length t ≤ i)%nat | None => True end.

Definition lexed (r : res (list (list Char))) : Prop :=
  match r with
  | Ok ts => Forall token_ok ts
  | Err (ParseError p c) => (p < n)%nat
  | Err ValueError => False
  end.

Lemma cur_ok_snoc i cur c q :
  cur_ok i cur → f c = true → c ≠ QUOTE → (i < n)%nat →
  cur_ok (S i) (Some (default [] cur ++ [(c, q, i)])).
Proof.
  intros Hc Hf Hq Hi. assert (Forall char_ok [(c, q, i)]) as H1 by (repeat constructor; done).
  destruct cur as [t|]; simpl in *.
  - destruct Hc as [Ht Hl]. rewrite length_app. simpl. split; [by apply Forall_app|lia].
  - split; [done|lia].
Qed.

Lemma cur_ok_mono i cur : cur_ok i cur → cur_ok (S i) cur.
Proof. destruct cur as [t|]; simpl; [intros [? ?]; split; [done|lia]|done]. Qed.

Lemma lex_loop_lexed s i toks cur iq qs :
  str_forall (λ c, Ascii.eqb c QUOTE || f c) s = true →
  (i + String.length s)%nat = n → Forall token_ok toks → cur_ok i cur →
  (iq = true → (qs < n)%nat) → lexed (lex_loop s i toks cur iq qs).
Proof.
  revert i toks cur iq qs. induction s as [|c s IH]; intros i toks cur iq qs Hf Hn Ht Hc Hq.
  { cbn [lex_loop]. destruct iq; [by apply Hq|]. simpl in Hn. destruct cur as [t|]; simpl; [|done].
    apply Forall_app. split; [done|]. destruct Hc. repeat constructor; [done|lia]. }
  cbn [str_forall] in Hf. apply andb_true_iff in Hf as [Hfc Hf]. cbn [String.length] in Hn.
  cbn [lex_loop]. destruct (Ascii.eqb c QUOTE) eqn:Hcq.
  - destruct iq; apply IH; try done; try lia; [by apply cur_ok_mono|].
    destruct cur as [t|]; simpl in *; [destruct Hc; split; [done|lia]|split; [constructor|lia]].
  - simpl in Hfc. apply Ascii.eqb_neq in Hcq. destruct iq.
    + apply IH; try done; try lia. destruct cur as [t|]; [|done].
      apply (cur_ok_snoc i (Some t) c true); done || lia.
    + destruct (is_space c).
      * destruct cur as [t|]; apply IH; try done; try lia.
        apply Forall_app. split; [done|]. destruct Hc. repeat constructor; [done|lia].
      * apply IH; try done; try lia. apply cur_ok_snoc; done || lia.
Qed.
End lexer.

Lemma lex_lexed f s :
  str_forall (λ c, Ascii.eqb c QUOTE || f c) s = true → lexed f (String.length s) (_lex s).
Proof. intros Hf. unfold _lex. by apply lex_loop_lexed. Qed.

Lemma lex_any s : lexed (λ _, true) (String.length s) (_lex s).
Proof.
  apply lex_lexed. induction s as [|c s IH]; simpl; [done|by rewrite IH, orb_true_r].
Qed.

(** ** The token parser *)

Lemma take_prefix_suffix set l o l' : take_prefix set l = (o, l') → l' `suffix_of` l.
Proof.
  destruct l as [|x l]; simpl; [by intros [= _ <-]|].
  destruct (_ && _); intros [= _ <-]; [by exists [x]|done].
Qed.

Lemma take_prefix_index set l p l' : take_prefix set l = (Some p, l') → ∃ x, x ∈ l ∧ p = index x.
Proof.
  destruct l as [|x l]; simpl; [done|]. destruct (_ && _); intros [= <- _]. exists x. split; [left|done].
Qed.

Lemma char_text_forall f l : Forall (λ x, f (ch x) = true) l → str_forall f (char_text l) = true.
Proof. induction 1 as [|x l Hx _ IH]; simpl; [done|]. by rewrite Hx, IH. Qed.

Lemma length_char_text l : String.length (char_text l) = length l.
Proof. induction l as [|x l IH]; simpl; [done|by rewrite IH]. Qed.

Lemma find_colon_lookup l j : find_colon l = Some j → ∃ x, l !! j = Some x.
Proof.
  revert j. induction l as [|x l IH]; intros j; simpl; [done|].
  destruct (_ && _); [intros [= <-]; by exists x|].
  destruct (find_colon l) as [k|]; [|done]. intros [= <-]. by apply IH.
Qed.

Lemma str_forall_id f s : str_forall f s = true → str_forall (λ c, Ascii.eqb c QUOTE || f c) s = true.
Proof. apply str_forall_impl. intros c ->. apply orb_true_r. Qed.

Lemma tame_chars s f t :
  f = (λ c, negb (superscript c)) →
  (tame s = true → token_ok f (String.length s) t) → (tame (char_text t) = false → tame s = false).
Proof.
  intros -> Ht Hf. destruct (tame s) eqn:Hs; [|done]. destruct (Ht eq_refl) as [Hc Hl].
  unfold tame in Hf, Hs. apply andb_true_iff in Hs as [_ Hs%Nat.leb_le].
  rewrite length_char_text, char_text_forall in Hf.
  - simpl in Hf. apply Nat.leb_gt in Hf. lia.
  - eapply Forall_impl; [exact Hc|]. by intros x [Hx _].
Qed.

Lemma char_text_drop k l : char_text (drop k l) = str_drop k (char_text l).
Proof. revert l. induction k as [|k IH]; intros [|x l]; simpl; [done..|by rewrite IH]. Qed.

Lemma take_prefix_tame set l o l' :
  take_prefix set l = (o, l') → tame (char_text l') = false → tame (char_text l) = false.
Proof.
  intros H. destruct (take_prefix_suffix _ _ _ _ H) as [k ->].
  apply tame_le; rewrite ?length_char_text, ?length_app; [|lia]. clear H.
  induction k as [|x k IH]; simpl; [done|]. intros [_ Hk]%andb_true_iff. by apply IH.
Qed.

Lemma parse_token_raises n pairs :
  Forall (λ x, (index x < n)%nat) pairs →
  raises (λ p, (p ≤ n)%nat) (char_text pairs) (_parse_token pairs).
Proof.
  intros Hn. unfold _parse_token.
  destruct (take_prefix "-!" pairs) as [np l1] eqn:H1.
  destruct (take_prefix "~" l1) as [fp rest] eqn:H2. cbv zeta.
  assert (Forall (λ x, (index x < n)%nat) l1) as Hn1.
  { destruct (take_prefix_suffix _ _ _ _ H1) as [k ->]. by apply Forall_app in Hn as [_ Hn]. }
  assert (Forall (λ x, (index x < n)%nat) rest) as Hn2.
  { destruct (take_prefix_suffix _ _ _ _ H2) as [k ->]. by apply Forall_app in Hn1 as [_ Hn1]. }
  destruct (find_colon rest) as [[|j]|] eqn:Hcol; [done| |done].
  destruct (_ && _); [|done].
  destruct fp as [p|].
  { apply take_prefix_index in H2 as (x & Hx & ->). simpl.
    pose proof (proj1 (Forall_forall _ _) Hn1 x Hx). simpl in *. lia. }
  apply raises_bind.
  { destruct (_is_dynamic_key _); [|done]. unfold _validate_dynamic_key.
    destruct (sub_ok _); [done|]. simpl.
    destruct rest as [|x rest]; simpl; [lia|]. apply Forall_inv in Hn2. lia. }
  intros _ _. apply raises_bind; [|done].
  eapply raises_sub, parse_filter_value_raises.
  - rewrite char_text_drop. intros Ht%tame_drop. eapply take_prefix_tame; [exact H1|].
    by eapply take_prefix_tame.
  - intros p <-. apply find_colon_lookup in Hcol as [x Hx]. rewrite Hx. simpl.
    eapply Forall_lookup_1 in Hn2; [|exact Hx]. simpl in Hn2. lia.
Qed.

Lemma parse_tokens_raises n s ts :
  Forall (λ t, Forall (λ x, (index x < n)%nat) t ∧
               (tame (char_text t) = false → tame s = false)) ts →
  raises (λ p, (p ≤ n)%nat) s (parse_tokens ts).
Proof.
  induction 1 as [|t ts [Hn Ht] _ IH]; simpl; [done|].
  apply raises_bind; [|intros ? _; by apply raises_bind].
  apply (raises_sub (λ p, (p ≤ n)%nat) _ s (char_text t)); [done|done|by apply parse_token_raises].
Qed.

Lemma parse_raises s : raises (λ p, (p ≤ String.length s)%nat) s (parse s).
Proof.
  unfold parse. apply raises_bind.
  { pose proof (lex_any s) as H. destruct (_lex s) as [|[]]; simpl in *; [done|lia|done]. }
  intros ts Hts. apply raises_bind; [|done]. apply parse_tokens_raises.
  apply Forall_forall. intros t Hin. split.
  - pose proof (lex_any s) as H. rewrite Hts in H. cbn in H. rewrite Forall_forall in H.
    destruct (H t Hin) as [Ht _]. eapply Forall_impl; [exact Ht|]. by intros x (_ & _ & Hx).
  - apply (tame_chars s _ t eq_refl). intros [Hs _]%andb_true_iff.
    pose proof (lex_lexed (λ c, negb (superscript c)) s (str_forall_id _ _ Hs)) as H.
    rewrite Hts in H. by apply (proj1 (Forall_forall _ _) H).
Qed.

(** ** The queries [parse] returns *)

Definition no_quote (c : ascii) : bool := negb (Ascii.eqb c QUOTE).

Definition op_wf {A} (op : string) (hi : option A) : Prop :=
  op = "range" ∧ is_Some hi ∨ op ∈ CMP ∧ hi = None.

Definition date_wf (s : string) : Prop := _DATE_RE s = true ∧ is_Some (fromisoformat s).

Definition is_lower (c : ascii) : bool := Ascii.eqb (lower_char c) c.

(** The operand text of a [meta.]/[cf.] filter, by its comparator *)
Definition meta_wf (op lo : string) (hi : option string) : Prop :=
  (∃ h, op = "range" ∧ hi = Some h ∧ str_forall no_quote (lo +:+ ".." +:+ h) = true ∧
    lo ≠ "" ∧ h ≠ "" ∧ split_dots (lo +:+ ".." +:+ h) = [lo; h] ∧
    _read_comparator (lo +:+ ".." +:+ h) = (None, lo +:+ ".." +:+ h)) ∨
  (hi = None ∧ lo ≠ "" ∧ str_forall no_quote lo = true ∧ has_dots lo = false ∧
    (op = "=" ∨ op ∈ CMP ∧ _read_comparator (op +:+ lo) = (Some op, lo))).

Definition item_wf (w : string) : Prop :=
  w ≠ "" ∧ str_forall (λ c, no_quote c && is_lower c) w = true ∧ has_char ";" w = false ∧
  lstrip_dot w = w.

(** The shape of the value of a filter, by its key *)
Definition value_wf (key : string) (v : filter_value) : Prop :=
  if _is_dynamic_key key then ∃ op lo hi, v = MetaValue op lo hi ∧ meta_wf op lo hi
  else if mem key _LIST_KEYS then ∃ l, v = ListValue l ∧ l ≠ [] ∧ ∀ w, w ∈ l → item_wf w
  else if mem key _SIZE_KEYS then ∃ op lo hi, v = SizeValue op lo hi ∧ op_wf op hi
  else if mem key _TIME_KEYS then
    (∃ op lo hi, v = DurationValue op lo hi ∧ op_wf op hi) ∨
    (∃ op lo hi, v = DateValue op lo hi ∧ op_wf op hi ∧ date_wf lo ∧
       (∀ h, hi = Some h → date_wf h))
  else ∃ s, v = StringValue s ∧ s ≠ "" ∧ str_forall no_quote s = true ∧
    (mem key _LOWER_KEYS = true → str_forall is_lower s = true) ∧
    (mem key _HASH_KEYS = true → _HEX_RE s = true).

Definition key_wf (key : string) : Prop :=
  _is_dynamic_key key = true ∧ sub_ok (dynamic_sub key) = true ∨
  _is_dynamic_key key = false ∧ key ∈ KEYS.

Definition filter_wf (f : Filter) : Prop := key_wf (f_key f) ∧ value_wf (f_key f) (f_value f).

Definition term_wf (t : Term) : Prop := t_value t ≠ "" ∧ str_forall no_quote (t_value t) = true.

Lemma cmp_not_range op : op ∈ CMP → bool_decide (op = "range") = false.
Proof. intros H. by elem_cases H. Qed.

Lemma parse_size_wf val pos v :
  _parse_size val pos = Ok v → ∃ op lo hi, v = SizeValue op lo hi ∧ op_wf op hi.
Proof.
  unfold _parse_size, op_wf. destruct (_read_comparator val) as [[op|] rest] eqn:Hc.
  - apply read_comparator_some in Hc as [_ Hop]. destruct (has_dots rest); [done|].
    rewrite result_bind_ok. intros (n & _ & [= <-]). naive_solver.
  - destruct (has_dots val).
    + destruct (split_dots val) as [|a [|b [|]]]; try done. destruct (_ || _); [done|].
      rewrite result_bind_ok. intros (lo & _ & H). apply result_bind_ok in H as (hi & _ & [= <-]).
      naive_solver.
    + rewrite result_bind_ok. intros (n & _ & [= <-]). eexists _, _, _. split; [done|].
      right. split; [set_solver|done].
Qed.

Lemma parse_atom_wf s pos a :
  _parse_time_atom s pos = Ok a → match a with Date d => date_wf d | Duration _ => True end.
Proof.
  unfold _parse_time_atom. destruct (bool_decide (s = "")); [done|].
  destruct (_DATE_RE s) eqn:Hd.
  - destruct (fromisoformat s) eqn:Hf; intros [= <-]. split; [done|by eexists].
  - destruct (_DURATION_RE s) as [[ds u]|]; [|done]. rewrite result_bind_ok. by intros (n & _ & [= <-]).
Qed.

Lemma parse_time_wf val pos v :
  _parse_time val pos = Ok v →
  (∃ op lo hi, v = DurationValue op lo hi ∧ op_wf op hi) ∨
  (∃ op lo hi, v = DateValue op lo hi ∧ op_wf op hi ∧ date_wf lo ∧ (∀ h, hi = Some h → date_wf h)).
Proof.
  unfold _parse_time, op_wf. destruct (_read_comparator val) as [[op|] rest] eqn:Hc.
  - apply read_comparator_some in Hc as [_ Hop]. destruct (has_dots rest); [done|].
    rewrite result_bind_ok. intros (a & Ha%parse_atom_wf & [= <-]). destruct a; naive_solver.
  - destruct (has_dots val).
    + destruct (split_dots val) as [|a [|b [|]]]; try done. destruct (_ || _); [done|].
      rewrite result_bind_ok. intros (v1 & H1%parse_atom_wf & H).
      apply result_bind_ok in H as (v2 & H2%parse_atom_wf & H).
      destruct v1, v2; try done; injection H as <-; naive_solver.
    + rewrite result_bind_ok. intros (a & Ha%parse_atom_wf & [= <-]).
      assert ("=" ∈ CMP) by set_solver. destruct a; naive_solver.
Qed.

Lemma str_forall_app_inv f a b : str_forall f (a +:+ b) = true → str_forall f a = true ∧ str_forall f b = true.
Proof. rewrite str_forall_app. apply andb_true_iff. Qed.

Lemma parse_meta_wf val pos v :
  val ≠ "" → str_forall no_quote val = true → _parse_meta_value val pos = Ok v →
  ∃ op lo hi, v = MetaValue op lo hi ∧ meta_wf op lo hi.
Proof.
  intros Hne Hq. unfold _parse_meta_value, meta_wf.
  destruct (_read_comparator val) as [[op|] rest] eqn:Hc.
  - pose proof Hc as [-> Hop]%read_comparator_some. apply str_forall_app_inv in Hq as [_ Hq].
    destruct (has_dots rest) eqn:Hd; [done|]. case_bool_decide; [done|]. intros [= <-].
    eexists _, _, _. split; [done|]. right. auto 10.
  - pose proof Hc as ->%read_comparator_none. destruct (has_dots val) eqn:Hd.
    + destruct (split_dots val) as [|a [|b [|]]] eqn:Hs; try done.
      pose proof (split_dots_pair _ _ _ Hs) as ->.
      destruct (_ || _) eqn:He; [done|]. intros [= <-]. bool_to_prop.
      eexists _, _, _. split; [done|]. left. eauto 10.
    + intros [= <-]. eexists _, _, _. split; [done|]. right. auto 10.
Qed.

Lemma lower_is_lower s : str_forall is_lower (lower s) = true.
Proof.
  induction s as [|c s IH]; simpl; [done|]. rewrite IH, andb_true_r.
  unfold is_lower. by rewrite lower_char_idem, Ascii.eqb_refl.
Qed.

Lemma lower_fixed s : str_forall is_lower s = true → lower s = s.
Proof.
  induction s as [|c s IH]; simpl; [done|]. unfold is_lower at 1.
  by intros [->%Ascii.eqb_eq Hs%IH]%andb_true_iff; rewrite Hs.
Qed.

Lemma lower_no_quote s : str_forall no_quote s = true → str_forall no_quote (lower s) = true.
Proof.
  induction s as [|c s IH]; simpl; [done|]. rewrite !andb_true_iff. intros [Hc Hs].
  split; [|by apply IH]. clear -Hc. by destruct c as [[] [] [] [] [] [] [] []].
Qed.

Lemma lower_empty s : lower s = "" → s = "".
Proof. by destruct s. Qed.

Lemma str_forall_and f g s :
  str_forall f s = true → str_forall g s = true → str_forall (λ c, f c && g c) s = true.
Proof.
  induction s as [|c s IH]; simpl; [done|]. rewrite !andb_true_iff. intros [] []; auto.
Qed.

Lemma lstrip_idem s : lstrip_dot (lstrip_dot s) = lstrip_dot s.
Proof.
  induction s as [|c s IH]; simpl; [done|]. destruct (Ascii.eqb c ".") eqn:Hc; [done|].
  simpl. by rewrite Hc.
Qed.

Lemma lstrip_fresh x s : has_char x s = false → has_char x (lstrip_dot s) = false.
Proof. unfold has_char. rewrite !str_exists_forall. apply str_forall_lstrip. Qed.

Lemma parse_list_wf val (pos : nat) l :
  str_forall (λ c, no_quote c && is_lower c) val = true →
  result_mapM (list_item pos) (split_char ";" val) = Ok l →
  l ≠ [] ∧ ∀ w, w ∈ l → item_wf w.
Proof.
  intros Hv Hm. apply result_mapM_ok in Hm. split.
  - intros ->. apply Forall2_length in Hm. simpl in Hm.
    by apply length_zero_iff_nil, split_char_not_nil in Hm.
  - intros w [i Hi]%list_elem_of_lookup. eapply Forall2_lookup_r in Hm as (p & Hp & Hw); [|exact Hi].
    unfold list_item in Hw. case_bool_decide; [done|]. injection Hw as <-.
    apply list_elem_of_lookup_2 in Hp. split_and!; [done| | |apply lstrip_idem].
    + by eapply str_forall_lstrip, str_forall_split.
    + by eapply lstrip_fresh, split_char_fresh_elem.
Qed.

Lemma parse_value_wf key val pos v :
  str_forall no_quote val = true →
  _parse_filter_value key val pos = Ok v → value_wf key v.
Proof.
  intros Hq. unfold _parse_filter_value, value_wf. case_bool_decide as Hne; [done|].
  destruct (_is_dynamic_key key); [by apply parse_meta_wf|].
  destruct (mem key _LIST_KEYS) eqn:Hl.
  { assert (mem key _LOWER_KEYS = true) as ->.
    { unfold mem in *. bool_to_prop. apply bool_decide_eq_true_2. set_solver. }
    rewrite result_bind_ok. intros (l & Hm & [= <-]). exists l. split; [done|].
    eapply parse_list_wf, Hm. apply str_forall_and; [by apply lower_no_quote|apply lower_is_lower]. }
  destruct (mem key _HASH_KEYS) eqn:Hh.
  { assert (key = "hash") as ->.
    { unfold mem in Hh. bool_to_prop. by apply list_elem_of_singleton in Hh. }
    change (mem "hash" _LOWER_KEYS) with true. change (mem "hash" _SIZE_KEYS) with false.
    change (mem "hash" _TIME_KEYS) with false. cbv iota. destruct (_HEX_RE (lower val)) eqn:Hx; [|done]. intros [= <-].
    exists (lower val). split_and!; [done| |by apply lower_no_quote| |done].
    - by intros H%lower_empty.
    - intros _. apply lower_is_lower. }
  destruct (mem key _SIZE_KEYS) eqn:Hs.
  { assert (mem key _LOWER_KEYS = false) as ->; [|apply parse_size_wf].
    unfold mem in Hs. bool_to_prop. by apply list_elem_of_singleton in Hs as ->. }
  destruct (mem key _TIME_KEYS) eqn:Ht.
  { assert (mem key _LOWER_KEYS = false) as ->; [|apply parse_time_wf].
    unfold mem in Ht. bool_to_prop. by elem_cases Ht. }
  intros [= <-]. eexists. split; [done|].
  destruct (mem key _LOWER_KEYS); split_and!; try done;
    [by intros H%lower_empty|by apply lower_no_quote|intros _; apply lower_is_lower].
Qed.

Definition node_wf (x : Term + Filter) : Prop :=
  match x with inl t => term_wf t | inr f => filter_wf f end.

Lemma char_text_no_quote l :
  Forall (λ x, ch x ≠ QUOTE) l → str_forall no_quote (char_text l) = true.
Proof.
  intros H. apply char_text_forall. eapply Forall_impl; [exact H|].
  intros x Hx. unfold no_quote. by apply negb_true_iff, Ascii.eqb_neq.
Qed.

Lemma take_prefix_forall {P : Char → Prop} set l o l' :
  take_prefix set l = (o, l') → Forall P l → Forall P l'.
Proof. intros H%take_prefix_suffix. destruct H as [k ->]. by intros [_ ?]%Forall_app. Qed.

Lemma parse_token_wf pairs n :
  Forall (λ x, ch x ≠ QUOTE) pairs → _parse_token pairs = Ok (Some n) → node_wf n.
Proof.
  intros Hq. unfold _parse_token.
  destruct (take_prefix "-!" pairs) as [np l1] eqn:H1.
  destruct (take_prefix "~" l1) as [fp rest] eqn:H2. cbv zeta.
  pose proof (take_prefix_forall _ _ _ _ H2 (take_prefix_forall _ _ _ _ H1 Hq)) as Hq2.
  assert (∀ neg fz, Ok (if bool_decide (char_text rest = "") then None
    else Some (inl (mkTerm (char_text rest) neg fz))) = (Ok (Some n) : res (option (Term + Filter))) →
    node_wf n) as Hterm.
  { intros neg fz. case_bool_decide; intros [= <-]. split; [done|by apply char_text_no_quote]. }
  destruct (find_colon rest) as [[|j]|]; [apply Hterm| |apply Hterm].
  destruct (_ && _) eqn:Hk; [|apply Hterm]. destruct fp; [done|].
  rewrite result_bind_ok. intros ([] & Hv & H). apply result_bind_ok in H as (v & Hval & [= <-]).
  apply andb_true_iff in Hk as [_ Hk]. apply parse_value_wf in Hval;
    [|by apply char_text_no_quote, Forall_drop].
  split; [|exact Hval]. simpl.
  destruct (_is_dynamic_key (char_text (take (S j) rest))) eqn:Hd.
  - left. split; [done|]. unfold _validate_dynamic_key in Hv. by destruct (sub_ok _).
  - right. rewrite orb_false_r in Hk. unfold mem in Hk. bool_to_prop. split; [|done].
    clear -Hk. by elem_cases Hk; rewrite Hk.
Qed.

Lemma parse_tokens_wf ts ns :
  Forall (Forall (λ x, ch x ≠ QUOTE)) ts → parse_tokens ts = Ok ns → Forall node_wf ns.
Proof.
  intros Hts. revert ns. induction Hts as [|t ts Ht _ IH]; simpl; intros ns; [by intros [= <-]|].
  rewrite result_bind_ok. intros (o & Ho & H). apply result_bind_ok in H as (ns' & Hns & [= <-]).
  specialize (IH _ Hns). destruct o as [x|]; [|done]. constructor; [|done]. by eapply parse_token_wf.
Qed.

Lemma parse_nodes s q :
  parse s = Ok q → ∃ ns, Forall node_wf ns ∧ q = mkQuery (omap sum_left ns) (omap sum_right ns).
Proof.
  unfold parse. rewrite result_bind_ok. intros (ts & Hts & H).
  apply result_bind_ok in H as (ns & Hns & [= <-]). exists ns. split; [|done].
  eapply parse_tokens_wf, Hns. pose proof (lex_any s) as H. rewrite Hts in H.
  eapply Forall_impl; [exact H|]. intros t [Ht _]. eapply Forall_impl; [exact Ht|]. by intros x (_ & ? & _).
Qed.

Lemma parse_query_wf s q :
  parse s = Ok q → Forall term_wf (terms q) ∧ Forall filter_wf (filters q).
Proof.
  intros (ns & Hns & ->)%parse_nodes. simpl.
  induction Hns as [|[t|f] ns Hn _ [IH1 IH2]]; simpl; [by split| |];
    (split; [|done]) || (split; [done|]); by constructor.
Qed.

(** ** Printing and parsing back *)

(** *** Numbers *)

Lemma int_str_int n t : str_int n = Ok t → int t = Ok n.
Proof.
  unfold str_int, int. cbv zeta.
  destruct (Nat.ltb_spec INT_MAX_STR_DIGITS (String.length (dec n))) as [|Hl]; [done|].
  intros [= <-]. rewrite dec_parse, DecimalN.Unsigned.of_to.
  by rewrite (proj2 (Nat.ltb_ge _ _) Hl).
Qed.

Lemma str_int_decimal n t : str_int n = Ok t → t ≠ "" ∧ str_forall is_decimal t = true.
Proof.
  unfold str_int. cbv zeta. destruct (_ <? _)%nat; [done|]. intros [= <-].
  split; [apply dec_not_empty|apply dec_decimal].
Qed.

Lemma str_last_snoc s c : str_last (s +:+ String c "") = Some c.
Proof.
  unfold str_last. rewrite length_app_str. cbn [String.length]. rewrite Nat.add_sub.
  induction s as [|d s IH]; [done|]. rewrite app_cons_str. cbn [String.length String.get]. exact IH.
Qed.

Lemma str_init_snoc s c : str_init (s +:+ String c "") = s.
Proof.
  unfold str_init. rewrite length_app_str. cbn [String.length]. rewrite Nat.add_sub.
  induction s as [|d s IH]; [done|]. rewrite app_cons_str. cbn [String.length str_take]. by rewrite IH.
Qed.

Lemma snoc_cases s : s ≠ "" → ∃ s' c, s = s' +:+ String c "".
Proof.
  induction s as [|c s IH]; [done|intros _]. destruct (decide (s = "")) as [->|Hs].
  - by exists "", c.
  - destruct (IH Hs) as (s' & d & ->). exists (String c s'), d. done.
Qed.

Lemma decimal_facts c :
  is_decimal c = true →
  is_alpha c = false ∧ is_digit c = true ∧ is_space c = false ∧ no_quote c = true ∧
  negb (Ascii.eqb "." c) = true ∧ c ≠ "010"%char ∧ has_char c "><=-!~" = false.
Proof.
  intros H. destruct c as [[] [] [] [] [] [] [] []]; try discriminate H; repeat split; discriminate.
Qed.

Lemma decimal_no_dot s : str_forall is_decimal s = true → has_char "." s = false.
Proof.
  intros H. unfold has_char. apply str_exists_forall. eapply str_forall_impl; [|exact H].
  intros c Hc. by apply decimal_facts.
Qed.

Lemma decimal_no_cmp s : str_forall is_decimal s = true → no_cmp s = true.
Proof.
  destruct s as [|c s]; [done|]. cbn [str_forall]. intros [Hc _]%andb_true_iff. unfold no_cmp.
  clear -Hc. destruct c as [[] [] [] [] [] [] [] []]; try discriminate Hc; done.
Qed.

Lemma parse_size_num_str n t pos : str_int n = Ok t → _parse_size_num t pos = Ok n.
Proof.
  intros Hn. pose proof (int_str_int _ _ Hn) as Hi. apply str_int_decimal in Hn as [Hne Hd].
  unfold _parse_size_num.
  assert (str_forall is_digit t = true) as Hdig.
  { eapply str_forall_impl; [|exact Hd]. intros c Hc. by apply decimal_facts. }
  destruct (snoc_cases t Hne) as (t' & c & ->). rewrite str_last_snoc.
  apply str_forall_app_inv in Hd as [_ Hc]. cbn [str_forall] in Hc. rewrite andb_true_r in Hc.
  destruct (decimal_facts c Hc) as (-> & _). cbn [result_bind].
  rewrite Hdig, (bool_decide_eq_false_2 _ Hne). cbn [orb negb]. rewrite Hi. cbn [result_bind].
  by rewrite N.mul_1_r.
Qed.

(** *** Comparators and ranges *)

Lemma no_cmp_app a b : a ≠ "" → no_cmp (a +:+ b) = no_cmp a.
Proof. by destruct a. Qed.

Lemma no_cmp_no_eq s : no_cmp s = true → startswith s "=" = false.
Proof.
  destruct s as [|c s]; [done|]. unfold no_cmp, has_char. cbn [str_exists]. intros H. bool_to_prop.
  cbn [startswith]. by rewrite (Ascii.eqb_sym "="), H1.
Qed.

Lemma read_op_str op t :
  op ∈ CMP → no_cmp t = true →
  _read_comparator (op_str op +:+ t) = (if bool_decide (op = "=") then None else Some op, t).
Proof.
  intros Hop Ht. pose proof (no_cmp_no_eq t Ht) as He.
  elem_cases Hop; unfold op_str; cbn [bool_decide decide_rel].
  - apply (read_comparator_two ">="). set_solver.
  - apply (read_comparator_two "<="). set_solver.
  - apply (read_comparator_one ">"); [set_solver|by right].
  - apply (read_comparator_one "<"); [set_solver|by right].
  - by apply read_comparator_plain.
Qed.

Lemma read_range a b :
  a ≠ "" → no_cmp a = true → _read_comparator (a +:+ ".." +:+ b) = (None, a +:+ ".." +:+ b).
Proof. intros Ha Hc. apply read_comparator_plain. by rewrite no_cmp_app. Qed.

(** What a value parser does with the printed comparator or range. *)
Lemma size_reparse op lo hi t pos :
  op_wf op hi → value_str (SizeValue op lo hi) = Ok t → _parse_size t pos = Ok (SizeValue op lo hi).
Proof.
  intros Hop. cbn [value_str]. rewrite result_bind_ok. intros (a & Ha & H).
  pose proof (str_int_decimal _ _ Ha) as [Hne Hd].
  destruct Hop as [[-> [h ->]]|[Hop ->]].
  - cbn [bool_decide decide_rel] in H. apply result_bind_ok in H as (b & Hb & [= <-]).
    pose proof (str_int_decimal _ _ Hb) as [Hne' Hd'].
    unfold _parse_size. rewrite read_range by auto using decimal_no_cmp. rewrite has_dots_app.
    rewrite split_dots_fresh by auto using decimal_no_dot, split_dots_single.
    rewrite !bool_decide_eq_false_2 by done. cbn [orb].
    by rewrite (parse_size_num_str lo a), (parse_size_num_str h b).
  - rewrite cmp_not_range in H by done. injection H as <-.
    unfold _parse_size. rewrite read_op_str by auto using decimal_no_cmp.
    pose proof (has_dots_fresh a (decimal_no_dot a Hd)) as Hdots.
    case_bool_decide as Heq.
    + subst op. change (op_str "=" +:+ a) with a. rewrite Hdots.
      by rewrite (parse_size_num_str lo a).
    + rewrite Hdots. by rewrite (parse_size_num_str lo a).
Qed.

Lemma strip_no_newline s : has_char "010" s = false → strip_final_newline s = s.
Proof.
  unfold has_char. induction s as [|c s IH]; [done|]. cbn [str_exists]. intros [Hc Hs]%orb_false_iff.
  destruct s as [|d s]; [|by rewrite strip_newline_cons, (IH Hs)].
  cbn [strip_final_newline]. by rewrite (Ascii.eqb_sym c), Hc.
Qed.

(** *** Times *)

Definition date_char (c : ascii) : bool := is_decimal c || Ascii.eqb c "-".

Lemma date_re_dash s : _DATE_RE s = true → has_char "-" (strip_final_newline s) = true.
Proof.
  unfold _DATE_RE. generalize (strip_final_newline s). clear s. intros s.
  destruct s as [|? [|? [|? [|? [|h1 s]]]]]; try done.
  destruct s as [|? [|? [|h2 [|? [|? [|]]]]]]; try done.
  rewrite !andb_true_iff. intros [[_ ->%Ascii.eqb_eq] _]. unfold has_char. cbn [str_exists].
  by rewrite !orb_true_r.
Qed.

Lemma date_wf_chars s :
  date_wf s → str_forall date_char s = true ∧ s ≠ "" ∧ no_cmp s = true.
Proof.
  intros [Hre [[[y m] d] Hf]]. unfold fromisoformat in Hf.
  destruct s as [|a [|b [|c [|e [|h1 s]]]]]; try done.
  destruct s as [|f [|g [|h2 [|i [|j [|]]]]]]; try done. clear Hf.
  unfold _DATE_RE in Hre. cbn [strip_final_newline] in Hre.
  destruct (Ascii.eqb j "010"); [done|]. cbn [forallb] in Hre. rewrite !andb_true_iff in Hre.
  destruct Hre as [[(Ha & Hb & Hc & He & Hf & Hg & Hi & Hj & _) H1] H2].
  split_and!; [|done|].
  - cbn [str_forall]. unfold date_char. by rewrite Ha, Hb, Hc, He, Hf, Hg, Hi, Hj, H1, H2, !orb_true_r.
  - apply (decimal_no_cmp (String a "")). cbn [str_forall]. by rewrite Ha.
Qed.

Lemma date_char_facts c :
  date_char c = true → is_space c = false ∧ no_quote c = true ∧ negb (Ascii.eqb "." c) = true.
Proof. intros H. destruct c as [[] [] [] [] [] [] [] []]; try discriminate H; repeat split. Qed.

Lemma date_no_dot s : str_forall date_char s = true → has_char "." s = false.
Proof.
  intros H. unfold has_char. apply str_exists_forall. eapply str_forall_impl; [|exact H].
  intros c Hc. by apply date_char_facts.
Qed.

Lemma date_reparse s pos : date_wf s → _parse_time_atom s pos = Ok (Date s).
Proof.
  intros Hd. pose proof (date_wf_chars s Hd) as (_ & Hne & _). destruct Hd as [Hre [x Hf]].
  unfold _parse_time_atom. by rewrite bool_decide_eq_false_2, Hre, Hf by done.
Qed.

Lemma seconds_no_dash t : str_forall is_decimal t = true → has_char "-" (t +:+ "s") = false.
Proof.
  intros H. unfold has_char. rewrite str_exists_app, orb_false_r. apply str_exists_forall.
  eapply str_forall_impl; [|exact H]. intros c Hc.
  by destruct c as [[] [] [] [] [] [] [] []]; try discriminate Hc.
Qed.

Lemma seconds_strip t : str_forall is_decimal t = true → strip_final_newline (t +:+ "s") = t +:+ "s".
Proof.
  intros H. apply strip_no_newline. unfold has_char. rewrite str_exists_app, orb_false_r.
  apply str_exists_forall. eapply str_forall_impl; [|exact H]. intros c Hc.
  by destruct c as [[] [] [] [] [] [] [] []]; try discriminate Hc.
Qed.

Lemma duration_reparse n t pos :
  str_int n = Ok t → _parse_time_atom (t +:+ "s") pos = Ok (Duration n).
Proof.
  intros Hn. pose proof (int_str_int _ _ Hn) as Hi. apply str_int_decimal in Hn as [Hne Hd].
  unfold _parse_time_atom. rewrite bool_decide_eq_false_2 by (by destruct t).
  destruct (_DATE_RE (t +:+ "s")) eqn:Hre.
  { apply date_re_dash in Hre. by rewrite seconds_strip, seconds_no_dash in Hre. }
  unfold _DURATION_RE. rewrite seconds_strip by done. change "s" with (String "s" "").
  rewrite str_last_snoc, str_init_snoc. change (_DURATION_UNIT "s") with (Some 1%N). cbv iota zeta.
  rewrite (bool_decide_eq_false_2 _ Hne), Hd. cbn [negb andb]. rewrite Hi. cbn [result_bind].
  by rewrite N.mul_1_r.
Qed.

Lemma seconds_facts t :
  t ≠ "" → str_forall is_decimal t = true →
  t +:+ "s" ≠ "" ∧ no_cmp (t +:+ "s") = true ∧ has_char "." (t +:+ "s") = false.
Proof.
  intros Hne Hd. split_and!.
  - by destruct t.
  - rewrite no_cmp_app by done. by apply decimal_no_cmp.
  - pose proof (decimal_no_dot t Hd) as H. unfold has_char in *. by rewrite str_exists_app, H.
Qed.

(** One comparator with an atom, or a range of two atoms *)
Lemma time_reparse_op op a t pos :
  op ∈ CMP → no_cmp t = true → has_char "." t = false →
  _parse_time_atom t pos = Ok a → _parse_time (op_str op +:+ t) pos = Ok (_build_time op a).
Proof.
  intros Hop Hc Hd Ha. unfold _parse_time. rewrite read_op_str by done.
  case_bool_decide as Heq.
  - subst op. change (op_str "=" +:+ t) with t. by rewrite has_dots_fresh, Ha.
  - by rewrite has_dots_fresh, Ha.
Qed.

Lemma time_reparse_range t1 t2 a1 a2 pos :
  t1 ≠ "" → t2 ≠ "" → no_cmp t1 = true → has_char "." t1 = false → has_char "." t2 = false →
  _parse_time_atom t1 pos = Ok a1 → _parse_time_atom t2 pos = Ok a2 →
  _parse_time (t1 +:+ ".." +:+ t2) pos =
    match a1, a2 with
    | Date s1, Date s2 => Ok (DateValue "range" s1 (Some s2))
    | Duration n1, Duration n2 => Ok (DurationValue "range" n1 (Some n2))
    | _, _ => Err (ParseError pos bad_range)
    end.
Proof.
  intros Hn1 Hn2 Hc Hd1 Hd2 H1 H2. unfold _parse_time.
  rewrite read_range, has_dots_app, split_dots_fresh by auto using split_dots_single.
  rewrite !bool_decide_eq_false_2 by done. cbn [orb]. by rewrite H1, H2.
Qed.

Lemma duration_value_reparse op lo hi t pos :
  op_wf op hi → value_str (DurationValue op lo hi) = Ok t →
  _parse_time t pos = Ok (DurationValue op lo hi).
Proof.
  intros Hop. cbn [value_str]. rewrite result_bind_ok. intros (a & Ha & H).
  pose proof (str_int_decimal _ _ Ha) as [Hne Hd].
  destruct (seconds_facts a Hne Hd) as (Hs1 & Hs2 & Hs3).
  destruct Hop as [[-> [h ->]]|[Hop ->]].
  - cbn [bool_decide decide_rel] in H. apply result_bind_ok in H as (b & Hb & [= <-]).
    pose proof (str_int_decimal _ _ Hb) as [Hne' Hd'].
    destruct (seconds_facts b Hne' Hd') as (Hs1' & Hs2' & Hs3').
    replace (a +:+ "s.." +:+ b +:+ "s") with ((a +:+ "s") +:+ ".." +:+ (b +:+ "s"))
      by (by rewrite <- !app_assoc_str).
    by rewrite (time_reparse_range _ _ (Duration lo) (Duration h)) by auto using duration_reparse.
  - rewrite cmp_not_range in H by done. injection H as <-.
    by rewrite (time_reparse_op op (Duration lo)) by auto using duration_reparse.
Qed.

Lemma date_value_reparse op lo hi t pos :
  op_wf op hi → date_wf lo → (∀ h, hi = Some h → date_wf h) →
  value_str (DateValue op lo hi) = Ok t → _parse_time t pos = Ok (DateValue op lo hi).
Proof.
  intros Hop Hlo Hhi. cbn [value_str].
  destruct (date_wf_chars lo Hlo) as (Hc & Hne & Hcmp).
  destruct Hop as [[-> [h ->]]|[Hop ->]].
  - cbn [bool_decide decide_rel]. intros [= <-].
    destruct (date_wf_chars h (Hhi h eq_refl)) as (Hc' & Hne' & _).
    by rewrite (time_reparse_range lo h (Date lo) (Date h)) by auto using date_no_dot, date_reparse.
  - rewrite cmp_not_range by done. intros [= <-].
    by rewrite (time_reparse_op op (Date lo)) by auto using date_no_dot, date_reparse.
Qed.

(** *** Values *)

(** The operands the printer writes bare hold no space, and a bare [=] operand does not
    start with a comparator. *)
Definition printable_value (v : filter_value) : Prop :=
  match v with
  | ListValue l => ∀ w, w ∈ l → str_exists is_space w = false
  | MetaValue op lo hi =>
      str_exists is_space (lo +:+ from_option id "" hi) = false ∧ (op = "=" → no_cmp lo = true)
  | _ => True
  end.

Definition printable (q : Query) : Prop := Forall (λ f, printable_value (f_value f)) (filters q).

(** The text of a value once its quotes are removed *)
Definition value_text (v : filter_value) : res string :=
  match v with StringValue s => Ok s | _ => value_str v end.

Lemma meta_reparse op lo hi t pos :
  meta_wf op lo hi → (op = "=" → no_cmp lo = true) → value_str (MetaValue op lo hi) = Ok t →
  t ≠ "" ∧ _parse_meta_value t pos = Ok (MetaValue op lo hi).
Proof.
  intros Hwf Hp. cbn [value_str]. unfold _parse_meta_value.
  destruct Hwf as [(h & -> & -> & _ & Hlo & Hh & Hs & Hr)|(-> & Hne & _ & Hd & Hop)].
  - cbn [bool_decide decide_rel]. intros [= <-]. split; [by destruct lo|]. unfold hi_str. cbn [default].
    rewrite Hr, has_dots_app, Hs. by rewrite !bool_decide_eq_false_2.
  - assert (bool_decide (op = "range") = false) as ->.
    { destruct Hop as [->|[Hop _]]; [done|by apply cmp_not_range]. }
    intros [= <-]. unfold op_str. case_bool_decide as Heq.
    + subst op. change ("" +:+ lo) with lo. split; [done|].
      by rewrite (read_comparator_plain lo), Hd by auto.
    + destruct Hop as [|[Hop Hr]]; [done|]. split; [by destruct op; [elem_cases Hop|]|].
      rewrite Hr, Hd. by rewrite bool_decide_eq_false_2.
Qed.

Lemma lower_app a b : lower (a +:+ b) = lower a +:+ lower b.
Proof. induction a as [|c a IH]; [done|]. rewrite app_cons_str. simpl. by rewrite IH. Qed.

Lemma lower_join l : (∀ w, w ∈ l → lower w = w) → lower (join ";" l) = join ";" l.
Proof.
  induction l as [|w l IH]; [done|]. intros H. destruct (decide (l = [])) as [->|Hl].
  - apply H. left.
  - rewrite join_cons by done. rewrite !lower_app, IH, (H w); [done|left|]. intros x Hx. apply H. by right.
Qed.

Lemma list_reparse l (pos : nat) :
  (∀ w, w ∈ l → item_wf w) → l ≠ [] →
  lower (join ";" l) = join ";" l ∧ join ";" l ≠ "" ∧
  result_mapM (list_item pos) (split_char ";" (join ";" l)) = Ok l.
Proof.
  intros Hw Hl. split_and!.
  - apply lower_join. intros w (_ & Hf & _)%Hw. apply lower_fixed.
    eapply str_forall_impl; [|exact Hf]. by intros c [_ ?]%andb_true_iff.
  - destruct l as [|w l]; [done|]. destruct (Hw w ltac:(left)) as (Hne & _).
    destruct l; [done|]. rewrite join_cons by done. by destruct w.
  - change ";" with (sep_str ";"). rewrite split_join; [|done|].
    + apply result_mapM_ok. clear Hl. induction l as [|w l IH]; constructor.
      * destruct (Hw w ltac:(left)) as (Hne & _ & _ & Hs). unfold list_item.
        rewrite Hs. by rewrite bool_decide_eq_false_2.
      * apply IH. intros x Hx. apply Hw. by right.
    + intros w Hin. by apply Hw.
Qed.

Lemma value_reparse key v t pos :
  value_wf key v → printable_value v → value_text v = Ok t → _parse_filter_value key t pos = Ok v.
Proof.
  intros Hwf Hp Ht. unfold value_wf in Hwf. unfold _parse_filter_value.
  destruct (_is_dynamic_key key).
  { destruct Hwf as (op & lo & hi & -> & Hm). destruct Hp as [_ Hp].
    destruct (meta_reparse op lo hi t pos Hm Hp Ht) as [Hne ->].
    by rewrite bool_decide_eq_false_2. }
  assert (∀ l, mem key l = true → l = _LIST_KEYS ∨ l = _SIZE_KEYS ∨ l = _TIME_KEYS →
    mem key _HASH_KEYS = false ∧ mem key _LOWER_KEYS = bool_decide (l = _LIST_KEYS) ∧
    (l = _TIME_KEYS → mem key _SIZE_KEYS = false)) as Hk.
  { unfold mem. intros l Hl Hls. bool_to_prop.
    destruct Hls as [->|[->| ->]]; elem_cases Hl; done. }
  destruct (mem key _LIST_KEYS) eqn:Hl.
  { destruct (Hk _ Hl) as (_ & -> & _); [auto|]. destruct Hwf as (l & -> & Hne & Hw).
    injection Ht as <-. destruct (list_reparse l pos Hw Hne) as (Hlow & Hj & Hm).
    rewrite (bool_decide_eq_false_2 (join ";" l = "")) by done.
    change (bool_decide (_LIST_KEYS = _LIST_KEYS)) with true. cbv iota zeta.
    by rewrite Hlow, Hm. }
  destruct (mem key _SIZE_KEYS) eqn:Hs.
  { destruct (Hk _ Hs) as (-> & -> & _); [auto|]. destruct Hwf as (op & lo & hi & -> & Hop).
    pose proof (size_reparse op lo hi t pos Hop Ht) as Hr.
    change (bool_decide (_SIZE_KEYS = _LIST_KEYS)) with false. cbv iota zeta. rewrite Hr.
    rewrite bool_decide_eq_false_2; [done|]. by intros ->. }
  destruct (mem key _TIME_KEYS) eqn:Htk.
  { destruct (Hk _ Htk) as (-> & -> & _); [auto|].
    change (bool_decide (_TIME_KEYS = _LIST_KEYS)) with false. cbv iota zeta.
    assert (_parse_time t pos = Ok v) as Hr.
    { destruct Hwf as [(op & lo & hi & -> & Hop)|(op & lo & hi & -> & Hop & Hlo & Hhi)].
      - by apply duration_value_reparse.
      - by apply date_value_reparse. }
    rewrite Hr. rewrite bool_decide_eq_false_2; [done|]. by intros ->. }
  destruct Hwf as (s & -> & Hne & _ & Hlow & Hhex). injection Ht as <-.
  rewrite bool_decide_eq_false_2 by done. cbv zeta.
  assert ((if mem key _LOWER_KEYS then lower s else s) = s) as ->.
  { destruct (mem key _LOWER_KEYS); [by apply lower_fixed, Hlow|done]. }
  destruct (mem key _HASH_KEYS); [by rewrite Hhex|done].
Qed.

(** *** Printed tokens *)

(** A printed token: unquoted characters, then possibly a quoted text. *)
Record piece := mkPiece { p_plain : string; p_quoted : option string }.

Definition piece_str (p : piece) : string :=
  p_plain p +:+ match p_quoted p with Some v => DQ +:+ v +:+ DQ | None => "" end.

Fixpoint chars (q : bool) (i : nat) (s : string) : list Char :=
  match s with "" => [] | String c s' => (c, q, i) :: chars q (S i) s' end.

Definition piece_chars (i : nat) (p : piece) : list Char :=
  chars false i (p_plain p) ++
  match p_quoted p with Some v => chars true (S (i + String.length (p_plain p))) v | None => [] end.

Definition plain_char (c : ascii) : bool := no_quote c && negb (is_space c).

Definition piece_wf (p : piece) : Prop :=
  str_forall plain_char (p_plain p) = true ∧
  match p_quoted p with Some v => str_forall no_quote v = true | None => p_plain p ≠ "" end.

Lemma lex_plain p r i toks cur qs :
  str_forall plain_char p = true → p ≠ "" ∨ is_Some cur →
  lex_loop (p +:+ r) i toks cur false qs =
  lex_loop r (i + String.length p) toks (Some (default [] cur ++ chars false i p)) false qs.
Proof.
  revert i cur. induction p as [|c p IH]; intros i cur Hp Hne.
  - destruct Hne as [|[t ->]]; [done|]. simpl. rewrite Nat.add_0_r, app_nil_r. done.
  - cbn [str_forall] in Hp. apply andb_true_iff in Hp as [Hc Hp]. unfold plain_char, no_quote in Hc.
    bool_to_prop. rewrite app_cons_str. cbn [lex_loop]. rewrite H, H0.
    rewrite IH by eauto. cbn [String.length chars from_option id]. rewrite <- app_assoc.
    by rewrite Nat.add_succ_r.
Qed.

Lemma lex_in_quote v r i toks t qs :
  str_forall no_quote v = true →
  lex_loop (v +:+ DQ +:+ r) i toks (Some t) true qs =
  lex_loop r (S (i + String.length v)) toks (Some (t ++ chars true i v)) false qs.
Proof.
  revert i t. induction v as [|c v IH]; intros i t Hv.
  - change ("" +:+ DQ +:+ r) with (String QUOTE r). cbn [lex_loop chars String.length].
    by rewrite Ascii.eqb_refl, Nat.add_0_r, app_nil_r.
  - cbn [str_forall] in Hv. apply andb_true_iff in Hv as [Hc Hv]. unfold no_quote in Hc. bool_to_prop.
    rewrite app_cons_str. cbn [lex_loop]. rewrite Hc. cbn [fmap option_fmap option_map].
    rewrite IH by done. cbn [String.length chars]. rewrite <- app_assoc. by rewrite Nat.add_succ_r.
Qed.

Lemma lex_piece p r i toks qs :
  piece_wf p → ∃ qs',
  lex_loop (piece_str p +:+ r) i toks None false qs =
  lex_loop r (i + String.length (piece_str p)) toks (Some (piece_chars i p)) false qs'.
Proof.
  intros [Hp Hq]. unfold piece_str, piece_chars. destruct (p_quoted p) as [v|].
  - exists (i + String.length (p_plain p))%nat. rewrite <- !app_assoc_str.
    assert (∀ cur qs0, lex_loop (DQ +:+ v +:+ DQ +:+ r) (i + String.length (p_plain p)) toks cur false qs0 =
      lex_loop r (i + String.length (p_plain p +:+ DQ +:+ v +:+ DQ)) toks
        (Some (default [] cur ++ chars true (S (i + String.length (p_plain p))) v)) false
        (i + String.length (p_plain p))) as Hlex.
    { intros cur qs0. change (DQ +:+ ?x) with (String QUOTE x). cbn [lex_loop].
      rewrite Ascii.eqb_refl, lex_in_quote by done. f_equal.
      rewrite !length_app_str. simpl. rewrite length_app_str. simpl. lia. }
    destruct (decide (p_plain p = "")) as [He|Hne].
    + specialize (Hlex None qs). rewrite He in *. cbn [String.length chars app] in *.
      rewrite Nat.add_0_r in *. exact Hlex.
    + rewrite lex_plain by auto. rewrite Hlex. reflexivity.
  - exists qs. rewrite !app_empty_r, app_nil_r. rewrite lex_plain by auto. done.
Qed.

Lemma lex_pieces ps i toks qs :
  Forall piece_wf ps → ∃ js,
  length js = length ps ∧
  lex_loop (join " " (map piece_str ps)) i toks None false qs =
  Ok (toks ++ zip_with piece_chars js ps).
Proof.
  intros Hps. revert i toks qs. induction Hps as [|p ps Hp Hps IH]; intros i toks qs.
  { exists []. split; [done|]. simpl. by rewrite app_nil_r. }
  destruct (decide (ps = [])) as [->|Hne].
  - exists [i]. split; [done|]. simpl.
    destruct (lex_piece p "" i toks qs Hp) as [qs' Hl]. rewrite app_empty_r in Hl. by rewrite Hl.
  - cbn [map]. rewrite join_cons by (by destruct ps). change (" " +:+ ?x) with (String " " x).
    destruct (lex_piece p (String " " (join " " (map piece_str ps))) i toks qs Hp) as [qs' ->].
    cbn [lex_loop]. change (Ascii.eqb " " QUOTE) with false. change (is_space " ") with true.
    cbv iota. destruct (IH (S (i + String.length (piece_str p))) (toks ++ [piece_chars i p]) qs')
      as (js & Hlen & ->).
    exists (i :: js). split; [simpl; by rewrite Hlen|]. simpl. by rewrite <- app_assoc.
Qed.

(** *** Keys *)

Definition kchar (c : ascii) : bool := key_char c || Ascii.eqb c "." || Ascii.eqb c "*".

Lemma kchar_facts c : kchar c = true → plain_char c = true ∧ Ascii.eqb c ":" = false.
Proof. intros H. destruct c as [[] [] [] [] [] [] [] []]; try discriminate H; by split. Qed.

Lemma str_forall_join f sep l :
  str_forall f sep = true → (∀ w, w ∈ l → str_forall f w = true) → str_forall f (join sep l) = true.
Proof.
  intros Hs. induction l as [|w l IH]; [done|]. intros Hl. destruct (decide (l = [])) as [->|Hne].
  - apply Hl. left.
  - rewrite join_cons, !str_forall_app, Hs by done. rewrite (Hl w) by left. cbn [andb].
    apply IH. intros x Hx. apply Hl. by right.
Qed.

Lemma key_segments_chars segs w :
  key_segments segs = true → w ∈ segs → str_forall kchar w = true.
Proof.
  assert (∀ x, key_segment x = true → str_forall kchar x = true) as Hk.
  { intros x [_ Hx]%andb_true_iff. eapply str_forall_impl; [|exact Hx].
    intros c Hc. unfold kchar. by rewrite Hc. }
  induction segs as [|s segs IH]; [done|]. cbn [key_segments]. destruct segs as [|s' segs].
  - intros [H|H]%orb_true_iff ->%list_elem_of_singleton; [by apply Hk|].
    apply bool_decide_eq_true in H. by subst.
  - intros [Hs Hr]%andb_true_iff [->|Hw]%elem_of_cons; [by apply Hk|by apply IH].
Qed.

Lemma dynamic_key_split key :
  _is_dynamic_key key = true →
  key = META_PREFIX +:+ dynamic_sub key ∧ startswith key META_PREFIX = true ∨
  key = CF_PREFIX +:+ dynamic_sub key ∧ startswith key META_PREFIX = false.
Proof.
  unfold _is_dynamic_key, dynamic_sub. destruct (startswith key META_PREFIX) eqn:Hm.
  - intros _. left. apply startswith_spec in Hm as [r ->]. done.
  - cbn [orb]. intros [r ->]%startswith_spec. right. done.
Qed.

Lemma key_wf_chars key :
  key_wf key →
  str_forall kchar key = true ∧ key ≠ "" ∧ (∀ c r, key = String c r → has_char c "-!~" = false).
Proof.
  intros [[Hd Hs]|[_ Hin]].
  - unfold sub_ok in Hs. apply andb_true_iff in Hs as [_ Hs].
    assert (str_forall kchar (dynamic_sub key) = true) as Hsub.
    { rewrite <- (join_split "." (dynamic_sub key)). apply str_forall_join; [done|].
      intros w Hw. by eapply key_segments_chars. }
    destruct (dynamic_key_split key Hd) as [[He _]|[He _]]; rewrite He, str_forall_app, Hsub;
      (split_and!; [done|done|]); intros c r [= <- _]; done.
  - elem_cases Hin; (split_and!; [done|done|]); intros c r [= <- _]; done.
Qed.

(** *** Parsing a printed token *)

Lemma chars_app q i a b : chars q i (a +:+ b) = chars q i a ++ chars q (i + String.length a) b.
Proof.
  revert i. induction a as [|c a IH]; intros i; [by rewrite Nat.add_0_r|].
  rewrite app_cons_str. cbn [chars String.length app]. by rewrite IH, Nat.add_succ_r.
Qed.

Lemma char_text_chars q i s : char_text (chars q i s) = s.
Proof. revert i. induction s as [|c s IH]; intros i; simpl; [done|by rewrite IH]. Qed.

Lemma char_text_app a b : char_text (a ++ b) = char_text a +:+ char_text b.
Proof. induction a as [|x a IH]; [done|]. simpl. by rewrite IH. Qed.

Lemma length_chars q i s : length (chars q i s) = String.length s.
Proof. revert i. induction s as [|c s IH]; intros i; simpl; [done|by rewrite IH]. Qed.

Lemma chars_unquoted i s : forallb (λ x, negb (quoted x)) (chars false i s) = true.
Proof. revert i. induction s as [|c s IH]; intros i; simpl; [done|apply IH]. Qed.

Lemma find_colon_quoted i s : find_colon (chars true i s) = None.
Proof. revert i. induction s as [|c s IH]; intros i; simpl; [done|]. by rewrite andb_false_r, IH. Qed.

Lemma find_colon_none i s : has_char ":" s = false → find_colon (chars false i s) = None.
Proof.
  unfold has_char. revert i. induction s as [|c s IH]; intros i; [done|].
  cbn [str_exists chars find_colon ch quoted fst snd]. intros [Hc Hs]%orb_false_iff.
  by rewrite (Ascii.eqb_sym c), Hc, (IH _ Hs).
Qed.

Lemma find_colon_key i key r :
  str_forall kchar key = true →
  find_colon (chars false i (key +:+ String ":" "") ++ r) = Some (String.length key).
Proof.
  revert i. induction key as [|c key IH]; intros i; [done|].
  cbn [str_forall]. intros [Hc Hk]%andb_true_iff. rewrite app_cons_str.
  cbn [chars app find_colon ch quoted fst snd String.length]. destruct (kchar_facts c Hc) as [_ ->].
  cbn [andb]. by rewrite (IH _ Hk).
Qed.

(** The characters of a token after its prefix *)
Definition no_prefix (l : list Char) : Prop :=
  take_prefix "-!" l = (None, l) ∧ take_prefix "~" l = (None, l).

Lemma no_prefix_quoted i s : no_prefix (chars true i s).
Proof. by destruct s. Qed.

Lemma no_prefix_first c i s r :
  has_char c "-!~" = false → no_prefix (chars false i (String c s) ++ r).
Proof.
  unfold no_prefix, has_char. cbn [chars app take_prefix ch quoted fst snd negb andb str_exists].
  unfold has_char. cbn [str_exists]. intros H. apply orb_false_iff in H as [H1 H].
  apply orb_false_iff in H as [H2 H]. apply orb_false_iff in H as [H3 _].
  by rewrite H1, H2, H3.
Qed.

Definition prefix_str (negated fuzzy : bool) : string :=
  (if negated then "-" else "") +:+ (if fuzzy then "~" else "").

(** The prefix characters are read back, whatever follows. *)
Lemma take_prefixes negated fuzzy i l :
  no_prefix l → ∃ fp,
  let '(np, l1) := take_prefix "-!" (chars false i (prefix_str negated fuzzy) ++ l) in
  let '(fp', l2) := take_prefix "~" l1 in
  bool_decide (is_Some np) = negated ∧ fp' = fp ∧ bool_decide (is_Some fp) = fuzzy ∧ l2 = l.
Proof.
  intros [H1 H2]. destruct negated, fuzzy; simpl; rewrite ?H1, ?H2; eexists; split_and!; done.
Qed.

Definition term_piece (t : Term) : piece :=
  let pre := prefix_str (t_negated t) (t_fuzzy t) in
  if _needs_quote (t_value t) then mkPiece pre (Some (t_value t))
  else mkPiece (pre +:+ t_value t) None.

Lemma prefix_plain negated fuzzy : str_forall plain_char (prefix_str negated fuzzy) = true.
Proof. by destruct negated, fuzzy. Qed.

(** A text printed without quotes *)
Lemma bare_text v :
  _needs_quote v = false → str_forall no_quote v = true →
  v ≠ "" ∧ str_forall plain_char v = true ∧ has_char ":" v = false ∧
  (∀ c r, v = String c r → has_char c "-!~" = false).
Proof.
  unfold _needs_quote. destruct v as [|c v]; [done|]. intros Hn Hq.
  apply orb_false_iff in Hn as [Hn Hc]. apply orb_false_iff in Hn as [Hs Hcol].
  split_and!; [done| |done|].
  - apply str_forall_and; [done|]. by apply str_exists_forall.
  - intros c' r [= <- <-]. unfold has_char in *. cbn [str_exists] in *.
    rewrite str_exists_app in Hc. by apply orb_false_iff in Hc as [Hc _].
Qed.

Lemma term_str_piece t : term_str t = piece_str (term_piece t).
Proof.
  unfold term_str, term_piece, quote_if_needed, prefix_str, piece_str.
  destruct (_needs_quote (t_value t)); cbn [p_plain p_quoted]; by rewrite ?app_empty_r, <- !app_assoc_str.
Qed.

Lemma term_piece_wf t : term_wf t → piece_wf (term_piece t).
Proof.
  intros [Hne Hq]. unfold term_piece, piece_wf. destruct (_needs_quote (t_value t)) eqn:Hn; simpl.
  - split; [apply prefix_plain|done].
  - destruct (bare_text _ Hn Hq) as (Hv & Hp & _). rewrite str_forall_app, prefix_plain, Hp.
    split; [done|]. destruct (prefix_str _ _); [done|by intros [=]].
Qed.

Lemma parse_term_piece i t : term_wf t → _parse_token (piece_chars i (term_piece t)) = Ok (Some (inl t)).
Proof.
  intros [Hne Hq]. unfold _parse_token, term_piece, piece_chars.
  assert (∃ l, no_prefix l ∧ find_colon l = None ∧ char_text l = t_value t ∧
    piece_chars i (term_piece t) = chars false i (prefix_str (t_negated t) (t_fuzzy t)) ++ l)
    as (l & Hnp & Hcol & Htext & Hl).
  { unfold piece_chars, term_piece. destruct (_needs_quote (t_value t)) eqn:Hn; cbn [p_plain p_quoted].
    - eexists. split_and!; [apply no_prefix_quoted|apply find_colon_quoted|apply char_text_chars|done].
    - destruct (bare_text _ Hn Hq) as (Hv & _ & Hc & Hfirst).
      rewrite chars_app, app_nil_r. eexists. split_and!; [|by apply find_colon_none|apply char_text_chars|done].
      destruct (t_value t) as [|c v]; [done|]. rewrite <- (app_nil_r (chars _ _ _)).
      apply no_prefix_first. by eapply Hfirst. }
  unfold piece_chars, term_piece in Hl. rewrite Hl.
  destruct (take_prefixes (t_negated t) (t_fuzzy t) i l Hnp) as [fp Ht].
  destruct (take_prefix "-!" _) as [np l1]. destruct (take_prefix "~" l1) as [fp' l2].
  destruct Ht as (Hneg & -> & Hfz & ->). cbv zeta. rewrite Hcol, Htext, Hneg, Hfz.
  rewrite bool_decide_eq_false_2 by done. by destruct t.
Qed.

(** A printed value after [pre], up to the place of its quotes *)
Definition value_piece (pre : string) (v : filter_value) (t : string) : piece :=
  match v with
  | StringValue s => if _needs_quote s then mkPiece pre (Some s) else mkPiece (pre +:+ s) None
  | _ => mkPiece (pre +:+ t) None
  end.

Lemma decimal_plain s : str_forall is_decimal s = true → str_forall plain_char s = true.
Proof.
  apply str_forall_impl. intros c Hc. destruct (decimal_facts c Hc) as (_ & _ & Hs & Hq & _).
  unfold plain_char. by rewrite Hs, Hq.
Qed.

Lemma date_plain s : date_wf s → str_forall plain_char s = true.
Proof.
  intros (H & _)%date_wf_chars. eapply str_forall_impl; [|exact H]. intros c Hc.
  destruct (date_char_facts c Hc) as (Hs & Hq & _). unfold plain_char. by rewrite Hs, Hq.
Qed.

Lemma op_str_plain op : op ∈ CMP → str_forall plain_char (op_str op) = true.
Proof. intros H. by elem_cases H. Qed.

Lemma no_space_plain s :
  str_exists is_space s = false → str_forall no_quote s = true → str_forall plain_char s = true.
Proof. intros Hs Hq. apply str_forall_and; [done|]. by apply str_exists_forall. Qed.

(** What the printer writes without quotes holds no space and no quote. *)
Lemma value_str_plain key v t :
  value_wf key v → printable_value v → value_str v = Ok t →
  (∃ s, v = StringValue s) ∨ str_forall plain_char t = true.
Proof.
  intros Hwf Hp H. unfold value_wf in Hwf.
  destruct (_is_dynamic_key key); [|destruct (mem key _LIST_KEYS); [|destruct (mem key _SIZE_KEYS);
    [|destruct (mem key _TIME_KEYS)]]].
  - destruct Hwf as (op & lo & hi & -> & Hm). right. destruct Hp as [Hp _].
    cbn [value_str] in H. rewrite str_exists_app in Hp. apply orb_false_iff in Hp as [Hlo Hhi].
    destruct Hm as [(h & -> & -> & Hq & _)|(-> & _ & Hq & _ & Hop)].
    + cbn [bool_decide decide_rel] in H. injection H as <-. unfold hi_str. cbn [from_option id] in *.
      rewrite !str_forall_app in *. rewrite !andb_true_iff in *. destruct Hq as (Hql & _ & Hqh).
      split_and!; [by apply no_space_plain|done|by apply no_space_plain].
    + assert (bool_decide (op = "range") = false ∧ str_forall plain_char (op_str op) = true) as [Hr Ho].
      { destruct Hop as [->|[Hop _]]; [done|]. split; [by apply cmp_not_range|by elem_cases Hop]. }
      rewrite Hr in H. injection H as <-. rewrite str_forall_app, Ho. by apply no_space_plain.
  - destruct Hwf as (l & -> & _ & Hw). right. injection H as <-. apply str_forall_join; [done|].
    intros w Hin. apply no_space_plain; [by apply Hp|]. destruct (Hw w Hin) as (_ & Hf & _).
    eapply str_forall_impl; [|exact Hf]. by intros c [? _]%andb_true_iff.
  - destruct Hwf as (op & lo & hi & -> & Hop). right. cbn [value_str] in H.
    apply result_bind_ok in H as (a & Ha & H). apply str_int_decimal in Ha as [_ Ha%decimal_plain].
    destruct Hop as [[-> [h ->]]|[Hop' ->]].
    + apply result_bind_ok in H as (b & Hb & [= <-]). apply str_int_decimal in Hb as [_ Hb%decimal_plain].
      by rewrite !str_forall_app, Ha, Hb.
    + rewrite cmp_not_range in H by done. injection H as <-.
      rewrite str_forall_app, Ha, andb_true_r. by apply op_str_plain.
  - right. destruct Hwf as [(op & lo & hi & -> & Hop)|(op & lo & hi & -> & Hop & Hlo & Hhi)];
      cbn [value_str] in H.
    + apply result_bind_ok in H as (a & Ha & H). apply str_int_decimal in Ha as [_ Ha%decimal_plain].
      destruct Hop as [[-> [h ->]]|[Hop' ->]].
      * apply result_bind_ok in H as (b & Hb & [= <-]). apply str_int_decimal in Hb as [_ Hb%decimal_plain].
        by rewrite !str_forall_app, Ha, Hb.
      * rewrite cmp_not_range in H by done. injection H as <-.
        rewrite !str_forall_app, Ha, andb_true_r. by apply op_str_plain.
    + pose proof (date_plain lo Hlo) as Hl. destruct Hop as [[-> [h ->]]|[Hop' ->]].
      * injection H as <-. unfold hi_str. cbn [from_option id].
        by rewrite !str_forall_app, Hl, (date_plain h) by auto.
      * rewrite cmp_not_range in H by done. injection H as <-.
        rewrite str_forall_app, Hl, andb_true_r. by apply op_str_plain.
  - destruct Hwf as (s & -> & _). left. eauto.
Qed.

Lemma quote_if_piece pre s :
  pre +:+ quote_if_needed s =
  piece_str (if _needs_quote s then mkPiece pre (Some s) else mkPiece (pre +:+ s) None).
Proof.
  unfold quote_if_needed, piece_str. destruct (_needs_quote s); cbn [p_plain p_quoted]; [done|].
  by rewrite app_empty_r.
Qed.

Lemma value_wf_text key s : value_wf key (StringValue s) → str_forall no_quote s = true.
Proof.
  unfold value_wf. intros H.
  repeat match type of H with (if ?b then _ else _) => destruct b end; naive_solver.
Qed.

Lemma plain_piece pre t :
  str_forall plain_char pre = true → pre ≠ "" → str_forall plain_char t = true →
  pre +:+ t = piece_str (mkPiece (pre +:+ t) None) ∧ piece_wf (mkPiece (pre +:+ t) None) ∧
  ∀ i, ∃ l, char_text l = t ∧ piece_chars i (mkPiece (pre +:+ t) None) = chars false i pre ++ l.
Proof.
  intros Hp Hne Ht. unfold piece_str, piece_wf, piece_chars. cbn [p_plain p_quoted].
  rewrite app_empty_r, str_forall_app, Hp, Ht. split; [done|].
  split; [split; [done|by destruct pre]|]. intros i. rewrite chars_app, app_nil_r. eexists. split; [apply char_text_chars|done].
Qed.

(** The printed value: its characters, whose text is the value's. *)
Lemma value_piece_chars key pre v t :
  str_forall plain_char pre = true → pre ≠ "" →
  value_wf key v → printable_value v → value_str v = Ok t →
  ∃ u, value_text v = Ok u ∧ pre +:+ t = piece_str (value_piece pre v t) ∧
    piece_wf (value_piece pre v t) ∧
    ∀ i, ∃ l, char_text l = u ∧ piece_chars i (value_piece pre v t) = chars false i pre ++ l.
Proof.
  intros Hpre Hne Hv Hp Ht.
  destruct (value_str_plain _ _ _ Hv Hp Ht) as [[s ->]|Hplain].
  - cbn [value_str value_text value_piece] in *. injection Ht as <-. exists s. split; [done|].
    pose proof (value_wf_text _ _ Hv) as Hq. rewrite quote_if_piece.
    destruct (_needs_quote s) eqn:Hn.
    + split; [done|]. split; [by split|]. intros i. eexists. split; [apply char_text_chars|done].
    + destruct (bare_text _ Hn Hq) as (_ & Hsp & _).
      destruct (plain_piece pre s Hpre Hne Hsp) as (_ & Hw & Hl). done.
  - destruct v as [s| | | | |]; [|exists t; split; [exact Ht|by apply plain_piece]..].
    cbn [value_str value_text value_piece] in *. injection Ht as <-. exists s. split; [done|].
    rewrite quote_if_piece. unfold quote_if_needed in Hplain.
    destruct (_needs_quote s); [by rewrite str_forall_app in Hplain|].
    by destruct (plain_piece pre s Hpre Hne Hplain) as (_ & Hw & Hl).
Qed.

Lemma filter_pre_plain f :
  key_wf (f_key f) →
  let pre := prefix_str (f_negated f) false +:+ f_key f +:+ ":" in
  str_forall plain_char pre = true ∧ pre ≠ "".
Proof.
  intros (Hkc & Hkn & _)%key_wf_chars. cbv zeta. split.
  - rewrite !str_forall_app, prefix_plain. cbn [andb]. apply andb_true_iff. split; [|done].
    eapply str_forall_impl; [|exact Hkc]. intros c Hc. by apply kchar_facts.
  - destruct (prefix_str _ _), (f_key f); try done; by intros [=].
Qed.

(** The part of [_parse_token] after the prefix, on a key it accepts. *)
Lemma parse_filter_token f i l v :
  key_wf (f_key f) →
  (∀ pos, _parse_filter_value (f_key f) (char_text l) pos = Ok v) →
  _parse_token (chars false i (prefix_str (f_negated f) false +:+ f_key f +:+ ":") ++ l) =
    Ok (Some (inr (mkQFilter (f_key f) v (f_negated f)))).
Proof.
  intros Hk Hval. pose proof (key_wf_chars _ Hk) as (Hkc & Hkn & Hfirst).
  rewrite chars_app, <- app_assoc.
  set (j := (i + String.length (prefix_str (f_negated f) false))%nat) in *.
  set (rest := chars false j (f_key f +:+ ":") ++ l) in *.
  assert (no_prefix rest) as Hnp.
  { unfold rest. destruct (f_key f) as [|c k]; [done|]. rewrite app_cons_str.
    apply no_prefix_first. by eapply Hfirst. }
  assert (find_colon rest = Some (String.length (f_key f))) as Hcol by (by apply find_colon_key).
  assert (rest = chars false j (f_key f) ++ (":"%char, false, (j + String.length (f_key f))%nat) :: l) as Hrest.
  { unfold rest. rewrite chars_app, <- app_assoc. done. }
  clearbody rest.
  assert (take (String.length (f_key f)) rest = chars false j (f_key f)) as Htake.
  { rewrite Hrest. rewrite <- (length_chars false j (f_key f)). apply take_app_length. }
  assert (drop (S (String.length (f_key f))) rest = l) as Hdrop.
  { rewrite Hrest. rewrite <- (length_chars false j (f_key f)) at 1.
    rewrite <- Nat.add_1_r, drop_app_add. done. }
  unfold _parse_token. destruct (take_prefixes (f_negated f) false i rest Hnp) as [fp Hpre].
  destruct (take_prefix "-!" _) as [np l1]. destruct (take_prefix "~" l1) as [fp' l2].
  destruct Hpre as (Hneg & -> & Hfz & ->). cbv zeta.
  assert (fp = None) as ->. { destruct fp; [|done]. apply bool_decide_eq_false in Hfz. by destruct Hfz. }
  rewrite Hcol. destruct (String.length (f_key f)) as [|n] eqn:Hlen; [by destruct (f_key f)|].
  rewrite Htake, Hdrop, char_text_chars, Hneg.
  assert (forallb (λ x, negb (quoted x)) (chars false j (f_key f)) = true) as ->.
  { apply chars_unquoted. }
  destruct Hk as [[Hd Hs]|[Hd Hin]].
  - rewrite Hd, orb_true_r. cbn [andb]. unfold _validate_dynamic_key. rewrite Hs. cbn [result_bind].
    by rewrite Hval.
  - rewrite Hd. assert (lower (f_key f) = f_key f ∧ mem (f_key f) KEYS = true) as [-> ->].
    { split; [clear -Hin; by elem_cases Hin; rewrite Hin|by apply bool_decide_eq_true_2]. }
    cbn [andb orb result_bind]. by rewrite Hval.
Qed.

Lemma parse_filter_piece f t :
  filter_wf f → printable_value (f_value f) → filter_str f = Ok t →
  ∃ p, t = piece_str p ∧ piece_wf p ∧ ∀ i, _parse_token (piece_chars i p) = Ok (Some (inr f)).
Proof.
  intros [Hk Hv] Hp. unfold filter_str. rewrite result_bind_ok. intros (a & Ha & [= <-]).
  destruct (filter_pre_plain f Hk) as [Hpre Hne].
  destruct (value_piece_chars _ _ _ _ Hpre Hne Hv Hp Ha) as (u & Hu & Hstr & Hw & Hl).
  eexists. split; [|split; [exact Hw|]].
  - rewrite <- Hstr. unfold prefix_str. by rewrite <- !app_assoc_str.
  - intros i. destruct (Hl i) as (l & Htext & ->).
    rewrite (parse_filter_token f i l (f_value f)); [by destruct f|done|].
    intros pos. rewrite Htext. by apply value_reparse.
Qed.

(** ** Properties *)

Lemma omap_sums {A B} (l : list A) :
  omap sum_left (map inl l : list (A + B)) = l ∧ omap sum_right (map inl l : list (A + B)) = [].
Proof. induction l as [|x l [IH1 IH2]]; [done|]. cbn. by rewrite IH1, IH2. Qed.

Lemma omap_sums' {A B} (l : list B) :
  omap sum_left (map inr l : list (A + B)) = [] ∧ omap sum_right (map inr l : list (A + B)) = l.
Proof. induction l as [|x l [IH1 IH2]]; [done|]. cbn. by rewrite IH1, IH2. Qed.

Lemma parse_pieces (nodes : list (Term + Filter)) ps :
  Forall2 (λ n p, piece_wf p ∧ ∀ i, _parse_token (piece_chars i p) = Ok (Some n)) nodes ps →
  parse (join " " (map piece_str ps)) = Ok (mkQuery (omap sum_left nodes) (omap sum_right nodes)).
Proof.
  intros HF. unfold parse, _lex.
  destruct (lex_pieces ps 0 [] 0) as (js & Hlen & ->).
  { eapply Forall2_Forall_r; [exact HF|]. apply Forall_true. by intros x p [Hp _]. }
  cbn [result_bind app].
  assert (parse_tokens (zip_with piece_chars js ps) = Ok nodes) as ->; [|done].
  revert js Hlen. induction HF as [|n p nodes ps [_ Hp] _ IH]; intros [|j js] Hlen; try done.
  simpl. rewrite Hp. cbn [result_bind]. simpl in Hlen. by rewrite IH by lia.
Qed.

(** C30: the documented [parse(str(ast)) == ast]: printing a query that [parse] returned
    and parsing the text gives the query back, whenever [str] has digits enough to
    print its numbers and the operands the printer never quotes (list items and
    [meta.]/[cf.] operands) hold no space and, for [=], no leading comparator. *)
Theorem print_parse_roundtrip s q t :
  parse s = Ok q → printable q → query_str q = Ok t → parse t = Ok q.
Proof.
  intros [Hts Hfs]%parse_query_wf Hp. unfold query_str. rewrite result_bind_ok.
  intros (fs & Hstr & [= <-]). apply result_mapM_ok in Hstr.
  assert (∃ ps, fs = map piece_str ps ∧
    Forall2 (λ f p, piece_wf p ∧ ∀ i, _parse_token (piece_chars i p) = Ok (Some (inr f))) (filters q) ps)
    as (ps & -> & Hps).
  { unfold printable in Hp. induction Hstr as [|f u l us Hu _ IH]; [by exists []|].
    apply Forall_cons in Hfs as [Hf Hfs], Hp as [Hpf Hp].
    destruct (IH Hfs Hp) as (ps & -> & HF). destruct (parse_filter_piece f u Hf Hpf Hu) as (p & -> & Hw & Ht).
    exists (p :: ps). split; [done|]. by constructor. }
  assert (map term_str (terms q) = map piece_str (map term_piece (terms q))) as ->.
  { rewrite map_map. apply map_ext, term_str_piece. }
  rewrite <- map_app, (parse_pieces (map inr (filters q) ++ map inl (terms q))).
  - rewrite !omap_app. destruct q as [ts fs]. cbn [terms filters].
    destruct (omap_sums (B:=Filter) ts) as [-> ->], (omap_sums' (A:=Term) fs) as [-> ->].
    by rewrite app_nil_r.
  - apply Forall2_app.
    + apply Forall2_fmap_l. exact Hps.
    + clear -Hts. induction Hts as [|t ts Ht _ IH]; simpl; constructor; [|done].
      split; [by apply term_piece_wf|]. intros i. by apply parse_term_piece.
Qed.

Definition example_query : string :=
  "-ext:.JPG;.png ~vacation size:1K..2M " +:+ DQ +:+ "summer 2020" +:+ DQ +:+ " !meta.exif.*:>=5 modified:<7d".

Lemma print_parse_roundtrip_witness :
  ∃ q t, parse example_query = Ok q ∧ length (filters q) = 4%nat ∧ query_str q = Ok t ∧
    t ≠ example_query ∧ parse t = Ok q.
Proof.
  eexists _, _. split; [vm_compute; reflexivity|]. split; [reflexivity|].
  split; [vm_compute; reflexivity|]. split; [discriminate|].
  apply (print_parse_roundtrip example_query); [vm_compute; reflexivity| |vm_compute; reflexivity].
  unfold printable. cbn [filters].
  repeat (apply Forall_cons; split); cbn [f_value printable_value];
    try apply Forall_nil; try done.
  intros w Hw. by elem_cases Hw.
Defined.

(** C31: malformed input, for texts of the code points U+0000 to U+00FF (the characters of
    the model): [parse] ends on every such text, and the exception it raises is a
    [ParseError] whose position lies in the input, except that numbers which [int] does not
    read (superscript digits, or more than 4300 characters of input) may raise [ValueError].
    Beyond U+00FF, where the theorem says nothing, there are more such digits: a circled
    one passes [isdigit] too, and [int] refuses it. *)
Theorem parse_error_contract s :
  match parse s with
  | Ok _ => True
  | Err (ParseError position _) => (position ≤ String.length s)%nat
  | Err ValueError =>
      str_exists superscript s = true ∨ (INT_MAX_STR_DIGITS < String.length s)%nat
  end.
Proof.
  pose proof (parse_raises s) as H. destruct (parse s) as [|[]]; [done|done|]. simpl in H.
  unfold tame in H. apply andb_false_iff in H as [H|H]; [left|right; by apply Nat.leb_gt].
  destruct (str_exists superscript s) eqn:Hs; [done|]. by rewrite (proj1 (str_exists_forall _ _) Hs) in H.
Qed.

(** The dynamic-key allow-list: the key of every filter of a parsed query is one of
    the nine known keys, or "meta." or "cf." followed by at most 64 characters that are
    dot-separated segments of [a-z0-9_], of which only the last may be "*".  Nothing else
    reaches the JSONB accessor. *)
Theorem dynamic_key_allow_list s q f :
  parse s = Ok q → f ∈ filters q →
  f_key f ∈ KEYS ∨
  ∃ prefix segs last, prefix ∈ [META_PREFIX; CF_PREFIX] ∧
    f_key f = prefix +:+ join "." (segs ++ [last]) ∧
    Forall (λ w, key_segment w = true) segs ∧ (key_segment last = true ∨ last = "*") ∧
    (String.length (join "." (segs ++ [last])) ≤ MAX_DYNAMIC_KEY_LEN)%nat.
Proof.
  intros [_ Hfs]%parse_query_wf Hf. rewrite Forall_forall in Hfs.
  destruct (Hfs f Hf) as [[[Hd Hs]|[_ Hk]] _]; [right|by left].
  unfold sub_ok in Hs. rewrite !andb_true_iff in Hs. destruct Hs as [[_ Hlen%Nat.leb_le] Hre].
  unfold _DYNAMIC_KEY_RE in Hre.
  assert (∀ l, key_segments l = true → ∃ segs last, l = segs ++ [last] ∧
    Forall (λ w, key_segment w = true) segs ∧ (key_segment last = true ∨ last = "*")) as Hsegs.
  { induction l as [|w l IH]; [done|]. cbn [key_segments]. destruct l as [|w' l].
    - intros [H|H%bool_decide_eq_true]%orb_true_iff; exists [], w; auto.
    - intros [Hw (segs & last & -> & HF & Hl)%IH]%andb_true_iff. exists (w :: segs), last. auto. }
  destruct (Hsegs _ Hre) as (segs & last & Hl & HF & Hlast).
  pose proof (join_split "." (dynamic_sub (f_key f))) as Hj. rewrite Hl in Hj.
  change (join "." ?x) with (join (sep_str ".") x). rewrite <- Hj in Hlen.
  destruct (dynamic_key_split _ Hd) as [[He _]|[He _]]; rewrite <- Hj in He;
    (eexists _, segs, last; split_and!; [|exact He|done|done|done]); set_solver.
Qed.

Lemma dynamic_key_allow_list_witness :
  ∃ q f, parse "meta.exif.*:canon" = Ok q ∧ f ∈ filters q ∧ f_key f = "meta.exif.*" ∧
  (f_key f ∈ KEYS ∨
  ∃ prefix segs last, prefix ∈ [META_PREFIX; CF_PREFIX] ∧
    f_key f = prefix +:+ join "." (segs ++ [last]) ∧
    Forall (λ w, key_segment w = true) segs ∧ (key_segment last = true ∨ last = "*") ∧
    (String.length (join "." (segs ++ [last])) ≤ MAX_DYNAMIC_KEY_LEN)%nat).
Proof.
  eexists _, (mkQFilter "meta.exif.*" (MetaValue "=" "canon" None) false).
  split; [vm_compute; reflexivity|]. split; [left|]. split; [reflexivity|].
  eapply (dynamic_key_allow_list "meta.exif.*:canon"); [vm_compute; reflexivity|left].
Defined.

(** Without its side condition the round trip fails: the operand of
    [meta.x:=>5] is the text ">5"; it prints as [meta.x:>5], which parses as a numeric
    comparison.  And [size:] with a superscript digit escapes as [ValueError]. *)
Theorem print_parse_changes_meaning :
  parse "meta.x:=>5" = Ok (mkQuery [] [mkQFilter "meta.x" (MetaValue "=" ">5" None) false]) ∧
  query_str (mkQuery [] [mkQFilter "meta.x" (MetaValue "=" ">5" None) false]) = Ok "meta.x:>5" ∧
  parse "meta.x:>5" = Ok (mkQuery [] [mkQFilter "meta.x" (MetaValue ">" "5" None) false]) ∧
  parse ("size:" +:+ String "178" "") = Err ValueError.
Proof. vm_compute. done. Qed.
