(* ===== verification/Json.v ===== *)
(** * JSON values and numbers

    The values the JSON columns hold and the [float] of a text, as Python and
    PostgreSQL have them: integers unbounded, floats IEEE binary64 ([spec_float] at
    precision 53), objects in the order of their keys. *)
From S2P Require Import Prelude PyStr Uuid Utf8 PathLabel Text.
From Stdlib Require Import SpecFloat.
From stdpp Require Import options.

Inductive json :=
  | JNull
  | JBool (b : bool)
  | JInt (n : Z)
  | JFloat (x : spec_float)
  | JText (t : text)
  | JList (l : list json)
  | JDict (l : list (text * json)).

Global Instance spec_float_eq_dec : EqDecision spec_float.
Proof. solve_decision. Defined.

Definition json_eq_dec_list (dec : EqDecision json) : EqDecision (list (text * json)) :=
  @list_eq_dec _ (@prod_eq_dec text _ json dec).

Global Instance json_eq_dec : EqDecision json.
Proof.
  refine (fix go (a b : json) {struct a} : Decision (a = b) :=
    match a, b with
    | JNull, JNull => left _
    | JBool x, JBool y => cast_if (decide (x = y))
    | JInt x, JInt y => cast_if (decide (x = y))
    | JFloat x, JFloat y => cast_if (decide (x = y))
    | JText x, JText y => cast_if (decide (x = y))
    | JList l, JList k => cast_if (@list_eq_dec json go l k)
    | JDict l, JDict k => cast_if (json_eq_dec_list go l k)
    | _, _ => right _
    end); clear go; abstract congruence.
Defined.

(** ** What PostgreSQL stores *)

(** Surrogates stand in pairs, high before low. *)
Fixpoint paired (t : text) : bool :=
  match t with
  | [] => true
  | c :: t' =>
      if (55296 <=? c) && (c <? 56320) then
        match t' with d :: t'' => (56320 <=? d) && (d <? 57344) && paired t'' | [] => false end
      else negb ((56320 <=? c) && (c <? 57344)) && paired t'
  end.
Definition text_ok (t : text) : bool := negb (has_code NUL t) && paired t.

(** Is what [json.dumps] writes a JSONB value: [nan] and [inf] become tokens that are not
    JSON; a NUL and a lone surrogate are refused in a text and in a key. *)
Fixpoint jsonb_ok (j : json) : bool :=
  match j with
  | JFloat (S754_nan | S754_infinity _) => false
  | JText t => text_ok t
  | JList l => forallb jsonb_ok l
  | JDict l => forallb (λ '(k, v), text_ok k && jsonb_ok v) l
  | _ => true
  end.
Definition jsonb_map_ok (m : gmap text json) : bool :=
  forallb (λ '(k, v), text_ok k && jsonb_ok v) (map_to_list m).

(** ** [json.dumps], compact, and [str] *)

Definition truthy (j : json) : bool :=
  match j with
  | JNull | JBool false | JInt 0 | JFloat (S754_zero _) | JText [] | JList [] | JDict [] => false
  | _ => true
  end.

(** [d.get(key)] *)
Fixpoint dict_get (key : text) (l : list (text * json)) : option json :=
  match l with [] => None | (k, v) :: l' => if bool_decide (k = key) then Some v else dict_get key l' end.

Definition COMMA : Z := 44.
Definition COLON : Z := 58.
Definition QUOTE : Z := 34.
Definition BACKSLASH : Z := 92.

Definition int_text (n : Z) : text := (if n <? 0 then txt "-" else []) ++ txt (dec (Z.to_N (Z.abs n))).

Definition hex2 (n : Z) : text := map (λ d, ord (hex_digit d)) [n / 16 mod 16; n mod 16].
Definition hex4 (n : Z) : text := hex2 (n / 256) ++ hex2 n.

(** One character inside quotes; [ascii]: [ensure_ascii] *)
Definition escape_char (ascii : bool) (c : Z) : text :=
  let u (n : Z) := BACKSLASH :: ord "u" :: hex4 n in
  if (c =? QUOTE) || (c =? BACKSLASH) then [BACKSLASH; c]
  else if c =? 10 then txt "\n" else if c =? 13 then txt "\r" else if c =? 9 then txt "\t"
  else if c =? 12 then txt "\f" else if c =? 8 then txt "\b"
  else if c <? 32 then u c
  else if ascii && (126 <? c) then
    if c <? 65536 then u c
    else u (55296 + (c - 65536) / 1024) ++ u (56320 + (c - 65536) mod 1024)
  else [c].
Definition quoted (ascii : bool) (t : text) : text := QUOTE :: (t ≫= escape_char ascii) ++ [QUOTE].

Section dumps.
(** [float.__repr__] of a finite value, and [str.isprintable] of a code point beyond ASCII *)
Context (float_repr : spec_float → text) (uni_printable : Z → bool).

Definition float_text (nan inf : string) (x : spec_float) : text :=
  match x with
  | S754_nan => txt nan
  | S754_infinity neg => (if neg then txt "-" else []) ++ txt inf
  | _ => float_repr x
  end.

Fixpoint json_dumps (ascii : bool) (j : json) : text :=
  match j with
  | JNull => txt "null"
  | JBool b => txt (if b then "true" else "false")
  | JInt n => int_text n
  | JFloat x => float_text "NaN" "Infinity" x
  | JText t => quoted ascii t
  | JList l => txt "[" ++ join_text COMMA (map (json_dumps ascii) l) ++ txt "]"
  | JDict l =>
      txt "{" ++ join_text COMMA (map (λ '(k, v), quoted ascii k ++ COLON :: json_dumps ascii v) l) ++ txt "}"
  end.

(** [", ".join(ts)] *)
Fixpoint join_comma (ts : list text) : text :=
  match ts with [] => [] | [t] => t | t :: ts' => t ++ txt ", " ++ join_comma ts' end.

(** [repr(t)] *)
Definition repr_char (quote c : Z) : text :=
  if (c =? quote) || (c =? BACKSLASH) then [BACKSLASH; c]
  else if c =? 10 then txt "\n" else if c =? 13 then txt "\r" else if c =? 9 then txt "\t"
  else if (c <? 32) || (c =? 127) then txt "\x" ++ hex2 c
  else if (c <? 127) || uni_printable c then [c]
  else if c <? 256 then txt "\x" ++ hex2 c
  else if c <? 65536 then txt "\u" ++ hex4 c
  else txt "\U" ++ hex4 (c / 65536) ++ hex4 c.
Definition repr_text (t : text) : text :=
  let quote := if has_code 39 t && negb (has_code QUOTE t) then QUOTE else 39 in
  quote :: (t ≫= repr_char quote) ++ [quote].

Fixpoint py_repr (j : json) : text :=
  match j with
  | JNull => txt "None"
  | JBool b => txt (if b then "True" else "False")
  | JInt n => int_text n
  | JFloat x => float_text "nan" "inf" x
  | JText t => repr_text t
  | JList l => txt "[" ++ join_comma (map py_repr l) ++ txt "]"
  | JDict l => txt "{" ++ join_comma (map (λ '(k, v), repr_text k ++ txt ": " ++ py_repr v) l) ++ txt "}"
  end.
(** [str(value)] *)
Definition py_str (j : json) : text := match j with JText t => t | _ => py_repr j end.
End dumps.

Definition dumps_example : json :=
  JDict [(txt "a", JList [JInt (-5); JNull; JBool true]); (txt "b", JText [34; 10; 233; 128512; 7])].
Example dumps_values :
  json_dumps (λ _, []) true dumps_example =
    txt "{" ++ quoted true (txt "a") ++ txt ":[-5,null,true]," ++ quoted true (txt "b") ++ txt ":" ++
    QUOTE :: BACKSLASH :: QUOTE :: txt "\n\u00e9\ud83d\ude00\u0007" ++ [QUOTE; 125] ∧
  py_str (λ _, []) (λ _, true) dumps_example = txt "{'a': [-5, None, True], 'b': '" ++ [34] ++ txt "\n" ++ [233; 128512] ++ txt "\x07'}".
Proof. split; vm_compute; reflexivity. Qed.

(** ** [float(text)] *)

Definition prec : Z := 53.
Definition emax : Z := 1024.

(** The binary64 nearest to [(-1)^neg * m * 10^e], ties to even *)
Definition float_of_decimal (neg : bool) (m e : Z) : spec_float :=
  match m with
  | Zpos p =>
      if 0 <=? e then binary_normalize prec emax (cond_Zopp neg (m * 10 ^ e)) 0 neg
      else match 10 ^ (- e) with
        | Zpos q => SFdiv prec emax (S754_finite neg p 0) (S754_finite false q 0)
        | _ => S754_nan
        end
  | _ => S754_zero neg
  end.

Section float.
Context (uni_lower : Z → list Z) (uni_decimal : Z → option Z).

Definition UNDERSCORE : Z := 95.
Definition ascii_digit (c : Z) : bool := (48 <=? c) && (c <=? 57).

(** Decimal digits beyond ASCII as ASCII digits *)
Definition to_ascii (t : text) : text :=
  map (λ c, match decimal uni_decimal c with Some d => 48 + d | None => c end) t.

(** An underscore stands between digits only. *)
Fixpoint underscores_ok (prev : bool) (t : text) : bool :=
  match t with
  | [] => true
  | c :: t' =>
      if c =? UNDERSCORE then
        prev && match t' with d :: _ => ascii_digit d | [] => false end && underscores_ok false t'
      else underscores_ok (ascii_digit c) t'
  end.

Definition digits_value (ds : text) : Z := foldl (λ n c, 10 * n + (c - 48)) 0 ds.

Definition sign (t : text) : bool * text :=
  match t with c :: t' => if c =? 45 then (true, t') else if c =? 43 then (false, t') else (false, t) | [] => (false, t) end.

Definition after (ds t : text) : text := drop (length ds) t.

(** [digits [. digits] [e [sign] digits]], with a digit before or after the point *)
Definition decimal_literal (neg : bool) (t : text) : option spec_float :=
  let whole := take_while ascii_digit t in
  let t := after whole t in
  let fraction := match t with c :: t' => if c =? DOT then take_while ascii_digit t' else [] | [] => [] end in
  let t := match t with c :: t' => if c =? DOT then after fraction t' else t | [] => t end in
  if bool_decide (whole ++ fraction = []) then None
  else
    let number (e : Z) := float_of_decimal neg (digits_value (whole ++ fraction)) (e - Z.of_nat (length fraction)) in
    match t with
    | [] => Some (number 0)
    | c :: t' =>
        if (c =? 101) || (c =? 69) then
          let '(eneg, t') := sign t' in
          let ds := take_while ascii_digit t' in
          if bool_decide (ds = []) || negb (bool_decide (after ds t' = [])) then None
          else Some (number (if eneg then - digits_value ds else digits_value ds))
        else None
    end.

(** [None]: [ValueError] *)
Definition py_float (raw : text) : option spec_float :=
  let t := to_ascii (strip_space raw) in
  if negb (underscores_ok false t) then None
  else
    let '(neg, t) := sign (filterb (λ c, negb (c =? UNDERSCORE)) t) in
    let word := tlower uni_lower t in
    if mem word (map txt ["inf"; "infinity"]) then Some (S754_infinity neg)
    else if bool_decide (word = txt "nan") then Some S754_nan
    else decimal_literal neg t.
End float.

Definition float_examples : list (option spec_float) :=
  map (λ s, py_float (λ c, [c]) (λ _, None) (txt s)) ["0.1"; " -1_0.5e1 "; "nan"; "-Infinity"; "1e400"; "."; "1__0"].
Example float_values :
  float_examples =
    [Some (S754_finite false 7205759403792794 (-56)); Some (S754_finite true 7388718138654720 (-46));
     Some S754_nan; Some (S754_infinity true); Some (S754_infinity false); None; None].
Proof. vm_compute. reflexivity. Qed.

(** ** The fields of a validated model

    What pydantic reads of a dict in its default mode; a text field refuses surrogates. *)

Definition str_field (j : json) : option text :=
  match j with JText t => if forallb is_scalar t then Some t else None | _ => None end.
Definition opt_field (key : string) (l : list (text * json)) : option (option text) :=
  match dict_get (txt key) l with
  | None | Some JNull => Some None
  | Some j => Some <$> str_field j
  end.

(** [f: T | None = None] and [f: T = ...], with the check of a present value *)
Definition optional (l : list (text * json)) (key : string) (p : json → bool) : bool :=
  match dict_get (txt key) l with None | Some JNull => true | Some j => p j end.
Definition defaulted (l : list (text * json)) (key : string) (p : json → bool) : bool :=
  match dict_get (txt key) l with None => true | Some j => p j end.

(** [str] with a check, [list[str]] with a check of each, and one of at most [n] *)
Definition text_that (p : text → bool) (j : json) : bool := match str_field j with Some t => p t | None => false end.
Definition texts_all (p : text → bool) (j : json) : bool := match j with JList l => forallb (text_that p) l | _ => false end.
Definition texts_that (n : nat) (p : text → bool) (j : json) : bool :=
  texts_all p j && match j with JList l => (length l <=? n)%nat | _ => false end.

(** [extra="forbid"] *)
Definition only_keys (known : list string) (l : list (text * json)) : bool :=
  forallb (λ '(k, _), bool_decide (k ∈ map txt known)) l.
