(* ===== verification/PyNum.v ===== *)
(** * Numbers and UUIDs from text

    Python's [int(text)], [int(text, 16)] and [uuid.UUID(text)], with the round trips of
    [str(int)] and [str(UUID)].  Decimal digits beyond ASCII are a parameter. *)
From S2P Require Import Prelude PyStr Uuid Utf8 PathLabel Text Json.
From Stdlib Require Import DecimalString DecimalN DecimalPos.
From stdpp Require Import options.

Definition digit_value (c : Z) : option Z :=
  if (48 <=? c) && (c <=? 57) then Some (c - 48)
  else if (97 <=? c) && (c <=? 122) then Some (c - 87)
  else if (65 <=? c) && (c <=? 90) then Some (c - 55)
  else None.

(** Digits of a base, with single underscores between them; [prev]: a digit comes before *)
Fixpoint int_digits (base : Z) (prev : bool) (acc : Z) (t : text) : option Z :=
  match t with
  | [] => if prev then Some acc else None
  | c :: t' =>
      if c =? UNDERSCORE then if prev then int_digits base false acc t' else None
      else match digit_value c with
        | Some d => if d <? base then int_digits base true (base * acc + d) t' else None
        | None => None
        end
  end.

Definition signed (s : bool) (n : option Z) : option Z := n ← n; Some (if s then - n else n).

Section python.
Context (uni_decimal : Z → option Z).

(** [int(text)]; [None]: [ValueError] *)
Definition py_int (raw : text) : option Z :=
  let '(s, t) := sign (to_ascii uni_decimal (strip_space raw)) in
  let digits := filterb (λ c, negb (c =? UNDERSCORE)) t in
  if (INT_MAX_DIGITS <? length digits)%nat then None
  else signed s (int_digits 10 false 0 t).

(** [int(text, 16)] *)
Definition py_hex (raw : text) : option Z :=
  let '(s, t) := sign (to_ascii uni_decimal (strip_space raw)) in
  let t := match t with
    | 48 :: x :: t' =>
        if (x =? 120) || (x =? 88) then match t' with c :: t'' => if c =? UNDERSCORE then t'' else t' | [] => t' end else t
    | _ => t
    end in
  signed s (int_digits 16 false 0 t).

(** [text.replace(old, "")], left to right; [fuel] the length of the text *)
Fixpoint without (fuel : nat) (old t : text) : text :=
  match fuel, t with
  | S k, c :: t' => if starts_with t old then without k old (drop (length old) t) else c :: without k old t'
  | _, _ => []
  end.
Definition remove_text (old t : text) : text := without (length t) old t.

Fixpoint lstrip_any (cs : list Z) (t : text) : text :=
  match t with c :: t' => if bool_decide (c ∈ cs) then lstrip_any cs t' else t | [] => [] end.
(** [text.strip("{}")] *)
Definition strip_braces (t : text) : text := rev (lstrip_any [123; 125] (rev (lstrip_any [123; 125] t))).

(** [uuid.UUID(text)]; [None]: [ValueError] *)
Definition parse_uuid (t : text) : option Z :=
  let hex := remove_text (txt "-") (strip_braces (remove_text (txt "uuid:") (remove_text (txt "urn:") t))) in
  if negb (length hex =? 32)%nat then None
  else n ← py_hex hex; if (0 <=? n) && (n <? 2 ^ 128) then Some n else None.
End python.

(** ** Round trips *)

(** Text of digits of a base *)
Definition digits_of (base : Z) (t : text) : Prop :=
  Forall (λ c, c ≠ UNDERSCORE ∧ ∃ d, digit_value c = Some d ∧ d < base) t.

Definition value (base acc : Z) (t : text) : Z := foldl (λ a c, base * a + default 0 (digit_value c)) acc t.

Lemma int_digits_value base t prev acc :
  digits_of base t → t ≠ [] ∨ prev = true → int_digits base prev acc t = Some (value base acc t).
Proof.
  intros Ht. revert prev acc. induction Ht as [ |c t (Hu & d & Hd & Hb) Ht IH]; intros prev acc Hne.
  - by destruct Hne as [H| ->].
  - cbn [int_digits value foldl]. rewrite (proj2 (Z.eqb_neq c UNDERSCORE)) by done. rewrite Hd. cbn [default].
    rewrite (proj2 (Z.ltb_lt d base)) by done. apply IH. by right.
Qed.

(** Text of hexadecimal digits and dashes, ASCII *)
Definition plain (c : Z) : Prop := 48 ≤ c ≤ 57 ∨ 97 ≤ c ≤ 102 ∨ c = 45.

Lemma plain_not_space c : plain c → Text.is_space c = false.
Proof.
  unfold plain, Text.is_space. intros H. rewrite bool_decide_false by (rewrite !elem_of_cons, elem_of_nil; lia). lia.
Qed.

Lemma lstrip_space_plain t : Forall plain t → lstrip_space t = t.
Proof. destruct 1 as [ |c t Hc _]; [done|]. cbn [lstrip_space]. by rewrite plain_not_space. Qed.

Lemma strip_space_plain t : Forall plain t → strip_space t = t.
Proof.
  intros H. unfold strip_space. rewrite (lstrip_space_plain t) by done.
  rewrite lstrip_space_plain, rev_involutive; [done|]. apply Forall_forall. intros c Hc. rewrite elem_of_rev_text in Hc. by eapply Forall_forall in H.
Qed.

Lemma to_ascii_plain (uni_decimal : Z → option Z) t : Forall plain t → to_ascii uni_decimal t = t.
Proof.
  unfold to_ascii. induction 1 as [ |c t Hc _ IH]; [done|]. cbn [map]. rewrite IH. f_equal. unfold decimal.
  destruct (_ && _) eqn:Hd; [lia|]. unfold plain in Hc. destruct (c <? 128) eqn:H128; [done|]. lia.
Qed.

Lemma plain_dec n : Forall (λ c, 48 ≤ c ≤ 57) (txt (dec n)).
Proof.
  pose proof (dec_decimal n) as H. induction (dec n) as [ |a s IH]; [constructor|]. cbn [str_forall] in H. apply andb_true_iff in H as [Ha Hs].
  cbn [txt]. constructor; [|by apply IH]. clear -Ha. unfold is_decimal in Ha.
  apply andb_true_iff in Ha as [H1%N.leb_le H2%N.leb_le]. unfold ord. lia.
Qed.

Lemma digit_value_decimal c : 48 ≤ c ≤ 57 → digit_value c = Some (c - 48).
Proof. intros H. unfold digit_value. by rewrite (proj2 (andb_true_iff _ _)) by lia. Qed.

Lemma decimal_digits_of t : Forall (λ c, 48 ≤ c ≤ 57) t → digits_of 10 t.
Proof.
  intros H. eapply Forall_impl; [exact H|]. intros c Hc. cbv beta in Hc. split; [unfold UNDERSCORE; lia|].
  exists (c - 48). split; [by apply digit_value_decimal|cbv beta in Hc; lia].
Qed.

(** *** Decimal *)

Ltac digit := match goal with |- context [digit_value ?x] =>
  let v := eval vm_compute in (digit_value x) in change (digit_value x) with v; cbn [default id] end.

Lemma value_uint_pos d p :
  value 10 (Zpos p) (txt (NilEmpty.string_of_uint d)) = Zpos (Pos.of_uint_acc d p).
Proof.
  revert p. induction d as [ |d IH|d IH|d IH|d IH|d IH|d IH|d IH|d IH|d IH|d IH]; intros p; [done|..];
    cbn [NilEmpty.string_of_uint txt value foldl Pos.of_uint_acc];
    change (foldl _ ?a ?t) with (value 10 a t); rewrite <- IH; f_equal;
    digit; lia.
Qed.

Lemma value_uint d : value 10 0 (txt (NilEmpty.string_of_uint d)) = Z.of_N (Pos.of_uint d).
Proof.
  induction d as [ |d IH|d IH|d IH|d IH|d IH|d IH|d IH|d IH|d IH|d IH]; [done|exact IH|..];
    cbn [NilEmpty.string_of_uint txt value foldl Pos.of_uint Z.of_N]; rewrite <- value_uint_pos; by digit.
Qed.

Lemma value_dec n : value 10 0 (txt (dec n)) = Z.of_N n.
Proof. unfold dec. rewrite value_uint. f_equal. apply DecimalN.Unsigned.of_to. Qed.

Lemma value_ge acc t : 0 ≤ acc → acc * 10 ^ Z.of_nat (length t) ≤ value 10 acc t.
Proof.
  revert acc. induction t as [ |c t IH]; intros acc Ha; [cbn; lia|]. cbn [value foldl length]. change (foldl _ ?a ?t) with (value 10 a t).
  assert (0 ≤ default 0 (digit_value c)) as Hd by (unfold digit_value; repeat case_match; cbn; lia).
  etransitivity; [|apply IH; lia]. rewrite Nat2Z.inj_succ, Z.pow_succ_r by lia. nia.
Qed.

(** No leading zeros *)
Lemma dec_head n : dec n = "0" ∨ ∃ c s, dec n = String c s ∧ 1 ≤ default 0 (digit_value (ord c)).
Proof.
  assert (Decimal.unorm (N.to_uint n) = N.to_uint n) as Hn by (by rewrite <- DecimalN.Unsigned.to_of, DecimalN.Unsigned.of_to).
  unfold dec. destruct (N.to_uint n) as [ |d|d|d|d|d|d|d|d|d|d]; [done|..];
    try (right; eexists _, _; cbn [NilEmpty.string_of_uint]; split; [reflexivity|digit; lia]).
  left. cbn [Decimal.unorm Decimal.nzhead] in Hn. unfold Decimal.unorm in Hn. cbn [Decimal.nzhead] in Hn.
  destruct (Decimal.nzhead d) eqn:Hd; try discriminate Hn; injection Hn as <-; [done|]. by apply DecimalFacts.nzhead_nonzero in Hd.
Qed.

Lemma dec_length_at n k : Z.of_N n < 10 ^ Z.of_nat k → (length (txt (dec n)) ≤ S k)%nat.
Proof.
  intros Hn. destruct (dec_head n) as [->|(c & s & He & Hc)]; [cbn; lia|].
  pose proof (value_dec n) as Hv. rewrite He in Hv |- *. cbn [txt value foldl] in Hv. change (foldl _ ?a ?t) with (value 10 a t) in Hv.
  pose proof (value_ge (10 * 0 + default 0 (digit_value (ord c))) (txt s) ltac:(lia)) as Hge. cbn [txt length].
  apply Nat.nlt_ge. intros Hl. assert (10 ^ Z.of_nat k ≤ 10 ^ Z.of_nat (length (txt s))) as Hp by (apply Z.pow_le_mono_r; lia).
  assert (0 < 10 ^ Z.of_nat (length (txt s))) by (apply Z.pow_pos_nonneg; lia). nia.
Qed.

(** The bound stays a power: nothing below computes it. *)
Lemma dec_length n : Z.of_N n < 10 ^ 4299 → (length (txt (dec n)) ≤ INT_MAX_DIGITS)%nat.
Proof. exact (dec_length_at n 4299). Qed.

(** *** [int] of digits, and [int(str(n))] *)
Lemma py_int_digits (uni_decimal : Z → option Z) t :
  Forall (λ c, 48 ≤ c ≤ 57) t → t ≠ [] → (length t ≤ INT_MAX_DIGITS)%nat → py_int uni_decimal t = Some (value 10 0 t).
Proof.
  intros Hd Hne Hn. assert (Forall plain t) as Hp by (eapply Forall_impl; [exact Hd|]; intros c Hc; left; exact Hc).
  unfold py_int. rewrite strip_space_plain, to_ascii_plain by done.
  assert (sign t = (false, t)) as ->.
  { clear Hn. destruct Hd as [ |c t' Hc Ht]; [done|]. cbn [sign]. destruct (c =? 45) eqn:H1; [lia|]. destruct (c =? 43) eqn:H2; [lia|done]. }
  assert (filterb (λ c, negb (c =? UNDERSCORE)) t = t) as ->.
  { clear Hne Hp Hn. induction Hd as [ |c t' Hc Ht IH]; [done|]. cbn [filterb]. unfold UNDERSCORE at 1.
    rewrite (proj2 (Z.eqb_neq c 95)) by lia. cbn [negb]. by rewrite IH. }
  rewrite (proj2 (Nat.ltb_ge _ _)) by exact Hn. clear Hn.
  rewrite int_digits_value; [done|by apply decimal_digits_of|by left].
Qed.

Lemma py_int_text (uni_decimal : Z → option Z) n : 0 ≤ n < 10 ^ 4299 → py_int uni_decimal (int_text n) = Some n.
Proof.
  intros [H0 Hn]. assert (Z.of_N (Z.to_N (Z.abs n)) = n) as Habs by (clear Hn; lia).
  rewrite <-Habs in Hn. apply dec_length in Hn. unfold int_text. rewrite (proj2 (Z.ltb_ge n 0)) by done. cbn [app].
  rewrite py_int_digits; [by rewrite value_dec, Habs|apply plain_dec| |exact Hn].
  clear Hn. by destruct (dec_head (Z.to_N (Z.abs n))) as [->|(c & s & -> & _)].
Qed.

(** *** [uuid.UUID(str(u))] *)

Lemma txt_substring n m s : txt (String.substring n m s) = take m (drop n (txt s)).
Proof.
  revert n m. induction s as [ |a s IH]; intros n m; [by destruct n, m|].
  destruct n as [ |n], m as [ |m]; cbn [String.substring txt take drop]; rewrite ?IH; done.
Qed.

Lemma length_txt s : length (txt s) = String.length s.
Proof. induction s as [ |a s IH]; [done|]. cbn. by rewrite IH. Qed.

(** The text of the hexadecimal digits [0-9a-f] *)
Definition hexa (c : Z) : Prop := 48 ≤ c ≤ 57 ∨ 97 ≤ c ≤ 102.

Lemma hex_digit_code d : 0 ≤ d < 16 → ord (hex_digit d) = (if d <? 10 then 48 + d else 87 + d).
Proof.
  intros Hd. unfold ord, code, hex_digit. rewrite N_ascii_embedding; [|destruct (d <? 10) eqn:?; lia].
  rewrite Z2N.id by (destruct (d <? 10) eqn:?; lia). done.
Qed.

Lemma digit_value_hex d : 0 ≤ d < 16 → digit_value (ord (hex_digit d)) = Some d.
Proof.
  intros Hd. rewrite hex_digit_code by done. unfold digit_value.
  destruct (d <? 10) eqn:H10; repeat case_match; try lia; f_equal; lia.
Qed.

Lemma hexa_hexn n z : Forall hexa (txt (hexn n z)).
Proof.
  revert z. induction n as [ |n IH]; intros z; [constructor|]. cbn [hexn]. rewrite txt_app, Forall_app. split; [apply IH|].
  cbn [sep_str txt]. constructor; [|constructor]. pose proof (Z.mod_pos_bound z 16 ltac:(lia)) as Hd.
  rewrite hex_digit_code by done. unfold hexa. destruct (_ <? 10) eqn:?; lia.
Qed.

Lemma hexa_digits_of t : Forall hexa t → digits_of 16 t.
Proof.
  intros H. eapply Forall_impl; [exact H|]. intros c Hc. cbv beta in Hc. unfold hexa in Hc. split; [unfold UNDERSCORE; lia|].
  unfold digit_value. repeat case_match; try lia; eexists; (split; [done|lia]).
Qed.

Lemma value_hexn n z : 0 ≤ z < 16 ^ Z.of_nat n → value 16 0 (txt (hexn n z)) = z.
Proof.
  revert z. induction n as [ |n IH]; intros z Hz; [cbn in *; lia|]. cbn [hexn]. rewrite txt_app. unfold value. rewrite foldl_app.
  change (foldl _ 0 ?t) with (value 16 0 t). rewrite Nat2Z.inj_succ, Z.pow_succ_r in Hz by lia.
  rewrite IH by (split; [apply Z.div_pos; lia|apply Z.div_lt_upper_bound; lia]).
  cbn [sep_str txt foldl]. rewrite digit_value_hex by (apply Z.mod_pos_bound; lia). cbn [default id]. lia.
Qed.

Lemma without_fresh c old t fuel : c ∉ t → (length t ≤ fuel)%nat → without fuel (c :: old) t = t.
Proof.
  revert t. induction fuel as [ |k IH]; intros [ |d t] Hc Hl; cbn [length] in Hl; try done; [lia|]. cbn [without starts_with].
  apply not_elem_of_cons in Hc as [Hcd Hc]. rewrite (proj2 (Z.eqb_neq d c)) by done. cbn [andb]. by rewrite IH by (done || lia).
Qed.

Lemma remove_fresh c old t : c ∉ t → remove_text (c :: old) t = t.
Proof. intros Hc. by apply without_fresh. Qed.

Lemma remove_char c t : remove_text [c] t = filterb (λ d, negb (d =? c)) t.
Proof.
  unfold remove_text. enough (∀ fuel, (length t ≤ fuel)%nat → without fuel [c] t = filterb (λ d, negb (d =? c)) t) as H by by apply H.
  induction t as [ |d t IH]; intros [ |k] Hl; cbn [length] in Hl; try done; [lia|].
  cbn [without starts_with filterb drop length]. replace (starts_with t []) with true by by destruct t. rewrite andb_true_r. destruct (d =? c); cbn [negb]; rewrite IH by lia; done.
Qed.

Lemma dashes h : Forall hexa h → filterb (λ d, negb (d =? 45)) h = h.
Proof.
  induction 1 as [ |c h Hc Hh IH]; [done|]. cbn [filterb]. unfold hexa in Hc. rewrite (proj2 (Z.eqb_neq c 45)) by lia. cbn [negb]. by rewrite IH.
Qed.

Lemma uuid_str_text u :
  let h := txt (uuid_hex u) in
  txt (uuid_str u) = take 8 h ++ txt "-" ++ take 4 (drop 8 h) ++ txt "-" ++ take 4 (drop 12 h) ++ txt "-" ++
    take 4 (drop 16 h) ++ txt "-" ++ take 12 (drop 20 h).
Proof. cbn zeta. unfold uuid_str. by rewrite !txt_app, !txt_substring. Qed.

Lemma uuid_str_plain u : Forall plain (txt (uuid_str u)).
Proof.
  rewrite uuid_str_text. cbn zeta. pose proof (hexa_hexn 32 u) as H. fold (uuid_hex u) in H.
  assert (∀ a b, Forall plain (take a (drop b (txt (uuid_hex u))))) as Hp.
  { intros a b. apply Forall_take, Forall_drop. eapply Forall_impl; [exact H|]. unfold hexa, plain. intros c Hc. cbv beta in Hc. tauto. }
  assert (Forall plain (txt "-")) as Hd by (constructor; [by right; right|constructor]).
  rewrite !Forall_app. split_and!; try done; try apply Hp. by apply (Hp 8%nat 0%nat).
Qed.

Lemma filterb_app {A} (f : A → bool) (a b : list A) : filterb f (a ++ b) = filterb f a ++ filterb f b.
Proof. induction a as [ |x a IH]; [done|]. cbn. destruct (f x); cbn; by rewrite IH. Qed.

Lemma undashed u : filterb (λ d, negb (d =? 45)) (txt (uuid_str u)) = txt (uuid_hex u).
Proof.
  rewrite uuid_str_text. cbn zeta. pose proof (hexa_hexn 32 u) as H. fold (uuid_hex u) in H.
  assert (length (txt (uuid_hex u)) = 32%nat) as Hl by (rewrite length_txt; apply hexn_length).
  remember (txt (uuid_hex u)) as h. clear Heqh.
  rewrite !filterb_app. change (filterb _ (txt "-")) with (@nil Z). cbn [app].
  rewrite !dashes by (try apply Forall_take; try apply Forall_drop; done).
  pose proof (take_drop 8 h) as H8. pose proof (take_drop 4 (drop 8 h)) as H12. pose proof (take_drop 4 (drop 12 h)) as H16.
  pose proof (take_drop 4 (drop 16 h)) as H20. rewrite drop_drop in H12, H16, H20. cbn [Nat.add] in H12, H16, H20.
  rewrite (take_ge (drop 20 h)) by (rewrite length_drop; lia). by rewrite H20, H16, H12, H8.
Qed.

Lemma lstrip_any_plain t : Forall plain t → lstrip_any [123; 125] t = t.
Proof.
  destruct 1 as [ |c t Hc _]; [done|]. cbn [lstrip_any]. rewrite bool_decide_false; [done|].
  unfold plain in Hc. rewrite !elem_of_cons, elem_of_nil. lia.
Qed.

Lemma parse_uuid_str (uni_decimal : Z → option Z) u : is_uuid u → parse_uuid uni_decimal (txt (uuid_str u)) = Some u.
Proof.
  intros Hu. pose proof (uuid_str_plain u) as Hp. unfold parse_uuid.
  assert (∀ c, c = 117 → c ∉ txt (uuid_str u)) as Hfresh.
  { intros c -> Hc. eapply Forall_forall in Hp; [|exact Hc]. unfold plain in Hp. lia. }
  change (txt "urn:") with (117 :: txt "rn:"). change (txt "uuid:") with (117 :: txt "uid:"). 
  rewrite (remove_fresh 117 (txt "rn:")) by by apply Hfresh. rewrite (remove_fresh 117 (txt "uid:")) by by apply Hfresh.
  unfold strip_braces. rewrite (lstrip_any_plain (txt _)) by done.
  rewrite lstrip_any_plain by (apply Forall_forall; intros c Hc; rewrite elem_of_rev_text in Hc; by eapply Forall_forall in Hp).
  rewrite rev_involutive. change (txt "-") with [45]. rewrite remove_char, undashed.
  assert (length (txt (uuid_hex u)) = 32%nat) as Hl by (rewrite length_txt; apply hexn_length).
  rewrite Hl. cbn [Nat.eqb negb]. pose proof (hexa_hexn 32 u) as Hh. fold (uuid_hex u) in Hh.
  assert (Forall plain (txt (uuid_hex u))) as Hhp by (eapply Forall_impl; [exact Hh|]; unfold hexa, plain; intros c Hc; cbv beta in Hc; tauto).
  unfold py_hex. rewrite strip_space_plain, to_ascii_plain by done.
  destruct (txt (uuid_hex u)) as [ |a [ |b h]] eqn:He; [done..|].
  assert (sign (a :: b :: h) = (false, a :: b :: h)) as ->.
  { cbn [sign]. inversion Hh as [|?? Ha _]; subst. unfold hexa in Ha. destruct (a =? 45) eqn:H1; [lia|]. destruct (a =? 43) eqn:H2; [lia|done]. }
  assert ((match a :: b :: h with
      | 48 :: x :: t' => if (x =? 120) || (x =? 88) then match t' with c :: t'' => if c =? UNDERSCORE then t'' else t' | [] => t' end else a :: b :: h
      | _ => a :: b :: h end) = a :: b :: h) as ->.
  { inversion Hh as [|?? Ha Hb]; subst. inversion Hb as [|?? Hb' _]; subst. unfold hexa in Hb'.
    destruct (b =? 120) eqn:H1; [lia|]. destruct (b =? 88) eqn:H2; [lia|]. cbn [orb]. by repeat case_match. }
  rewrite int_digits_value; [|by apply hexa_digits_of|by left].
  unfold signed. cbn [mbind option_bind]. pose proof (value_hexn 32 u) as Hv. unfold uuid_hex in He. rewrite He in Hv.
  unfold is_uuid in Hu. rewrite Hv by (change (Z.of_nat 32) with 32; lia).
  rewrite (proj2 (andb_true_iff _ _)) by lia. done.
Qed.
