(* ===== verification/Catalog.v ===== *)
(** * Catalogue rows and content hashes ([models.py], [tasks/extract.py])

    The [items] row, the filesystem it describes, and the three hashes of a file.
    Paths are [text] (code points); file contents are bytes. *)
From S2P Require Import Prelude PyStr Utf8 PathLabel Text Json.
From stdpp Require Import options.

Inductive ItemStatus := active | missing | trashed.

Global Instance item_status_eq_dec : EqDecision ItemStatus.
Proof. solve_decision. Defined.

(** The columns that only the user, the extractors and the first scan write. *)
Record Curated := mkCurated {
  title : option text;
  year : option Z;
  tags : list text;
  external_ids : gmap text text;
  metadata_ : gmap text json;
  user_metadata : gmap text json;
  first_seen : Z;
}.

Record Item := mkItem {
  i_id : Z;
  i_library_id : Z;
  i_file_category : option string;
  i_file_group : option string;
  i_status : ItemStatus;
  i_path : text;
  i_rel_path : text;
  i_filename : text;
  i_extension : option text;
  i_size : Z;
  i_mtime : Z;
  i_quick_hash : option string;
  i_content_hash : option string;
  i_mid_hash : option string;
  i_nlink : option Z;
  i_inode : option Z;
  i_dev : option Z;
  i_symlink_target : option text;
  i_last_seen : Z;
  i_deleted_at : option Z;
  i_sidecar_of : option Z;
  i_path_scope : option string;
  i_source_agent_id : option Z;
  i_share_hint : option json;
  i_curated : Curated;
}.

Global Instance curated_eq_dec : EqDecision Curated.
Proof. solve_decision. Defined.

Global Instance item_eq_dec : EqDecision Item.
Proof. solve_decision. Defined.

(** ** Hashes *)

Definition QUICK_CHUNK : Z := 65536.

(** [data[n:]] and [data[:n]] at Python's integers, [n >= 0] *)
Definition take_z {A} (n : Z) (l : list A) : list A := take (Z.to_nat n) l.
Definition drop_z {A} (n : Z) (l : list A) : list A := drop (Z.to_nat n) l.

Section hashes.
(** [xxhash.xxh3_64(data).hexdigest()] and its 128-bit sibling; a file is its bytes,
    [None] where [open] raises [OSError]. *)
Context (xxh3_64 xxh3_128 : list Z → string) (fs : text → option (list Z)).

(** [None]: [OSError] *)
Definition quick_hash (path : text) (size : Z) : option string :=
  data ← fs path;
  if QUICK_CHUNK * 2 <? size then
    let n := Z.of_nat (length data) in
    if n <? QUICK_CHUNK then None
    else Some (xxh3_64 (take_z QUICK_CHUNK data ++ drop_z (n - QUICK_CHUNK) data))
  else Some (xxh3_64 data).

(** The outer [option] is [OSError], the inner one the code's [None]. *)
Definition mid_hash (path : text) (size : Z) : option (option string) :=
  if size <=? QUICK_CHUNK * 2 then Some None
  else
    data ← fs path;
    Some (Some (xxh3_64 (take_z QUICK_CHUNK (drop_z ((size - QUICK_CHUNK) / 2) data)))).

Definition full_hash (path : text) : option string := xxh3_128 <$> fs path.

Definition set_hashes (it : Item) (q c m : option string) : Item :=
  mkItem (i_id it) (i_library_id it) (i_file_category it) (i_file_group it) (i_status it)
    (i_path it) (i_rel_path it) (i_filename it) (i_extension it) (i_size it) (i_mtime it)
    q c m (i_nlink it) (i_inode it) (i_dev it) (i_symlink_target it) (i_last_seen it)
    (i_deleted_at it) (i_sidecar_of it) (i_path_scope it) (i_source_agent_id it) (i_share_hint it) (i_curated it).

(** Each assignment stands when a later hash raises [OSError]. *)
Definition _ensure_hashes (item : Item) (full_max_bytes : Z) (compute_content : bool) : Item :=
  match i_quick_hash item with
  | Some _ => item
  | None =>
      match quick_hash (i_path item) (i_size item) with
      | None => item
      | Some q =>
          match mid_hash (i_path item) (i_size item) with
          | None => set_hashes item (Some q) (i_content_hash item) (i_mid_hash item)
          | Some m =>
              if compute_content && (i_size item <=? full_max_bytes) then
                match full_hash (i_path item) with
                | None => set_hashes item (Some q) (i_content_hash item) m
                | Some c => set_hashes item (Some q) (Some c) m
                end
              else set_hashes item (Some q) (i_content_hash item) m
          end
      end
  end.

(** Only hash columns change. *)
Lemma ensure_hashes_columns it fm cc :
  ∃ q c m, _ensure_hashes it fm cc = set_hashes it q c m.
Proof.
  assert (it = set_hashes it (i_quick_hash it) (i_content_hash it) (i_mid_hash it)) as Hid by (by destruct it).
  unfold _ensure_hashes. repeat case_match; eauto.
Qed.
End hashes.
