(* ===== verification/HashPolicy.v ===== *)
(** * Hash policy and filesystem class ([hashpolicy.py], [schedule.py])

    Which files of a library get a full content hash: the declared policy, and for
    [auto] the class of the filesystem the library root is on, read from
    [/proc/self/mountinfo]. *)
From S2P Require Import Prelude PyStr Utf8 PathLabel Text.
From stdpp Require Import options.

(** ** The mount table *)

Definition _NETWORK_FSTYPES : list text :=
  map txt ["cifs"; "smb"; "smbfs"; "smb3"; "nfs"; "nfs4"; "nfsd"; "afs"; "9p"; "fuseblk"].
Definition _NETWORK_FUSE_BACKENDS : list text :=
  map txt ["rclone"; "sshfs"; "davfs"; "webdav"; "smbnetfs"; "s3fs"; "gcsfuse"; "cifs"; "nfs";
    "glusterfs"; "ceph"; "mfs"; "moosefs"].
Definition _LOCAL_FUSE_BACKENDS : list text := map txt ["ext4"; "ntfs"; "ntfs-3g"; "exfat"; "vfat"].

Definition ROOT_MOUNT : text := [SLASH].

Section mounts.
Context (uni_lower : Z → list Z).
(** The value of a decimal digit beyond ASCII, the symbolic links of a path *)
Context (uni_decimal : Z → option Z) (realpath : text → text).

Definition octal (c : Z) : option Z :=
  match decimal uni_decimal c with Some d => if d <? 8 then Some d else None | None => None end.

(** [chr(int(field[i+1:i+4], 8))]; no value where [isdigit] fails or [int] raises.
    The bound of the code lets a slice of two digits pass at the end of the field. *)
Definition octal_code (ds : text) : option Z :=
  match ds with
  | [a; b; c] =>
      match octal a, octal b, octal c with Some x, Some y, Some z => Some (x * 64 + y * 8 + z) | _, _, _ => None end
  | [a; b] => match octal a, octal b with Some x, Some y => Some (x * 8 + y) | _, _ => None end
  | _ => None
  end.

Fixpoint unescape_loop (field : text) (skip : nat) : text :=
  match field with
  | [] => []
  | c :: rest =>
      match skip with
      | S k => unescape_loop rest k
      | O =>
          match (if c =? 92 then octal_code (take 3 rest) else None) with
          | Some v => v :: unescape_loop rest 3
          | None => c :: unescape_loop rest 0
          end
      end
  end.
Definition _unescape_mount (field : text) : text :=
  if has_code 92 field then unescape_loop field 0 else field.

(** The index of the [-] field *)
Fixpoint index_of (x : text) (l : list text) : option nat :=
  match l with
  | [] => None
  | y :: l' => if bool_decide (y = x) then Some 0%nat else S <$> index_of x l'
  end.

Definition mount_of_line (line : text) : option (text * text) :=
  let parts := words line in
  match index_of (txt "-") parts with
  | None => None
  | Some sep =>
      match parts !! 4%nat, parts !! S sep with
      | Some mount_point, Some fstype => Some (_unescape_mount mount_point, fstype)
      | _, _ => None
      end
  end.

Definition _parse_mountinfo (info : text) : list (text * text) := omap mount_of_line (lines info).

Definition contains_path (target mp : text) : bool :=
  bool_decide (target = mp) || starts_with target (rstrip SLASH mp ++ [SLASH]) || bool_decide (mp = ROOT_MOUNT).

(** [len(mp.rstrip("/")) or 1] *)
Definition score (mp : text) : nat := match length (rstrip SLASH mp) with O => 1%nat | n => n end.

Fixpoint best_mount (target : text) (best : option (nat * text)) (mounts : list (text * text)) :
    option (nat * text) :=
  match mounts with
  | [] => best
  | (mp, fstype) :: rest =>
      let best :=
        if contains_path target mp then
          match best with
          | None => Some (score mp, fstype)
          | Some (s, _) => if (s <? score mp)%nat then Some (score mp, fstype) else best
          end
        else best in
      best_mount target best rest
  end.

Definition _containing_fstype (path : text) (mounts : list (text * text)) : option text :=
  snd <$> best_mount (realpath path) None mounts.

Definition _classify_fstype (fstype : text) : bool :=
  let fs := tlower uni_lower fstype in
  if mem fs _NETWORK_FSTYPES && negb (bool_decide (fs = txt "fuseblk")) then true
  else if bool_decide (fs = txt "fuseblk") then false
  else if starts_with fs (txt "fuse.") then
    let backend := drop 5 fs in
    if mem backend _LOCAL_FUSE_BACKENDS then false
    else mem backend _NETWORK_FUSE_BACKENDS || negb (mem backend _LOCAL_FUSE_BACKENDS)
  else if bool_decide (fs = txt "fuse") then true
  else false.

(** [mountinfo]: the text of [/proc/self/mountinfo], [None] where it cannot be read *)
Definition is_network_path (path : text) (mountinfo : option text) : bool :=
  match mountinfo with
  | None => true
  | Some info =>
      match _containing_fstype path (_parse_mountinfo info) with
      | None => true
      | Some fstype => _classify_fstype fstype
      end
  end.

(** ** The policy *)

Inductive HashPolicy := auto | full | quick_only.
Global Instance hash_policy_eq_dec : EqDecision HashPolicy.
Proof. solve_decision. Defined.

(** [HashPolicy(declared)], an unknown value read as [auto] *)
Definition hash_policy (declared : string) : HashPolicy :=
  if bool_decide (declared = "full") then full
  else if bool_decide (declared = "quick_only") then quick_only else auto.

Record ResolvedHashPolicy := mkResolved {
  policy : HashPolicy;
  declared : HashPolicy;
  compute_content : bool;
  full_max_bytes : Z;
  network : option bool;
}.

(** The memo of the filesystem class: expiry and value per root, in microseconds *)
Abbreviation memo := (gmap text (Z * bool)).
Definition _NETWORK_TTL_S : Z := 60000000.

Definition _network_cached (cache : memo) (now : Z) (root_path : text) (mountinfo : option text) :
    bool * memo :=
  let refill :=
    let val := is_network_path root_path mountinfo in
    let cache := if bool_decide (1024 < size cache)%nat then ∅ else cache in
    (val, <[root_path := (now + _NETWORK_TTL_S, val)]> cache) in
  match cache !! root_path with
  | Some (expires, val) => if now <? expires then (val, cache) else refill
  | None => refill
  end.

Definition resolve_hash_policy (cache : memo) (now : Z) (mountinfo : option text) (decl : string)
    (root_path : text) (hash_full_max_bytes : option Z) (global_max_bytes : Z) :
    ResolvedHashPolicy * memo :=
  let pol := hash_policy decl in
  let ceiling :=
    match hash_full_max_bytes with
    | Some b => if 0 <? b then b else global_max_bytes
    | None => global_max_bytes
    end in
  match pol with
  | auto =>
      let '(net, cache) := _network_cached cache now root_path mountinfo in
      let effective := if net then quick_only else full in
      (mkResolved effective auto (bool_decide (effective = full)) ceiling (Some net), cache)
  | _ => (mkResolved pol pol (bool_decide (pol = full)) ceiling None, cache)
  end.
End mounts.

(** ** Facts *)

Lemma score_pos mp : (0 < score mp)%nat.
Proof. unfold score. destruct (length (rstrip SLASH mp)); lia. Qed.

(** The accumulator and the rest, or the rest alone *)
Lemma best_mount_spec target best mounts :
  match best_mount target best mounts with
  | None => best = None ∧ ∀ m, m ∈ mounts → contains_path target m.1 = false
  | Some (s, fs) =>
      (best = Some (s, fs) ∨
        ∃ mp, (mp, fs) ∈ mounts ∧ contains_path target mp = true ∧ score mp = s) ∧
      (∀ s' fs', best = Some (s', fs') → (s' ≤ s)%nat) ∧
      (∀ m, m ∈ mounts → contains_path target m.1 = true → (score m.1 ≤ s)%nat)
  end.
Proof.
  revert best. induction mounts as [|[mp fs0] mounts IH]; intros best; cbn [best_mount].
  { destruct best as [[s fs]|]; [|by split; [|intros ? ?%not_elem_of_nil]].
    split_and!; [by left|by intros ? ? [= -> _]|by intros ? ?%not_elem_of_nil]. }
  destruct (contains_path target mp) eqn:Hc.
  - set (best1 := match best with
      | None => Some (score mp, fs0)
      | Some (s, _) => if (s <? score mp)%nat then Some (score mp, fs0) else best end).
    specialize (IH best1). destruct (best_mount target best1 mounts) as [[s fs]|].
    + destruct IH as (Hfrom & Hge & Hall).
      assert (score mp ≤ s ∧ ∀ s' fs', best = Some (s', fs') → s' ≤ s)%nat as [Hmp Hb].
      { unfold best1 in Hge. destruct best as [[s0 f0]|].
        - destruct (Nat.ltb_spec s0 (score mp)).
          + specialize (Hge _ _ eq_refl). split; [lia|]. intros ? ? [= <- _]. lia.
          + specialize (Hge _ _ eq_refl). split; [lia|]. by intros ? ? [= <- _].
        - specialize (Hge _ _ eq_refl). split; [lia|done]. }
      split_and!; [|done|].
      * destruct Hfrom as [Hfrom|(mp' & Hin & ? & ?)]; [|right; exists mp'; by split; [right|]].
        unfold best1 in Hfrom. destruct best as [[s0 f0]|]; [destruct (s0 <? score mp)%nat|]; simplify_eq;
          [right|by left|right]; exists mp; by split; [left|].
      * intros m [->|Hm]%elem_of_cons; [done|by apply Hall].
    + exfalso. destruct IH as [IH _]. unfold best1 in IH. destruct best as [[s0 f0]|]; [|done].
      by destruct (s0 <? score mp)%nat.
  - specialize (IH best). destruct (best_mount target best mounts) as [[s fs]|].
    + destruct IH as (Hfrom & Hge & Hall). split_and!; [|done|].
      * destruct Hfrom as [?|(mp' & ? & ? & ?)]; [by left|right]. exists mp'. by split; [right|].
      * intros m [->|Hm]%elem_of_cons; [|by apply Hall]. cbn. by rewrite Hc.
    + destruct IH as [-> Hall]. split; [done|]. intros m [->|Hm]%elem_of_cons; [done|by apply Hall].
Qed.

(** ** Properties *)

(** The class of a path is that of the deepest mount that holds it; a path no mount
    holds, or a mount table that cannot be read, counts as network, so watch mode and
    full hashing are never enabled on an unverifiable filesystem. *)
Theorem filesystem_class_deepest uni_lower uni_decimal realpath path mountinfo :
  let network := is_network_path uni_lower uni_decimal realpath path mountinfo in
  match mountinfo with
  | None => network = true
  | Some info =>
      let mounts := _parse_mountinfo uni_decimal info in
      (network = true ∧ ∀ m, m ∈ mounts → contains_path (realpath path) m.1 = false) ∨
      ∃ mp fs, (mp, fs) ∈ mounts ∧ contains_path (realpath path) mp = true ∧
        (∀ m, m ∈ mounts → contains_path (realpath path) m.1 = true → (score m.1 ≤ score mp)%nat) ∧
        network = _classify_fstype uni_lower fs
  end.
Proof.
  destruct mountinfo as [info|]; [|done]. cbn [is_network_path]. unfold _containing_fstype.
  pose proof (best_mount_spec (realpath path) None (_parse_mountinfo uni_decimal info)) as H.
  destruct (best_mount _ _ _) as [[s fs]|].
  - destruct H as ([?|(mp & Hin & Hc & <-)] & _ & Hall); [done|]. right. by exists mp, fs.
  - left. by destruct H as [_ H].
Qed.

(** What a policy resolves to.  Content hashing is on exactly for a [full] library and
    for one on a local filesystem whose policy is neither [full] nor [quick_only] (an
    unknown policy is [auto]); the size ceiling is the library's when it is positive and
    the global one otherwise, so a bad override never turns hashing off. *)
Theorem hash_policy_resolution uni_lower uni_decimal realpath now mountinfo decl root override global :
  let r := (resolve_hash_policy uni_lower uni_decimal realpath ∅ now mountinfo decl root override global).1 in
  let local := negb (is_network_path uni_lower uni_decimal realpath root mountinfo) in
  compute_content r = bool_decide (decl = "full") || (negb (bool_decide (decl = "quick_only")) && local) ∧
  (compute_content r = true ↔ policy r = full) ∧
  full_max_bytes r = match override with Some b => if 0 <? b then b else global | None => global end ∧
  (0 < global → 0 < full_max_bytes r) ∧
  (is_Some (network r) ↔ decl ≠ "full" ∧ decl ≠ "quick_only").
Proof.
  cbv zeta. unfold resolve_hash_policy, hash_policy.
  assert (∀ b, 0 < global → 0 < match b with Some b => if 0 <? b then b else global | None => global end) as Hc.
  { intros [b|]; [|done]. destruct (Z.ltb_spec 0 b); lia. }
  assert (∀ pol d P, (d = bool_decide (pol = full)) → ¬ P →
    let r := mkResolved pol pol d (match override with Some b => if 0 <? b then b else global | None => global end) None in
    compute_content r = bool_decide (pol = full) ∧ (compute_content r = true ↔ policy r = full) ∧
    full_max_bytes r = match override with Some b => if 0 <? b then b else global | None => global end ∧
    (0 < global → 0 < full_max_bytes r) ∧ (is_Some (network r) ↔ P)) as Hfixed.
  { intros pol d P -> HP. cbn. split_and!; [done|apply bool_decide_eq_true|done|apply Hc|].
    split; [by intros [? ?]|done]. }
  destruct (bool_decide_reflect (decl = "full")) as [->|H1]; [apply Hfixed; naive_solver|].
  destruct (bool_decide_reflect (decl = "quick_only")) as [->|H2]; [apply Hfixed; naive_solver|].
  unfold _network_cached. rewrite lookup_empty. cbn [fst snd].
  destruct (is_network_path _ _ _ _ _); cbn; (split_and!; [done|split; done|done|apply Hc|]); by split; eauto.
Qed.

(** [/srv] behind an automount: an autofs mount with the network mount on top of it. *)
Definition automount_table : text :=
  txt "30 1 8:1 / / rw - ext4 /dev/sda rw" ++ [10] ++
  txt "31 30 0:40 / /srv rw - autofs systemd-1 rw" ++ [10] ++
  txt "32 31 0:41 / /srv rw - cifs //nas/srv rw" ++ [10].

(** of several mounts on one mount point the first listed decides, so a network
    share over an autofs mount passes for local. *)
Theorem overmounted_share_is_local :
  let ascii (c : Z) := [c] in
  _parse_mountinfo (λ _, None) automount_table =
    [(txt "/", txt "ext4"); (txt "/srv", txt "autofs"); (txt "/srv", txt "cifs")] ∧
  _classify_fstype ascii (txt "cifs") = true ∧
  is_network_path ascii (λ _, None) id (txt "/srv/media") (Some automount_table) = false.
Proof. vm_compute. done. Qed.
