(* ===== verification/Sidecar.v ===== *)
(** * Sidecars and file classes ([sidecar.py], [tasks/associate.py], [taxonomy.py])

    The lexical test that tells a sidecar from a media file, the planner that links
    sidecars to their parents, and the taxonomy lookup of a file's category and group. *)
From S2P Require Import Prelude PyStr Utf8 PathLabel Text.
From stdpp Require Import options.

(** ** Classification by path shape *)

Inductive kind := nfo | jriver | artwork | xmp.
Global Instance kind_eq_dec : EqDecision kind.
Proof. solve_decision. Defined.

Record SidecarInfo := mkInfo { s_kind : kind; parent_stem : option text; directory : text }.

Definition _DIR_ARTWORK_NAMES : list text :=
  map txt ["poster.jpg"; "poster.png"; "poster.jpeg"; "folder.jpg"; "folder.png"; "folder.jpeg";
    "cover.jpg"; "cover.png"; "cover.jpeg"; "fanart.jpg"; "fanart.png"; "fanart.jpeg";
    "banner.jpg"; "banner.png"; "banner.jpeg"; "clearart.jpg"; "clearart.png";
    "clearlogo.jpg"; "clearlogo.png"; "landscape.jpg"; "landscape.png"; "thumb.jpg"; "thumb.png";
    "logo.jpg"; "logo.png"; "disc.jpg"; "disc.png";
    "season-all-poster.jpg"; "season-all-banner.jpg"].
Definition _ALWAYS_SIDECAR_EXTS : list text := map txt [".nfo"].
Definition stem_sidecar_ext (ext : text) : option kind :=
  if bool_decide (ext = txt ".xmp") then Some xmp
  else if bool_decide (ext = txt ".thm") then Some artwork else None.
Definition _STEM_SUFFIXES : list text :=
  map txt ["-thumb"; "-poster"; "-fanart"; "-banner"; "-landscape"; "-clearart"; "-clearlogo"; "-disc"; "-logo"].
Definition _ART_EXTS : list text := map txt [".jpg"; ".jpeg"; ".png"; ".webp"; ".tbn"].
Definition DIR_NFO_STEMS : list text := map txt ["movie"; "tvshow"; "season"; "album"; "artist"].

Section sidecars.
Context (uni_lower : Z → list Z).
Local Abbreviation lower := (tlower uni_lower).

Definition _split (rel_path : text) : text * text * text * text :=
  let filename := basename rel_path in
  let '(stem, ext) := splitext filename in
  (dirname rel_path, filename, stem, lower ext).

(** The loop over the stem suffixes *)
Fixpoint suffix_base (suffixes : list text) (stem : text) : option text :=
  match suffixes with
  | [] => None
  | s :: rest => if ends_with (lower stem) s then Some (drop_last (length s) stem) else suffix_base rest stem
  end.

Definition classify (rel_path : text) : option SidecarInfo :=
  let '(directory, filename, stem, ext) := _split rel_path in
  let fname_lower := lower filename in
  let stem_lower := lower stem in
  if ends_with fname_lower (txt "_jrsidecar.xml") then
    let base_stem := if ends_with stem_lower (txt "_jrsidecar") then or_none (drop_last 10 stem) else None in
    Some (mkInfo jriver base_stem directory)
  else if mem ext _ALWAYS_SIDECAR_EXTS then
    Some (mkInfo nfo (if mem stem_lower DIR_NFO_STEMS then None else Some stem) directory)
  else match stem_sidecar_ext ext with
  | Some k =>
      if bool_decide (stem = []) then None else Some (mkInfo k (Some stem) directory)
  | None =>
      if mem ext _ART_EXTS then
        if mem fname_lower _DIR_ARTWORK_NAMES then Some (mkInfo artwork None directory)
        else match suffix_base _STEM_SUFFIXES stem with
        | Some base => Some (mkInfo artwork (or_none base) directory)
        | None =>
            if starts_with stem_lower (txt "season") &&
               (contains stem_lower (txt "poster") || contains stem_lower (txt "banner"))
            then Some (mkInfo artwork None directory) else None
        end
      else None
  end.

(** ** Linking sidecars to parents *)

Definition _PRIMARY_CATEGORIES : list string := ["video"; "audio"; "image"; "document"; "three-d-cad"].

Record LightItem := mkLight {
  l_id : Z;
  l_rel_path : text;
  l_category : option string;
  l_size : Z;
  l_sidecar_of : option Z;
}.

Definition primary (it : LightItem) : bool :=
  match l_category it with Some c => bool_decide (c ∈ _PRIMARY_CATEGORIES) | None => false end.

Definition _stem_of (rel_path : text) : text := lower (splitext (basename rel_path)).1.

Record index := mkIndex {
  by_dir_stem : gmap (text * text) LightItem;
  dir_primaries : gmap text (list LightItem);
}.

(** One turn of the indexing loop, for a file that is no sidecar *)
Definition add_parent (ix : index) (it : LightItem) : index :=
  let key := (dirname (l_rel_path it), _stem_of (l_rel_path it)) in
  let stems :=
    match by_dir_stem ix !! key with
    | None => <[key := it]> (by_dir_stem ix)
    | Some existing =>
        if primary it && negb (primary existing) then <[key := it]> (by_dir_stem ix) else by_dir_stem ix
    end in
  let primaries :=
    if primary it then
      let d := dirname (l_rel_path it) in
      <[d := default [] (dir_primaries ix !! d) ++ [it]]> (dir_primaries ix)
    else dir_primaries ix in
  mkIndex stems primaries.

Definition build_index (items : list LightItem) : index :=
  foldl (λ ix it, match classify (l_rel_path it) with None => add_parent ix it | Some _ => ix end)
    (mkIndex ∅ ∅) items.

(** The order of texts and of the keys [(size, rel_path)] *)
Fixpoint text_ltb (a b : text) : bool :=
  match a, b with
  | [], [] => false
  | [], _ :: _ => true
  | _ :: _, [] => false
  | x :: a', y :: b' => if x =? y then text_ltb a' b' else x <? y
  end.
Definition key_ltb (a b : LightItem) : bool :=
  if l_size a =? l_size b then text_ltb (l_rel_path a) (l_rel_path b) else l_size a <? l_size b.

(** [max(cands, key=...)]: the first of the largest *)
Definition max_item (first : LightItem) (rest : list LightItem) : LightItem :=
  foldl (λ best i, if key_ltb best i then i else best) first rest.

Definition max_size (l : list LightItem) : Z := foldr (λ i m, Z.max (l_size i) m) 0 l.

Definition primary_for (ix : index) (dir : text) (directory_level : bool) : option LightItem :=
  match dir_primaries ix !! dir with
  | None | Some [] => None
  | Some ((first :: rest) as cands) =>
      let best := max_item first rest in
      let runner_up := max_size (filterb (λ i, negb (l_id i =? l_id best)) cands) in
      if directory_level && bool_decide (1 < length cands)%nat &&
         negb (runner_up =? 0) && (l_size best <? 2 * runner_up)
      then None else Some best
  end.

Definition parent_of (ix : index) (info : SidecarInfo) : option LightItem :=
  match parent_stem info with
  | Some stem =>
      match by_dir_stem ix !! (directory info, lower stem) with
      | Some p => Some p
      | None =>
          let trimmed := (splitext stem).1 in
          match (if negb (bool_decide (trimmed = [])) && negb (bool_decide (trimmed = stem))
                 then by_dir_stem ix !! (directory info, lower trimmed) else None) with
          | Some p => Some p
          | None => primary_for ix (directory info) false
          end
      end
  | None => primary_for ix (directory info) true
  end.

Definition resolve_links (items : list LightItem) : list (Z * option Z) :=
  let ix := build_index items in
  omap (λ it, match classify (l_rel_path it) with
    | None => None
    | Some info =>
        Some (l_id it, match parent_of ix info with
          | Some p => if l_id p =? l_id it then None else Some (l_id p)
          | None => None
          end)
    end) items.

(** The links that [associate_sidecars] writes: those that differ from the column. *)
Definition changed_links (items : list LightItem) : list (Z * option Z) :=
  filterb (λ '(sid, pid), match List.find (λ it, l_id it =? sid) items with
    | Some it => negb (bool_decide (l_sidecar_of it = pid))
    | None => true end) (resolve_links items).

(** ** The taxonomy snapshot *)

Record Taxonomy := mkTaxonomy {
  ext_to_group : gmap text string;
  group_to_category : gmap string string;
}.
Definition GROUP_OTHER : string := "other".

Definition _COMPOUND_EXTS : list text :=
  map (λ w, txt ("tar." +:+ w)) ["gz"; "bz2"; "xz"; "zst"; "zstd"; "lz"; "lz4"; "lzma"; "lzo"; "z"; "br"].

(** [PurePath(path).suffixes] without the dots, lower-cased: the parts of the file name
    after its leading dots and its first dot. *)
Definition suffixes (path : text) : list text :=
  map lower (tail (split_text DOT (lstrip DOT (basename path)))).

Definition detect (tax : Taxonomy) (path : text) : string * string :=
  let ss := suffixes path in
  let ext := default [] (last ss) in
  let by_ext :=
    match ext_to_group tax !! ext with
    | None => (GROUP_OTHER, GROUP_OTHER)
    | Some gid => (default GROUP_OTHER (group_to_category tax !! gid), gid)
    end in
  match rev ss with
  | s1 :: s2 :: _ =>
      if mem (s2 ++ [DOT] ++ s1) _COMPOUND_EXTS then
        match group_to_category tax !! "archive" with Some c => (c, "archive") | None => by_ext end
      else by_ext
  | _ => by_ext
  end.
End sidecars.

(** ** Facts *)

Lemma max_item_elem first rest : max_item first rest ∈ first :: rest.
Proof.
  unfold max_item. revert first. induction rest as [|i rest IH]; intros first; [left|]. cbn [foldl].
  destruct (key_ltb first i); [specialize (IH i)|specialize (IH first)]; set_solver.
Qed.

Lemma max_item_ge first rest i : i ∈ first :: rest → l_size i ≤ l_size (max_item first rest).
Proof.
  unfold max_item.
  assert (∀ rest b, l_size b ≤ l_size (foldl (λ best i, if key_ltb best i then i else best) b rest) ∧
    ∀ i, i ∈ rest → l_size i ≤ l_size (foldl (λ best i, if key_ltb best i then i else best) b rest)) as H.
  { clear. induction rest as [|j rest IH]; intros b; [split; [done|by intros ? ?%not_elem_of_nil]|].
    cbn [foldl]. assert (l_size b ≤ l_size (if key_ltb b j then j else b) ∧
      l_size j ≤ l_size (if key_ltb b j then j else b)) as [Hb Hj].
    { unfold key_ltb. destruct (Z.eqb_spec (l_size b) (l_size j)); [case_match; lia|].
      destruct (Z.ltb_spec (l_size b) (l_size j)); lia. }
    destruct (IH (if key_ltb b j then j else b)) as [H1 H2]. split; [lia|].
    intros i [->|Hi]%elem_of_cons; [lia|by apply H2]. }
  destruct (H rest first) as [H1 H2]. intros [->|Hi]%elem_of_cons; [done|by apply H2].
Qed.

Lemma max_size_ge i l : i ∈ l → l_size i ≤ max_size l.
Proof.
  unfold max_size. intros H. induction l as [|x l IH]; [by apply not_elem_of_nil in H|]. cbn [foldr].
  apply elem_of_cons in H as [<-|H]; [lia|]. specialize (IH H). lia.
Qed.

Section facts.
Context (uni_lower : Z → list Z).
Local Abbreviation classify := (classify uni_lower).
Local Abbreviation _stem_of := (_stem_of uni_lower).
Local Abbreviation build_index := (build_index uni_lower).

Lemma classify_directory rel info : classify rel = Some info → directory info = dirname rel.
Proof.
  unfold Sidecar.classify, _split. destruct (splitext (basename rel)) as [stem ext].
  repeat case_match; intros [= <-]; done.
Qed.

Definition stem_key (it : LightItem) : text * text := (dirname (l_rel_path it), _stem_of (l_rel_path it)).

(** The files that may be parents *)
Definition media (it : LightItem) : bool := match classify (l_rel_path it) with None => true | Some _ => false end.

Definition dir_media (items : list LightItem) (d : text) : list LightItem :=
  filterb (λ it, media it && primary it && bool_decide (dirname (l_rel_path it) = d)) items.

Record index_ok (items : list LightItem) (ix : index) : Prop := {
  ix_sound : ∀ k it, by_dir_stem ix !! k = Some it → it ∈ items ∧ media it = true ∧ stem_key it = k;
  ix_complete : ∀ it, it ∈ items → media it = true →
    ∃ p, by_dir_stem ix !! stem_key it = Some p ∧ (primary it = true → primary p = true);
  ix_dirs : ∀ d, default [] (dir_primaries ix !! d) = dir_media items d;
}.

Lemma dir_media_snoc items it d :
  dir_media (items ++ [it]) d =
  dir_media items d ++ (if media it && primary it && bool_decide (dirname (l_rel_path it) = d) then [it] else []).
Proof. apply List.filter_app. Qed.

Lemma add_parent_ok items ix it :
  media it = true → index_ok items ix → index_ok (items ++ [it]) (add_parent uni_lower ix it).
Proof.
  intros Hm [Hs Hc Hd]. unfold add_parent. fold (stem_key it).
  set (stems := match by_dir_stem ix !! stem_key it with
    | None => <[stem_key it := it]> (by_dir_stem ix)
    | Some existing =>
        if primary it && negb (primary existing) then <[stem_key it := it]> (by_dir_stem ix) else by_dir_stem ix
    end).
  assert ((stems = <[stem_key it := it]> (by_dir_stem ix) ∧
      (∀ p, by_dir_stem ix !! stem_key it = Some p → primary p = true → primary it = true)) ∨
    (stems = by_dir_stem ix ∧ ∃ p, by_dir_stem ix !! stem_key it = Some p ∧
      (primary it = true → primary p = true))) as Hstems.
  { unfold stems. destruct (by_dir_stem ix !! stem_key it) as [p|]; [|by left].
    destruct (primary it) eqn:Hp, (primary p) eqn:Hq; cbn.
    - right. eauto.
    - left. split; [done|]. by intros ? [= <-].
    - right. eauto.
    - right. eauto. }
  split.
  - intros k x Hx. cbn in Hx. destruct Hstems as [[Heq _]|[Heq _]]; rewrite Heq in Hx.
    + apply lookup_insert_Some in Hx as [[<- <-]|[_ Hx]]; [split_and!; [set_solver|done|done]|].
      destruct (Hs k x Hx) as (? & ? & ?). set_solver.
    + destruct (Hs k x Hx) as (? & ? & ?). set_solver.
  - intros x [Hx|Hx]%elem_of_app Hmx; cbn; [|apply list_elem_of_singleton in Hx as ->].
    + destruct (Hc x Hx Hmx) as (p & Hp & Hpp). destruct Hstems as [[-> Hpi]|[-> _]]; [|eauto].
      destruct (decide (stem_key it = stem_key x)) as [Hk|Hk].
      * rewrite Hk, lookup_insert_eq. exists it. split; [done|]. intros Hpx.
        apply (Hpi p); [by rewrite Hk|by apply Hpp].
      * rewrite lookup_insert_ne by done. eauto.
    + destruct Hstems as [[-> _]|[-> (p & ? & ?)]]; [|eauto]. rewrite lookup_insert_eq. eauto.
  - intros d. cbn. rewrite dir_media_snoc, Hm. cbn [andb].
    destruct (primary it); cbn [andb]; [|by rewrite app_nil_r].
    destruct (decide (dirname (l_rel_path it) = d)) as [<-|Hne].
    + rewrite lookup_insert_eq, bool_decide_eq_true_2 by done. cbn. by rewrite Hd.
    + rewrite lookup_insert_ne, bool_decide_eq_false_2 by done. by rewrite app_nil_r.
Qed.

Lemma build_index_ok items : index_ok items (build_index items).
Proof.
  induction items as [|it items IH] using rev_ind.
  { change (build_index []) with (mkIndex ∅ ∅).
    split; cbn; [intros k it H; by rewrite lookup_empty in H|by intros ? ?%not_elem_of_nil|].
    intros d. by rewrite lookup_empty. }
  unfold Sidecar.build_index in *. rewrite foldl_app. cbn [foldl].
  destruct (classify (l_rel_path it)) as [info|] eqn:Hcl.
  - destruct IH as [Hs Hc Hd].
    assert (media it = false) as Hm by (unfold media; by rewrite Hcl).
    split.
    + intros k x Hx. destruct (Hs k x Hx) as (? & ? & ?). set_solver.
    + intros x [Hx|Hx]%elem_of_app Hmx; [by apply Hc|].
      apply list_elem_of_singleton in Hx as ->. by rewrite Hm in Hmx.
    + intros d. rewrite dir_media_snoc, Hm. cbn. by rewrite app_nil_r.
  - apply add_parent_ok; [unfold media; by rewrite Hcl|done].
Qed.

(** What a parent picked for a whole directory satisfies *)
Definition largest_primary (items : list LightItem) (d : text) (p : LightItem) : Prop :=
  p ∈ dir_media items d ∧ ∀ q, q ∈ dir_media items d → l_size q ≤ l_size p.

Definition dominant (items : list LightItem) (d : text) (p : LightItem) : Prop :=
  ∀ q, q ∈ dir_media items d → l_id q ≠ l_id p → l_size q ≤ 0 ∨ 2 * l_size q ≤ l_size p.

Lemma primary_for_spec items d level p :
  primary_for (build_index items) d level = Some p →
  largest_primary items d p ∧ (level = true → dominant items d p).
Proof.
  pose proof (ix_dirs _ _ (build_index_ok items) d) as Hd. unfold primary_for.
  destruct (dir_primaries (build_index items) !! d) as [[|first rest]|]; [done| |done].
  change (default [] (Some (first :: rest))) with (first :: rest) in Hd.
  unfold largest_primary, dominant. rewrite <- Hd. clear Hd. intros H. split.
  - assert (p = max_item first rest) as -> by (by repeat case_match; simplify_eq).
    split; [apply max_item_elem|]. intros q. apply max_item_ge.
  - intros -> q Hq Hne. cbn [andb] in H.
    set (best := max_item first rest) in *.
    set (up := max_size _) in *.
    destruct (_ && _ && _) eqn:Hc in H; [done|]. injection H as <-.
    assert (l_size q ≤ up) as Hle.
    { apply max_size_ge, elem_of_filterb. split; [done|]. apply negb_true_iff, Z.eqb_neq. done. }
    assert (1 < length (first :: rest))%nat as Hlen.
    { destruct rest as [|r rest]; [|cbn; lia]. exfalso. apply list_elem_of_singleton in Hq as ->. done. }
    rewrite bool_decide_eq_true_2 in Hc by done. cbn [andb] in Hc.
    destruct (Z.eqb_spec up 0); [left; lia|]. cbn [negb andb] in Hc. apply Z.ltb_ge in Hc. right. lia.
Qed.
End facts.

(** ** Properties *)

(** What the link of the sidecar [s] to the parent [p] satisfies: the parent is a media
    file of the sidecar's directory; it has the stem the sidecar names (or that stem
    without a second extension), or it is the largest primary file of the directory;
    a sidecar of the directory itself has a parent only if that one is the only primary
    file that counts or at least twice as large as each other one. *)
Definition good_parent (uni_lower : Z → list Z) (items : list LightItem) (info : SidecarInfo) (p : LightItem) : Prop :=
  p ∈ items ∧ media uni_lower p = true ∧ dirname (l_rel_path p) = directory info ∧
  match parent_stem info with
  | Some stem =>
      _stem_of uni_lower (l_rel_path p) = tlower uni_lower stem ∨
      _stem_of uni_lower (l_rel_path p) = tlower uni_lower (splitext stem).1 ∨
      largest_primary uni_lower items (directory info) p
  | None =>
      largest_primary uni_lower items (directory info) p ∧ dominant uni_lower items (directory info) p
  end.

Lemma parent_of_good uni_lower items info p :
  parent_of uni_lower (build_index uni_lower items) info = Some p → good_parent uni_lower items info p.
Proof.
  pose proof (build_index_ok uni_lower items) as [Hs _ _].
  assert (∀ stem p, by_dir_stem (build_index uni_lower items) !! (directory info, stem) = Some p →
    p ∈ items ∧ media uni_lower p = true ∧ dirname (l_rel_path p) = directory info ∧
    _stem_of uni_lower (l_rel_path p) = stem) as Hstem.
  { intros stem q Hq. destruct (Hs _ q Hq) as (? & ? & Hk). unfold stem_key in Hk. naive_solver. }
  assert (∀ q, largest_primary uni_lower items (directory info) q →
    q ∈ items ∧ media uni_lower q = true ∧ dirname (l_rel_path q) = directory info) as Hdir.
  { intros q [Hq _]. unfold dir_media in Hq. apply elem_of_filterb in Hq as [? Hb]. bool_to_prop. done. }
  unfold parent_of, good_parent. destruct (parent_stem info) as [stem|].
  - destruct (by_dir_stem _ !! (directory info, tlower uni_lower stem)) as [q|] eqn:H1.
    { intros [= <-]. apply Hstem in H1. naive_solver. }
    destruct (negb (bool_decide ((splitext stem).1 = [])) && _) eqn:Ht.
    + destruct (by_dir_stem _ !! (directory info, tlower uni_lower (splitext stem).1)) as [q|] eqn:H2.
      { intros [= <-]. apply Hstem in H2. naive_solver. }
      intros [Hl _]%primary_for_spec. pose proof (Hdir p Hl). naive_solver.
    + intros [Hl _]%primary_for_spec. pose proof (Hdir p Hl). naive_solver.
  - intros [Hl Hd]%primary_for_spec. pose proof (Hdir p Hl). naive_solver.
Qed.

(** The links of a library are exactly one per sidecar, in row order, and each goes to
    a good parent ([good_parent]): a media file of the same directory, never the sidecar
    itself and never another sidecar, so links form no chains; a sidecar whose named
    sibling exists is always linked. *)
Theorem sidecar_links_sound uni_lower items :
  NoDup (map l_id items) →
  map fst (resolve_links uni_lower items) =
    map l_id (filterb (λ it, negb (media uni_lower it)) items) ∧
  (∀ sid pid, (sid, Some pid) ∈ resolve_links uni_lower items →
    pid ∉ map fst (resolve_links uni_lower items) ∧
    ∃ s p info, s ∈ items ∧ l_id s = sid ∧ classify uni_lower (l_rel_path s) = Some info ∧
      directory info = dirname (l_rel_path s) ∧ l_id p = pid ∧ good_parent uni_lower items info p) ∧
  (∀ s info stem p, s ∈ items → classify uni_lower (l_rel_path s) = Some info →
    parent_stem info = Some stem → p ∈ items → media uni_lower p = true →
    stem_key uni_lower p = (directory info, tlower uni_lower stem) →
    ∃ pid, (l_id s, Some pid) ∈ resolve_links uni_lower items).
Proof.
  intros Hnd. unfold resolve_links. set (ix := build_index uni_lower items).
  assert (∀ s p, s ∈ items → p ∈ items → l_id s = l_id p → s = p) as Hinj.
  { intros s p (i & Hi)%list_elem_of_lookup (j & Hj)%list_elem_of_lookup Heq.
    assert (i = j) as ->; [|by simplify_eq].
    eapply (NoDup_lookup (map l_id items)); [done|..]; change (map l_id items) with (l_id <$> items);
      rewrite list_lookup_fmap; [by rewrite Hi|by rewrite Hj, Heq]. }
  set (f := λ it, match classify uni_lower (l_rel_path it) with None => None | Some info =>
      Some (l_id it, match parent_of uni_lower ix info with
        | Some p => if l_id p =? l_id it then None else Some (l_id p) | None => None end) end).
  assert (map fst (omap f items) = map l_id (filterb (λ it, negb (media uni_lower it)) items)) as Hkeys.
  { unfold media, f. clearbody ix. clear. induction items as [|it items IH]; [done|].
    cbn [omap list_omap List.filter]. destruct (classify uni_lower (l_rel_path it)); cbn [map fst negb]; by rewrite ?IH. }
  split_and!; [done|..].
  - intros sid pid (s & Hs & Hf)%list_elem_of_omap. unfold f in Hf.
    destruct (classify uni_lower (l_rel_path s)) as [info|] eqn:Hc; [|done].
    destruct (parent_of uni_lower ix info) as [p|] eqn:Hp; [|done].
    destruct (Z.eqb_spec (l_id p) (l_id s)) as [|Hne]; [done|]. injection Hf as <- <-.
    pose proof (parent_of_good _ _ _ _ Hp) as Hg. pose proof Hg as (Hpi & Hm & _). split.
    + rewrite Hkeys. intros (q & Hq & [Hqi Hqm]%elem_of_filterb)%list_elem_of_fmap.
      rewrite <- (Hinj p q Hpi Hqi Hq), Hm in Hqm. done.
    + exists s, p, info. split_and!; try done. by eapply classify_directory.
  - intros s info stem p Hs Hc Hst Hp Hm Hk.
    destruct (ix_complete _ _ _ (build_index_ok uni_lower items) p Hp Hm) as (q & Hq & _).
    rewrite Hk in Hq. fold ix in Hq.
    assert (parent_of uni_lower ix info = Some q) as Hpar by (unfold parent_of; by rewrite Hst, Hq).
    exists (l_id q). apply list_elem_of_omap. exists s. split; [done|]. unfold f. rewrite Hc, Hpar.
    destruct (Z.eqb_spec (l_id q) (l_id s)) as [Heq|]; [|done]. exfalso.
    destruct (parent_of_good _ _ _ _ Hpar) as (Hqi & Hqm & _).
    rewrite (Hinj q s Hqi Hs Heq) in Hqm. unfold media in Hqm. by rewrite Hc in Hqm.
Qed.

Definition example_light (id : Z) (rel : string) (cat : string) (size : Z) : LightItem :=
  mkLight id (txt rel) (Some cat) size None.
Definition example_folder : list LightItem :=
  [example_light 1 "a/Movie.nfo" "other" 1; example_light 2 "a/Movie.mkv" "video" 500;
   example_light 3 "a/poster.jpg" "image" 9; example_light 4 "a/trailer.mkv" "video" 40].

Lemma sidecar_links_sound_witness :
  NoDup (map l_id example_folder) ∧
  resolve_links (λ c, [c]) example_folder = [(1, Some 2); (3, Some 2)] ∧
  (∀ sid pid, (sid, Some pid) ∈ resolve_links (λ c, [c]) example_folder →
    pid ∉ map fst (resolve_links (λ c, [c]) example_folder)).
Proof.
  assert (NoDup (map l_id example_folder)) as Hnd by (apply (bool_decide_eq_true_1 _); vm_compute; reflexivity).
  split_and!; [done|vm_compute; reflexivity|]. intros sid pid H.
  destruct (sidecar_links_sound (λ c, [c]) example_folder Hnd) as (_ & Hsound & _).
  by destruct (Hsound sid pid H) as [Hkey _].
Defined.

(** the result depends on the order of the rows, which the query leaves open: of two
    media files with one stem in one directory the first row becomes the parent. *)
Theorem links_depend_on_row_order :
  let items := [example_light 1 "a/Film.nfo" "other" 1; example_light 2 "a/Film.mkv" "video" 500;
                example_light 3 "a/Film.mp4" "video" 500] in
  let items' := [example_light 1 "a/Film.nfo" "other" 1; example_light 3 "a/Film.mp4" "video" 500;
                 example_light 2 "a/Film.mkv" "video" 500] in
  items ≡ₚ items' ∧
  resolve_links (λ c, [c]) items = [(1, Some 2)] ∧ resolve_links (λ c, [c]) items' = [(1, Some 3)].
Proof. split_and!; [apply perm_skip, perm_swap|vm_compute; done|vm_compute; done]. Qed.
