(* ===== verification/Metadata.v ===== *)
(** * Metadata sidecars ([nfo.py], [jriver.py])

    What a Kodi NFO or a JRiver sidecar says about its media file.  The XML parser is
    a parameter: [None] stands for every exception it may raise on untrusted bytes. *)
From S2P Require Import Prelude PyStr Utf8 PathLabel Text Json.
From stdpp Require Import options.

(** An element: tag, attributes, the text before the first child, children *)
Inductive elem := Elem (tag : text) (attrib : list (text * text)) (etext : option text) (children : list elem).

Definition tag_of (e : elem) : text := let 'Elem t _ _ _ := e in t.
Definition attrib_of (e : elem) : list (text * text) := let 'Elem _ a _ _ := e in a.
Definition text_of (e : elem) : option text := let 'Elem _ _ x _ := e in x.
Definition children_of (e : elem) : list elem := let 'Elem _ _ _ c := e in c.

Definition findall (e : elem) (tag : text) : list elem :=
  filterb (λ c, bool_decide (tag_of c = tag)) (children_of e).
Definition find (e : elem) (tag : text) : option elem := head (findall e tag).
Definition get (e : elem) (name : text) : option text :=
  snd <$> head (filterb (λ '(k, _), bool_decide (k = name)) (attrib_of e)).

(** The dict a parser returns, its [external_ids] apart; no entry there stands for a
    missing key. *)
Record Parsed := mkParsed { fields : gmap text json; external : gmap text text }.
Definition nothing : Parsed := mkParsed ∅ ∅.

Definition put (key : string) (v : option json) (out : gmap text json) : gmap text json :=
  match v with Some x => <[txt key := x]> out | None => out end.

(** [x or y] on optional texts that are not empty *)
Definition orelse {A} (x y : option A) : option A := match x with Some _ => x | None => y end.

(** One value alone, several as a list *)
Definition one_or_list (vals : list text) : option json :=
  match vals with [] => None | [v] => Some (JText v) | _ => Some (JList (map JText vals)) end.

Section metadata.
Context (uni_lower : Z → list Z) (uni_decimal : Z → option Z) (uni_digit : Z → bool).
Context (fromstring : list Z → option elem).
Local Abbreviation lower := (tlower uni_lower).

Definition leading_int (t : text) : option Z := int_of_digits uni_decimal (take_while (is_digit uni_digit) t).

(** ** Kodi NFO *)

Definition _KNOWN_ROOTS : list text := map txt ["movie"; "episodedetails"; "tvshow"; "musicvideo"].
Definition MAX_NFO_BYTES : nat := 512 * 1024.

Definition _text (e : elem) (tag : string) : option text :=
  child ← find e (txt tag); t ← text_of child; or_none (strip_space t).
Definition _int (e : elem) (tag : string) : option Z := raw ← _text e tag; leading_int raw.

Definition jtext (e : elem) (tag : string) : option json := JText <$> _text e tag.
Definition jint (e : elem) (tag : string) : option json := JInt <$> _int e tag.

Definition genres (root : elem) : list text :=
  omap (λ g, t ← text_of g; or_none (strip_space t)) (findall root (txt "genre")).

Definition rating (root : elem) : option json :=
  r ← find root (txt "rating");
  rv ← orelse (v ← get r (txt "value"); or_none v) (or_none (strip_space (default [] (text_of r))));
  JFloat <$> py_float uni_lower uni_decimal rv.

(** The [uniqueid] children, the last of a kind winning, then [imdbid] or [id] *)
Definition uniqueid (ids : gmap text text) (uid : elem) : gmap text text :=
  let k := lower (strip_space (default [] (get uid (txt "type")))) in
  let v := strip_space (default [] (text_of uid)) in
  if bool_decide (k = []) || bool_decide (v = []) then ids else <[k := v]> ids.
Definition nfo_external (root : elem) : gmap text text :=
  let ids := foldl uniqueid ∅ (findall root (txt "uniqueid")) in
  match orelse (_text root "imdbid") (_text root "id") with
  | Some imdb =>
      if starts_with imdb (txt "tt") && negb (bool_decide (is_Some (ids !! txt "imdb")))
      then <[txt "imdb" := imdb]> ids else ids
  | None => ids
  end.

Definition episode_fields (root : elem) (out : gmap text json) : gmap text json :=
  put "aired" (jtext root "aired") (put "episode" (jint root "episode") (put "season" (jint root "season") out)).

Definition nfo_fields (tag : text) (root : elem) : gmap text json :=
  let out := put "title" (jtext root "title") {[txt "nfo_kind" := JText tag]} in
  let out := put "original_title" (jtext root "originaltitle") out in
  let out := put "plot" (JText <$> orelse (_text root "plot") (_text root "outline")) out in
  let out := put "year" (jint root "year") out in
  let out := put "tagline" (jtext root "tagline") out in
  let out := put "studio" (jtext root "studio") out in
  let out := put "mpaa" (jtext root "mpaa") out in
  let out := put "runtime" (jint root "runtime") out in
  let out := if bool_decide (tag = txt "episodedetails") then episode_fields root out else out in
  put "rating" (rating root) (put "genre" (one_or_list (genres root)) out).

Definition parse_nfo_bytes (data : list Z) : Parsed :=
  if bool_decide (data = []) || bool_decide (MAX_NFO_BYTES < length data)%nat then nothing
  else match fromstring data with
  | None => nothing
  | Some root =>
      let tag := lower (tag_of root) in
      if mem tag _KNOWN_ROOTS then mkParsed (nfo_fields tag root) (nfo_external root) else nothing
  end.

(** ** JRiver *)

Definition MAX_JRSIDECAR_BYTES : nat := 512 * 1024.
Definition _TEXT_CAP : nat := 4000.
Definition _LIST_CAP : nat := 50.
Definition _EXT_CAP : nat := 128.

Inductive field_kind := KStr | KInt | KFloat | KList | KExt.

Definition _FIELDS : list (text * (text * field_kind)) :=
  map (λ '(name, key, k), (txt name, (txt key, k)))
    [("name", "title", KStr); ("year", "year", KInt); ("genre", "genre", KList);
     ("description", "plot", KStr); ("director", "director", KList); ("actors", "actors", KList);
     ("writer", "writer", KList); ("studio", "studio", KStr); ("keywords", "keywords", KList);
     ("series", "series", KStr); ("season", "season", KInt); ("episode", "episode", KInt);
     ("media type", "media_type", KStr); ("media sub type", "media_sub_type", KStr);
     ("rating", "rating", KFloat); ("mpaa rating", "mpaa", KStr); ("duration", "runtime_seconds", KFloat);
     ("album", "album", KStr); ("artist", "artist", KStr); ("album artist", "album_artist", KStr);
     ("composer", "composer", KStr); ("track #", "track", KInt); ("disc #", "disc", KInt);
     ("comment", "comment", KStr); ("imdb id", "imdb", KExt); ("tmdb id", "tmdb", KExt);
     ("tvdb id", "tvdb", KExt); ("musicbrainz id", "musicbrainz", KExt)].

Definition field_spec (name : text) : option (text * field_kind) :=
  snd <$> head (filterb (λ '(n, _), bool_decide (n = name)) _FIELDS).

Definition NEWLINE : Z := 10.
Definition SEMICOLON : Z := 59.

Definition _clean (t : option text) : option text :=
  t ← t;
  let s := filterb (λ c, (32 <=? c) || (c =? NEWLINE) || (c =? 9)) (strip_space t) in
  match s with [] => None | _ => Some (take _TEXT_CAP s) end.

Definition jr_int (raw : text) : option Z := leading_int (strip_space raw).
Definition jr_float (raw : text) : option json :=
  if bool_decide (strip_space raw = []) then None else JFloat <$> py_float uni_lower uni_decimal raw.
Definition jr_list (raw : text) : list text :=
  let parts := map strip_space (split_text SEMICOLON (map (λ c, if c =? NEWLINE then SEMICOLON else c) raw)) in
  take _LIST_CAP (filterb (λ p, negb (bool_decide (p = []))) parts).

Definition put_field (k : text) (v : option json) (p : Parsed) : Parsed :=
  match v with Some x => mkParsed (<[k := x]> (fields p)) (external p) | None => p end.

(** One turn of the loop over the children of the item *)
Definition jr_field (p : Parsed) (field : elem) : Parsed :=
  if negb (bool_decide (lower (tag_of field) = txt "field")) then p
  else
    let attr (n : string) := v ← get field (txt n); or_none v in
    let name := lower (strip_space (default [] (orelse (attr "Name") (attr "name")))) in
    match field_spec name, _clean (text_of field) with
    | Some (key, KStr), Some raw => put_field key (Some (JText raw)) p
    | Some (key, KInt), Some raw => put_field key (JInt <$> jr_int raw) p
    | Some (key, KFloat), Some raw => put_field key (jr_float raw) p
    | Some (key, KList), Some raw => put_field key (one_or_list (jr_list raw)) p
    | Some (key, KExt), Some raw => mkParsed (fields p) (<[key := take _EXT_CAP raw]> (external p))
    | _, _ => p
    end.

Definition parse_jrsidecar_bytes (data : list Z) : Parsed :=
  if bool_decide (data = []) || bool_decide (MAX_JRSIDECAR_BYTES < length data)%nat then nothing
  else match fromstring data with
  | None => nothing
  | Some root =>
      if negb (bool_decide (lower (tag_of root) = txt "mpl")) then nothing
      else match orelse (find root (txt "Item")) (find root (txt "item")) with
      | None => nothing
      | Some item => foldl jr_field nothing (children_of item)
      end
  end.
End metadata.

(** ** Facts *)

(** A text of a field: not empty, within the cap, no control character but tab and newline *)
Definition clean_text (t : text) : Prop :=
  (1 <= length t <= _TEXT_CAP)%nat ∧ ∀ c, c ∈ t → 32 ≤ c ∨ c = NEWLINE ∨ c = 9.

(** The values a field of a kind may have *)
Definition has_kind (k : field_kind) (v : json) : Prop :=
  match k, v with
  | KStr, JText t | KList, JText t => clean_text t
  | KInt, JInt _ | KFloat, JFloat _ => True
  | KList, JList l => (2 <= length l <= _LIST_CAP)%nat ∧ ∀ v, v ∈ l → ∃ t, v = JText t ∧ clean_text t
  | _, _ => False
  end.

Lemma clean_ok t s : _clean t = Some s → clean_text s.
Proof.
  unfold _clean. destruct t as [t|]; [|done]. cbn. set (f := List.filter _ _).
  destruct f as [|c r] eqn:Hf; [done|]. rewrite <- Hf. intros [= <-]. split.
  - rewrite length_take, Hf. unfold _TEXT_CAP. cbn [length]. lia.
  - intros d Hd%elem_of_list_take. unfold f in Hd. apply elem_of_filterb in Hd as [_ Hd].
    rewrite !orb_true_iff, Z.leb_le, !Z.eqb_eq in Hd. tauto.
Qed.

Lemma field_spec_elem name key k : field_spec name = Some (key, k) → (name, (key, k)) ∈ _FIELDS.
Proof.
  unfold field_spec. destruct (filterb _ _) as [|[n [k' kd]] l] eqn:Hf; [done|]. intros [= -> ->].
  assert ((n, (key, k)) ∈ filterb (λ '(n, _), bool_decide (n = name)) _FIELDS) as H by (rewrite Hf; left).
  apply elem_of_filterb in H as [H Hn]. by apply bool_decide_eq_true in Hn as <-.
Qed.

Lemma jr_list_clean raw p : clean_text raw → p ∈ jr_list raw → clean_text p.
Proof.
  intros [Hlen Hc] Hp%elem_of_list_take. apply elem_of_filterb in Hp as [Hp Hne].
  apply list_elem_of_fmap in Hp as (q & -> & Hq). set (raw' := map _ raw) in Hq.
  assert (length raw' = length raw) as Hraw by apply length_map. split.
  - pose proof (split_text_length _ _ _ Hq). pose proof (length_strip_space q).
    apply negb_true_iff, bool_decide_eq_false in Hne. destruct (strip_space q); [done|]. cbn [length] in *. lia.
  - intros c Hin%strip_space_sub. pose proof (split_text_sub _ _ _ _ Hq Hin) as Hr. unfold raw' in Hr.
    apply list_elem_of_fmap in Hr as (d & -> & Hd). destruct (d =? NEWLINE); [left; done|by apply Hc].
Qed.

Lemma one_or_list_kind raw v : clean_text raw → one_or_list (jr_list raw) = Some v → has_kind KList v.
Proof.
  intros Hraw. pose proof (jr_list_clean raw) as Hl.
  assert (length (jr_list raw) ≤ _LIST_CAP)%nat as Hcap by (unfold jr_list; rewrite length_take; lia).
  destruct (jr_list raw) as [|a [|b l]]; cbn [one_or_list]; [done|..]; intros [= <-].
  - apply Hl; [done|left].
  - change (JText a :: JText b :: map JText l) with (map JText (a :: b :: l)). split.
    + rewrite length_map. cbn [length] in *. lia.
    + intros v (t & -> & Ht)%list_elem_of_fmap. exists t. split; [done|]. by apply Hl.
Qed.

(** What a JRiver sidecar may contribute: known keys, each with a value of its kind *)
Definition typed (p : Parsed) : Prop :=
  (∀ key v, fields p !! key = Some v → ∃ name k, (name, (key, k)) ∈ _FIELDS ∧ has_kind k v) ∧
  (∀ key v, external p !! key = Some v → ∃ name, (name, (key, KExt)) ∈ _FIELDS ∧ (1 <= length v <= _EXT_CAP)%nat).

Lemma put_field_typed name key k v p :
  typed p → field_spec name = Some (key, k) → (∀ x, v = Some x → has_kind k x) → typed (put_field key v p).
Proof.
  intros [Hf He] Hs Hv. destruct v as [x|]; [|done]. split; cbn; [|done].
  intros key' y [[<- <-]|[_ H]]%lookup_insert_Some; [|by apply Hf].
  exists name, k. split; [by apply field_spec_elem|by apply Hv].
Qed.

Lemma jr_field_typed uni_lower uni_decimal uni_digit p e : typed p → typed (jr_field uni_lower uni_decimal uni_digit p e).
Proof.
  intros Hp. unfold jr_field. case_match; [done|]. cbv zeta.
  destruct (field_spec _) as [[key k]|] eqn:Hs; [|done].
  destruct (_clean _) as [raw|] eqn:Hc; [|by destruct k]. pose proof (clean_ok _ _ Hc) as Hraw.
  destruct k.
  - eapply put_field_typed; [done..|]. by intros x [= <-].
  - eapply put_field_typed; [done..|]. intros x (n & _ & ->)%fmap_Some. done.
  - eapply put_field_typed; [done..|]. intros x. unfold jr_float. case_match; [done|].
    intros (n & _ & ->)%fmap_Some. done.
  - eapply put_field_typed; [done..|]. intros x. by apply one_or_list_kind.
  - destruct Hp as [Hf He]. split; cbn; [done|].
    intros key' y [[<- <-]|[_ Hl]]%lookup_insert_Some; [|by apply He].
    eexists. split; [by apply field_spec_elem|]. destruct Hraw as [Hl _]. rewrite length_take. unfold _EXT_CAP. lia.
Qed.
(** C32: what a JRiver sidecar, whatever its bytes, can put into a row: only the keys of
    the field table, each with a value of the kind the table gives it; texts are not
    empty, at most 4000 code points and free of the code points below U+0020 but tab and
    newline (DEL and the controls U+0080 to U+009F pass); lists have 2 to 50 such texts, a
    single value being stored alone; external ids are of the four known kinds and at most
    128 code points. *)
Theorem jriver_metadata_typed uni_lower uni_decimal uni_digit fromstring data :
  typed (parse_jrsidecar_bytes uni_lower uni_decimal uni_digit fromstring data).
Proof.
  assert (typed nothing) as Hn by (split; intros k v; unfold nothing; cbn; by rewrite lookup_empty).
  unfold parse_jrsidecar_bytes. case_match; [done|]. case_match; [|done]. case_match; [done|].
  case_match; [|done]. generalize nothing Hn. induction (children_of _) as [|x l IH]; [done|].
  intros p Hp. cbn [foldl]. by apply IH, jr_field_typed.
Qed.
