(* ===== verification/Alerts.v ===== *)
(** * File-watch alerts ([alerts/rules.py], [alerts/windows.py], [alerts/pipeline.py])

    What a scan does with a classified file transition: match it against the rules,
    turn each match into a draft with a dedup key, and store the drafts without
    duplicating an undelivered one.  Times are microseconds since the epoch, UTC. *)
From S2P Require Import Prelude PyStr Utf8 PathLabel Text.
From stdpp Require Import options.

Inductive alert_error := ValueError | PatternError | UnicodeEncodeError.

(** ** Rules *)

Definition EVENT_TYPES : list string := ["created"; "modified"; "deleted"; "moved"].
Definition GROUP_BY : list string := ["event_type"; "library_id"; "rule_id"].
Definition GROUP_BY_EXTRAS : list string := ["folder"; "extension"; "file"].
Definition DIGEST_WINDOWS : list string := ["hourly"; "daily"].

Record FileEvent := mkEvent {
  event_type : string;
  ev_library_id : string;
  rel_path : text;
  old_hash : option string;
  new_hash : option string;
}.

(** The columns of [alert_rules]; the throttle columns are for the dispatcher. *)
Record AlertRule := mkRule {
  rule_id : string;
  rule_name : text;
  event_types : list string;
  enabled : bool;
  is_system : bool;
  rule_library : option string;
  path_glob : option text;
  hash_change_only : bool;
  group_by : list string;
  digest_window : option string;
}.

(** [AlertRule.__post_init__] *)
Definition check_rule (r : AlertRule) : result alert_error AlertRule :=
  if negb (forallb (λ e, bool_decide (e ∈ EVENT_TYPES)) (event_types r)) then Err ValueError
  else if bool_decide (event_types r = []) then Err ValueError
  else if negb (forallb (λ g, bool_decide (g ∈ group_by r)) GROUP_BY) ||
          negb (forallb (λ g, bool_decide (g ∈ GROUP_BY ++ GROUP_BY_EXTRAS)) (group_by r))
  then Err ValueError
  else match digest_window r with
  | Some w => if bool_decide (w ∈ DIGEST_WINDOWS) then Ok r else Err ValueError
  | None => Ok r
  end.

Section alerts.
Context (uni_lower : Z → list Z).
(** [GitIgnoreSpec.from_lines([pattern])]: its matcher, or the exception of a bad pattern *)
Context (glob : text → option (text → bool)) (sha256 : list Z → string).

Definition _compile_glob (pattern : text) : result alert_error (text → bool) :=
  match glob pattern with Some f => Ok f | None => Err PatternError end.

(** An empty pattern is no pattern. *)
Definition glob_of (path_glob : option text) : option text :=
  match path_glob with Some (_ :: _) => path_glob | _ => None end.

Definition _path_matches (path_glob : option text) (rel : text) : result alert_error bool :=
  match glob_of path_glob with
  | None => Ok true
  | Some p => f <-! _compile_glob p; Ok (f rel)
  end.

Definition match_rule (rule : AlertRule) (event : FileEvent) : result alert_error bool :=
  if negb (enabled rule) then Ok false
  else if negb (bool_decide (event_type event ∈ event_types rule)) then Ok false
  else if match rule_library rule with Some l => negb (bool_decide (l = ev_library_id event)) | None => false end
  then Ok false
  else if hash_change_only rule && bool_decide (event_type event = "modified") &&
          match old_hash event, new_hash event with
          | Some a, Some b => bool_decide (a = b)
          | _, _ => true
          end
  then Ok false
  else _path_matches (path_glob rule) (rel_path event).

(** [tuple(row.group_by or GROUP_BY)] *)
Definition default_group_by (row : AlertRule) : AlertRule :=
  mkRule (rule_id row) (rule_name row) (event_types row) (enabled row) (is_system row) (rule_library row)
    (path_glob row) (hash_change_only row)
    (match group_by row with [] => GROUP_BY | g => g end) (digest_window row).

(** The rows are those of the query; a row that fails its checks raises. *)
Definition _rule_from_row (row : AlertRule) : result alert_error AlertRule :=
  match glob_of (path_glob row) with
  | Some p => _ <-! _compile_glob p; check_rule (default_group_by row)
  | None => check_rule (default_group_by row)
  end.

Definition load_enabled_rules (rows : list AlertRule) : result alert_error (list AlertRule) :=
  result_mapM _rule_from_row (filterb (λ r, enabled r && negb (is_system r)) rows).

(** ** Groups *)

(** In the order of the dict: folder, extension, file *)
Definition group_extras (rule : AlertRule) (event : FileEvent) : list (string * text) :=
  let rel := rel_path event in
  let norm := map (λ c, if c =? 92 then SLASH else c) rel in
  let name := after_last SLASH rel in
  (if bool_decide ("folder" ∈ group_by rule)
   then [("folder", if has_code SLASH norm then hd [] (split_text SLASH norm) else [])] else []) ++
  (if bool_decide ("extension" ∈ group_by rule)
   then [("extension", if has_code DOT name then tlower uni_lower (after_last DOT name) else [])] else []) ++
  (if bool_decide ("file" ∈ group_by rule) then [("file", rel)] else []).

(** ** Digest windows *)

Definition HOUR : Z := 3600000000.
Definition DAY : Z := 86400000000.

Definition assign_window (ts : Z) (window : string) : result alert_error Z :=
  if negb (bool_decide (window ∈ DIGEST_WINDOWS)) then Err ValueError
  else if bool_decide (window = "hourly") then Ok (ts - ts mod HOUR)
  else Ok (ts - ts mod DAY).

(** [isoformat()] of a UTC time; a whole second has no fraction. *)
Definition pad2 (n : Z) : text := (if n <? 10 then txt "0" else []) ++ txt (dec (Z.to_N n)).
Definition pad4 (n : Z) : text :=
  (if n <? 1000 then txt "0" else []) ++ (if n <? 100 then txt "0" else []) ++ pad2 n.
Definition civil (days : Z) : Z * Z * Z :=
  let z := days + 719468 in
  let era := z / 146097 in
  let doe := z mod 146097 in
  let yoe := (doe - doe / 1460 + doe / 36524 - doe / 146096) / 365 in
  let doy := doe - (365 * yoe + yoe / 4 - yoe / 100) in
  let mp := (5 * doy + 2) / 153 in
  let m := if mp <? 10 then mp + 3 else mp - 9 in
  ((if m <=? 2 then 1 else 0) + yoe + era * 400, m, doy - (153 * mp + 2) / 5 + 1).
Definition fraction (us : Z) : text :=
  if us =? 0 then []
  else txt "." ++ (if us <? 100000 then txt "0" else []) ++ (if us <? 10000 then txt "0" else []) ++ pad4 us.
Definition isoformat (ts : Z) : text :=
  let s := ts / 1000000 in
  let '(y, m, d) := civil (s / 86400) in
  pad4 y ++ txt "-" ++ pad2 m ++ txt "-" ++ pad2 d ++ txt "T" ++ pad2 (s / 3600 mod 24) ++ txt ":" ++
  pad2 (s / 60 mod 60) ++ txt ":" ++ pad2 (s mod 60) ++ fraction (ts mod 1000000) ++ txt "+00:00".

(** ** Drafts *)

Record payload := mkPayload {
  p_event_type : string;
  p_rel_path : text;
  p_library_id : string;
  p_rule_name : text;
  p_group : list (string * text);
}.

Record AlertDraft := mkDraft {
  d_rule_id : string;
  d_event_type : string;
  d_dedup_key : string;
  d_item_id : option Z;
  d_library_id : string;
  d_payload : payload;
  d_occurred_at : Z;
}.

(** [sorted(extras)]: the keys are extension < file < folder. *)
Definition sort_extras (extras : list (string * text)) : list (string * text) :=
  filterb (λ '(k, _), bool_decide (k = "extension")) extras ++
  filterb (λ '(k, _), bool_decide (k = "file")) extras ++
  filterb (λ '(k, _), bool_decide (k = "folder")) extras.

Definition dedup_parts (event_type library_id rule_id : string) (window_start : option Z)
    (extras : list (string * text)) : list text :=
  [txt event_type; txt library_id; txt rule_id] ++
  match window_start with Some w => [isoformat w] | None => [] end ++
  map (λ '(k, v), txt k ++ txt "=" ++ v) (sort_extras extras).

Definition compute_dedup_key (event_type library_id rule_id : string) (window_start : option Z)
    (extras : list (string * text)) : result alert_error string :=
  match utf8_encode (join_text NUL (dedup_parts event_type library_id rule_id window_start extras)) with
  | Some bs => Ok (sha256 bs)
  | None => Err UnicodeEncodeError
  end.

Definition build_draft (rule : AlertRule) (event : FileEvent) (item_id : option Z) (now : Z) :
    result alert_error AlertDraft :=
  window_start <-! (match digest_window rule with
    | Some w => t <-! assign_window now w; Ok (Some t)
    | None => Ok None
    end);
  let extras := group_extras rule event in
  key <-! compute_dedup_key (event_type event) (ev_library_id event) (rule_id rule) window_start extras;
  Ok (mkDraft (rule_id rule) (event_type event) key item_id (ev_library_id event)
    (mkPayload (event_type event) (rel_path event) (ev_library_id event) (rule_name rule) extras) now).

(** Each rule is guarded: its exceptions skip it. *)
Definition evaluate_event (rules : list AlertRule) (event : FileEvent) (item_id : option Z) (now : Z) :
    list AlertDraft :=
  omap (λ rule, match match_rule rule event with
    | Ok true => match build_draft rule event item_id now with Ok d => Some d | Err _ => None end
    | _ => None
    end) rules.
End alerts.

(** ** Stored events *)

Record AlertEvent := mkStored { ae_draft : AlertDraft; delivered : bool }.

Definition dedup : Type := string * string * option Z.
Definition draft_key (d : AlertDraft) : dedup := (d_rule_id d, d_dedup_key d, d_item_id d).

(** The keys of the undelivered rows of the drafts' rules *)
Definition pending_keys (events : list AlertEvent) (drafts : list AlertDraft) : list dedup :=
  map (λ e, draft_key (ae_draft e))
    (filterb (λ e, negb (delivered e) &&
      bool_decide (d_rule_id (ae_draft e) ∈ map d_rule_id drafts)) events).

Fixpoint fresh_drafts (seen : list dedup) (drafts : list AlertDraft) : list AlertDraft :=
  match drafts with
  | [] => []
  | d :: rest =>
      if bool_decide (draft_key d ∈ seen) then fresh_drafts seen rest
      else d :: fresh_drafts (draft_key d :: seen) rest
  end.

Definition persist_drafts (events : list AlertEvent) (drafts : list AlertDraft) : list AlertEvent * Z :=
  let values := fresh_drafts (pending_keys events drafts) drafts in
  (events ++ map (λ d, mkStored d false) values, Z.of_nat (length values)).

(** ** Facts *)

(** A string without the NUL character *)
Definition no_nul (s : string) : Prop := NUL ∉ txt s.

Lemma decimal_no_nul s : str_forall is_decimal s = true → no_nul s.
Proof.
  unfold no_nul. induction s as [|c s IH]; cbn [str_forall txt]; [intros _; apply not_elem_of_nil|].
  intros [Hc Hs]%andb_true_iff. apply not_elem_of_cons. split; [|by apply IH].
  intros H. unfold is_decimal in Hc. unfold ord, NUL in H. apply andb_true_iff in Hc as [Hc _].
  apply N.leb_le in Hc. lia.
Qed.

Lemma isoformat_no_nul ts : NUL ∉ isoformat ts.
Proof.
  assert (∀ n, NUL ∉ pad2 n) as H2.
  { intros n. unfold pad2. rewrite not_elem_of_app. split; [|apply decimal_no_nul, dec_decimal].
    case_match; [|apply not_elem_of_nil]. by apply (bool_decide_eq_true_1 _). }
  assert (∀ n, NUL ∉ pad4 n) as H4.
  { intros n. unfold pad4. rewrite !not_elem_of_app. split_and!; try apply H2; case_match;
      by apply (bool_decide_eq_true_1 _). }
  unfold isoformat, fraction. destruct (civil _) as [[y m] d]. rewrite !not_elem_of_app.
  split_and!; try apply H2; try apply H4; try (by apply (bool_decide_eq_true_1 _)).
  case_match; [by apply (bool_decide_eq_true_1 _)|]. rewrite !not_elem_of_app.
  split_and!; try apply H4; try case_match; by apply (bool_decide_eq_true_1 _).
Qed.

Section dedup_facts.
Context (uni_lower : Z → list Z) (Hlower : ∀ c, c ≠ NUL → NUL ∉ uni_lower c).

Lemma tlower_no_nul t : NUL ∉ t → NUL ∉ tlower uni_lower t.
Proof using Hlower.
  intros Ht (c & Hc & Hin)%list_elem_of_bind. assert (c ≠ NUL) as Hne by (by intros ->).
  unfold lower_code, NUL in *. repeat case_match; try by apply Hlower in Hc.
  - apply list_elem_of_singleton in Hc. bool_to_prop. lia.
  - apply list_elem_of_singleton in Hc. done.
Qed.

Lemma group_extras_no_nul rule event k v :
  NUL ∉ rel_path event → (k, v) ∈ group_extras uni_lower rule event → NUL ∉ v.
Proof using Hlower.
  intros Hrel. unfold group_extras. rewrite !elem_of_app.
  set (norm := map _ (rel_path event)).
  assert (NUL ∉ norm) as Hnorm.
  { intros (c & Hc & Hin)%list_elem_of_fmap. destruct (Z.eqb_spec c 92); [done|]. by subst. }
  intros [H|[H|H]]; case_match; try (by apply not_elem_of_nil in H); apply list_elem_of_singleton in H;
    injection H as -> ->; try done; case_match; try apply not_elem_of_nil.
  - intros Hin. apply Hnorm. destruct (split_text SLASH norm) as [|w ws] eqn:Hs; [by apply not_elem_of_nil in Hin|].
    eapply split_text_sub; [rewrite Hs; left|done].
  - apply tlower_no_nul. intros Hin. apply after_last_sub, after_last_sub in Hin. by apply Hrel.
Qed.

Definition dedup_preimage (rule : AlertRule) (event : FileEvent) (window_start : option Z) : text :=
  join_text NUL (dedup_parts (event_type event) (ev_library_id event) (rule_id rule) window_start
    (group_extras uni_lower rule event)).

Definition extra_part (kv : string * text) : text := let '(k, v) := kv in txt k ++ txt "=" ++ v.

(** The three optional entries, with their values *)
Definition entries (b1 b2 b3 : bool) (v1 v2 v3 : text) : list (string * text) :=
  (if b1 then [("folder", v1)] else []) ++ (if b2 then [("extension", v2)] else []) ++
  (if b3 then [("file", v3)] else []).

Lemma entries_sorted b1 b2 b3 v1 v2 v3 :
  sort_extras (entries b1 b2 b3 v1 v2 v3) =
  (if b2 then [("extension", v2)] else []) ++ (if b3 then [("file", v3)] else []) ++
  (if b1 then [("folder", v1)] else []).
Proof using. destruct b1, b2, b3; reflexivity. Qed.

Lemma cons_parts {A} (x y : A) l k : x :: l = y :: k → x = y ∧ l = k.
Proof using. by intros [= -> ->]. Qed.

Lemma entries_inj b1 b2 b3 v1 v2 v3 w1 w2 w3 :
  map extra_part (sort_extras (entries b1 b2 b3 v1 v2 v3)) =
    map extra_part (sort_extras (entries b1 b2 b3 w1 w2 w3)) →
  entries b1 b2 b3 v1 v2 v3 = entries b1 b2 b3 w1 w2 w3.
Proof using.
  rewrite !entries_sorted. destruct b1, b2, b3; cbn [app map]; unfold extra_part; intros H;
    repeat (apply cons_parts in H as [?%app_inv_head%app_inv_head H]); by subst.
Qed.

Lemma extra_parts_inj rule e1 e2 :
  map extra_part (sort_extras (group_extras uni_lower rule e1)) =
    map extra_part (sort_extras (group_extras uni_lower rule e2)) →
  group_extras uni_lower rule e1 = group_extras uni_lower rule e2.
Proof using. apply entries_inj. Qed.

Lemma extra_parts_no_nul rule event p :
  NUL ∉ rel_path event → p ∈ map extra_part (sort_extras (group_extras uni_lower rule event)) → NUL ∉ p.
Proof using Hlower.
  intros Hrel Hp. apply list_elem_of_fmap in Hp as ([k v] & -> & Hin).
  assert ((k, v) ∈ group_extras uni_lower rule event ∧ (k = "extension" ∨ k = "file" ∨ k = "folder")) as [Hg Hk].
  { unfold sort_extras in Hin. rewrite !elem_of_app, !elem_of_filterb, !bool_decide_eq_true in Hin. naive_solver. }
  cbn [extra_part]. rewrite !not_elem_of_app. split_and!; [|by apply (bool_decide_eq_true_1 _)|].
  - destruct Hk as [ -> | [ -> | -> ] ]; by apply (bool_decide_eq_true_1 _).
  - by eapply group_extras_no_nul.
Qed.
End dedup_facts.

(** *** Fresh drafts *)

Lemma fresh_drafts_spec seen drafts :
  NoDup (map draft_key (fresh_drafts seen drafts)) ∧
  (∀ k, k ∈ map draft_key (fresh_drafts seen drafts) ↔ k ∈ map draft_key drafts ∧ k ∉ seen).
Proof.
  revert seen. induction drafts as [|d drafts IH]; intros seen; cbn [fresh_drafts map].
  { split; [constructor|]. intros k. split; [by intros ?%not_elem_of_nil|by intros [?%not_elem_of_nil _]]. }
  destruct (bool_decide_reflect (draft_key d ∈ seen)) as [Hs|Hs].
  - destruct (IH seen) as [H1 H2]. split; [done|]. intros k. rewrite H2, elem_of_cons. naive_solver.
  - destruct (IH (draft_key d :: seen)) as [H1 H2]. cbn [map]. split.
    + constructor; [|done]. intros [_ Hn]%H2. apply Hn. left.
    + intros k. rewrite !elem_of_cons, H2, not_elem_of_cons. destruct (decide (k = draft_key d)); naive_solver.
Qed.

Lemma fresh_drafts_sub seen drafts d : d ∈ fresh_drafts seen drafts → d ∈ drafts.
Proof.
  revert seen. induction drafts as [|x drafts IH]; intros seen; cbn [fresh_drafts]; [done|].
  case_bool_decide; [intros ?; right; by eapply IH|].
  intros [->|Hd]%elem_of_cons; [left|right; by eapply IH].
Qed.

(** The undelivered rows, by key *)
Definition open_keys (events : list AlertEvent) : list dedup :=
  map (λ e, draft_key (ae_draft e)) (filterb (λ e, negb (delivered e)) events).

Lemma pending_keys_open events drafts d :
  d ∈ drafts → draft_key d ∈ pending_keys events drafts ↔ draft_key d ∈ open_keys events.
Proof.
  intros Hd. unfold pending_keys, open_keys. rewrite !list_elem_of_fmap. setoid_rewrite elem_of_filterb. split.
  - intros (e & Hk & He & [Hn _]%andb_true_iff). by exists e.
  - intros (e & Hk & He & Hn). exists e. split_and!; [done|done|]. rewrite Hn. cbn. apply bool_decide_eq_true.
    apply list_elem_of_fmap. exists d. split; [|done]. unfold draft_key in Hk. congruence.
Qed.

Lemma open_keys_app a b : open_keys (a ++ b) = open_keys a ++ open_keys b.
Proof. unfold open_keys. by rewrite List.filter_app, map_app. Qed.

Lemma open_keys_new ds : open_keys (map (λ d, mkStored d false) ds) = map draft_key ds.
Proof. induction ds as [|d ds IH]; [done|]. unfold open_keys in *. cbn. by rewrite IH. Qed.

(** ** Properties *)

(** C36: storing drafts keeps at most one undelivered row per rule, dedup key and item,
    loses no draft (each one's key has an undelivered row afterwards), leaves the rows
    that were there as they were, and counts exactly the rows it added. *)
Theorem persist_drafts_dedup events drafts :
  NoDup (open_keys events) →
  let '(events', n) := persist_drafts events drafts in
  NoDup (open_keys events') ∧
  (∀ k, k ∈ open_keys events' ↔ k ∈ open_keys events ∨ k ∈ map draft_key drafts) ∧
  ∃ added, events' = events ++ added ∧ Z.of_nat (length added) = n ∧
    ∀ e, e ∈ added → delivered e = false ∧ ae_draft e ∈ drafts.
Proof.
  intros Hnd. unfold persist_drafts.
  destruct (fresh_drafts_spec (pending_keys events drafts) drafts) as [H1 H2].
  set (fresh := fresh_drafts _ drafts) in *.
  assert (∀ k, k ∈ map draft_key drafts → k ∈ pending_keys events drafts ↔ k ∈ open_keys events) as Hpk.
  { intros k (d & -> & Hd)%list_elem_of_fmap. by apply pending_keys_open. }
  rewrite open_keys_app, open_keys_new. split_and!.
  - apply NoDup_app. split_and!; [done| |done]. intros k Hk [Hd Hn]%H2. by apply Hn, Hpk.
  - intros k. rewrite elem_of_app, H2. split; [naive_solver|].
    intros [Hk|Hk]; [by left|]. destruct (decide (k ∈ open_keys events)); [by left|right].
    split; [done|]. by rewrite Hpk.
  - eexists. split; [done|]. split; [by rewrite length_map|].
    intros e (d & -> & Hd)%list_elem_of_fmap. split; [done|]. cbn. by eapply fresh_drafts_sub.
Qed.

Definition example_draft (key : string) (item : Z) : AlertDraft :=
  mkDraft "r" "created" key (Some item) "l" (mkPayload "created" [] "l" [] []) 0.

Lemma persist_drafts_dedup_witness :
  let events := [mkStored (example_draft "k" 1) true; mkStored (example_draft "k" 2) false] in
  let drafts := [example_draft "k" 1; example_draft "k" 2; example_draft "k" 1] in
  NoDup (open_keys events) ∧
  let '(events', n) := persist_drafts events drafts in
  n = 1 ∧ NoDup (open_keys events') ∧
  (∀ k, k ∈ open_keys events' ↔ k ∈ open_keys events ∨ k ∈ map draft_key drafts).
Proof.
  intros events drafts.
  assert (NoDup (open_keys events)) as Hnd by (apply (bool_decide_eq_true_1 _); vm_compute; reflexivity).
  split; [done|]. pose proof (persist_drafts_dedup events drafts Hnd) as H.
  assert ((persist_drafts events drafts).2 = 1) as Hn by (vm_compute; reflexivity).
  destruct (persist_drafts events drafts) as [events' n]. destruct H as (H1 & H2 & _). done.
Defined.

(** Two matches of a rule fall into one dedup group exactly when they agree on the
    event type, the library, the digest window and the rule's extra grouping values: the
    text that is hashed has no other collisions. *)
Theorem dedup_key_exact uni_lower rule e1 e2 w1 w2 :
  (∀ c, c ≠ NUL → NUL ∉ uni_lower c) →
  NUL ∉ rel_path e1 → NUL ∉ rel_path e2 → no_nul (rule_id rule) →
  no_nul (event_type e1) → no_nul (event_type e2) → no_nul (ev_library_id e1) → no_nul (ev_library_id e2) →
  (is_Some w1 ↔ is_Some w2) →
  (dedup_preimage uni_lower rule e1 w1 = dedup_preimage uni_lower rule e2 w2 ↔
   event_type e1 = event_type e2 ∧ ev_library_id e1 = ev_library_id e2 ∧
   isoformat <$> w1 = isoformat <$> w2 ∧
   group_extras uni_lower rule e1 = group_extras uni_lower rule e2).
Proof.
  intros Hlower Hr1 Hr2 Hid Ht1 Ht2 Hl1 Hl2 Hw. split.
  2: { intros (H1 & H2 & H3 & H4). unfold dedup_preimage, dedup_parts. rewrite H1, H2, H4.
       destruct w1 as [w1|], w2 as [w2|]; try done.
       apply (f_equal (default [])) in H3. change (isoformat w1 = isoformat w2) in H3. by rewrite H3. }
  assert (∀ e, NUL ∉ rel_path e → no_nul (event_type e) → no_nul (ev_library_id e) → ∀ w p,
    p ∈ dedup_parts (event_type e) (ev_library_id e) (rule_id rule) w (group_extras uni_lower rule e) →
    NUL ∉ p) as Hno.
  { intros e Hr Ht Hl w p. unfold dedup_parts. rewrite !elem_of_app. intros [Hp|[Hp|Hp]].
    - by elem_cases Hp.
    - destruct w; [|by apply not_elem_of_nil in Hp]. apply list_elem_of_singleton in Hp as ->.
      apply isoformat_no_nul.
    - by eapply extra_parts_no_nul. }
  assert (∀ r e w, length (dedup_parts (event_type e) (ev_library_id e) (rule_id r) w
    (group_extras uni_lower rule e)) =
    (3 + (if w then 1 else 0) + length (sort_extras (group_extras uni_lower rule e)))%nat) as Hlen.
  { intros r e w. unfold dedup_parts. rewrite !length_app, length_map. by destruct w. }
  unfold dedup_preimage. intros H%join_text_inj.
  - unfold dedup_parts in H. cbn [app] in H.
    apply cons_parts in H as [?%txt_inj H]. apply cons_parts in H as [?%txt_inj H].
    apply cons_parts in H as [_ H]. destruct w1 as [w1|], w2 as [w2|]; cbn [app] in H.
    + apply cons_parts in H as [Hi H]. apply extra_parts_inj in H. split_and!; [done|done| |done].
      change (Some (isoformat w1) = Some (isoformat w2)). by f_equal.
    + destruct Hw as [Hw _]. by destruct Hw.
    + destruct Hw as [_ Hw]. by destruct Hw.
    + by apply extra_parts_inj in H.
  - rewrite !Hlen. unfold group_extras. fold (group_extras uni_lower rule e1).
    assert (∀ b1 b2 b3 v1 v2 v3 u1 u2 u3,
      length (sort_extras (entries b1 b2 b3 v1 v2 v3)) = length (sort_extras (entries b1 b2 b3 u1 u2 u3))) as He.
    { intros. rewrite !entries_sorted. by destruct b1, b2, b3. }
    f_equal; [|apply He]. f_equal. destruct w1, w2; try done; exfalso; [destruct Hw as [Hw _]|destruct Hw as [_ Hw]]; by destruct Hw.
  - intros t [Ht|Ht]; by eapply Hno; [..|exact Ht].
Qed.

Definition folder_rule : AlertRule :=
  mkRule "r1" (txt "docs") ["created"] true false None None false (GROUP_BY ++ ["folder"]) (Some "daily").
Definition created_at (rel : string) : FileEvent := mkEvent "created" "lib" (txt rel) None None.

Lemma dedup_key_exact_witness :
  dedup_preimage (λ _, []) folder_rule (created_at "a/x") (Some 0) =
    dedup_preimage (λ _, []) folder_rule (created_at "a/y") (Some 0) ∧
  dedup_preimage (λ _, []) folder_rule (created_at "a/x") (Some 0) ≠
    dedup_preimage (λ _, []) folder_rule (created_at "b/x") (Some 0).
Proof.
  pose proof (dedup_key_exact (λ _, []) folder_rule) as H.
  split; [apply (H (created_at "a/x") (created_at "a/y") (Some 0) (Some 0))|
    intros Heq; apply (H (created_at "a/x") (created_at "b/x") (Some 0) (Some 0)) in Heq];
    try (by intros ? ?; apply not_elem_of_nil); try (by apply (bool_decide_eq_true_1 _));
    try done.
  by destruct Heq as (_ & _ & _ & ?).
Defined.

(** one rule that no longer passes its checks silences every other rule of a scan:
    the load is not guarded per rule, as the evaluation is. *)
Theorem one_bad_rule_silences_all :
  let glob (_ : text) := Some (λ _ : text, true) in
  let bad := mkRule "r2" [] ["renamed"] true false None None false GROUP_BY None in
  let event := created_at "a/x" in
  load_enabled_rules glob [folder_rule] = Ok [folder_rule] ∧
  length (evaluate_event (λ _, []) glob (λ _, "h") [folder_rule; bad] event (Some 1) 0) = 1%nat ∧
  load_enabled_rules glob [folder_rule; bad] = Err ValueError.
Proof. vm_compute. done. Qed.
