(* ===== verification/Walk.v ===== *)
(** * The directory walk ([tasks/scan.py], [presets.py])

    The filesystem a scan sees, the walk that lists it with its accounting, and the
    scope tests that bound what a scan may touch. *)
From S2P Require Import Prelude PyStr Utf8 PathLabel Text Sidecar.
From stdpp Require Import options.

(** ** The filesystem *)

Inductive os_error := PermissionError | OSError_.

Record stat_result := mkStat {
  st_mode : Z;
  st_size : Z;
  (** microseconds since the epoch *)
  st_mtime : Z;
  st_nlink : Z;
  st_ino : Z;
  st_dev : Z;
}.

(** What [lstat] and [readlink] of an entry that is no directory return *)
Record leaf := mkLeaf {
  lf_stat : result os_error stat_result;
  lf_target : result os_error text;
}.

(** A directory is its entries in [scandir] order, and the error its listing ends with. *)
Inductive node :=
  | Leaf (l : leaf)
  | Folder (entries : list (text * node)) (failure : option os_error).

Definition S_IFMT (mode : Z) : Z := Z.land mode 61440.
Definition S_ISLNK (mode : Z) : bool := S_IFMT mode =? 40960.
Definition S_ISREG (mode : Z) : bool := S_IFMT mode =? 32768.

(** ** Entries of the walk *)

Record fs_id := mkFsId {
  f_nlink : Z;
  f_inode : option Z;
  f_dev : option Z;
  f_symlink_target : option text;
}.

Record Entry := mkEntry {
  e_path : text;
  e_rel : text;
  e_size : Z;
  e_mtime : Z;
  e_fsid : fs_id;
}.

Definition _int64 (v : option Z) : option Z :=
  match v with
  | None => None
  | Some v => Some (if 2 ^ 63 <=? v then v - 2 ^ 64 else v)
  end.

Definition _fs_identity (l : leaf) (st : stat_result) : fs_id :=
  mkFsId (st_nlink st) (_int64 (Some (st_ino st))) (_int64 (Some (st_dev st)))
    (if S_ISLNK (st_mode st)
     then Some (match lf_target l with Ok t => t | Err _ => [] end) else None).

Definition make_entry (path rel : text) (l : leaf) (st : stat_result) : Entry :=
  mkEntry path rel (st_size st) (st_mtime st) (_fs_identity l st).

Record WalkAudit := mkAudit {
  excluded_filtered : Z;
  pruned_dirs : Z;
  permission_denied : Z;
  pruned_files : Z;
  pruned_paths : list text;
  count_pruned : bool;
}.

Definition PRUNED_PATH_SAMPLE : nat := 25.

(** ** Counting a pruned tree *)

Fixpoint node_size (n : node) : nat :=
  match n with
  | Leaf _ => 1
  | Folder es _ => S (list_sum (map (λ '(_, m), node_size m) es))
  end.
Definition entries_size (es : list (text * node)) : nat := list_sum (map (λ '(_, m), node_size m) es).

(** One listing: the directories it pushes and the files it counts *)
Fixpoint count_listing (es : list (text * node)) (stack : list node) (total : Z) : list node * Z :=
  match es with
  | [] => (stack, total)
  | (_, Leaf _) :: rest => count_listing rest stack (total + 1)
  | (_, Folder _ _ as d) :: rest => count_listing rest (d :: stack) total
  end.

(** An [OSError] ends the listing of one directory and is passed over. *)
Fixpoint count_loop (fuel : nat) (stack : list node) (total : Z) : Z :=
  match fuel, stack with
  | S k, Folder es _ :: rest =>
      let '(stack', total') := count_listing es rest total in count_loop k stack' total'
  | S k, Leaf _ :: rest => count_loop k rest total
  | _, _ => total
  end.
Definition _count_tree_files (n : node) : Z := count_loop (node_size n) [n] 0.

(** ** Pruning *)

(** [b"Signature: 8a477f597d28d172789f06886806bc55"], 43 bytes *)
Definition CACHEDIR_TAG_SIGNATURE : list Z := txt "Signature: 8a477f597d28d172789f06886806bc55".

Section walk.
Context (uni_lower : Z → list Z).
(** [spec.match_file]; the bytes of a file, [None] where [open] raises *)
Context (match_file : text → bool) (fs : text → option (list Z)).

Definition is_cachedir_tagged (path : text) : bool :=
  match fs (join_path path (txt "CACHEDIR.TAG")) with
  | Some bytes => bool_decide (take (length CACHEDIR_TAG_SIGNATURE) bytes = CACHEDIR_TAG_SIGNATURE)
  | None => false
  end.

Definition prune_dir (rel_dir abs_dir : text) : bool :=
  match_file (rel_dir ++ [SLASH]) || is_cachedir_tagged abs_dir.

(** [spec.match_file(rel) and classify(rel) is None] *)
Definition filtered (rel : text) : bool :=
  match_file rel && match classify uni_lower rel with None => true | Some _ => false end.

Definition child (rel_dir name : text) : text :=
  match rel_dir with [] => name | _ => rel_dir ++ SLASH :: name end.

(** ** The walk *)

(** What one directory yields: entries with the audit at their yield, the pushed
    directories, and the error that ended it *)
Record dir_out := mkDirOut {
  yielded : list (Entry * WalkAudit);
  pushed : list (text * node);
  audit_after : WalkAudit;
  raised : option os_error;
}.

Definition bump_filtered (a : WalkAudit) : WalkAudit :=
  mkAudit (excluded_filtered a + 1) (pruned_dirs a) (permission_denied a) (pruned_files a)
    (pruned_paths a) (count_pruned a).
Definition bump_denied (a : WalkAudit) : WalkAudit :=
  mkAudit (excluded_filtered a) (pruned_dirs a) (permission_denied a + 1) (pruned_files a)
    (pruned_paths a) (count_pruned a).
Definition bump_pruned (rel : text) (n : node) (a : WalkAudit) : WalkAudit :=
  mkAudit (excluded_filtered a) (pruned_dirs a + 1) (permission_denied a)
    (if count_pruned a then pruned_files a + _count_tree_files n else pruned_files a)
    (if bool_decide (length (pruned_paths a) < PRUNED_PATH_SAMPLE)%nat then pruned_paths a ++ [rel]
     else pruned_paths a)
    (count_pruned a).

Fixpoint walk_entries (recursive : bool) (rel_dir current : text) (es : list (text * node))
    (failure : option os_error) (acc : dir_out) : dir_out :=
  match es with
  | [] => mkDirOut (yielded acc) (pushed acc) (audit_after acc) failure
  | (name, n) :: rest =>
      let rel := child rel_dir name in
      let path := join_path current name in
      match n with
      | Folder _ _ =>
          let acc :=
            if recursive && negb (prune_dir rel path) then
              mkDirOut (yielded acc) ((rel, n) :: pushed acc) (audit_after acc) None
            else if recursive then
              mkDirOut (yielded acc) (pushed acc) (bump_pruned rel n (audit_after acc)) None
            else acc in
          walk_entries recursive rel_dir current rest failure acc
      | Leaf l =>
          if filtered rel then
            walk_entries recursive rel_dir current rest failure
              (mkDirOut (yielded acc) (pushed acc) (bump_filtered (audit_after acc)) None)
          else match lf_stat l with
          | Err e => mkDirOut (yielded acc) (pushed acc) (audit_after acc) (Some e)
          | Ok st =>
              walk_entries recursive rel_dir current rest failure
                (mkDirOut (yielded acc ++ [(make_entry path rel l st, audit_after acc)])
                  (pushed acc) (audit_after acc) None)
          end
      end
  end.

Record walk_out := mkWalkOut {
  trace : list (Entry * WalkAudit);
  final_audit : WalkAudit;
  error : option os_error;
}.

(** The stack of directories to visit; a [PermissionError] skips the rest of one
    directory, any other [OSError] ends the walk. *)
Fixpoint walk_loop (fuel : nat) (root : text) (recursive : bool) (stack : list (text * node))
    (out : list (Entry * WalkAudit)) (audit : WalkAudit) : walk_out :=
  match fuel, stack with
  | S k, (rel_dir, Folder es failure) :: rest =>
      let current := match rel_dir with [] => root | _ => join_path root rel_dir end in
      let d := walk_entries recursive rel_dir current es failure (mkDirOut [] rest audit None) in
      match raised d with
      | Some PermissionError =>
          walk_loop k root recursive (pushed d) (out ++ yielded d) (bump_denied (audit_after d))
      | Some OSError_ => mkWalkOut (out ++ yielded d) (audit_after d) (Some OSError_)
      | None => walk_loop k root recursive (pushed d) (out ++ yielded d) (audit_after d)
      end
  | S k, (_, Leaf _) :: rest => mkWalkOut out audit (Some OSError_)
  | _, [] => mkWalkOut out audit None
  | O, _ => mkWalkOut out audit (Some OSError_)
  end.

(** [start]: what the start directory is on disk *)
Definition walk (root : text) (start_rel : text) (start : option node) (recursive : bool)
    (audit : WalkAudit) : walk_out :=
  match start with
  | None => mkWalkOut [] audit (Some OSError_)
  | Some n => walk_loop (node_size n) root recursive [(start_rel, n)] [] audit
  end.

(** A single file; the caller's audit is not touched. *)
Definition _walk_one_file (root rel : text) (found : result os_error leaf) : list Entry :=
  match found with
  | Err _ => []
  | Ok l =>
      match lf_stat l with
      | Err _ => []
      | Ok st =>
          if negb (S_ISREG (st_mode st)) then []
          else if filtered rel then []
          else [make_entry (join_path root rel) rel l st]
      end
  end.
End walk.

(** ** Scopes *)

Definition _norm_scope (rel_path : option text) : text := strip SLASH (default [] rel_path).

Definition _under_scope (rel scope : text) : bool :=
  bool_decide (scope = []) || bool_decide (rel = scope) || starts_with rel (scope ++ [SLASH]).

Definition _in_scanned_set (rel scope : text) (is_file recursive : bool) : bool :=
  if is_file then bool_decide (rel = scope)
  else if recursive then _under_scope rel scope
  else match scope with
  | [] => negb (has_code SLASH rel)
  | _ =>
      if negb (starts_with rel (scope ++ [SLASH])) then false
      else negb (has_code SLASH (drop (length scope + 1) rel))
  end.
