(* ===== verification/Move.v ===== *)
(** * Move detection ([tasks/move.py])

    The planner that pairs vanished rows with new rows, the identity transfer with
    its three flushes under the unique index on (library, relative path), and the
    cross-library pass.  Rows live in a store keyed by id; a flush writes its
    updates one statement at a time, in the order the session chooses. *)
From S2P Require Import Prelude PyStr Uuid Utf8 PathLabel Text Catalog.
From stdpp Require Import options.

(** ** Matching *)

Definition _key (item : Item) : option (string * Z) :=
  match i_quick_hash item with None => None | Some q => Some (q, i_size item) end.

(** Equality where both sides are known *)
Definition both_eq (a b : option string) : option bool :=
  match a, b with Some x, Some y => Some (bool_decide (x = y)) | _, _ => None end.

Definition _content_match (a b : Item) : option bool := both_eq (i_content_hash a) (i_content_hash b).
Definition _mid_match (a b : Item) : option bool := both_eq (i_mid_hash a) (i_mid_hash b).

Definition _match (a b : Item) : option bool :=
  match _content_match a b with Some verdict => Some verdict | None => _mid_match a b end.

Definition is_true (v : option bool) : bool := bool_decide (v = Some true).

Record MovePlan := mkPlan { survivor : Item; duplicate : Item }.

(** ** Buckets: a dict of lists, in insertion order *)

Definition bucket : Type := (string * Z) * list Item.

Fixpoint bucket_add (k : string * Z) (x : Item) (b : list bucket) : list bucket :=
  match b with
  | [] => [(k, [x])]
  | (k', l) :: b' => if bool_decide (k = k') then (k', l ++ [x]) :: b' else (k', l) :: bucket_add k x b'
  end.

Fixpoint bucket_get (k : string * Z) (b : list bucket) : option (list Item) :=
  match b with
  | [] => None
  | (k', l) :: b' => if bool_decide (k = k') then Some l else bucket_get k b'
  end.

Definition buckets (items : list Item) : list bucket :=
  foldl (λ b it, match _key it with Some k => bucket_add k it b | None => b end) [] items.

(** ** The planner *)

(** [x is y] and [l.remove(x)] on rows *)
Definition same_row (x y : Item) : bool := i_id x =? i_id y.

Fixpoint remove_row (x : Item) (l : list Item) : list Item :=
  match l with [] => [] | y :: l' => if same_row y x then l' else y :: remove_row x l' end.

(** The loop over the new rows [todo] of a multi-way bucket *)
Fixpoint multi_way (news todo remaining_cands : list Item) : list MovePlan * Z :=
  match todo with
  | [] => ([], 0)
  | n :: rest =>
      let confirmed := filterb (λ c, is_true (_match c n)) remaining_cands in
      match confirmed with
      | [c] =>
          let rival_news := filterb (λ m, negb (same_row m n) && is_true (_match c m)) news in
          match rival_news with
          | _ :: _ => let '(plans, ambiguous) := multi_way news rest remaining_cands in (plans, ambiguous + 1)
          | [] =>
              let '(plans, ambiguous) := multi_way news rest (remove_row c remaining_cands) in
              (mkPlan c n :: plans, ambiguous)
          end
      | _ => let '(plans, ambiguous) := multi_way news rest remaining_cands in (plans, ambiguous + 1)
      end
  end.

Definition plan_bucket (cands news : list Item) : list MovePlan * Z :=
  match news, cands with
  | [n], [c] => if bool_decide (_match c n = Some false) then ([], 1) else ([mkPlan c n], 0)
  | _, _ => multi_way news news cands
  end.

Definition plan_moves (candidates new_items : list Item) : list MovePlan * Z :=
  let cand_buckets := buckets candidates in
  foldl (λ '(plans, ambiguous) '(key, news),
    match bucket_get key cand_buckets with
    | None | Some [] => (plans, ambiguous)
    | Some cands => let '(p, a) := plan_bucket cands news in (plans ++ p, ambiguous + a)
    end) ([], 0) (buckets new_items).

(** ** The store and its flushes *)

Inductive move_error :=
  | IntegrityError (row : Z)
  | LabelError (e : label_error).

Abbreviation rows := (gmap Z Item).

(** A row other than [i] holds the library and relative path of [it]. *)
Definition taken (m : rows) (i : Z) (it : Item) : bool :=
  existsb (λ '(j, r), negb (j =? i) && (i_library_id r =? i_library_id it) &&
    bool_decide (i_rel_path r = i_rel_path it)) (map_to_list m).

Definition update_row (m : rows) (i : Z) (it : Item) : result move_error rows :=
  if taken m i it then Err (IntegrityError i) else Ok (<[i := it]> m).

(** *** The unique index *)

Definition rkey (it : Item) : Z * text := (i_library_id it, i_rel_path it).

(** The unique index [ix_items_library_rel_path] *)
Definition unique_paths (m : rows) : Prop :=
  ∀ i j a b, m !! i = Some a → m !! j = Some b → rkey a = rkey b → i = j.

Lemma taken_false m i it :
  taken m i it = false ↔ ∀ j r, m !! j = Some r → j ≠ i → rkey r ≠ rkey it.
Proof.
  unfold taken, rkey. rewrite <- not_true_iff_false, existsb_elem. split.
  - intros Hno j r Hj Hne [= Hl Hr]. apply Hno. exists (j, r).
    split; [by apply elem_of_map_to_list|].
    rewrite Hl, Z.eqb_refl, (proj2 (Z.eqb_neq _ _) Hne). by rewrite bool_decide_eq_true_2.
  - intros Hall [[j r] [Hj Hb]]. apply elem_of_map_to_list in Hj. bool_to_prop.
    by apply (Hall j r); [| |f_equal].
Qed.

Lemma update_row_unique m i it :
  unique_paths m → taken m i it = false → unique_paths (<[i := it]> m).
Proof.
  intros Hu Ht. rewrite taken_false in Ht. intros a b x y Ha Hb Hk.
  apply lookup_insert_Some in Ha as [[<- <-]|[Hna Ha]], Hb as [[<- <-]|[Hnb Hb]].
  - done.
  - by destruct (Ht b y Hb).
  - by destruct (Ht a x Ha).
  - by eapply Hu.
Qed.

Fixpoint run_updates (us : list (Z * Item)) (m : rows) : result move_error rows :=
  match us with
  | [] => Ok m
  | (i, it) :: us' => m' <-! update_row m i it; run_updates us' m'
  end.

Definition set_rel_path (it : Item) (rel : text) : Item :=
  mkItem (i_id it) (i_library_id it) (i_file_category it) (i_file_group it) (i_status it)
    (i_path it) rel (i_filename it) (i_extension it) (i_size it) (i_mtime it)
    (i_quick_hash it) (i_content_hash it) (i_mid_hash it) (i_nlink it) (i_inode it) (i_dev it)
    (i_symlink_target it) (i_last_seen it) (i_deleted_at it) (i_sidecar_of it) (i_path_scope it)
    (i_source_agent_id it) (i_share_hint it) (i_curated it).

(** The location and hashes of [d] on the identity of [s]. *)
Definition relocate (s d : Item) (scope : string) (now : Z) : Item :=
  mkItem (i_id s) (i_library_id s) (i_file_category s) (i_file_group s) (i_status d)
    (i_path d) (i_rel_path d) (i_filename d) (i_extension d) (i_size d) (i_mtime d)
    (i_quick_hash d) (i_content_hash d) (i_mid_hash d) (i_nlink s) (i_inode s) (i_dev s)
    (i_symlink_target s) now (i_deleted_at s) (i_sidecar_of s) (Some scope) (i_source_agent_id s) (i_share_hint s) (i_curated s).

(** [f"\uffff__filearr_move_pending__/{i}/{id}"], and with [xmove] for the
    cross-library pass *)
Definition MOVE_PENDING : string := "__filearr_move_pending__/".
Definition XMOVE_PENDING : string := "__filearr_xmove_pending__/".
Definition sentinel (tag : string) (i : nat) (id : Z) : text :=
  65535 :: txt tag ++ txt (dec (N.of_nat i)) ++ txt "/" ++ txt (uuid_str id).

Record MovedOut := mkMovedOut {
  survivor_id : Z;
  survivor_rel_path : text;
  duplicate_id : Z;
  mo_library_id : Z;
}.

Record move_stats := mkStats { moved : Z; move_ambiguous : Z }.

Section moves.
Context (xxh3_64 xxh3_128 blake2b64 : list Z → string) (fs : text → option (list Z)).
(** The order in which a flush emits its UPDATE statements *)
Context (flush_order : list (Z * Item) → list (Z * Item)).

Definition flush (us : list (Z * Item)) (m : rows) : result move_error rows :=
  run_updates (flush_order us) m.

Definition row_label (it : Item) (library_id : Z) : result move_error string :=
  match path_to_ltree blake2b64 (i_rel_path it) (Some library_id) SLASH with
  | Ok l => Ok l
  | Err e => Err (LabelError e)
  end.

(** [_ensure_hashes] on every new row, in the session *)
Definition hash_rows (new_ids : list Z) (full_max_bytes : Z) (compute_content : bool) (m : rows) : rows :=
  foldr (λ i m, alter (λ it, _ensure_hashes xxh3_64 xxh3_128 fs it full_max_bytes compute_content) i m)
    m new_ids.

Definition detect_moves (m : rows) (candidates new_items : list Z) (full_max_bytes : Z)
    (compute_content : bool) (now : Z) :
    result move_error (rows * move_stats * list MovedOut) :=
  if bool_decide (candidates = []) || bool_decide (new_items = []) then Ok (m, mkStats 0 0, [])
  else
    let m := hash_rows new_items full_max_bytes compute_content m in
    let '(plans, ambiguous) := plan_moves (omap (λ i, m !! i) candidates) (omap (λ i, m !! i) new_items) in
    let m := foldr (λ p m, delete (i_id (duplicate p)) m) m plans in
    m <-! flush (imap (λ i p, (i_id (survivor p),
            set_rel_path (survivor p) (sentinel MOVE_PENDING i (i_id (survivor p))))) plans) m;
    us <-! result_mapM (λ p,
            scope <-! row_label (duplicate p) (i_library_id (survivor p));
            Ok (i_id (survivor p), relocate (survivor p) (duplicate p) scope now)) plans;
    m <-! flush us m;
    Ok (m, mkStats (Z.of_nat (length plans)) ambiguous,
      map (λ p, mkMovedOut (i_id (survivor p)) (i_rel_path (duplicate p)) (i_id (duplicate p))
                  (i_library_id (survivor p))) plans).

(** ** Across libraries *)

(** [Library.source_agent_id] is set, and the order in which a query returns its rows. *)
Context (agent_library : Z → bool) (query_order : list Item → list Item).

(** The [WHERE] of the two tombstone queries *)
Definition is_tombstone (library_id : Z) (it : Item) : bool :=
  negb (i_library_id it =? library_id) && bool_decide (i_status it = missing) &&
  bool_decide (i_sidecar_of it = None) && negb (agent_library (i_library_id it)).

Definition tomb_sizes (m : rows) (library_id : Z) : list Z :=
  map (λ '(_, it), i_size it)
    (filterb (λ '(_, it), is_tombstone library_id it && bool_decide (is_Some (i_quick_hash it)))
      (map_to_list m)).

(** The loop over [hashed] with its set of claimed tombstones *)
Fixpoint cross_loop (hashed todo : list Item) (tomb_buckets : list bucket) (claimed : list Z) :
    list MovePlan * Z :=
  match todo with
  | [] => ([], 0)
  | n :: rest =>
      let cands :=
        filterb (λ c, negb (bool_decide (i_id c ∈ claimed)))
          (match _key n with Some k => default [] (bucket_get k tomb_buckets) | None => [] end) in
      match cands with
      | [] => cross_loop hashed rest tomb_buckets claimed
      | _ =>
          match filterb (λ c, is_true (_match c n)) cands with
          | [c] =>
              match filterb (λ m, negb (same_row m n) && is_true (_match c m)) hashed with
              | _ :: _ =>
                  let '(plans, ambiguous) := cross_loop hashed rest tomb_buckets claimed in
                  (plans, ambiguous + 1)
              | [] =>
                  let '(plans, ambiguous) := cross_loop hashed rest tomb_buckets (i_id c :: claimed) in
                  (mkPlan c n :: plans, ambiguous)
              end
          | _ =>
              let '(plans, ambiguous) := cross_loop hashed rest tomb_buckets claimed in
              (plans, ambiguous + 1)
          end
      end
  end.

(** The tombstone revived into [library_id] at the location of [d]. *)
Definition revive (library_id : Z) (s d : Item) (scope : string) (now : Z) : Item :=
  mkItem (i_id s) library_id (i_file_category s) (i_file_group s) active
    (i_path d) (i_rel_path d) (i_filename d) (i_extension d) (i_size d) (i_mtime d)
    (i_quick_hash d) (i_content_hash d) (i_mid_hash d) (i_nlink s) (i_inode s) (i_dev s)
    (i_symlink_target s) now None (i_sidecar_of s) (Some scope) (i_source_agent_id s) (i_share_hint s) (i_curated s).

(** The new rows whose size some tombstone has *)
Definition sized_items (m : rows) (new_items : list Z) (library_id : Z) : list Z :=
  let sizes := tomb_sizes m library_id in
  filterb (λ i, match m !! i with Some n => bool_decide (i_size n ∈ sizes) | None => false end) new_items.

Definition hashed_items (m : rows) (ids : list Z) : list Item :=
  filterb (λ n, bool_decide (is_Some (i_quick_hash n))) (omap (λ i, m !! i) ids).

Definition tombs (m : rows) (library_id : Z) (hashed : list Item) : list Item :=
  query_order (map snd (filterb (λ '(_, it), is_tombstone library_id it &&
    existsb (λ n, bool_decide (is_Some (i_quick_hash it) ∧ i_quick_hash it = i_quick_hash n)) hashed)
    (map_to_list m))).

(** The planning half: the store with the hashed new rows, and the plan. *)
Definition plan_cross (m : rows) (new_items : list Z) (library_id full_max_bytes : Z)
    (compute_content : bool) : rows * (list MovePlan * Z) :=
  let sized := sized_items m new_items library_id in
  let m := hash_rows sized full_max_bytes compute_content m in
  let hashed := hashed_items m sized in
  (m, cross_loop hashed hashed (buckets (tombs m library_id hashed)) []).

Definition detect_cross_library_moves (m : rows) (new_items : list Z) (library_id full_max_bytes : Z)
    (compute_content : bool) (now : Z) :
    result move_error (rows * move_stats * list Z) :=
  let '(m, (plans, ambiguous)) := plan_cross m new_items library_id full_max_bytes compute_content in
  let m := foldr (λ p m, delete (i_id (duplicate p)) m) m plans in
  m <-! flush (imap (λ i p, (i_id (survivor p),
          set_rel_path (survivor p) (sentinel XMOVE_PENDING i (i_id (survivor p))))) plans) m;
  us <-! result_mapM (λ p,
          scope <-! row_label (duplicate p) library_id;
          Ok (i_id (survivor p), revive library_id (survivor p) (duplicate p) scope now)) plans;
  m <-! flush us m;
  Ok (m, mkStats (Z.of_nat (length plans)) ambiguous, map (λ p, i_id (survivor p)) plans).
End moves.
