(* ===== verification/Associate.v ===== *)
(** * The association pass ([tasks/associate.py])

    Recomputes the sidecar links of a library from its active rows and folds what the
    NFO and JRiver sidecars say into their parents' rows. *)
From S2P Require Import Prelude PyStr Utf8 PathLabel Text Json Catalog Sidecar Metadata Move.
From stdpp Require Import options.

Definition set_sidecar_of (it : Item) (parent : option Z) : Item :=
  mkItem (i_id it) (i_library_id it) (i_file_category it) (i_file_group it) (i_status it)
    (i_path it) (i_rel_path it) (i_filename it) (i_extension it) (i_size it) (i_mtime it)
    (i_quick_hash it) (i_content_hash it) (i_mid_hash it) (i_nlink it) (i_inode it) (i_dev it)
    (i_symlink_target it) (i_last_seen it) (i_deleted_at it) parent (i_path_scope it)
    (i_source_agent_id it) (i_share_hint it) (i_curated it).

Definition set_curated (it : Item) (c : Curated) : Item :=
  mkItem (i_id it) (i_library_id it) (i_file_category it) (i_file_group it) (i_status it)
    (i_path it) (i_rel_path it) (i_filename it) (i_extension it) (i_size it) (i_mtime it)
    (i_quick_hash it) (i_content_hash it) (i_mid_hash it) (i_nlink it) (i_inode it) (i_dev it)
    (i_symlink_target it) (i_last_seen it) (i_deleted_at it) (i_sidecar_of it) (i_path_scope it)
    (i_source_agent_id it) (i_share_hint it) c.

Definition light (it : Item) : LightItem :=
  mkLight (i_id it) (i_rel_path it) (i_file_category it) (i_size it) (i_sidecar_of it).

Definition is_active (it : Item) : bool := bool_decide (i_status it = active).

(** ** Metadata of the parents *)

(** What the INTEGER and JSONB columns accept *)
Definition INT32_MAX : Z := 2147483647.
Definition storable (c : Curated) : bool :=
  match year c with Some y => (- INT32_MAX - 1 <=? y) && (y <=? INT32_MAX) | None => true end &&
  jsonb_map_ok (metadata_ c).

(** [{f"{prefix}{k}": v for k, v in parsed.items()}] *)
Definition prefixed (prefix : text) (m : gmap text json) : gmap text json := kmap (app prefix) m.

Definition blank_title (t : option text) : bool := match t with None | Some [] => true | _ => false end.
Definition blank_year (y : option Z) : bool := match y with None => true | Some n => n =? 0 end.

(** A parsed sidecar folded into its parent; [override] when the operator made the
    sidecar the authority. *)
Definition fold_parsed (override : bool) (prefix : text) (p : Parsed) (c : Curated) : Curated :=
  let t := match fields p !! txt "title" with
    | Some (JText (x :: y)) => if override || blank_title (title c) then Some (x :: y) else title c
    | _ => title c end in
  let y := match fields p !! txt "year" with
    | Some (JInt n) => if negb (n =? 0) && (override || blank_year (year c)) then Some n else year c
    | _ => year c end in
  mkCurated t y (tags c) (external p ∪ external_ids c) (prefixed prefix (fields p) ∪ metadata_ c)
    (user_metadata c) (first_seen c).

Definition ASSOCIATE_CHUNK : nat := 500.

Record sidecar_stats := mkSidecarStats {
  sidecars : Z;
  linked : Z;
  nfo_parsed : Z;
  jriver_parsed : Z;
  parents_updated : Z;
}.

Section associate.
Context (uni_lower : Z → list Z) (uni_decimal : Z → option Z) (uni_digit : Z → bool).
Context (fromstring : list Z → option elem) (fs : text → option (list Z)).
Context (override : bool).

(** The rows, the parents touched and the two counts *)
Record merge_state := mkMerge { ms_rows : rows; ms_touched : gset Z; ms_nfo : Z; ms_jr : Z }.

(** One sidecar of the work list *)
Definition merge_pair (st : merge_state) (pair : Z * Z * kind) : merge_state :=
  let '(sid, pid, k) := pair in
  match ms_rows st !! sid, ms_rows st !! pid with
  | Some side, Some parent =>
      match fs (i_path side) with
      | None => st
      | Some data =>
          let is_nfo := bool_decide (k = nfo) in
          let parsed := if is_nfo then parse_nfo_bytes uni_lower uni_decimal uni_digit fromstring data
            else parse_jrsidecar_bytes uni_lower uni_decimal uni_digit fromstring data in
          if bool_decide (fields parsed = ∅) && bool_decide (external parsed = ∅) then st
          else
            let prefix := txt (if is_nfo then "nfo_" else "jr_") in
            mkMerge (<[pid := set_curated parent (fold_parsed override prefix parsed (i_curated parent))]> (ms_rows st))
              ({[pid]} ∪ ms_touched st) (ms_nfo st + if is_nfo then 1 else 0) (ms_jr st + if is_nfo then 0 else 1)
      end
  | _, _ => st
  end.

(** The flush of the touched rows *)
Definition flush_ok (st : merge_state) : bool :=
  forallb (λ i, match ms_rows st !! i with Some it => storable (i_curated it) | None => true end)
    (elements (ms_touched st)).

(** [None]: the database refuses a value. *)
Fixpoint merge_chunks (l : list (list (Z * Z * kind))) (st : merge_state) : option merge_state :=
  match l with
  | [] => Some st
  | c :: rest =>
      let st := foldl merge_pair st c in
      if flush_ok st then merge_chunks rest st else None
  end.

Definition apply_links (changed : list (Z * option Z)) (m : rows) : rows :=
  foldl (λ m '(sid, pid), alter (λ it, set_sidecar_of it pid) sid m) m changed.

Definition parse_pairs (items : list LightItem) (links : list (Z * option Z)) : list (Z * Z * kind) :=
  omap (λ '(sid, pid), pid ← pid; it ← List.find (λ i, l_id i =? sid) items;
    info ← classify uni_lower (l_rel_path it);
    match s_kind info with nfo => Some (sid, pid, nfo) | jriver => Some (sid, pid, jriver) | _ => None end) links.

(** [items]: the library's rows as the query returns them.  The rows after the pass, its
    counters and the sidecars whose link changed. *)
Definition associate_sidecars (items : list Item) (m : rows) : option (rows * sidecar_stats * list Z) :=
  let items := map light (filterb is_active items) in
  let links := resolve_links uni_lower items in
  let changed := changed_links uni_lower items in
  st ← merge_chunks (chunked ASSOCIATE_CHUNK (parse_pairs items links)) (mkMerge (apply_links changed m) ∅ 0 0);
  Some (ms_rows st,
    mkSidecarStats (Z.of_nat (length links))
      (Z.of_nat (length (filterb (λ '(_, p), bool_decide (is_Some p)) links)))
      (ms_nfo st) (ms_jr st) (Z.of_nat (size (ms_touched st))), map fst changed).

(** The pass over a library of an agent, whose files central cannot open: links only *)
Definition associate_sidecars_light (items : list Item) (m : rows) : rows * list Z :=
  let items := map light (filterb is_active items) in
  let changed := changed_links uni_lower items in
  (apply_links changed m, map fst changed).
End associate.

(** ** Facts *)

(** What the pass may do to the curated columns of a row: the user's are as they were,
    extracted keys outside the two namespaces too, no key disappears, and without
    [override] a title or year that is set stays. *)
Definition sidecar_key (k : text) : bool := starts_with k (txt "nfo_") || starts_with k (txt "jr_").

Record kept (override : bool) (c0 c : Curated) : Prop := {
  kept_tags : tags c = tags c0;
  kept_user : user_metadata c = user_metadata c0;
  kept_first : first_seen c = first_seen c0;
  kept_other : ∀ k, sidecar_key k = false → metadata_ c !! k = metadata_ c0 !! k;
  kept_keys : ∀ k, is_Some (metadata_ c0 !! k) → is_Some (metadata_ c !! k);
  kept_external : ∀ k, is_Some (external_ids c0 !! k) → is_Some (external_ids c !! k);
  kept_title : override = false → blank_title (title c0) = false → title c = title c0;
  kept_year : override = false → blank_year (year c0) = false → year c = year c0;
}.

Global Instance kept_refl o : Reflexive (kept o).
Proof. by intros c. Qed.
Global Instance kept_trans o : Transitive (kept o).
Proof.
  intros c0 c1 c2 [T1 U1 F1 O1 K1 E1 L1 Y1] [T2 U2 F2 O2 K2 E2 L2 Y2]. split; try congruence.
  - intros k Hk. rewrite O2 by done. by apply O1.
  - auto.
  - auto.
  - intros Ho Hb. pose proof (L1 Ho Hb) as H. rewrite <- H. apply L2; [done|by rewrite H].
  - intros Ho Hb. pose proof (Y1 Ho Hb) as H. rewrite <- H. apply Y2; [done|by rewrite H].
Qed.

Lemma prefixed_lookup (prefix : text) (m : gmap text json) (k : text) v :
  prefixed prefix m !! k = Some v → starts_with k prefix = true.
Proof.
  unfold prefixed. intros (k' & -> & _)%lookup_kmap_Some; [|apply _]. apply starts_with_app.
Qed.

Lemma fold_parsed_kept o (prefix : text) p c :
  (∀ k, starts_with k prefix = true → sidecar_key k = true) → kept o c (fold_parsed o prefix p c).
Proof.
  intros Hprefix. split; cbn; try done.
  - intros k Hk. apply lookup_union_r. destruct (prefixed prefix (fields p) !! k) eqn:Hl; [|done].
    apply prefixed_lookup, Hprefix in Hl. congruence.
  - intros k Hk. apply lookup_union_is_Some. by right.
  - intros k Hk. apply lookup_union_is_Some. by right.
  - intros -> Hb. rewrite Hb. cbn [orb]. by repeat case_match.
  - intros -> Hb. rewrite Hb. cbn [orb]. repeat case_match; try done. by rewrite andb_false_r in *.
Qed.

(** A row before and after the pass *)
Record passed (o : bool) (it it' : Item) : Prop := {
  passed_id : i_id it' = i_id it;
  passed_library : i_library_id it' = i_library_id it;
  passed_path : i_rel_path it' = i_rel_path it;
  passed_status : i_status it' = i_status it;
  passed_curated : kept o (i_curated it) (i_curated it');
}.

Global Instance passed_refl o : Reflexive (passed o).
Proof. intros it. by split. Qed.
Global Instance passed_trans o : Transitive (passed o).
Proof. intros a b c [] []. split; try congruence. by etransitivity. Qed.

Definition all_passed (o : bool) (m m' : rows) : Prop := ∀ i, option_Forall2 (passed o) (m !! i) (m' !! i).

Global Instance all_passed_refl o : Reflexive (all_passed o).
Proof. intros m i. reflexivity. Qed.
Global Instance all_passed_trans o : Transitive (all_passed o).
Proof. intros a b c H1 H2 i. etransitivity; [apply H1|apply H2]. Qed.

Lemma all_passed_insert o m i it it' : m !! i = Some it → passed o it it' → all_passed o m (<[i := it']> m).
Proof.
  intros Hi Hp j. destruct (decide (i = j)) as [<-|Hne].
  - rewrite Hi, lookup_insert_eq. by constructor.
  - rewrite lookup_insert_ne by done. reflexivity.
Qed.

Lemma apply_links_passed o changed m : all_passed o m (apply_links changed m).
Proof.
  unfold apply_links. revert m. induction changed as [|[sid pid] l IH]; intros m; [reflexivity|]. cbn [foldl].
  etransitivity; [|apply IH]. intros j. destruct (decide (sid = j)) as [<-|Hne].
  - rewrite lookup_alter_eq. destruct (m !! sid); constructor. by split.
  - rewrite lookup_alter_ne by done. reflexivity.
Qed.

Section facts.
Context (uni_lower : Z → list Z) (uni_decimal : Z → option Z) (uni_digit : Z → bool).
Context (fromstring : list Z → option elem) (fs : text → option (list Z)) (o : bool).

Local Abbreviation merge_pair := (merge_pair uni_lower uni_decimal uni_digit fromstring fs o).
Local Abbreviation merge_chunks := (merge_chunks uni_lower uni_decimal uni_digit fromstring fs o).

Lemma merge_pair_passed st pair : all_passed o (ms_rows st) (ms_rows (merge_pair st pair)).
Proof.
  destruct pair as [[sid pid] k]. unfold Associate.merge_pair.
  destruct (ms_rows st !! sid) as [side|]; [|reflexivity].
  destruct (ms_rows st !! pid) as [parent|] eqn:Hp; [|reflexivity].
  destruct (fs (i_path side)) as [data|]; [|reflexivity]. cbv zeta.
  destruct (_ && _); [reflexivity|]. eapply all_passed_insert; [done|]. split; try done.
  apply fold_parsed_kept. intros key. unfold sidecar_key.
  destruct (bool_decide (k = nfo)); intros ->; [done|apply orb_true_r].
Qed.

Lemma merge_chunks_passed l st st' : merge_chunks l st = Some st' → all_passed o (ms_rows st) (ms_rows st').
Proof.
  revert st. induction l as [|c l IH]; intros st; cbn [Associate.merge_chunks]; [by intros [= <-]|].
  destruct (flush_ok _); [|done]. intros H. etransitivity; [|by apply IH]. clear H.
  revert st. induction c as [|p c IHc]; intros st; [reflexivity|]. cbn [foldl].
  etransitivity; [apply merge_pair_passed|apply IHc].
Qed.

Lemma associate_passed items m m' stats ids :
  associate_sidecars uni_lower uni_decimal uni_digit fromstring fs o items m = Some (m', stats, ids) →
  all_passed o m m' ∧ ∀ i, i ∈ ids → ∃ it, it ∈ items ∧ i = i_id it.
Proof.
  unfold associate_sidecars. set (lights := map light (filterb is_active items)).
  destruct (merge_chunks _ _) as [st|] eqn:Hm; [|done]. intros [= <- _ <-]. split.
  - apply merge_chunks_passed in Hm. etransitivity; [|done]. apply apply_links_passed.
  - intros i ([sid pid] & -> & Hin)%list_elem_of_fmap. unfold changed_links in Hin.
    apply elem_of_filterb in Hin as [Hin _]. unfold resolve_links in Hin.
    apply list_elem_of_omap in Hin as (l & Hl & Heq). destruct (classify _ _); [|done]. injection Heq as <- _.
    unfold lights in Hl. apply list_elem_of_fmap in Hl as (it & -> & [Hit _]%elem_of_filterb). by exists it.
Qed.
End facts.
