(* ===== verification/MoveFacts.v ===== *)
(** * Move detection: facts and properties *)
From S2P Require Import Prelude PyStr Uuid Utf8 PathLabel Text Catalog Move.
From stdpp Require Import options.

(** ** Buckets *)

Definition has_key (k : string * Z) (it : Item) : bool := bool_decide (_key it = Some k).

Definition with_key (k : string * Z) (items : list Item) : list Item := filterb (has_key k) items.

Lemma bucket_get_add k k' x b :
  bucket_get k (bucket_add k' x b) =
  if bool_decide (k = k') then Some (default [] (bucket_get k b) ++ [x]) else bucket_get k b.
Proof.
  induction b as [|[k0 l] b IH]; simpl.
  - by repeat case_bool_decide.
  - repeat (case_bool_decide; simpl); subst; try done; rewrite IH; by case_bool_decide.
Qed.

Lemma buckets_snoc items it :
  buckets (items ++ [it]) =
  match _key it with Some k => bucket_add k it (buckets items) | None => buckets items end.
Proof. unfold buckets. by rewrite foldl_app. Qed.

Lemma with_key_app k a b : with_key k (a ++ b) = with_key k a ++ with_key k b.
Proof. apply List.filter_app. Qed.

Lemma bucket_get_buckets k items :
  bucket_get k (buckets items) = match with_key k items with [] => None | l => Some l end.
Proof.
  induction items as [|it items IH] using rev_ind; [done|].
  rewrite buckets_snoc, with_key_app.
  assert (with_key k [it] = if bool_decide (_key it = Some k) then [it] else []) as -> by done.
  destruct (_key it) as [k'|]; [rewrite bucket_get_add, IH|].
  - destruct (decide (k = k')) as [<-|Hne].
    + rewrite !bool_decide_eq_true_2 by done. by destruct (with_key k items).
    + rewrite !bool_decide_eq_false_2 by congruence. rewrite app_nil_r. done.
  - rewrite bool_decide_eq_false_2 by done. by rewrite app_nil_r.
Qed.

Lemma bucket_keys_add k x b :
  map fst (bucket_add k x b) = if bool_decide (k ∈ map fst b) then map fst b else map fst b ++ [k].
Proof.
  induction b as [|[k0 l] b IH]; [done|]. cbn [bucket_add map fst].
  destruct (bool_decide_reflect (k = k0)) as [Hk|Hk]; cbn [map fst].
  - subst. by rewrite bool_decide_eq_true_2 by left.
  - rewrite IH. destruct (decide (k ∈ map fst b)) as [Hin|Hin].
    + rewrite !bool_decide_eq_true_2; [done|by right|done].
    + rewrite !bool_decide_eq_false_2; [done| |done]. rewrite elem_of_cons. naive_solver.
Qed.

Lemma buckets_keys_nodup items : NoDup (map fst (buckets items)).
Proof.
  induction items as [|it items IH] using rev_ind; [constructor|]. rewrite buckets_snoc.
  destruct (_key it) as [k|]; [|done]. rewrite bucket_keys_add. case_bool_decide as Hk; [done|].
  apply NoDup_app. split_and!; [done| |apply NoDup_singleton].
  intros x Hx ->%list_elem_of_singleton. done.
Qed.

Lemma bucket_get_elem k l b : NoDup (map fst b) → (k, l) ∈ b ↔ bucket_get k b = Some l.
Proof.
  induction b as [|[k0 l0] b IH]; intros Hnd; [by split; [intros ?%not_elem_of_nil|]|].
  inversion Hnd as [|? ? Hnot Hnd']; subst. cbn [bucket_get]. rewrite elem_of_cons.
  case_bool_decide as Hk.
  - subst. split.
    + intros [[= ->]|Hin]; [done|]. destruct Hnot. apply list_elem_of_fmap. by exists (k0, l).
    + intros [= ->]. by left.
  - rewrite <- IH by done. naive_solver.
Qed.

Lemma elem_of_buckets k l items : (k, l) ∈ buckets items ↔ l = with_key k items ∧ l ≠ [].
Proof.
  rewrite bucket_get_elem by apply buckets_keys_nodup. rewrite bucket_get_buckets.
  destruct (with_key k items); naive_solver.
Qed.

Lemma elem_of_with_key k it items : it ∈ with_key k items ↔ it ∈ items ∧ _key it = Some k.
Proof. unfold with_key, has_key. by rewrite elem_of_filterb, bool_decide_eq_true. Qed.

(** ** Rows are told apart by their id *)

Definition distinct (l : list Item) : Prop := NoDup (map i_id l).

Lemma distinct_inj l x y : distinct l → x ∈ l → y ∈ l → i_id x = i_id y → x = y.
Proof.
  intros Hd Hx Hy. induction Hx as [x l|x z l Hx IH] in Hd, Hy |- *.
  - inversion Hd as [|? ? Hn Hd']; subst. apply elem_of_cons in Hy as [->|Hy]; [done|].
    intros He. destruct Hn. rewrite He. by apply list_elem_of_fmap_2.
  - inversion Hd as [|? ? Hn Hd']; subst. apply elem_of_cons in Hy as [->|Hy]; [|by apply IH].
    intros He. destruct Hn. rewrite <- He. by apply list_elem_of_fmap_2.
Qed.

Lemma distinct_nodup l : distinct l → NoDup l.
Proof. apply NoDup_fmap_1. Qed.

Lemma distinct_filter f l : distinct l → distinct (filterb f l).
Proof.
  unfold distinct. induction l as [|x l IH]; [done|]. simpl. intros Hd.
  inversion Hd as [|? ? Hn Hd']; subst. destruct (f x); [|by apply IH].
  simpl. constructor; [|by apply IH]. intros Hin. destruct Hn.
  apply list_elem_of_fmap in Hin as (y & He & [Hy _]%elem_of_filterb). rewrite He.
  by apply list_elem_of_fmap_2.
Qed.

Lemma elem_of_remove_row c l x :
  distinct l → c ∈ l → x ∈ remove_row c l ↔ x ∈ l ∧ x ≠ c.
Proof.
  intros Hd Hc. induction l as [|y l IH]; [by apply not_elem_of_nil in Hc|].
  inversion Hd as [|? ? Hn Hd']; subst. cbn [remove_row]. unfold same_row.
  destruct (Z.eqb_spec (i_id y) (i_id c)) as [He|Hne].
  - assert (y = c) as -> by (eapply distinct_inj; [exact Hd|left|done|done]).
    rewrite elem_of_cons. split; [|naive_solver]. intros Hx. split; [by right|].
    intros ->. destruct Hn. by apply list_elem_of_fmap_2.
  - apply elem_of_cons in Hc as [->|Hc]; [done|]. rewrite !elem_of_cons, IH by done.
    split; [|naive_solver]. intros [->|[Hx Hxc]]; [|naive_solver]. split; [by left|]. by intros ->.
Qed.

Lemma distinct_remove_row c l : distinct l → distinct (remove_row c l).
Proof.
  unfold distinct. induction l as [|y l IH]; [done|]. intros Hd.
  inversion Hd as [|? ? Hn Hd']; subst. cbn [remove_row]. destruct (same_row y c); [done|].
  simpl. constructor; [|by apply IH]. intros Hin. destruct Hn.
  clear -Hin. induction l as [|z l IH]; [done|]. cbn [remove_row] in Hin.
  destruct (same_row z c); [by right|]. simpl in *. apply elem_of_cons in Hin as [->|Hin]; [by left|].
  right. by apply IH.
Qed.

Lemma filter_singleton {A} (f : A → bool) l x :
  NoDup l → filterb f l = [x] ↔ x ∈ l ∧ f x = true ∧ ∀ y, y ∈ l → f y = true → y = x.
Proof.
  intros Hnd. split.
  - intros Hf. assert (∀ y, y ∈ filterb f l ↔ y = x) as Hin.
    { intros y. rewrite Hf. apply list_elem_of_singleton. }
    setoid_rewrite elem_of_filterb in Hin. naive_solver.
  - intros (Hx & Hfx & Huniq). induction Hnd as [|y l Hy Hnd IH]; [by apply not_elem_of_nil in Hx|].
    simpl. destruct (f y) eqn:Hfy.
    + assert (y = x) as -> by (apply Huniq; [left|done]). f_equal.
      apply filterb_nil. intros z Hz. destruct (f z) eqn:Hfz; [|done].
      assert (z = x) as -> by (apply Huniq; [by right|done]). done.
    + apply elem_of_cons in Hx as [->|Hx]; [by rewrite Hfy in Hfx|]. apply IH; [done|].
      intros z Hz. apply Huniq. by right.
Qed.

(** ** One bucket *)

(** Each of the two confirms the other and nothing else on the other side. *)
Definition mutual (cands news : list Item) (c n : Item) : Prop :=
  c ∈ cands ∧ n ∈ news ∧ _match c n = Some true ∧
  (∀ c', c' ∈ cands → _match c' n = Some true → c' = c) ∧
  (∀ n', n' ∈ news → _match c n' = Some true → n' = n).

Lemma is_true_spec v : is_true v = true ↔ v = Some true.
Proof. unfold is_true. apply bool_decide_eq_true. Qed.

Section one_bucket.
Context (cands news : list Item) (Hcd : distinct cands) (Hnd : distinct news).

Lemma rivals_nil c n :
  n ∈ news →
  filterb (λ m, negb (same_row m n) && is_true (_match c m)) news = [] ↔
  ∀ n', n' ∈ news → _match c n' = Some true → n' = n.
Proof using Hnd.
  intros Hn. rewrite filterb_nil. unfold same_row. split.
  - intros H n' Hn' Hm. specialize (H n' Hn'). apply is_true_spec in Hm. rewrite Hm, andb_true_r in H.
    apply negb_false_iff, Z.eqb_eq in H. by eapply distinct_inj.
  - intros H n' Hn'. destruct (is_true (_match c n')) eqn:Hm; [|apply andb_false_r].
    apply is_true_spec in Hm. rewrite (H n' Hn' Hm). by rewrite Z.eqb_refl.
Qed.

(** The candidates no earlier new row took *)
Definition remaining_ok (done_ rem : list Item) : Prop :=
  distinct rem ∧ (∀ c, c ∈ rem → c ∈ cands) ∧
  ∀ c, c ∈ cands → c ∉ rem → ∃ n, n ∈ done_ ∧ mutual cands news c n.

(** The test of the loop: exactly the mutual pairs pass. *)
Lemma confirmed_mutual done_ rem n c :
  n ∈ news → n ∉ done_ → remaining_ok done_ rem →
  (filterb (λ c, is_true (_match c n)) rem = [c] ∧
   filterb (λ m, negb (same_row m n) && is_true (_match c m)) news = []) ↔
  mutual cands news c n.
Proof using Hnd.
  intros Hn Hfresh (Hdist & Hsub & Hgone). rewrite filter_singleton by (by apply distinct_nodup).
  rewrite rivals_nil by done. setoid_rewrite is_true_spec. split.
  - intros [(Hc & Hm & Huniq) Hriv]. split_and!; [by apply Hsub|done|done| |done].
    intros c' Hc' Hm'. destruct (decide (c' ∈ rem)) as [Hin|Hin]; [by apply Huniq|].
    destruct (Hgone c' Hc' Hin) as (n0 & Hn0 & (_ & _ & _ & _ & Hu)).
    by rewrite (Hu n Hn Hm') in Hfresh.
  - intros (Hc & _ & Hm & Hu & Hriv). split; [|done]. split_and!; [|done|].
    + destruct (decide (c ∈ rem)) as [Hin|Hin]; [done|].
      destruct (Hgone c Hc Hin) as (n0 & Hn0 & (_ & _ & _ & _ & Hu')).
      by rewrite (Hu' n Hn Hm) in Hfresh.
    + intros c' Hc' Hm'. apply Hu; [by apply Hsub|done].
Qed.

Lemma multi_way_spec todo done_ rem :
  news = done_ ++ todo → remaining_ok done_ rem →
  let '(plans, ambiguous) := multi_way news todo rem in
  (∀ c n, mkPlan c n ∈ plans ↔ n ∈ todo ∧ mutual cands news c n) ∧
  NoDup (map duplicate plans) ∧
  Z.of_nat (length plans) + ambiguous = Z.of_nat (length todo).
Proof using Hcd Hnd.
  revert done_ rem. induction todo as [|n todo IH]; intros done_ rem Hnews Hrem.
  { cbn. split_and!; [|constructor|done]. intros c n. split; [by intros ?%not_elem_of_nil|].
    by intros [?%not_elem_of_nil _]. }
  assert (n ∈ news) as Hn by (rewrite Hnews; set_solver).
  pose proof (distinct_nodup _ Hnd) as Hnodup. rewrite Hnews in Hnodup.
  apply NoDup_app in Hnodup as (_ & Hdisj & Hnodup). apply NoDup_cons in Hnodup as [Hntodo _].
  assert (n ∉ done_) as Hfresh by (intros Hin; apply (Hdisj n Hin); left).
  assert (∀ x, n ∈ done_ ++ [n] ∧ (x ∈ done_ ++ [n] ↔ x ∈ done_ ∨ x = n)) as Hsnoc by set_solver.
  pose proof (λ c, confirmed_mutual done_ rem n c Hn Hfresh Hrem) as Hconf.
  cbn [multi_way].
  assert (∀ rem', remaining_ok (done_ ++ [n]) rem' →
    let '(plans, ambiguous) := multi_way news todo rem' in
    (∀ c m, mkPlan c m ∈ plans ↔ m ∈ todo ∧ mutual cands news c m) ∧
    NoDup (map duplicate plans) ∧
    Z.of_nat (length plans) + ambiguous = Z.of_nat (length todo)) as IH'.
  { intros rem' Hr. apply (IH (done_ ++ [n])); [by rewrite <- app_assoc|done]. }
  clear IH.
  assert ((∀ c, ¬ mutual cands news c n) →
    let '(plans, ambiguous) := let '(p, a) := multi_way news todo rem in (p, a + 1) in
    (∀ c m, mkPlan c m ∈ plans ↔ m ∈ n :: todo ∧ mutual cands news c m) ∧
    NoDup (map duplicate plans) ∧
    Z.of_nat (length plans) + ambiguous = Z.of_nat (length (n :: todo))) as Hskip.
  { intros Hno. specialize (IH' rem). destruct (multi_way news todo rem) as [plans a].
    destruct IH' as (H1 & H2 & H3).
    { destruct Hrem as (? & ? & Hg). split_and!; [done|done|].
      intros c Hc Hout. destruct (Hg c Hc Hout) as (n0 & ? & ?). exists n0. set_solver. }
    split_and!; [|done|simpl length; lia]. intros c m. rewrite H1, elem_of_cons.
    split; [naive_solver|]. intros [[->|Hm] Hmut]; [by destruct (Hno c)|done]. }
  destruct (filterb (λ c, is_true (_match c n)) rem) as [|c [|c2 rest]] eqn:Hf.
  - apply Hskip. intros c Hc. by apply Hconf in Hc as [? _].
  - destruct (filterb (λ m, negb (same_row m n) && is_true (_match c m)) news) eqn:Hriv.
    + assert (mutual cands news c n) as Hmut by (by apply Hconf).
      destruct Hrem as (Hd & Hsub & Hg).
      assert (c ∈ rem) as Hcr.
      { assert (c ∈ [c]) as Hin by left. rewrite <- Hf in Hin. by apply elem_of_filterb in Hin as [? _]. }
      specialize (IH' (remove_row c rem)). destruct (multi_way news todo (remove_row c rem)) as [plans a].
      destruct IH' as (H1 & H2 & H3).
      { split_and!; [by apply distinct_remove_row| |].
        - intros x [Hx _]%elem_of_remove_row; [by apply Hsub|done|done].
        - intros x Hx Hout. destruct (decide (x = c)) as [->|Hxc]; [exists n; set_solver|].
          destruct (Hg x Hx) as (n0 & ? & ?); [|exists n0; set_solver].
          intros Hin. apply Hout. by apply elem_of_remove_row. }
      split_and!; [| |simpl length; lia].
      * intros c' m. rewrite !elem_of_cons, H1. split; [naive_solver|].
        intros [[->|Hm] Hmut']; [left|right; done].
        destruct Hmut as (Hc & _ & Hm & Hu & _), Hmut' as (Hc' & _ & Hm' & _). f_equal. by apply Hu.
      * cbn [map duplicate]. constructor; [|done]. intros Hin.
        apply list_elem_of_fmap in Hin as ([c' m] & Hm & Hin). simpl in Hm. subst m.
        apply H1 in Hin as [Hin _]. done.
    + apply Hskip. intros c' Hc'. pose proof Hc' as [Heq Hriv']%Hconf. simplify_eq. by rewrite Hriv in Hriv'.
  - apply Hskip. intros c' Hc'. by apply Hconf in Hc' as [? _].
Qed.

(** What one bucket yields *)
Definition bucket_pair (c n : Item) : Prop :=
  (cands = [c] ∧ news = [n] ∧ _match c n ≠ Some false) ∨
  (¬ (length cands = 1%nat ∧ length news = 1%nat) ∧ mutual cands news c n).

Lemma plan_bucket_spec :
  let '(plans, ambiguous) := plan_bucket cands news in
  (∀ c n, mkPlan c n ∈ plans ↔ bucket_pair c n) ∧
  NoDup (map duplicate plans) ∧
  Z.of_nat (length plans) + ambiguous = Z.of_nat (length news).
Proof using Hcd Hnd.
  assert (¬ (length cands = 1%nat ∧ length news = 1%nat) →
    let '(plans, ambiguous) := multi_way news news cands in
    (∀ c n, mkPlan c n ∈ plans ↔ bucket_pair c n) ∧ NoDup (map duplicate plans) ∧
    Z.of_nat (length plans) + ambiguous = Z.of_nat (length news)) as Hmulti.
  { intros Hne. pose proof (multi_way_spec news [] cands) as H.
    destruct (multi_way news news cands) as [plans a].
    destruct H as (H1 & H2 & H3); [done|split_and!; [done|done|by intros c ? ?]|].
    split_and!; [|done|done]. intros c n. rewrite H1. unfold bucket_pair. split.
    - intros [_ Hm]. right. done.
    - intros [(-> & -> & _)|[_ Hm]]; [by destruct Hne|]. split; [|done]. by destruct Hm as (_ & ? & _). }
  unfold plan_bucket, bucket_pair in *.
  destruct news as [|n [|n2 news']], cands as [|c [|c2 cands']]; try (apply Hmulti; simpl; lia).
  case_bool_decide as Hm; (split_and!; [intros c' n'|..]).
  - split; [by intros ?%not_elem_of_nil|]. intros [([= ->] & [= ->] & ?)|[Hne _]]; [done|].
    by destruct Hne.
  - constructor.
  - done.
  - rewrite list_elem_of_singleton. split.
    + intros [= -> ->]. by left.
    + intros [([= ->] & [= ->] & ?)|[Hne _]]; [done|]. by destruct Hne.
  - apply NoDup_singleton.
  - done.
Qed.
End one_bucket.

(** ** The whole plan *)

Definition bucket_plans (candidates : list Item) (b : bucket) : list MovePlan * Z :=
  match with_key b.1 candidates with [] => ([], 0) | cands => plan_bucket cands b.2 end.

Lemma plan_moves_bind candidates new_items :
  plan_moves candidates new_items =
  (buckets new_items ≫= (λ b, (bucket_plans candidates b).1),
   foldr (λ b a, (bucket_plans candidates b).2 + a) 0 (buckets new_items)).
Proof.
  unfold plan_moves. generalize (buckets new_items) as bs. intros bs.
  assert (∀ acc a0, foldl (λ '(plans, ambiguous) '(key, news),
      match bucket_get key (buckets candidates) with
      | None | Some [] => (plans, ambiguous)
      | Some cands => let '(p, a) := plan_bucket cands news in (plans ++ p, ambiguous + a)
      end) (acc, a0) bs =
    (acc ++ (bs ≫= (λ b, (bucket_plans candidates b).1)),
     a0 + foldr (λ b a, (bucket_plans candidates b).2 + a) 0 bs)) as H; [|apply H].
  induction bs as [|[k news] bs IH]; intros acc a0; [cbn; f_equal; [by rewrite app_nil_r|lia]|].
  cbn [foldl foldr mbind list_bind]. rewrite bucket_get_buckets. unfold bucket_plans at 1 3. cbn [fst snd].
  destruct (with_key k candidates) as [|c cs]; [rewrite IH; cbn; f_equal|].
  destruct (plan_bucket (c :: cs) news) as [p a]. rewrite IH. cbn. rewrite <- app_assoc. f_equal. lia.
Qed.

Section planner.
Context (candidates new_items : list Item).
Context (Hcd : distinct candidates) (Hnd : distinct new_items).

Lemma with_key_distinct k l : distinct l → distinct (with_key k l).
Proof. apply distinct_filter. Qed.

Lemma bucket_plans_spec k :
  let '(plans, ambiguous) := bucket_plans candidates (k, with_key k new_items) in
  (∀ c n, mkPlan c n ∈ plans ↔ bucket_pair (with_key k candidates) (with_key k new_items) c n) ∧
  NoDup (map duplicate plans) ∧
  Z.of_nat (length plans) + ambiguous =
    match with_key k candidates with [] => 0 | _ => Z.of_nat (length (with_key k new_items)) end.
Proof using Hcd Hnd.
  unfold bucket_plans. cbn [fst snd].
  pose proof (plan_bucket_spec (with_key k candidates) (with_key k new_items)
    (with_key_distinct k _ Hcd) (with_key_distinct k _ Hnd)) as H.
  destruct (with_key k candidates) as [|c cs] eqn:Hk; [|done].
  split_and!; [|constructor|done]. intros c n. split; [by intros ?%not_elem_of_nil|].
  intros [(? & _)|[_ (Hin & _)]]; [done|by apply not_elem_of_nil in Hin].
Qed.

(** The pairs of the plan, in terms of the two lists *)
Definition planned (c n : Item) : Prop :=
  ∃ k, _key c = Some k ∧ _key n = Some k ∧ c ∈ candidates ∧ n ∈ new_items ∧
    bucket_pair (with_key k candidates) (with_key k new_items) c n.

Lemma bucket_pair_elem cs ns c n : bucket_pair cs ns c n → c ∈ cs ∧ n ∈ ns.
Proof. intros [(-> & -> & _)|[_ (? & ? & _)]]; [split; left|done]. Qed.

Lemma plan_moves_planned c n : mkPlan c n ∈ (plan_moves candidates new_items).1 ↔ planned c n.
Proof using Hcd Hnd.
  rewrite plan_moves_bind. cbn [fst]. rewrite list_elem_of_bind. split.
  - intros ([k l] & Hp & Hb). apply elem_of_buckets in Hb as [-> _].
    pose proof (bucket_plans_spec k) as H. destruct (bucket_plans candidates (k, with_key k new_items)) as [plans a].
    destruct H as (H & _ & _). apply H in Hp. destruct (bucket_pair_elem _ _ _ _ Hp) as [Hc Hn].
    apply elem_of_with_key in Hc as [? ?], Hn as [? ?]. exists k. done.
  - intros (k & Hkc & Hkn & Hc & Hn & Hp). exists (k, with_key k new_items). split.
    + pose proof (bucket_plans_spec k) as H. destruct (bucket_plans candidates (k, with_key k new_items)) as [plans a].
      destruct H as (H & _ & _). by apply H.
    + apply elem_of_buckets. split; [done|]. intros He.
      assert (n ∈ with_key k new_items) as Hin by (by apply elem_of_with_key).
      rewrite He in Hin. by apply not_elem_of_nil in Hin.
Qed.

Lemma plan_duplicates_nodup : NoDup (map duplicate (plan_moves candidates new_items).1).
Proof using Hcd Hnd.
  rewrite plan_moves_bind. cbn [fst].
  assert (map duplicate (buckets new_items ≫= (λ b, (bucket_plans candidates b).1)) =
    buckets new_items ≫= (λ b, map duplicate (bucket_plans candidates b).1)) as ->.
  { induction (buckets new_items) as [|b bs IH]; [done|]. cbn. rewrite map_app. by rewrite IH. }
  apply NoDup_bind.
  - intros [k1 l1] [k2 l2] n [-> _]%elem_of_buckets [-> _]%elem_of_buckets H1 H2.
    assert (∀ k, n ∈ map duplicate (bucket_plans candidates (k, with_key k new_items)).1 →
      _key n = Some k) as Hk.
    { intros k Hin. apply list_elem_of_fmap in Hin as ([c m] & -> & Hin). cbn [duplicate].
      pose proof (bucket_plans_spec k) as H. destruct (bucket_plans candidates (k, with_key k new_items)) as [plans a].
      destruct H as (H & _ & _). apply H in Hin. destruct (bucket_pair_elem _ _ _ _ Hin) as [_ Hn].
      by apply elem_of_with_key in Hn as [_ ?]. }
    apply Hk in H1, H2. rewrite H1 in H2. by injection H2 as ->.
  - intros [k l] [-> _]%elem_of_buckets. pose proof (bucket_plans_spec k) as H.
    destruct (bucket_plans candidates (k, with_key k new_items)) as [plans a]. by destruct H as (_ & H & _).
  - eapply NoDup_fmap_1, buckets_keys_nodup.
Qed.

(** A candidate is in one plan at most. *)
Lemma planned_functional c n1 n2 : planned c n1 → planned c n2 → n1 = n2.
Proof.
  intros (k1 & Hk1 & _ & _ & _ & H1) (k2 & Hk2 & _ & _ & _ & H2).
  rewrite Hk1 in Hk2. injection Hk2 as <-.
  destruct H1 as [(Hc1 & Hn1 & _)|[Hm1 (_ & Hin1 & Hmt1 & _ & Hu1)]],
    H2 as [(Hc2 & Hn2 & _)|[Hm2 (_ & Hin2 & Hmt2 & _ & Hu2)]].
  - rewrite Hn1 in Hn2. by injection Hn2.
  - destruct Hm2. by rewrite Hc1, Hn1.
  - destruct Hm1. by rewrite Hc2, Hn2.
  - symmetry. by apply Hu1.
Qed.

Lemma plan_survivors_nodup : NoDup (map survivor (plan_moves candidates new_items).1).
Proof using Hcd Hnd.
  eapply NoDup_map_factor; [exact plan_duplicates_nodup|].
  intros [c1 n1] [c2 n2] H1 H2. cbn [survivor duplicate]. intros <-.
  apply plan_moves_planned in H1, H2. by eapply planned_functional.
Qed.

(** A new row with a vanished twin: some candidate has its key. *)
Definition has_twin (n : Item) : bool :=
  match _key n with Some k => negb (bool_decide (with_key k candidates = [])) | None => false end.

Definition weight (b : bucket) : Z :=
  match with_key b.1 candidates with [] => 0 | _ => Z.of_nat (length b.2) end.

Lemma weight_add k x b :
  _key x = Some k →
  foldr (λ b a, weight b + a) 0 (bucket_add k x b) =
  foldr (λ b a, weight b + a) 0 b + if has_twin x then 1 else 0.
Proof.
  intros Hx. unfold has_twin. rewrite Hx. clear Hx. induction b as [|[k0 l] b IH].
  - cbn. unfold weight. cbn. by destruct (with_key k candidates).
  - cbn [bucket_add]. destruct (bool_decide_reflect (k = k0)) as [<-|Hne]; cbn [foldr].
    + unfold weight at 1 3. cbn [fst snd]. destruct (with_key k candidates).
      * rewrite bool_decide_eq_true_2 by done. cbn. lia.
      * rewrite bool_decide_eq_false_2 by done. rewrite length_app. cbn. lia.
    + rewrite IH. lia.
Qed.

Lemma weight_buckets items :
  foldr (λ b a, weight b + a) 0 (buckets items) = Z.of_nat (length (filterb has_twin items)).
Proof.
  induction items as [|x items IH] using rev_ind; [done|].
  rewrite buckets_snoc, List.filter_app, length_app. cbn [filterb].
  destruct (_key x) as [k|] eqn:Hk.
  - rewrite weight_add, IH by done. destruct (has_twin x); cbn; lia.
  - unfold has_twin. rewrite Hk. cbn. fold has_twin. rewrite IH. lia.
Qed.

Lemma plan_moves_count :
  let '(plans, ambiguous) := plan_moves candidates new_items in
  Z.of_nat (length plans) + ambiguous = Z.of_nat (length (filterb has_twin new_items)).
Proof using Hcd Hnd.
  rewrite plan_moves_bind, <- weight_buckets.
  assert (∀ b, b ∈ buckets new_items →
    Z.of_nat (length (bucket_plans candidates b).1) + (bucket_plans candidates b).2 = weight b) as Hb.
  { intros [k l] [-> _]%elem_of_buckets. pose proof (bucket_plans_spec k) as H. unfold weight.
    cbn [fst snd]. destruct (bucket_plans candidates (k, with_key k new_items)) as [plans a].
    by destruct H as (_ & _ & H). }
  induction (buckets new_items) as [|b bs IH]; [done|]. cbn. rewrite length_app.
  specialize (Hb b ltac:(left)) as H. unfold bucket in *. rewrite <- H, <- IH; [lia|].
  intros b' Hin. apply Hb. by right.
Qed.
End planner.

(** ** Flushes under the unique index *)

(** Updates that keep out of each other's way and of the untouched rows succeed in any
    order. *)
Lemma run_updates_ok us m :
  NoDup (map fst us) → unique_paths m →
  (∀ i it j r, (i, it) ∈ us → m !! j = Some r → j ≠ i → rkey r ≠ rkey it) →
  (∀ i it j jt, (i, it) ∈ us → (j, jt) ∈ us → i ≠ j → rkey it ≠ rkey jt) →
  ∃ m', run_updates us m = Ok m' ∧ unique_paths m' ∧
    (∀ i it, (i, it) ∈ us → m' !! i = Some it) ∧
    (∀ i, i ∉ map fst us → m' !! i = m !! i).
Proof.
  revert m. induction us as [|[i it] us IH]; intros m Hnd Hu Hold Hnew.
  { exists m. split_and!; [done|done|by intros ? ? ?%not_elem_of_nil|done]. }
  cbn [map fst] in Hnd. apply NoDup_cons in Hnd as [Hi Hnd]. cbn [run_updates update_row].
  assert (taken m i it = false) as Ht.
  { apply taken_false. intros j r Hj Hne. by eapply Hold; [left|..]. }
  unfold update_row. rewrite Ht. cbn [result_bind].
  destruct (IH (<[i := it]> m)) as (m' & Hrun & Hu' & Hin & Hout); [done|by apply update_row_unique|..].
  - intros a x j r Ha Hj Hne. apply lookup_insert_Some in Hj as [[<- <-]|[_ Hj]].
    + eapply Hnew; [left|by right|]. done.
    + by eapply Hold; [right|..].
  - intros a x b y Ha Hb. apply Hnew; by right.
  - exists m'. split_and!; [done|done| |].
    + intros a x [[= -> ->]|Ha]%elem_of_cons; [|by apply Hin].
      rewrite Hout by done. by rewrite lookup_insert_eq.
    + intros a [Hne Ha]%not_elem_of_cons. rewrite Hout by done. by rewrite lookup_insert_ne.
Qed.

(** *** Parked paths *)

Lemma app_sep_inj {A} (x : A) l1 l2 r1 r2 :
  x ∉ l1 → x ∉ l2 → l1 ++ x :: r1 = l2 ++ x :: r2 → l1 = l2.
Proof.
  revert l2. induction l1 as [|a l1 IH]; intros [|b l2] H1 H2; simpl; intros H; simplify_eq.
  - done.
  - destruct H2. left.
  - destruct H1. left.
  - f_equal. apply not_elem_of_cons in H1 as [_ H1], H2 as [_ H2]. by apply IH.
Qed.

Lemma decimal_no_slash s : str_forall is_decimal s = true → SLASH ∉ txt s.
Proof.
  induction s as [|c s IH]; simpl; [intros _ ?%not_elem_of_nil; done|].
  intros [Hc Hs]%andb_true_iff [He|Hin]%elem_of_cons; [|by apply IH].
  clear -Hc He. destruct c as [[] [] [] [] [] [] [] []]; try discriminate Hc; discriminate He.
Qed.

Lemma sentinel_inj tag i j a b : sentinel tag i a = sentinel tag j b → i = j.
Proof.
  unfold sentinel. intros [= H]. apply app_inv_head in H. change (txt "/" ++ ?x) with (SLASH :: x) in H.
  apply app_sep_inj in H; [|apply decimal_no_slash, dec_decimal..].
  apply txt_inj, dec_inj in H. lia.
Qed.

(** No row is parked (no scanned path starts with U+FFFF). *)
Definition no_parked (m : rows) : Prop :=
  ∀ i it, m !! i = Some it → head (i_rel_path it) ≠ Some 65535.

Lemma lookup_delete_all (ds : list Z) (m : rows) i :
  foldr delete m ds !! i = if bool_decide (i ∈ ds) then None else m !! i.
Proof.
  induction ds as [|d ds IH]; cbn [foldr]; [by case_bool_decide; [by destruct (not_elem_of_nil i)|]|].
  destruct (decide (i = d)) as [->|Hne].
  - rewrite lookup_delete_eq, bool_decide_eq_true_2; [done|left].
  - rewrite lookup_delete_ne, IH by done. do 2 case_bool_decide; set_solver.
Qed.

Section transfer.
Context (flush_order : list (Z * Item) → list (Z * Item)).
Context (Horder : ∀ us, flush_order us ≡ₚ us).
(** The library of the duplicates, the park marker, and the final row of a plan *)
Context (lib : Z) (tag : string) (final : MovePlan → Item).

Lemma flush_ok us m :
  NoDup (map fst us) → unique_paths m →
  (∀ i it j r, (i, it) ∈ us → m !! j = Some r → j ≠ i → rkey r ≠ rkey it) →
  (∀ i it j jt, (i, it) ∈ us → (j, jt) ∈ us → i ≠ j → rkey it ≠ rkey jt) →
  ∃ m', flush flush_order us m = Ok m' ∧ unique_paths m' ∧
    (∀ i it, (i, it) ∈ us → m' !! i = Some it) ∧
    (∀ i, i ∉ map fst us → m' !! i = m !! i).
Proof using Horder.
  intros Hnd Hu Hold Hnew. unfold flush. pose proof (Horder us) as Hp.
  assert (∀ x, x ∈ flush_order us ↔ x ∈ us) as Hin by (intros x; by rewrite Hp).
  destruct (run_updates_ok (flush_order us) m) as (m' & Hrun & Hu' & Hset & Hout).
  - by rewrite Hp.
  - done.
  - intros i it j r Hi. apply Hin in Hi. by eapply Hold.
  - intros i it j jt Hi Hj. apply Hin in Hi, Hj. by eapply Hnew.
  - exists m'. split_and!; [done|done| |].
    + intros i it Hi. by apply Hset, Hin.
    + intros i Hi. apply Hout. by rewrite Hp.
Qed.

(** What the planner hands over: distinct rows, present in the store, the
    duplicates in the library. *)
Definition plans_ok (m : rows) (plans : list MovePlan) : Prop :=
  NoDup (map (λ p, i_id (survivor p)) plans) ∧
  NoDup (map (λ p, i_id (duplicate p)) plans) ∧
  (∀ p, p ∈ plans →
    m !! i_id (survivor p) = Some (survivor p) ∧ m !! i_id (duplicate p) = Some (duplicate p) ∧
    i_library_id (duplicate p) = lib ∧ rkey (final p) = (lib, i_rel_path (duplicate p))) ∧
  (∀ p q, p ∈ plans → q ∈ plans → i_id (survivor p) ≠ i_id (duplicate q)).

(** The three phases on the store. *)
Definition park_updates (plans : list MovePlan) : list (Z * Item) :=
  imap (λ i p, (i_id (survivor p), set_rel_path (survivor p) (sentinel tag i (i_id (survivor p))))) plans.

Lemma elem_of_park plans i it :
  (i, it) ∈ park_updates plans ↔
  ∃ k p, plans !! k = Some p ∧ i = i_id (survivor p) ∧ it = set_rel_path (survivor p) (sentinel tag k i).
Proof.
  unfold park_updates. rewrite list_elem_of_lookup. setoid_rewrite list_lookup_imap.
  setoid_rewrite fmap_Some. split.
  - intros (k & p & Hp & [= -> ->]). eauto.
  - intros (k & p & Hp & -> & ->). eauto.
Qed.

Lemma map_fst_park plans : map fst (park_updates plans) = map (λ p, i_id (survivor p)) plans.
Proof.
  unfold park_updates. apply list_eq. intros k. change (map fst) with (fmap (M:=list) (@fst Z Item)).
  rewrite list_lookup_fmap, list_lookup_imap.
  change (map (λ p, i_id (survivor p)) plans) with ((λ p, i_id (survivor p)) <$> plans).
  rewrite list_lookup_fmap. by destruct (plans !! k).
Qed.

Lemma park_ok m plans :
  unique_paths m → no_parked m → plans_ok m plans →
  ∃ m', flush flush_order (park_updates plans)
      (foldr (λ p m, delete (i_id (duplicate p)) m) m plans) = Ok m' ∧ unique_paths m' ∧
    (∀ k p, plans !! k = Some p → m' !! i_id (survivor p) =
       Some (set_rel_path (survivor p) (sentinel tag k (i_id (survivor p))))) ∧
    (∀ i, i ∉ map (λ p, i_id (survivor p)) plans →
       m' !! i = if bool_decide (i ∈ map (λ p, i_id (duplicate p)) plans) then None else m !! i).
Proof using Horder.
  intros Hu Hnp (Hs & Hd & Hin & Hdisj).
  assert (foldr (λ p m, delete (i_id (duplicate p)) m) m plans =
    foldr delete m (map (λ p, i_id (duplicate p)) plans)) as ->.
  { clear. induction plans as [|p ps IH]; [done|]. cbn. by rewrite IH. }
  set (m2 := foldr delete m _).
  assert (∀ i r, m2 !! i = Some r → m !! i = Some r) as Hsub.
  { intros i r. unfold m2. rewrite lookup_delete_all. by case_bool_decide. }
  destruct (flush_ok (park_updates plans) m2) as (m' & Hf & Hu' & Hset & Hout).
  - by rewrite map_fst_park.
  - intros i j a b Ha Hb. by apply (Hu i j a b); apply Hsub.
  - intros i it j r (k & p & Hp & -> & ->)%elem_of_park Hr Hne [= Hl Hrel].
    apply Hsub in Hr. apply (Hnp j r Hr). by rewrite Hrel.
  - intros i it j jt (k & p & Hp & -> & ->)%elem_of_park (k' & q & Hq & -> & ->)%elem_of_park Hne Hk.
    apply pair_equal_spec in Hk as [_ Hrel]. cbn [i_rel_path set_rel_path] in Hrel.
    apply sentinel_inj in Hrel as ->. rewrite Hp in Hq. by injection Hq as ->.
  - rewrite map_fst_park in Hout. exists m'. split_and!; [done|done| |].
    + intros k p Hp. apply Hset, elem_of_park. by exists k, p.
    + intros i Hi. rewrite Hout by done. unfold m2. apply lookup_delete_all.
Qed.

Definition repoint_updates (plans : list MovePlan) : list (Z * Item) :=
  map (λ p, (i_id (survivor p), final p)) plans.

Lemma repoint_ok m m' plans :
  unique_paths m → no_parked m → plans_ok m plans → unique_paths m' →
  (∀ k p, plans !! k = Some p → m' !! i_id (survivor p) =
     Some (set_rel_path (survivor p) (sentinel tag k (i_id (survivor p))))) →
  (∀ i, i ∉ map (λ p, i_id (survivor p)) plans →
     m' !! i = if bool_decide (i ∈ map (λ p, i_id (duplicate p)) plans) then None else m !! i) →
  ∃ m'', flush flush_order (repoint_updates plans) m' = Ok m'' ∧ unique_paths m'' ∧
    (∀ p, p ∈ plans → m'' !! i_id (survivor p) = Some (final p)) ∧
    (∀ i, i ∉ map (λ p, i_id (survivor p)) plans → m'' !! i = m' !! i).
Proof using Horder.
  intros Hu Hnp (Hs & Hd & Hin & Hdisj) Hu' Hpark Hrest.
  assert (map fst (repoint_updates plans) = map (λ p, i_id (survivor p)) plans) as Hfst
    by (unfold repoint_updates; by rewrite map_map).
  destruct (flush_ok (repoint_updates plans) m') as (m'' & Hf & Hu'' & Hset & Hout).
  - by rewrite Hfst.
  - done.
  - intros i it j r (p & [= -> ->] & Hp)%list_elem_of_fmap Hr Hne Hk.
    destruct (Hin p Hp) as (_ & Hdup & Hld & Hfin). rewrite Hfin in Hk.
    destruct (decide (j ∈ map (λ p, i_id (survivor p)) plans)) as [Hj|Hj].
    + apply list_elem_of_fmap in Hj as (q & -> & Hq). apply list_elem_of_lookup in Hq as [k Hk'].
      rewrite (Hpark k q Hk') in Hr. injection Hr as <-. apply (Hnp _ _ Hdup).
      apply pair_equal_spec in Hk as [_ <-]. done.
    + rewrite Hrest in Hr by done. case_bool_decide as Hjd; [done|]. destruct Hjd.
      apply list_elem_of_fmap. exists p. split; [|done]. apply (Hu j _ r (duplicate p) Hr Hdup).
      rewrite Hk. unfold rkey. by rewrite Hld.
  - intros i it j jt (p & [= -> ->] & Hp)%list_elem_of_fmap (q & [= -> ->] & Hq)%list_elem_of_fmap Hne Hk.
    destruct (Hin p Hp) as (_ & Hdp & Hlp & Hfp), (Hin q Hq) as (_ & Hdq & Hlq & Hfq).
    rewrite Hfp, Hfq in Hk. apply pair_equal_spec in Hk as [_ Hrel].
    assert (i_id (duplicate p) = i_id (duplicate q)) as Heq.
    { apply (Hu _ _ _ _ Hdp Hdq). unfold rkey. by rewrite Hrel, Hlp, Hlq. }
    apply Hne. f_equal. f_equal. apply list_elem_of_lookup in Hp as [k Hk], Hq as [k' Hk'].
    assert (k = k') as <-.
    { eapply (NoDup_lookup _ k k' (i_id (duplicate p)) Hd);
        change (map ?f plans) with (f <$> plans); rewrite list_lookup_fmap.
      - by rewrite Hk.
      - by rewrite Hk', Heq. }
    rewrite Hk in Hk'. by injection Hk'.
  - rewrite Hfst in Hout. exists m''. split_and!; [done|done| |done].
    intros p Hp. apply Hset, list_elem_of_fmap. by exists p.
Qed.

(** Delete the duplicates, park the survivors, repoint them. *)
Lemma transfer_ok m plans :
  unique_paths m → no_parked m → plans_ok m plans →
  ∃ m1 m2,
    flush flush_order (park_updates plans) (foldr (λ p m, delete (i_id (duplicate p)) m) m plans) = Ok m1 ∧
    flush flush_order (repoint_updates plans) m1 = Ok m2 ∧ unique_paths m2 ∧
    (∀ p, p ∈ plans → m2 !! i_id (duplicate p) = None ∧ m2 !! i_id (survivor p) = Some (final p)) ∧
    (∀ i, i ∉ map (λ p, i_id (survivor p)) plans → i ∉ map (λ p, i_id (duplicate p)) plans →
      m2 !! i = m !! i).
Proof using Horder.
  intros Hu Hp Hok. destruct (park_ok m plans Hu Hp Hok) as (m1 & Hf1 & Hu1 & Hpark & Hrest).
  destruct (repoint_ok m m1 plans Hu Hp Hok Hu1 Hpark Hrest) as (m2 & Hf2 & Hu2 & Hset & Hout).
  destruct Hok as (_ & _ & _ & Hdisj).
  exists m1, m2. split_and!; [done|done|done| |].
  - intros p Hpp. split; [|by apply Hset].
    assert (i_id (duplicate p) ∉ map (λ p, i_id (survivor p)) plans) as Hno
      by (intros (q & Heq & Hq)%list_elem_of_fmap; by destruct (Hdisj q p)).
    rewrite Hout, Hrest by done. rewrite bool_decide_eq_true_2; [done|].
    apply list_elem_of_fmap. by exists p.
  - intros i Hs Hd. rewrite Hout, Hrest by done. by rewrite bool_decide_eq_false_2.
Qed.
End transfer.

(** ** The intra-library pass *)

Section detect.
Context (xxh3_64 xxh3_128 blake2b64 : list Z → string) (fs : text → option (list Z)).
Context (m : rows) (candidates new_items : list Z) (lib fm now : Z) (cc : bool).

(** What a scan hands over: two disjoint lists of existing rows of the library, keyed
    by their ids, the store respecting the unique index, no parked path, and a label
    path for every new row (the walk stamped one when it created the row). *)
Record scan_input : Prop := {
  si_unique : unique_paths m;
  si_parked : no_parked m;
  si_cand : NoDup candidates;
  si_new : NoDup new_items;
  si_disjoint : ∀ i, i ∈ candidates → i ∉ new_items;
  si_rows : ∀ i, i ∈ candidates ∨ i ∈ new_items →
    ∃ it, m !! i = Some it ∧ i_id it = i ∧ i_library_id it = lib;
  si_label : ∀ i it, i ∈ new_items → m !! i = Some it →
    is_Some (match row_label blake2b64 it lib with Ok l => Some l | Err _ => None end);
}.

Context (Hin : scan_input).

Local Abbreviation hashed := (hash_rows xxh3_64 xxh3_128 fs new_items fm cc m).
Local Abbreviation ensure := (λ it, _ensure_hashes xxh3_64 xxh3_128 fs it fm cc).

Lemma hash_rows_lookup i :
  hashed !! i = if bool_decide (i ∈ new_items) then ensure <$> m !! i else m !! i.
Proof using Hin.
  pose proof (si_new Hin) as Hnd. clear Hin. induction Hnd as [|j l Hj Hnd IH]; [done|].
  unfold hash_rows in *. cbn [foldr]. destruct (decide (i = j)) as [->|Hne].
  - rewrite lookup_alter_eq, IH, bool_decide_eq_false_2 by done.
    by rewrite bool_decide_eq_true_2 by left.
  - rewrite lookup_alter_ne, IH by done. do 2 case_bool_decide; set_solver.
Qed.

Lemma ensure_columns it :
  i_id (ensure it) = i_id it ∧ i_library_id (ensure it) = i_library_id it ∧
  i_rel_path (ensure it) = i_rel_path it.
Proof. cbv beta. destruct (ensure_hashes_columns xxh3_64 xxh3_128 fs it fm cc) as (q & c & h & ->). done. Qed.

Lemma hash_rows_some i it :
  hashed !! i = Some it → ∃ it0, m !! i = Some it0 ∧ i_id it = i_id it0 ∧ rkey it = rkey it0.
Proof using Hin.
  rewrite hash_rows_lookup. case_bool_decide; [|by exists it].
  rewrite fmap_Some. intros (it0 & Hm & ->). exists it0. unfold rkey.
  destruct (ensure_columns it0) as (-> & -> & ->). done.
Qed.

Lemma hashed_row i :
  i ∈ candidates ∨ i ∈ new_items → ∃ it, hashed !! i = Some it ∧ i_id it = i ∧ i_library_id it = lib.
Proof using Hin.
  intros Hi. destruct (si_rows Hin i Hi) as (it & Hm & Hid & Hl). rewrite hash_rows_lookup, Hm.
  case_bool_decide; simpl; [|by exists it]. eexists. split; [done|].
  destruct (ensure_columns it) as (-> & -> & _). done.
Qed.

Lemma hashed_unique : unique_paths hashed.
Proof using Hin.
  intros i j a b (a0 & Ha & _ & ->)%hash_rows_some (b0 & Hb & _ & ->)%hash_rows_some.
  by apply (si_unique Hin).
Qed.

Lemma hashed_parked : no_parked hashed.
Proof using Hin.
  intros i it (it0 & Hm & _ & Hk)%hash_rows_some. injection Hk as _ Hr. rewrite Hr.
  by apply (si_parked Hin i).
Qed.

Lemma picked_rows (l : list Z) :
  (∀ i, i ∈ l → i ∈ candidates ∨ i ∈ new_items) →
  map i_id (omap (λ i, hashed !! i) l) = l ∧
  ∀ it, it ∈ omap (λ i, hashed !! i) l → i_id it ∈ l ∧ hashed !! i_id it = Some it ∧ i_library_id it = lib.
Proof using Hin.
  induction l as [|i l IH]; intros Hl; [by split; [|intros ? ?%not_elem_of_nil]|].
  destruct (hashed_row i) as (it & Hm & Hid & Hlib); [apply Hl; left|].
  destruct IH as [IH1 IH2]; [intros j Hj; apply Hl; by right|].
  cbn [omap list_omap]. rewrite Hm. cbn [map]. rewrite IH1, Hid. split; [done|].
  intros x [->|Hx]%elem_of_cons; [rewrite Hid; split_and!; [left|done|done]|].
  destruct (IH2 x Hx) as (? & ? & ?). split_and!; [by right|done|done].
Qed.

Local Abbreviation cands := (omap (λ i, hashed !! i) candidates).
Local Abbreviation news := (omap (λ i, hashed !! i) new_items).

Lemma picked_distinct : distinct cands ∧ distinct news.
Proof using Hin.
  unfold distinct. destruct (picked_rows candidates) as [-> _]; [auto|].
  destruct (picked_rows new_items) as [-> _]; [auto|].
  split; [apply (si_cand Hin)|apply (si_new Hin)].
Qed.

Lemma plan_elem p :
  p ∈ (plan_moves cands news).1 → survivor p ∈ cands ∧ duplicate p ∈ news.
Proof using Hin.
  destruct picked_distinct as [Hc Hn]. destruct p as [c n].
  intros (k & _ & _ & ? & ? & _)%(plan_moves_planned _ _ Hc Hn). done.
Qed.

Lemma plan_plans_ok scopes :
  plans_ok lib (λ p, relocate (survivor p) (duplicate p) (scopes (i_id (duplicate p))) now) hashed
    (plan_moves cands news).1.
Proof using Hin.
  destruct picked_distinct as [Hc Hn].
  destruct (picked_rows candidates) as [_ HC]; [auto|].
  destruct (picked_rows new_items) as [_ HN]; [auto|]. split_and!.
  - apply (NoDup_map_factor _ survivor); [by apply plan_survivors_nodup|].
    intros p q [Hp _]%plan_elem [Hq _]%plan_elem. by apply distinct_inj with cands.
  - apply (NoDup_map_factor _ duplicate); [by apply plan_duplicates_nodup|].
    intros p q [_ Hp]%plan_elem [_ Hq]%plan_elem. by apply distinct_inj with news.
  - intros p [Hs Hd]%plan_elem. destruct (HC _ Hs) as (_ & ? & ?), (HN _ Hd) as (_ & ? & ?).
    split_and!; [done|done|done|]. unfold rkey. cbn. by f_equal.
  - intros p q [Hs _]%plan_elem [_ Hd]%plan_elem Heq.
    destruct (HC _ Hs) as (H1 & _), (HN _ Hd) as (H2 & _). rewrite Heq in H1.
    by apply (si_disjoint Hin _ H1).
Qed.

(** The label of a row, once the code computed it *)
Definition label_of (i : Z) : string :=
  match hashed !! i with
  | Some it => match row_label blake2b64 it lib with Ok l => l | Err _ => "" end
  | None => ""
  end.

Lemma label_ok i it : i ∈ new_items → hashed !! i = Some it → row_label blake2b64 it lib = Ok (label_of i).
Proof using Hin.
  intros Hi Hm. unfold label_of. rewrite Hm.
  destruct (hash_rows_some i it Hm) as (it0 & Hm0 & _ & Hk). injection Hk as _ Hr.
  assert (row_label blake2b64 it lib = row_label blake2b64 it0 lib) as -> by (unfold row_label; by rewrite Hr).
  pose proof (si_label Hin i it0 Hi Hm0) as [l Hl]. by destruct (row_label blake2b64 it0 lib).
Qed.

Lemma scopes_ok :
  result_mapM (λ p, scope <-! row_label blake2b64 (duplicate p) (i_library_id (survivor p));
    Ok (i_id (survivor p), relocate (survivor p) (duplicate p) scope now)) (plan_moves cands news).1 =
  Ok (repoint_updates (λ p, relocate (survivor p) (duplicate p) (label_of (i_id (duplicate p))) now)
    (plan_moves cands news).1).
Proof using Hin.
  destruct (picked_rows candidates) as [_ HC]; [auto|]. destruct (picked_rows new_items) as [_ HN]; [auto|].
  assert (∀ p, p ∈ (plan_moves cands news).1 →
    row_label blake2b64 (duplicate p) (i_library_id (survivor p)) = Ok (label_of (i_id (duplicate p)))) as Hl.
  { intros p [Hs Hd]%plan_elem. destruct (HC _ Hs) as (_ & _ & ->), (HN _ Hd) as (? & ? & _).
    by apply label_ok. }
  revert Hl. generalize (plan_moves cands news).1 as ps. intros ps Hl.
  apply result_mapM_ok. unfold repoint_updates. induction ps as [|p ps IH]; [constructor|].
  cbn [map]. constructor.
  - rewrite Hl; [done|left].
  - apply IH; intros q Hq; apply Hl; by right.
Qed.
End detect.

(** ** The cross-library pass *)

Section cross_plan.
Context (hashed tombs : list Item) (Hhd : distinct hashed) (Htd : distinct tombs).

(** A new row and the one tombstone its bytes confirm *)
Definition cross_planned (c n : Item) : Prop :=
  ∃ k, _key n = Some k ∧ mutual (with_key k tombs) hashed c n.

Lemma cross_planned_key c n : cross_planned c n → _key c = _key n ∧ c ∈ tombs ∧ n ∈ hashed.
Proof. intros (k & Hk & ([? ?]%elem_of_with_key & ? & _)). by rewrite Hk. Qed.

Lemma cross_planned_functional c n n' : cross_planned c n → cross_planned c n' → n' = n.
Proof. intros (k & _ & (_ & _ & _ & _ & Hu)) (k' & _ & (_ & ? & ? & _ & _)). by apply Hu. Qed.

(** The tombstones an earlier new row took *)
Definition claimed_ok (done_ : list Item) (claimed : list Z) : Prop :=
  ∀ c, c ∈ tombs → i_id c ∈ claimed → ∃ n, n ∈ done_ ∧ cross_planned c n.

Definition cross_cands (claimed : list Z) (n : Item) : list Item :=
  filterb (λ c, negb (bool_decide (i_id c ∈ claimed)))
    (match _key n with Some k => default [] (bucket_get k (buckets tombs)) | None => [] end).

Lemma cross_cands_key claimed n k :
  _key n = Some k →
  cross_cands claimed n = filterb (λ c, negb (bool_decide (i_id c ∈ claimed))) (with_key k tombs).
Proof. intros Hk. unfold cross_cands. rewrite Hk, bucket_get_buckets. by destruct (with_key k tombs). Qed.

Lemma cross_confirmed done_ claimed n c :
  n ∈ hashed → n ∉ done_ → claimed_ok done_ claimed →
  (filterb (λ c, is_true (_match c n)) (cross_cands claimed n) = [c] ∧
   filterb (λ m, negb (same_row m n) && is_true (_match c m)) hashed = []) ↔ cross_planned c n.
Proof using Hhd Htd.
  intros Hn Hfresh Hcl. unfold cross_planned. destruct (_key n) as [k|] eqn:Hk.
  - rewrite (cross_cands_key _ _ k Hk).
    rewrite (confirmed_mutual (with_key k tombs) hashed Hhd done_ _ n c Hn Hfresh).
    + split; [eauto|]. by intros (k' & [= <-] & ?).
    + split_and!; [by apply distinct_filter, with_key_distinct|by intros ? [? _]%elem_of_filterb|].
      intros c' Hc' Hout. destruct (Hcl c') as (n0 & Hn0 & (k' & Hk' & Hm)).
      * by apply elem_of_with_key in Hc' as [? _].
      * rewrite elem_of_filterb in Hout. destruct (decide (i_id c' ∈ claimed)) as [|Hno]; [done|].
        destruct Hout. by rewrite bool_decide_eq_false_2.
      * exists n0. split; [done|].
        apply elem_of_with_key in Hc' as [_ Hkc]. pose proof Hm as [[_ Hkc']%elem_of_with_key _].
        rewrite Hkc in Hkc'. by injection Hkc' as ->.
  - unfold cross_cands. rewrite Hk. cbn. split; [by intros [? _]|by intros (? & ? & _)].
Qed.

Lemma cross_loop_spec todo done_ claimed :
  hashed = done_ ++ todo → claimed_ok done_ claimed →
  let '(plans, _) := cross_loop hashed todo (buckets tombs) claimed in
  (∀ c n, mkPlan c n ∈ plans ↔ n ∈ todo ∧ cross_planned c n) ∧ NoDup (map duplicate plans).
Proof using Hhd Htd.
  revert done_ claimed. induction todo as [|n todo IH]; intros done_ claimed Hh Hcl.
  { cbn. split; [|constructor]. intros c n. split; [by intros ?%not_elem_of_nil|].
    by intros [?%not_elem_of_nil _]. }
  assert (n ∈ hashed) as Hn by (rewrite Hh; set_solver).
  pose proof (distinct_nodup _ Hhd) as Hnodup. rewrite Hh in Hnodup.
  apply NoDup_app in Hnodup as (_ & Hdisj & Hnodup). apply NoDup_cons in Hnodup as [Hntodo _].
  assert (n ∉ done_) as Hfresh by (intros Hin; apply (Hdisj n Hin); left).
  pose proof (λ c, cross_confirmed done_ claimed n c Hn Hfresh Hcl) as Hconf.
  assert (∀ claimed', claimed_ok (done_ ++ [n]) claimed' →
    let '(plans, _) := cross_loop hashed todo (buckets tombs) claimed' in
    (∀ c m, mkPlan c m ∈ plans ↔ m ∈ todo ∧ cross_planned c m) ∧ NoDup (map duplicate plans)) as IH'.
  { intros claimed' Hc'. apply (IH (done_ ++ [n])); [by rewrite <- app_assoc|done]. }
  clear IH.
  assert (∀ d, (∀ c, ¬ cross_planned c n) →
    let '(plans, _) := let '(p, a) := cross_loop hashed todo (buckets tombs) claimed in (p, a + d) in
    (∀ c m, mkPlan c m ∈ plans ↔ m ∈ n :: todo ∧ cross_planned c m) ∧ NoDup (map duplicate plans)) as Hskip.
  { intros d Hno. specialize (IH' claimed). destruct (cross_loop hashed todo (buckets tombs) claimed) as [plans a].
    destruct IH' as [H1 H2]; [intros c Hc Hin; destruct (Hcl c Hc Hin) as (n0 & ? & ?); exists n0; set_solver|].
    split; [|done]. intros c m. rewrite H1, elem_of_cons. naive_solver. }
  cbn [cross_loop]. fold (cross_cands claimed n).
  destruct (cross_cands claimed n) as [|c0 cs] eqn:Hcands.
  { specialize (Hskip 0). destruct (cross_loop hashed todo (buckets tombs) claimed). apply Hskip.
    intros c Hc. by apply Hconf in Hc as [? _]. }
  rewrite <- Hcands in *. clear c0 cs Hcands.
  destruct (filterb (λ c, is_true (_match c n)) (cross_cands claimed n)) as [|c [|c2 rest]] eqn:Hf.
  - apply Hskip. intros c Hc. by apply Hconf in Hc as [? _].
  - destruct (filterb (λ m, negb (same_row m n) && is_true (_match c m)) hashed) eqn:Hriv.
    + assert (cross_planned c n) as Hp by (by apply Hconf).
      specialize (IH' (i_id c :: claimed)).
      destruct (cross_loop hashed todo (buckets tombs) (i_id c :: claimed)) as [plans a].
      destruct IH' as [H1 H2].
      { intros x Hx [Heq|Hin]%elem_of_cons.
        - exists n. split; [set_solver|]. replace x with c; [done|].
          apply (distinct_inj tombs); [done|by apply cross_planned_key in Hp as (_ & ? & _)|done|done].
        - destruct (Hcl x Hx Hin) as (n0 & ? & ?). exists n0. set_solver. }
      split.
      * intros c' m. rewrite !elem_of_cons, H1. split; [naive_solver|].
        intros [[->|Hm] Hp']; [left|right; done]. f_equal.
        apply Hconf in Hp' as [Heq _]. by injection Heq.
      * cbn [map duplicate]. constructor; [|done]. intros Hin.
        apply list_elem_of_fmap in Hin as ([c' m] & Hm & Hin). simpl in Hm. subst m.
        apply H1 in Hin as [Hin _]. done.
    + apply Hskip. intros c' Hc'. pose proof Hc' as [Heq Hriv']%Hconf. simplify_eq. by rewrite Hriv in Hriv'.
  - apply Hskip. intros c' Hc'. by apply Hconf in Hc' as [? _].
Qed.

Lemma cross_plans_spec :
  let '(plans, _) := cross_loop hashed hashed (buckets tombs) [] in
  (∀ c n, mkPlan c n ∈ plans ↔ cross_planned c n) ∧
  NoDup (map duplicate plans) ∧ NoDup (map survivor plans).
Proof using Hhd Htd.
  pose proof (cross_loop_spec hashed [] [] eq_refl) as H.
  destruct (cross_loop hashed hashed (buckets tombs) []) as [plans a].
  destruct H as [H1 H2]; [by intros c _ ?%not_elem_of_nil|].
  assert (∀ c n, mkPlan c n ∈ plans ↔ cross_planned c n) as Hp.
  { intros c n. rewrite H1. split; [by intros [_ ?]|]. intros Hp. split; [|done].
    by apply cross_planned_key in Hp as (_ & _ & ?). }
  split_and!; [done|done|]. eapply NoDup_map_factor; [exact H2|].
  intros [c1 n1] [c2 n2] Hc1%Hp Hc2%Hp. cbn. intros <-. symmetry. by eapply cross_planned_functional.
Qed.
End cross_plan.

Section cross.
Context (xxh3_64 xxh3_128 blake2b64 : list Z → string) (fs : text → option (list Z)).
Context (agent_library : Z → bool) (query_order : list Item → list Item).
Context (Hquery : ∀ l, query_order l ≡ₚ l).
Context (m : rows) (new_items : list Z) (lib fm now : Z) (cc : bool).
Context (Hin : scan_input blake2b64 m [] new_items lib).
Context (Hids : ∀ i it, m !! i = Some it → i_id it = i).

Local Abbreviation sized := (sized_items agent_library m new_items lib).
Local Abbreviation hashed_store := (hash_rows xxh3_64 xxh3_128 fs sized fm cc m).
Local Abbreviation hashed := (hashed_items hashed_store sized).
Local Abbreviation found := (tombs agent_library query_order hashed_store lib hashed).

Lemma elem_of_sized i : i ∈ sized → i ∈ new_items.
Proof. unfold sized_items. by intros [? _]%elem_of_filterb. Qed.

Lemma sized_input : scan_input blake2b64 m [] sized lib.
Proof using Hin.
  destruct Hin as [Hu Hp Hc Hn Hd Hr Hl]. split; try done.
  - unfold sized_items. clear -Hn. induction Hn as [|i l Hi Hn IH]; [constructor|]. cbn.
    case_match; [|done]. constructor; [|done]. by intros [? _]%elem_of_filterb.
  - intros i ?%not_elem_of_nil. done.
  - intros i [?%not_elem_of_nil|Hi]; [done|]. apply Hr. right. by apply elem_of_sized.
  - intros i it Hi. by apply Hl, elem_of_sized.
Qed.

Lemma hashed_store_id i it : hashed_store !! i = Some it → i_id it = i.
Proof using Hin Hids.
  intros (it0 & Hm & -> & _)%(hash_rows_some _ _ blake2b64 fs m [] sized lib fm cc sized_input). by apply Hids.
Qed.

Lemma elem_of_hashed n :
  n ∈ hashed → i_id n ∈ sized ∧ hashed_store !! i_id n = Some n ∧ i_library_id n = lib.
Proof using Hin.
  intros [Hn _]%elem_of_filterb.
  destruct (picked_rows xxh3_64 xxh3_128 blake2b64 fs m [] sized lib fm cc sized_input sized) as [_ H]; [auto|].
  by apply H.
Qed.

Lemma hashed_distinct : distinct hashed.
Proof using Hin.
  apply distinct_filter. unfold distinct.
  destruct (picked_rows xxh3_64 xxh3_128 blake2b64 fs m [] sized lib fm cc sized_input sized) as [-> _]; [auto|].
  apply (si_new _ _ _ _ _ sized_input).
Qed.

Lemma elem_of_found c :
  c ∈ found ↔ is_tombstone agent_library lib c = true ∧ hashed_store !! i_id c = Some c ∧
    ∃ n, n ∈ hashed ∧ is_Some (i_quick_hash c) ∧ i_quick_hash c = i_quick_hash n.
Proof using Hin Hids Hquery.
  unfold tombs. rewrite Hquery, list_elem_of_fmap. split.
  - intros ([i it] & -> & [Hi [Ht Hq]%andb_true_iff]%elem_of_filterb). apply elem_of_map_to_list in Hi.
    rewrite existsb_elem in Hq. destruct Hq as (n & Hn & Hq%bool_decide_eq_true). cbn [snd].
    rewrite (hashed_store_id i it Hi). split_and!; [done|done|]. by exists n.
  - intros (Ht & Hm & n & Hn & Hs & Hq). exists (i_id c, c). split; [done|].
    rewrite elem_of_filterb, elem_of_map_to_list. split; [done|]. rewrite Ht. cbn [andb].
    rewrite existsb_elem. exists n. split; [done|]. by apply bool_decide_eq_true.
Qed.

Lemma found_distinct : distinct found.
Proof using Hin Hids Hquery.
  unfold distinct, tombs. rewrite Hquery, map_map.
  apply (NoDup_map_factor _ fst).
  - assert (∀ P (l : list (Z * Item)), NoDup (map fst l) → NoDup (map fst (filterb P l))) as Hf.
    { intros P l. induction l as [|x l IH]; [done|]. cbn. intros [Hx Hl]%NoDup_cons.
      destruct (P x); [|by apply IH]. cbn. constructor; [|by apply IH].
      intros (y & He & [Hy _]%elem_of_filterb)%list_elem_of_fmap. destruct Hx. rewrite He.
      by apply list_elem_of_fmap_2. }
    apply Hf, NoDup_fst_map_to_list.
  - intros [i a] [j b] [Hi%elem_of_map_to_list _]%elem_of_filterb [Hj%elem_of_map_to_list _]%elem_of_filterb.
    cbn. by rewrite (hashed_store_id i a Hi), (hashed_store_id j b Hj).
Qed.

(** The tombstone [c] of another library is the one origin of the new row [n]. *)
Definition proven_move (c n : Item) : Prop :=
  n ∈ hashed ∧ hashed_store !! i_id c = Some c ∧ is_tombstone agent_library lib c = true ∧
  is_Some (_key n) ∧ _key c = _key n ∧ _match c n = Some true ∧
  (∀ c', hashed_store !! i_id c' = Some c' → is_tombstone agent_library lib c' = true →
    _key c' = _key n → _match c' n = Some true → c' = c) ∧
  (∀ n', n' ∈ hashed → _match c n' = Some true → n' = n).

Lemma key_quick c n : is_Some (_key n) → _key c = _key n → is_Some (i_quick_hash c) ∧ i_quick_hash c = i_quick_hash n.
Proof. unfold _key. intros [k Hk]. destruct (i_quick_hash c), (i_quick_hash n); try done. intros [= -> _]. eauto. Qed.

Lemma cross_planned_proven c n : cross_planned hashed found c n ↔ proven_move c n.
Proof using Hin Hids Hquery.
  unfold cross_planned, proven_move, mutual. split.
  - intros (k & Hk & ([(Ht & Hm & _)%elem_of_found Hkc]%elem_of_with_key & Hn & Hmt & Hu & Hv)).
    rewrite Hk. split_and!; try done. intros c' Hm' Ht' Hk' Hmt'. apply Hu; [|done].
    apply elem_of_with_key. split; [|done]. apply elem_of_found. split_and!; [done|done|].
    exists n. split; [done|]. apply key_quick; by rewrite Hk.
  - intros (Hn & Hm & Ht & [k Hk] & Hkc & Hmt & Hu & Hv). exists k. split_and!; try done.
    + apply elem_of_with_key. split; [|by rewrite Hkc]. apply elem_of_found. split_and!; [done|done|].
      exists n. split; [done|]. apply key_quick; [by rewrite Hk|done].
    + intros c' [(Ht' & Hm' & _)%elem_of_found Hk']%elem_of_with_key. apply Hu; [done|done|]. by rewrite Hk, Hk'.
Qed.

Local Abbreviation lbl := (label_of xxh3_64 xxh3_128 blake2b64 fs m sized lib fm cc).
Local Abbreviation plans := (cross_loop hashed hashed (buckets found) []).1.

Lemma cross_plan_elem p :
  p ∈ plans ↔ proven_move (survivor p) (duplicate p).
Proof using Hin Hids Hquery.
  pose proof (cross_plans_spec hashed found hashed_distinct found_distinct) as H.
  destruct (cross_loop hashed hashed (buckets found) []) as [ps a]. destruct H as (H & _).
  destruct p as [c n]. cbn. by rewrite H, cross_planned_proven.
Qed.

Lemma cross_plans_ok :
  plans_ok lib (λ p, revive lib (survivor p) (duplicate p) (lbl (i_id (duplicate p))) now) hashed_store plans.
Proof using Hin Hids Hquery.
  pose proof (cross_plans_spec hashed found hashed_distinct found_distinct) as H.
  pose proof cross_plan_elem as He.
  destruct (cross_loop hashed hashed (buckets found) []) as [ps a]. destruct H as (_ & Hd & Hs).
  cbn [fst] in *. split_and!.
  - apply (NoDup_map_factor _ survivor); [done|]. intros p q Hp%He Hq%He Heq.
    destruct Hp as (_ & Hp & _), Hq as (_ & Hq & _). rewrite Heq, Hq in Hp. by injection Hp.
  - apply (NoDup_map_factor _ duplicate); [done|].
    intros p q (Hp%elem_of_hashed & _)%He (Hq%elem_of_hashed & _)%He Heq.
    destruct Hp as (_ & Hp & _), Hq as (_ & Hq & _). rewrite Heq, Hq in Hp. by injection Hp.
  - intros p (Hn%elem_of_hashed & Hm & _)%He. by destruct Hn as (_ & ? & ?).
  - intros p q (_ & Hp & Ht & _)%He (Hq%elem_of_hashed & _)%He Heq.
    destruct Hq as (_ & Hq & Hl). rewrite Heq, Hq in Hp. injection Hp as Hp. rewrite <- Hp in Ht.
    unfold is_tombstone in Ht. by rewrite Hl, Z.eqb_refl in Ht.
Qed.

Lemma cross_label p :
  p ∈ plans → row_label blake2b64 (duplicate p) lib = Ok (lbl (i_id (duplicate p))).
Proof using Hin Hids Hquery.
  intros (Hn%elem_of_hashed & _)%cross_plan_elem. destruct Hn as (Hs & Hm & _).
  by apply (label_ok xxh3_64 xxh3_128 blake2b64 fs m [] sized lib fm cc sized_input).
Qed.

Lemma cross_scopes_ok :
  result_mapM (λ p, scope <-! row_label blake2b64 (duplicate p) lib;
    Ok (i_id (survivor p), revive lib (survivor p) (duplicate p) scope now)) plans =
  Ok (repoint_updates (λ p, revive lib (survivor p) (duplicate p) (lbl (i_id (duplicate p))) now) plans).
Proof using Hin Hids Hquery.
  pose proof cross_label as Hl. revert Hl. generalize plans as ps. intros ps Hl.
  apply result_mapM_ok. unfold repoint_updates. induction ps as [|p ps IH]; [constructor|].
  cbn [map]. constructor.
  - rewrite Hl; [done|left].
  - apply IH; intros q Hq; apply Hl; by right.
Qed.
End cross.

(** ** Both passes succeed *)

Lemma detect_moves_ok xxh3_64 xxh3_128 blake2b64 fs flush_order m candidates new_items lib
    fm now cc :
  (∀ us, flush_order us ≡ₚ us) →
  scan_input blake2b64 m candidates new_items lib →
  candidates ≠ [] → new_items ≠ [] →
  let m1 := hash_rows xxh3_64 xxh3_128 fs new_items fm cc m in
  let '(plans, ambiguous) :=
    plan_moves (omap (λ i, m1 !! i) candidates) (omap (λ i, m1 !! i) new_items) in
  ∃ m' out,
    detect_moves xxh3_64 xxh3_128 blake2b64 fs flush_order m candidates new_items fm cc now =
      Ok (m', mkStats (Z.of_nat (length plans)) ambiguous, out) ∧
    unique_paths m' ∧
    (∀ p, p ∈ plans → m' !! i_id (duplicate p) = None ∧
      ∃ scope, row_label blake2b64 (duplicate p) lib = Ok scope ∧
        m' !! i_id (survivor p) = Some (relocate (survivor p) (duplicate p) scope now)) ∧
    (∀ i, i ∉ map (λ p, i_id (survivor p)) plans → i ∉ map (λ p, i_id (duplicate p)) plans →
      m' !! i = m1 !! i) ∧
    map survivor_id out = map (λ p, i_id (survivor p)) plans ∧
    map duplicate_id out = map (λ p, i_id (duplicate p)) plans ∧
    (∀ p, p ∈ plans → i_id (survivor p) ∈ candidates ∧ i_id (duplicate p) ∈ new_items ∧
      m1 !! i_id (survivor p) = Some (survivor p) ∧ m1 !! i_id (duplicate p) = Some (duplicate p)) ∧
    map survivor_rel_path out = map (λ p, i_rel_path (duplicate p)) plans.
Proof.
  intros Horder Hin Hc Hn m1.
  set (lbl := label_of xxh3_64 xxh3_128 blake2b64 fs m new_items lib fm cc).
  pose proof (plan_plans_ok xxh3_64 xxh3_128 blake2b64 fs m candidates new_items lib fm now cc Hin lbl) as Hok.
  pose proof (scopes_ok xxh3_64 xxh3_128 blake2b64 fs m candidates new_items lib fm now cc Hin) as Hsc.
  pose proof (hashed_unique xxh3_64 xxh3_128 blake2b64 fs m candidates new_items lib fm cc Hin) as Hu.
  pose proof (hashed_parked xxh3_64 xxh3_128 blake2b64 fs m candidates new_items lib fm cc Hin) as Hp.
  unfold detect_moves. rewrite !bool_decide_eq_false_2 by done. cbn [orb]. fold m1. fold m1 in Hok, Hsc, Hu, Hp.
  fold lbl in Hsc.
  assert (∀ p, p ∈ (plan_moves (omap (λ i, m1 !! i) candidates) (omap (λ i, m1 !! i) new_items)).1 →
    row_label blake2b64 (duplicate p) lib = Ok (lbl (i_id (duplicate p)))) as Hlbl.
  { intros p Hp'. pose proof Hp' as [_ Hd]%(plan_elem xxh3_64 xxh3_128 blake2b64 fs _ _ _ lib _ _ Hin).
    apply (label_ok xxh3_64 xxh3_128 blake2b64 fs m candidates new_items lib fm cc Hin).
    - by apply (picked_rows xxh3_64 xxh3_128 blake2b64 fs m candidates new_items lib fm cc Hin new_items);
        [auto|].
    - by apply Hok. }
  assert (∀ p, p ∈ (plan_moves (omap (λ i, m1 !! i) candidates) (omap (λ i, m1 !! i) new_items)).1 →
    i_id (survivor p) ∈ candidates ∧ i_id (duplicate p) ∈ new_items ∧
    m1 !! i_id (survivor p) = Some (survivor p) ∧ m1 !! i_id (duplicate p) = Some (duplicate p)) as Hfrom.
  { intros p [Hs Hd]%(plan_elem xxh3_64 xxh3_128 blake2b64 fs _ _ _ lib _ _ Hin).
    pose proof (picked_rows xxh3_64 xxh3_128 blake2b64 fs m candidates new_items lib fm cc Hin candidates) as [_ HC];
      [auto|].
    pose proof (picked_rows xxh3_64 xxh3_128 blake2b64 fs m candidates new_items lib fm cc Hin new_items) as [_ HN];
      [auto|].
    destruct (HC _ Hs) as (? & ? & _), (HN _ Hd) as (? & ? & _). done. }
  destruct (plan_moves _ _) as [plans a]. cbn [fst] in *.
  destruct (transfer_ok flush_order Horder lib MOVE_PENDING _ m1 plans Hu Hp Hok)
    as (m3 & m4 & Hf3 & Hf4 & Hu4 & Hset & Hout).
  unfold park_updates in Hf3. rewrite Hf3. cbn [result_bind]. rewrite Hsc. cbn [result_bind].
  rewrite Hf4. cbn [result_bind]. eexists m4, _. split; [reflexivity|].
  rewrite !map_map. split_and!; [done| |done|done|done|done|done].
  intros p Hpp. destruct (Hset p Hpp) as [Hgone Hnew]. split; [done|].
  exists (lbl (i_id (duplicate p))). split; [by apply Hlbl|done].
Qed.

Lemma cross_moves_ok xxh3_64 xxh3_128 blake2b64 fs flush_order agent_library query_order m
    new_items lib fm now cc :
  (∀ us, flush_order us ≡ₚ us) → (∀ l, query_order l ≡ₚ l) →
  scan_input blake2b64 m [] new_items lib →
  (∀ i it, m !! i = Some it → i_id it = i) →
  let '(m1, (plans, ambiguous)) :=
    plan_cross xxh3_64 xxh3_128 fs agent_library query_order m new_items lib fm cc in
  ∃ m',
    detect_cross_library_moves xxh3_64 xxh3_128 blake2b64 fs flush_order agent_library query_order m
      new_items lib fm cc now =
      Ok (m', mkStats (Z.of_nat (length plans)) ambiguous, map (λ p, i_id (survivor p)) plans) ∧
    unique_paths m' ∧
    (∀ c n, mkPlan c n ∈ plans ↔
      proven_move xxh3_64 xxh3_128 fs agent_library m new_items lib fm cc c n) ∧
    (∀ p, p ∈ plans → m' !! i_id (duplicate p) = None ∧
      ∃ scope, row_label blake2b64 (duplicate p) lib = Ok scope ∧
        m' !! i_id (survivor p) = Some (revive lib (survivor p) (duplicate p) scope now)) ∧
    (∀ i, i ∉ map (λ p, i_id (survivor p)) plans → i ∉ map (λ p, i_id (duplicate p)) plans →
      m' !! i = m1 !! i).
Proof.
  intros Horder Hquery Hin Hids.
  pose proof (cross_plan_elem xxh3_64 xxh3_128 blake2b64 fs agent_library query_order Hquery m new_items
    lib fm cc Hin Hids) as He.
  pose proof (cross_plans_ok xxh3_64 xxh3_128 blake2b64 fs agent_library query_order Hquery m new_items
    lib fm now cc Hin Hids) as Hok.
  pose proof (cross_label xxh3_64 xxh3_128 blake2b64 fs agent_library query_order Hquery m new_items
    lib fm cc Hin Hids) as Hl.
  pose proof (cross_scopes_ok xxh3_64 xxh3_128 blake2b64 fs agent_library query_order Hquery m new_items
    lib fm now cc Hin Hids) as Hsc.
  pose proof (sized_input blake2b64 agent_library m new_items lib Hin) as Hs.
  pose proof (hashed_unique xxh3_64 xxh3_128 blake2b64 fs m [] _ lib fm cc Hs) as Hu.
  pose proof (hashed_parked xxh3_64 xxh3_128 blake2b64 fs m [] _ lib fm cc Hs) as Hp.
  unfold detect_cross_library_moves, plan_cross.
  destruct (cross_loop _ _ _ _) as [plans a]. cbn [fst] in *.
  destruct (transfer_ok flush_order Horder lib XMOVE_PENDING _ _ plans Hu Hp Hok)
    as (m3 & m4 & Hf3 & Hf4 & Hu4 & Hset & Hout).
  unfold park_updates in Hf3. rewrite Hf3. cbn [result_bind]. rewrite Hsc. cbn [result_bind].
  rewrite Hf4. cbn [result_bind]. eexists. split; [reflexivity|]. split_and!; [done|..|done].
  - intros c n. apply He.
  - intros p Hpp. destruct (Hset p Hpp) as [Hgone Hnew]. split; [done|].
    eexists. split; [by apply Hl|done].
Qed.

(** ** Properties of the planner and of the transfer *)

(** C26: the plan is exact.  A vanished row and a new row are paired if and only if they
    share the (quick hash, size) key and either they are alone in their bucket and no
    content or midpoint hash contradicts them, or the bucket is contested and each is
    the only row of the other side whose hashes confirm it.  No row is in two pairs,
    so the result does not depend on the order of the rows; and every new row with a
    vanished twin is either moved or counted as ambiguous. *)
Theorem plan_moves_exact candidates new_items :
  distinct candidates → distinct new_items →
  let '(plans, ambiguous) := plan_moves candidates new_items in
  (∀ c n, mkPlan c n ∈ plans ↔ planned candidates new_items c n) ∧
  NoDup (map survivor plans) ∧ NoDup (map duplicate plans) ∧
  Z.of_nat (length plans) + ambiguous = Z.of_nat (length (filterb (has_twin candidates) new_items)).
Proof.
  intros Hc Hn. pose proof (plan_moves_planned _ _ Hc Hn) as H1.
  pose proof (plan_survivors_nodup _ _ Hc Hn) as H2. pose proof (plan_duplicates_nodup _ _ Hc Hn) as H3.
  pose proof (plan_moves_count _ _ Hc Hn) as H4.
  by destruct (plan_moves candidates new_items) as [plans a].
Qed.

(** C27: identity transfer is atomic under the unique index.  For every order in which
    the session emits the updates of a flush, [detect_moves] on two disjoint lists of
    rows of one library succeeds: no intermediate state violates the unique index
    (cyclic renames included), each planned survivor keeps its id and curated columns
    and takes over the location and hashes of its duplicate, the duplicates are gone,
    and every other row is unchanged but for the hashes of new rows. *)
Theorem detect_moves_transfers xxh3_64 xxh3_128 blake2b64 fs flush_order m candidates new_items lib
    fm now cc :
  (∀ us, flush_order us ≡ₚ us) →
  scan_input blake2b64 m candidates new_items lib →
  candidates ≠ [] → new_items ≠ [] →
  let m1 := hash_rows xxh3_64 xxh3_128 fs new_items fm cc m in
  let '(plans, ambiguous) :=
    plan_moves (omap (λ i, m1 !! i) candidates) (omap (λ i, m1 !! i) new_items) in
  ∃ m' out,
    detect_moves xxh3_64 xxh3_128 blake2b64 fs flush_order m candidates new_items fm cc now =
      Ok (m', mkStats (Z.of_nat (length plans)) ambiguous, out) ∧
    unique_paths m' ∧
    (∀ p, p ∈ plans → m' !! i_id (duplicate p) = None ∧
      ∃ scope, row_label blake2b64 (duplicate p) lib = Ok scope ∧
        m' !! i_id (survivor p) = Some (relocate (survivor p) (duplicate p) scope now)) ∧
    (∀ i, i ∉ map (λ p, i_id (survivor p)) plans → i ∉ map (λ p, i_id (duplicate p)) plans →
      m' !! i = m1 !! i) ∧
    map survivor_id out = map (λ p, i_id (survivor p)) plans ∧
    map duplicate_id out = map (λ p, i_id (duplicate p)) plans.
Proof.
  intros Horder Hin Hc Hn m1.
  pose proof (detect_moves_ok xxh3_64 xxh3_128 blake2b64 fs flush_order m candidates new_items lib fm now cc
    Horder Hin Hc Hn) as H.
  cbv zeta in H. fold m1 in H. destruct (plan_moves _ _) as [plans ambiguous].
  destruct H as (m' & out & H1 & H2 & H3 & H4 & H5 & H6 & _). by exists m', out.
Qed.

(** C28: a file that moved between libraries keeps its identity, and only on proof.  The
    cross-library pass pairs a new row with a [missing] row of another, non-agent
    library exactly when content or midpoint hashes confirm the pair, no other
    tombstone of the same key is confirmed for the new row and no other new row for the
    tombstone: (quick hash, size) alone never transfers.  The pass succeeds for every
    order of updates and of query rows; the survivor keeps its id and curated columns
    and becomes [active] in the scanned library at the duplicate's place; the duplicate
    is gone, and every other row is unchanged but for the hashes of new rows. *)
Theorem cross_moves_proven xxh3_64 xxh3_128 blake2b64 fs flush_order agent_library query_order m
    new_items lib fm now cc :
  (∀ us, flush_order us ≡ₚ us) → (∀ l, query_order l ≡ₚ l) →
  scan_input blake2b64 m [] new_items lib →
  (∀ i it, m !! i = Some it → i_id it = i) →
  let '(m1, (plans, ambiguous)) :=
    plan_cross xxh3_64 xxh3_128 fs agent_library query_order m new_items lib fm cc in
  ∃ m',
    detect_cross_library_moves xxh3_64 xxh3_128 blake2b64 fs flush_order agent_library query_order m
      new_items lib fm cc now =
      Ok (m', mkStats (Z.of_nat (length plans)) ambiguous, map (λ p, i_id (survivor p)) plans) ∧
    unique_paths m' ∧
    (∀ c n, mkPlan c n ∈ plans ↔
      proven_move xxh3_64 xxh3_128 fs agent_library m new_items lib fm cc c n) ∧
    (∀ p, p ∈ plans → m' !! i_id (duplicate p) = None ∧
      ∃ scope, row_label blake2b64 (duplicate p) lib = Ok scope ∧
        m' !! i_id (survivor p) = Some (revive lib (survivor p) (duplicate p) scope now)) ∧
    (∀ i, i ∉ map (λ p, i_id (survivor p)) plans → i ∉ map (λ p, i_id (duplicate p)) plans →
      m' !! i = m1 !! i).
Proof. apply cross_moves_ok. Qed.

(** A swap: the files of rows 1 and 2 traded places (rows 3 and 4 are the walk's). *)
Definition blank_curated : Curated := mkCurated None None [] ∅ ∅ ∅ 0.
Definition example_row (id : Z) (rel quick : string) (cur : Curated) : Item :=
  mkItem id 7 None None active (txt "/lib/") (txt rel) (txt rel) None 10 0 (Some quick) None None
    None None None None 0 None None (Some "x") None None cur.
Definition swap_rows : rows :=
  {[1 := example_row 1 "a" "qa" (mkCurated (Some (txt "A")) None [] ∅ ∅ ∅ 5);
    2 := example_row 2 "b" "qb" blank_curated;
    3 := example_row 3 "a2" "qb" blank_curated;
    4 := example_row 4 "b2" "qa" blank_curated]}.

(** The input conditions, decided *)
Definition scan_input_b (h : list Z → string) (m : rows) (candidates new_items : list Z) (lib : Z) : bool :=
  forallb (λ '(i, a), forallb (λ '(j, b), negb (bool_decide (rkey a = rkey b)) || (i =? j))
    (map_to_list m)) (map_to_list m) &&
  forallb (λ '(i, a), negb (bool_decide (head (i_rel_path a) = Some 65535))) (map_to_list m) &&
  bool_decide (NoDup candidates) && bool_decide (NoDup new_items) &&
  forallb (λ i, negb (bool_decide (i ∈ new_items))) candidates &&
  forallb (λ i, match m !! i with Some it => (i_id it =? i) && (i_library_id it =? lib) | None => false end)
    (candidates ++ new_items) &&
  forallb (λ i, match m !! i with
    | Some it => match row_label h it lib with Ok _ => true | Err _ => false end
    | None => true end) new_items.

Lemma store_forall (P : Z * Item → bool) (m : rows) :
  forallb P (map_to_list m) = true → ∀ i it, m !! i = Some it → P (i, it) = true.
Proof. intros H i it Hi. rewrite forallb_elem in H. by apply H, elem_of_map_to_list. Qed.

Lemma scan_input_check h m candidates new_items lib :
  scan_input_b h m candidates new_items lib = true → scan_input h m candidates new_items lib.
Proof.
  unfold scan_input_b. rewrite !andb_true_iff, !bool_decide_eq_true.
  intros [[[[[[Hu Hp] Hc] Hn] Hd] Hr] Hl]. split; try done.
  - intros i j a b Ha Hb Hk. pose proof (store_forall _ _ (store_forall _ _ Hu i a Ha) j b Hb) as H.
    cbv beta iota in H. rewrite bool_decide_eq_true_2 in H by done. by apply Z.eqb_eq.
  - intros i it Hi Hh. pose proof (store_forall _ _ Hp i it Hi) as H. cbv beta iota in H.
    by rewrite bool_decide_eq_true_2 in H.
  - intros i Hi Hin. rewrite forallb_elem in Hd. specialize (Hd i Hi).
    by rewrite bool_decide_eq_true_2 in Hd.
  - intros i Hi. rewrite forallb_elem in Hr. specialize (Hr i). rewrite elem_of_app in Hr. specialize (Hr Hi).
    destruct (m !! i) as [it|]; [|done]. apply andb_true_iff in Hr as [?%Z.eqb_eq ?%Z.eqb_eq]. by exists it.
  - intros i it Hi Hm. rewrite forallb_elem in Hl. specialize (Hl i Hi). rewrite Hm in Hl.
    destruct (row_label h it lib); [by eexists|done].
Qed.

Lemma plan_moves_exact_witness :
  let cs := omap (λ i, swap_rows !! i) [1; 2] in
  let ns := omap (λ i, swap_rows !! i) [3; 4] in
  let '(plans, ambiguous) := plan_moves cs ns in
  (∀ c n, mkPlan c n ∈ plans ↔ planned cs ns c n) ∧
  NoDup (map survivor plans) ∧ NoDup (map duplicate plans) ∧
  Z.of_nat (length plans) + ambiguous = Z.of_nat (length (filterb (has_twin cs) ns)).
Proof.
  apply plan_moves_exact; unfold distinct; apply (bool_decide_eq_true_1 _); vm_compute; reflexivity.
Defined.

Lemma detect_moves_transfers_witness :
  let h (_ : list Z) := "h" in
  let m1 := hash_rows h h (λ _, None) [3; 4] 0 true swap_rows in
  let '(plans, ambiguous) := plan_moves (omap (λ i, m1 !! i) [1; 2]) (omap (λ i, m1 !! i) [3; 4]) in
  length plans = 2%nat ∧
  ∃ m' out,
    detect_moves h h h (λ _, None) (@rev (Z * Item)) swap_rows [1; 2] [3; 4] 0 true 9 =
      Ok (m', mkStats (Z.of_nat (length plans)) ambiguous, out) ∧
    unique_paths m' ∧
    (∀ p, p ∈ plans → m' !! i_id (duplicate p) = None ∧
      ∃ scope, row_label h (duplicate p) 7 = Ok scope ∧
        m' !! i_id (survivor p) = Some (relocate (survivor p) (duplicate p) scope 9)) ∧
    (∀ i, i ∉ map (λ p, i_id (survivor p)) plans → i ∉ map (λ p, i_id (duplicate p)) plans →
      m' !! i = m1 !! i) ∧
    map survivor_id out = map (λ p, i_id (survivor p)) plans ∧
    map duplicate_id out = map (λ p, i_id (duplicate p)) plans.
Proof.
  intros h m1.
  assert (scan_input h swap_rows [1; 2] [3; 4] 7) as Hin by (apply scan_input_check; vm_compute; reflexivity).
  pose proof (detect_moves_transfers h h h (λ _, None) (@rev (Z * Item)) swap_rows [1; 2] [3; 4] 7 0 9 true
    (λ us, symmetry (Permutation_rev us)) Hin ltac:(discriminate) ltac:(discriminate)) as H.
  cbv zeta in H. fold m1 in H.
  assert (length (plan_moves (omap (λ i, m1 !! i) [1; 2]) (omap (λ i, m1 !! i) [3; 4])).1 = 2%nat) as Hlen
    by (vm_compute; reflexivity).
  destruct (plan_moves (omap (λ i, m1 !! i) [1; 2]) (omap (λ i, m1 !! i) [3; 4])) as [plans a].
  split; [exact Hlen|exact H].
Defined.

(** Row 1 vanished from library 8; row 3 is its file, new in library 7, where row 2
    kept its place. *)
Definition cross_row (id lib : Z) (st : ItemStatus) (rel : string) (cur : Curated) : Item :=
  mkItem id lib None None st (txt "/lib/") (txt rel) (txt rel) None 10 0 (Some "q") (Some rel) None
    None None None None 0 None None (Some "x") None None cur.
Definition cross_rows : rows :=
  {[1 := cross_row 1 8 missing "a" (mkCurated (Some (txt "A")) None [] ∅ ∅ ∅ 5);
    2 := cross_row 2 7 active "b" blank_curated;
    3 := cross_row 3 7 active "a" blank_curated]}.

Lemma cross_moves_proven_witness :
  let h (_ : list Z) := "h" in
  let '(m1, (plans, ambiguous)) :=
    plan_cross h h (λ _, None) (λ _, false) (@rev Item) cross_rows [3] 7 0 true in
  map (λ p, (i_id (survivor p), i_id (duplicate p))) plans = [(1, 3)] ∧
  ∃ m',
    detect_cross_library_moves h h h (λ _, None) (@rev (Z * Item)) (λ _, false) (@rev Item) cross_rows
      [3] 7 0 true 9 =
      Ok (m', mkStats (Z.of_nat (length plans)) ambiguous, map (λ p, i_id (survivor p)) plans) ∧
    unique_paths m' ∧
    (∀ c n, mkPlan c n ∈ plans ↔ proven_move h h (λ _, None) (λ _, false) cross_rows [3] 7 0 true c n) ∧
    (∀ p, p ∈ plans → m' !! i_id (duplicate p) = None ∧
      ∃ scope, row_label h (duplicate p) 7 = Ok scope ∧
        m' !! i_id (survivor p) = Some (revive 7 (survivor p) (duplicate p) scope 9)) ∧
    (∀ i, i ∉ map (λ p, i_id (survivor p)) plans → i ∉ map (λ p, i_id (duplicate p)) plans →
      m' !! i = m1 !! i).
Proof.
  intros h.
  assert (scan_input h cross_rows [] [3] 7) as Hin by (apply scan_input_check; vm_compute; reflexivity).
  assert (∀ i it, cross_rows !! i = Some it → i_id it = i) as Hids.
  { assert (forallb (λ '(i, a), i_id a =? i) (map_to_list cross_rows) = true) as HP by (vm_compute; reflexivity).
    intros i it Hi. pose proof (store_forall _ _ HP i it Hi) as H. by apply Z.eqb_eq. }
  pose proof (cross_moves_proven h h h (λ _, None) (@rev (Z * Item)) (λ _, false) (@rev Item) cross_rows [3] 7 0 9
    true (λ us, symmetry (Permutation_rev us)) (λ us, symmetry (Permutation_rev us)) Hin Hids) as H.
  assert (map (λ p, (i_id (survivor p), i_id (duplicate p)))
    (plan_cross h h (λ _, None) (λ _, false) (@rev Item) cross_rows [3] 7 0 true).2.1 = [(1, 3)]) as Hplan
    by (vm_compute; reflexivity).
  destruct (plan_cross h h (λ _, None) (λ _, false) (@rev Item) cross_rows [3] 7 0 true) as [m1 [plans a]].
  split; [exact Hplan|exact H].
Defined.
