(* ===== verification/WalkFacts.v ===== *)
(** * The directory walk: facts and properties *)
From S2P Require Import Prelude PyStr Utf8 PathLabel Text Sidecar Walk.
From stdpp Require Import options.

(** ** Trees *)

Fixpoint files (n : node) : Z :=
  match n with
  | Leaf _ => 1
  | Folder es _ => foldr (λ '(_, m) s, files m + s) 0 es
  end.
Definition files_in (es : list (text * node)) : Z := foldr (λ '(_, m) s, files m + s) 0 es.

Lemma node_size_pos n : (0 < node_size n)%nat.
Proof. destruct n; cbn; lia. Qed.

Lemma entries_size_cons name m es : entries_size ((name, m) :: es) = (node_size m + entries_size es)%nat.
Proof. done. Qed.

Lemma entries_size_elem name m es : (name, m) ∈ es → (node_size m ≤ entries_size es)%nat.
Proof.
  induction es as [|[k x] es IH]; [by intros ?%not_elem_of_nil|]. rewrite entries_size_cons.
  intros [[= <- <-]|H]%elem_of_cons; [lia|]. specialize (IH H). lia.
Qed.

(** Induction on the nodes of a tree: a folder is handled with its subfolders done. *)
Lemma node_ind' (P : node → Prop) :
  (∀ l, P (Leaf l)) → (∀ es f, (∀ name m, (name, m) ∈ es → P m) → P (Folder es f)) → ∀ n, P n.
Proof.
  intros HL HF n. remember (node_size n) as k eqn:Hk. revert n Hk.
  induction (lt_wf k) as [k _ IH]. intros [l|es f] ->; [apply HL|]. apply HF.
  intros name m Hm. eapply IH; [|reflexivity].
  pose proof (entries_size_elem name m es Hm). unfold entries_size in *. cbn. lia.
Qed.

(** *** Counting visits every node *)

Definition stack_size (stack : list node) : nat := list_sum (map node_size stack).
Definition stack_files (stack : list node) : Z := foldr (λ n s, files n + s) 0 stack.

Lemma stack_size_cons n stack : stack_size (n :: stack) = (node_size n + stack_size stack)%nat.
Proof. done. Qed.
Lemma stack_files_cons n stack : stack_files (n :: stack) = files n + stack_files stack.
Proof. done. Qed.
Lemma files_in_cons name m es : files_in ((name, m) :: es) = files m + files_in es.
Proof. done. Qed.
Lemma files_folder es f : files (Folder es f) = files_in es.
Proof. done. Qed.
Lemma node_size_folder es f : node_size (Folder es f) = S (entries_size es).
Proof. done. Qed.

Lemma stack_size_app s1 s2 : stack_size (s1 ++ s2) = (stack_size s1 + stack_size s2)%nat.
Proof. unfold stack_size. by rewrite map_app, list_sum_app. Qed.
Lemma stack_size_rev s : stack_size (rev s) = stack_size s.
Proof.
  induction s as [|n s IH]; [done|]. cbn [rev]. rewrite stack_size_app, IH, !stack_size_cons.
  change (stack_size []) with 0%nat. lia.
Qed.
Lemma stack_files_app s1 s2 : stack_files (s1 ++ s2) = stack_files s1 + stack_files s2.
Proof.
  induction s1 as [|n s1 IH]; [done|]. rewrite <- app_comm_cons, !stack_files_cons, IH. lia.
Qed.
Lemma stack_files_rev s : stack_files (rev s) = stack_files s.
Proof.
  induction s as [|n s IH]; [done|]. cbn [rev]. rewrite stack_files_app, IH, !stack_files_cons.
  change (stack_files []) with 0. lia.
Qed.

Lemma count_listing_spec es stack total :
  let '(stack', total') := count_listing es stack total in
  total' + stack_files stack' = total + stack_files stack + files_in es ∧
  (stack_size stack' ≤ stack_size stack + entries_size es)%nat.
Proof.
  revert stack total. induction es as [|[name m] es IH]; intros stack total; cbn [count_listing].
  { change (files_in []) with 0. split; lia. }
  rewrite entries_size_cons, files_in_cons. destruct m as [l|es' f].
  - specialize (IH stack (total + 1)). destruct (count_listing es stack (total + 1)).
    cbn [files node_size]. lia.
  - specialize (IH (Folder es' f :: stack) total). destruct (count_listing es (Folder es' f :: stack) total).
    rewrite stack_size_cons, stack_files_cons in IH. lia.
Qed.

Lemma count_listing_folders es stack total :
  (∀ n, n ∈ stack → ∃ es f, n = Folder es f) →
  ∀ n, n ∈ (count_listing es stack total).1 → ∃ es f, n = Folder es f.
Proof.
  revert stack total. induction es as [|[name m] es IH]; intros stack total Hs; cbn [count_listing]; [done|].
  destruct m; apply IH; [done|]. intros n [->|Hn]%elem_of_cons; eauto.
Qed.

Lemma count_loop_spec fuel stack total :
  (stack_size stack ≤ fuel)%nat → (∀ n, n ∈ stack → ∃ es f, n = Folder es f) →
  count_loop fuel stack total = total + stack_files stack.
Proof.
  revert stack total. induction fuel as [|k IH]; intros [|n stack] total Hsize Hdirs; cbn [count_loop].
  - unfold stack_files. cbn. lia.
  - rewrite stack_size_cons in Hsize. pose proof (node_size_pos n). lia.
  - unfold stack_files. cbn. lia.
  - destruct (Hdirs n) as (es & f & ->); [left|].
    rewrite stack_size_cons, node_size_folder in Hsize. rewrite stack_files_cons, files_folder.
    pose proof (count_listing_spec es stack total) as H.
    pose proof (count_listing_folders es stack total) as Hf.
    destruct (count_listing es stack total) as [stack' total']. destruct H as [H1 H2].
    rewrite IH; [lia|lia|]. apply Hf. intros n Hn. apply Hdirs. by right.
Qed.

Lemma count_tree_files es f : _count_tree_files (Folder es f) = files (Folder es f).
Proof.
  unfold _count_tree_files.
  rewrite count_loop_spec; [rewrite stack_files_cons; unfold stack_files; cbn [foldr]; lia
    |rewrite stack_size_cons; unfold stack_size; cbn [map list_sum foldr]; lia|].
  intros n ->%list_elem_of_singleton. eauto.
Qed.

(** ** The walk against a recursive listing *)

(** Every listing completes and every entry can be stat-ed. *)
Fixpoint readable (n : node) : bool :=
  match n with
  | Leaf l => match lf_stat l with Ok _ => true | Err _ => false end
  | Folder es f => bool_decide (f = None) && forallb (λ '(_, m), readable m) es
  end.

Section walks.
Context (uni_lower : Z → list Z) (match_file : text → bool) (fs : text → option (list Z)) (root : text).
Local Abbreviation filtered := (filtered uni_lower match_file).
Local Abbreviation prune_dir := (prune_dir match_file fs).
Local Abbreviation walk_entries := (walk_entries uni_lower match_file fs).
Local Abbreviation walk_loop := (walk_loop uni_lower match_file fs).

Definition dir_path (rel : text) : text := match rel with [] => root | _ => join_path root rel end.

(** What one directory contributes by itself *)
Definition leaf_entries (rel name : text) (l : leaf) : list Entry :=
  if filtered (child rel name) then []
  else match lf_stat l with
  | Ok st => [make_entry (join_path (dir_path rel) name) (child rel name) l st]
  | Err _ => []
  end.
Definition own (rel : text) (es : list (text * node)) : list Entry :=
  es ≫= λ '(name, m), match m with Leaf l => leaf_entries rel name l | Folder _ _ => [] end.

Definition pruned_at (rel name : text) : bool := prune_dir (child rel name) (join_path (dir_path rel) name).
Definition subdirs (rel : text) (es : list (text * node)) : list (text * node) :=
  es ≫= λ '(name, m), match m with
    | Folder _ _ => if pruned_at rel name then [] else [(child rel name, m)] | Leaf _ => [] end.

Definition filtered_here (rel : text) (es : list (text * node)) : Z :=
  foldr (λ '(name, m) s, (match m with Leaf _ => if filtered (child rel name) then 1 else 0 | _ => 0 end) + s) 0 es.
Definition pruned_here (rel : text) (es : list (text * node)) : Z :=
  foldr (λ '(name, m) s, (match m with Folder _ _ => if pruned_at rel name then files m else 0 | _ => 0 end) + s) 0 es.

Lemma filtered_here_cons rel name m es :
  filtered_here rel ((name, m) :: es) =
  (match m with Leaf _ => if filtered (child rel name) then 1 else 0 | _ => 0 end) + filtered_here rel es.
Proof. done. Qed.
Lemma pruned_here_cons rel name m es :
  pruned_here rel ((name, m) :: es) =
  (match m with Folder _ _ => if pruned_at rel name then files m else 0 | _ => 0 end) + pruned_here rel es.
Proof. done. Qed.

Lemma own_cons rel name m es :
  own rel ((name, m) :: es) =
  (match m with Leaf l => leaf_entries rel name l | Folder _ _ => [] end) ++ own rel es.
Proof. done. Qed.
Lemma subdirs_cons rel name m es :
  subdirs rel ((name, m) :: es) =
  (match m with
   | Folder _ _ => if pruned_at rel name then [] else [(child rel name, m)] | Leaf _ => [] end) ++ subdirs rel es.
Proof. done. Qed.

Lemma level_accounting rel es :
  forallb (λ '(_, m), readable m) es = true →
  Z.of_nat (length (own rel es)) + filtered_here rel es + pruned_here rel es +
    stack_files (map snd (subdirs rel es)) = files_in es.
Proof.
  induction es as [|[name m] es IH]; [done|]. cbn [forallb]. intros [Hm Hes]%andb_true_iff.
  specialize (IH Hes).
  rewrite own_cons, subdirs_cons, length_app, map_app, files_in_cons, filtered_here_cons, pruned_here_cons.
  destruct m as [l|es' f].
  - cbn [map app length]. unfold leaf_entries. cbn [readable] in Hm.
    destruct (filtered (child rel name)); cbn [length files]; [lia|].
    destruct (lf_stat l); [|done]. cbn [length]. lia.
  - destruct (pruned_at rel name); cbn [map app length snd]; [lia|]. rewrite stack_files_cons. lia.
Qed.

Lemma subdirs_size rel es : (stack_size (map snd (subdirs rel es)) ≤ entries_size es)%nat.
Proof.
  induction es as [|[name m] es IH]; [done|]. rewrite subdirs_cons, entries_size_cons, map_app.
  destruct m; [cbn [app map]; lia|].
  destruct (pruned_at rel name); cbn [app map snd]; rewrite ?stack_size_cons; lia.
Qed.

Lemma subdirs_elem rel es d n :
  (d, n) ∈ subdirs rel es ↔
  ∃ name es' f, n = Folder es' f ∧ (name, n) ∈ es ∧ d = child rel name ∧ pruned_at rel name = false.
Proof.
  unfold subdirs. rewrite list_elem_of_bind. split.
  - intros ([name m] & Hin & Hm). destruct m as [l|es' f]; [by apply not_elem_of_nil in Hin|].
    destruct (pruned_at rel name) eqn:Hp; [by apply not_elem_of_nil in Hin|].
    apply list_elem_of_singleton in Hin as [= -> ->]. naive_solver.
  - intros (name & es' & f & -> & Hin & -> & Hp). exists (name, Folder es' f). rewrite Hp.
    split; [left|done].
Qed.

Lemma walk_entries_readable rel es acc :
  forallb (λ '(_, m), readable m) es = true →
  let d := walk_entries true rel (dir_path rel) es None acc in
  raised d = None ∧
  (∃ ys, yielded d = yielded acc ++ ys ∧ map fst ys = own rel es) ∧
  pushed d = rev (subdirs rel es) ++ pushed acc ∧
  excluded_filtered (audit_after d) = excluded_filtered (audit_after acc) + filtered_here rel es ∧
  pruned_files (audit_after d) =
    pruned_files (audit_after acc) + (if count_pruned (audit_after acc) then pruned_here rel es else 0) ∧
  count_pruned (audit_after d) = count_pruned (audit_after acc) ∧
  permission_denied (audit_after d) = permission_denied (audit_after acc).
Proof.
  revert acc. induction es as [|[name m] es IH]; intros acc Hr.
  { cbn. rewrite !Z.add_0_r. split_and!; try done.
    - exists []. by rewrite app_nil_r.
    - destruct (count_pruned _); lia. }
  cbn [forallb] in Hr. apply andb_true_iff in Hr as [Hm Hes].
  cbn [Walk.walk_entries]. rewrite own_cons, subdirs_cons, filtered_here_cons, pruned_here_cons.
  destruct m as [l|es' f].
  - unfold leaf_entries. destruct (filtered (child rel name)).
    + destruct (IH (mkDirOut (yielded acc) (pushed acc) (bump_filtered (audit_after acc)) None) Hes)
        as (H1 & (ys & H2 & H3) & H4 & H5 & H6 & H7 & H8).
      cbn [yielded pushed audit_after bump_filtered excluded_filtered pruned_files count_pruned permission_denied] in *.
      split_and!; try done; [by exists ys|rewrite H5; lia].
    + cbn [readable] in Hm. destruct (lf_stat l) as [st|]; [|done].
      set (acc' := mkDirOut _ _ _ _). destruct (IH acc' Hes) as (H1 & (ys & H2 & H3) & H4 & H5 & H6 & H7 & H8).
      unfold acc' in *. cbn [yielded pushed audit_after] in *. split_and!; try done.
      * eexists. rewrite H2, <- app_assoc. split; [done|]. cbn [map fst app]. by rewrite H3.
  - cbn [andb]. fold (pruned_at rel name). destruct (pruned_at rel name) eqn:Hp; cbn [negb].
    + set (acc' := mkDirOut _ _ _ _). destruct (IH acc' Hes) as (H1 & (ys & H2 & H3) & H4 & H5 & H6 & H7 & H8).
      unfold acc' in *. cbn [yielded pushed audit_after bump_pruned excluded_filtered pruned_files count_pruned
        permission_denied] in *. split_and!; try done; [by exists ys|].
      rewrite H6. rewrite count_tree_files. destruct (count_pruned (audit_after acc)); lia.
    + set (acc' := mkDirOut _ _ _ _). destruct (IH acc' Hes) as (H1 & (ys & H2 & H3) & H4 & H5 & H6 & H7 & H8).
      unfold acc' in *. cbn [yielded pushed audit_after] in *. split_and!; try done; [by exists ys|].
      rewrite H4. cbn [rev app]. by rewrite <- app_assoc.
Qed.

(** The files below a directory that the walk is to list, directory by directory *)
Fixpoint visit (rel : text) (n : node) : list Entry :=
  match n with
  | Leaf _ => []
  | Folder es _ =>
      (fix go (es : list (text * node)) : list Entry :=
        match es with
        | [] => []
        | (name, m) :: rest =>
            (match m with
             | Leaf l => leaf_entries rel name l
             | Folder _ _ => if pruned_at rel name then [] else visit (child rel name) m
             end) ++ go rest
        end) es
  end.

Definition visits (stack : list (text * node)) : list Entry := stack ≫= λ '(d, n), visit d n.

Lemma visits_cons d n stack : visits ((d, n) :: stack) = visit d n ++ visits stack.
Proof. done. Qed.
Lemma visits_one d n : visits [(d, n)] = visit d n.
Proof. unfold visits. cbn [mbind list_bind]. apply app_nil_r. Qed.
Lemma visits_app s1 s2 : visits (s1 ++ s2) = visits s1 ++ visits s2.
Proof. unfold visits. apply bind_app. Qed.
Lemma visits_perm s1 s2 : s1 ≡ₚ s2 → visits s1 ≡ₚ visits s2.
Proof. intros H. unfold visits. by rewrite H. Qed.

Lemma visit_folder rel es f : visit rel (Folder es f) ≡ₚ own rel es ++ visits (subdirs rel es).
Proof.
  induction es as [|[name m] es IH]; [done|]. rewrite own_cons, subdirs_cons, visits_app.
  change (visit rel (Folder ((name, m) :: es) f)) with
    ((match m with
      | Leaf l => leaf_entries rel name l
      | Folder _ _ => if pruned_at rel name then [] else visit (child rel name) m
      end) ++ visit rel (Folder es f)).
  rewrite IH. destruct m as [l|es' f'].
  - change (visits []) with (@nil Entry). by rewrite app_nil_l, app_assoc.
  - destruct (pruned_at rel name).
    + done.
    + rewrite visits_cons. change (visits []) with (@nil Entry). rewrite app_nil_r, app_nil_l.
      apply Permutation_app_swap_app.
Qed.

Definition good_stack (stack : list (text * node)) : Prop :=
  ∀ d n, (d, n) ∈ stack → readable n = true ∧ ∃ es, n = Folder es None.

Lemma subdirs_good rel es :
  forallb (λ '(_, m), readable m) es = true → good_stack (subdirs rel es).
Proof.
  intros Hes d n (name & es' & f & -> & Hin & _)%subdirs_elem. rewrite forallb_elem in Hes.
  specialize (Hes _ Hin). cbv beta iota in Hes. split; [done|]. exists es'. cbn [readable] in Hes.
  apply andb_true_iff in Hes as [Hf _]. by apply bool_decide_eq_true in Hf as ->.
Qed.

Lemma walk_loop_readable fuel stack out audit :
  (stack_size (map snd stack) ≤ fuel)%nat → good_stack stack →
  let o := walk_loop fuel root true stack out audit in
  error o = None ∧ map fst (trace o) ≡ₚ map fst out ++ visits stack ∧
  permission_denied (final_audit o) = permission_denied audit ∧
  (count_pruned audit = true →
    Z.of_nat (length (trace o)) + excluded_filtered (final_audit o) + pruned_files (final_audit o) =
    Z.of_nat (length out) + excluded_filtered audit + pruned_files audit + stack_files (map snd stack)).
Proof.
  revert stack out audit. induction fuel as [|k IH]; intros [|[rel n] stack] out audit Hsize Hgood.
  - cbn. rewrite app_nil_r. split_and!; [done|done|done|]. unfold stack_files. cbn. lia.
  - cbn [map snd] in Hsize. rewrite stack_size_cons in Hsize. pose proof (node_size_pos n). lia.
  - cbn. rewrite app_nil_r. split_and!; [done|done|done|]. unfold stack_files. cbn. lia.
  - destruct (Hgood rel n) as (Hr & es & ->); [left|].
    cbn [readable] in Hr. apply andb_true_iff in Hr as [_ Hr].
    cbn [map snd] in Hsize. rewrite stack_size_cons, node_size_folder in Hsize.
    cbn [Walk.walk_loop]. fold (dir_path rel).
    destruct (walk_entries_readable rel es (mkDirOut [] stack audit None) Hr)
      as (H1 & (ys & H2 & H3) & H4 & H5 & H6 & H7 & H8).
    cbn [yielded pushed audit_after app] in *. rewrite H1.
    set (d := walk_entries true rel (dir_path rel) es None (mkDirOut [] stack audit None)) in *.
    rewrite H2, H4.
    destruct (IH (rev (subdirs rel es) ++ stack) (out ++ ys) (audit_after d)) as (E1 & E2 & E3 & E4).
    { rewrite map_app, map_rev, stack_size_app, stack_size_rev. pose proof (subdirs_size rel es). lia. }
    { intros d' n' [Hin|Hin]%elem_of_app; [|apply (Hgood d' n'); by right].
      apply (subdirs_good rel es Hr d' n'). by apply list_elem_of_In, in_rev, list_elem_of_In. }
    split_and!; [done| |congruence|].
    + rewrite E2, map_app, H3, visits_cons, visit_folder, visits_app.
      rewrite (visits_perm (rev (subdirs rel es)) (subdirs rel es)) by (symmetry; apply Permutation_rev).
      by rewrite <- !app_assoc.
    + intros Hcp. rewrite H7 in E4. rewrite (E4 Hcp), H5, H6, Hcp. cbn [map snd].
      rewrite stack_files_cons, files_folder, map_app, map_rev, stack_files_app, stack_files_rev, length_app.
      rewrite <- (level_accounting rel es Hr). rewrite <- H3, length_map. lia.
Qed.
(** ** What the walk reaches *)

(** The directories reached from the start through directories that are not pruned *)
Inductive dir_at (start_rel : text) (start : node) : text → node → Prop :=
  | dir_start : dir_at start_rel start start_rel start
  | dir_sub rel es f name es' f' :
      dir_at start_rel start rel (Folder es f) → (name, Folder es' f') ∈ es → pruned_at rel name = false →
      dir_at start_rel start (child rel name) (Folder es' f').

(** The files the walk is to list: those of the reached directories that pass the filter *)
Definition admitted (start_rel : text) (start : node) (e : Entry) : Prop :=
  ∃ rel es f name l st, dir_at start_rel start rel (Folder es f) ∧ (name, Leaf l) ∈ es ∧
    filtered (child rel name) = false ∧ lf_stat l = Ok st ∧
    e = make_entry (join_path (dir_path rel) name) (child rel name) l st.

Lemma visit_subdir rel es f name es' f' e :
  (name, Folder es' f') ∈ es → pruned_at rel name = false →
  e ∈ visit (child rel name) (Folder es' f') → e ∈ visit rel (Folder es f).
Proof.
  intros Hin Hp He. rewrite visit_folder, elem_of_app. right. unfold visits. apply list_elem_of_bind.
  exists (child rel name, Folder es' f'). split; [done|]. apply subdirs_elem. by exists name, es', f'.
Qed.

Lemma admitted_visit start_rel start e : admitted start_rel start e → e ∈ visit start_rel start.
Proof.
  intros (rel & es & f & name & l & st & Hd & Hin & Hf & Hs & ->).
  assert (∀ d n, dir_at start_rel start d n → ∀ e, e ∈ visit d n → e ∈ visit start_rel start) as Hup.
  { intros d n. induction 1 as [|rel' es0 f0 name' es' f' Hd' IH Hin' Hp']; [done|].
    intros e He. by eapply IH, visit_subdir. }
  apply (Hup _ _ Hd). rewrite visit_folder, elem_of_app. left. unfold own. apply list_elem_of_bind.
  exists (name, Leaf l). split; [|done]. unfold leaf_entries. rewrite Hf, Hs. left.
Qed.

Section sound.
Context (start_rel : text) (start : node) (recursive : bool).

Definition sound_stack (stack : list (text * node)) : Prop := ∀ d n, (d, n) ∈ stack → dir_at start_rel start d n.
Definition sound_trace (l : list (Entry * WalkAudit)) : Prop := ∀ e, e ∈ map fst l → admitted start_rel start e.

Lemma walk_entries_sound rel es0 f0 es failure acc :
  dir_at start_rel start rel (Folder es0 f0) → (∀ x, x ∈ es → x ∈ es0) →
  sound_stack (pushed acc) → sound_trace (yielded acc) →
  let d := walk_entries recursive rel (dir_path rel) es failure acc in
  sound_stack (pushed d) ∧ sound_trace (yielded d).
Proof.
  intros Hd. revert acc. induction es as [|[name m] es IH]; intros acc Hsub Hs Ht; [done|].
  cbn [Walk.walk_entries]. assert (∀ x, x ∈ es → x ∈ es0) as Hsub' by set_solver.
  destruct m as [l|es' f'].
  - destruct (filtered (child rel name)) eqn:Hf; [by apply IH|].
    destruct (lf_stat l) as [st|err] eqn:Hst; [|done]. apply IH; [done|done|].
    unfold sound_trace in *. cbn [yielded]. intros e. rewrite map_app, elem_of_app.
    intros [He|He%list_elem_of_singleton]; [by apply Ht|]. cbn in He. subst e.
    exists rel, es0, f0, name, l, st. split_and!; try done. apply Hsub. left.
  - fold (pruned_at rel name). destruct recursive; cbn [andb]; [|by apply IH].
    destruct (pruned_at rel name) eqn:Hp; cbn [negb]; [by apply IH|]. apply IH; [done| |done].
    intros d n [[= -> ->]|Hin]%elem_of_cons; [|by apply Hs]. eapply dir_sub; [done| |done]. apply Hsub. left.
Qed.

Lemma walk_loop_sound fuel stack out audit :
  sound_stack stack → sound_trace out → sound_trace (trace (walk_loop fuel root recursive stack out audit)).
Proof.
  revert stack out audit. induction fuel as [|k IH]; intros [|[rel n] stack] out audit Hs Ht; try done.
  destruct n as [l|es f]; [done|]. cbn [Walk.walk_loop]. fold (dir_path rel).
  destruct (walk_entries_sound rel es f es f (mkDirOut [] stack audit None)) as [H1 H2].
  - apply Hs. left.
  - done.
  - intros d n Hin. apply Hs. by right.
  - intros e ?%not_elem_of_nil. done.
  - set (d := walk_entries recursive rel (dir_path rel) es f (mkDirOut [] stack audit None)) in *.
    assert (sound_trace (out ++ yielded d)) as Hout.
    { intros e. rewrite map_app, elem_of_app. intros [He|He]; [by apply Ht|by apply H2]. }
    destruct (raised d) as [[]|]; [by apply IH|done|by apply IH].
Qed.
End sound.

(** ** What a walk that ends without an error has listed *)

(** The directories a walk visits: all of [dir_at], or the start alone *)
Definition visited (recursive : bool) (start_rel : text) (start : node) (rel : text) (n : node) : Prop :=
  if recursive then dir_at start_rel start rel n else rel = start_rel ∧ n = start.

(** A file on disk, in a visited directory, that the exclusion spec leaves in and whose
    [lstat] answers: with [recursive] this is [admitted] *)
Definition found (recursive : bool) (start_rel : text) (start : node) (e : Entry) : Prop :=
  ∃ rel es f name l st, visited recursive start_rel start rel (Folder es f) ∧ (name, Leaf l) ∈ es ∧
    filtered (child rel name) = false ∧ lf_stat l = Ok st ∧
    e = make_entry (join_path (dir_path rel) name) (child rel name) l st.

(** A directory that answers [PermissionError], to its listing or to the [lstat] of a file *)
Definition denied (n : node) : Prop :=
  ∃ es f, n = Folder es f ∧
    (f = Some PermissionError ∨ ∃ name l, (name, Leaf l) ∈ es ∧ lf_stat l = Err PermissionError).

(** The file lies in or below a visited directory that denied access *)
Definition behind_denied (recursive : bool) (start_rel : text) (start : node) (e : Entry) : Prop :=
  ∃ d n, visited recursive start_rel start d n ∧ denied n ∧ found recursive d n e.

Lemma visited_start recursive rel n : visited recursive rel n rel n.
Proof using Type. destruct recursive; by constructor. Qed.

Lemma dir_at_step rel n d m :
  dir_at rel n d m ↔ (d = rel ∧ m = n) ∨
    ∃ es f d1 n1, n = Folder es f ∧ (d1, n1) ∈ subdirs rel es ∧ dir_at d1 n1 d m.
Proof using Type.
  split.
  - induction 1 as [|rel' es f name es' f' Hd IH Hin Hp]; [by left|right].
    destruct IH as [[-> <-]|(es0 & f0 & d1 & n1 & -> & H1 & H2)].
    + exists es, f, (child rel name), (Folder es' f'). split; [done|]. split; [|constructor].
      apply subdirs_elem. by exists name, es', f'.
    + exists es0, f0, d1, n1. split_and!; [done|done|]. by eapply dir_sub.
  - intros [[-> ->]|(es & f & d1 & n1 & -> & Hsub & Hd)]; [constructor|].
    apply subdirs_elem in Hsub as (name & es' & f' & -> & Hin & -> & Hp).
    induction Hd; [by eapply dir_sub; [constructor| |]|by eapply dir_sub].
Qed.

Lemma visited_sub recursive rel es f d1 n1 d m :
  recursive = true → (d1, n1) ∈ subdirs rel es → visited recursive d1 n1 d m →
  visited recursive rel (Folder es f) d m.
Proof using Type. intros -> Hs Hd. apply dir_at_step. right. by exists es, f, d1, n1. Qed.

Lemma found_step recursive rel es f e :
  found recursive rel (Folder es f) e →
  e ∈ own rel es ∨ (recursive = true ∧ ∃ d1 n1, (d1, n1) ∈ subdirs rel es ∧ found recursive d1 n1 e).
Proof using Type.
  intros (d & es1 & f1 & name & l & st & Hv & Hin & Hf & Hst & ->).
  assert ((d = rel ∧ es1 = es) ∨ (recursive = true ∧
    ∃ d1 n1, (d1, n1) ∈ subdirs rel es ∧ visited recursive d1 n1 d (Folder es1 f1))) as [[-> ->]|(Hr & d1 & n1 & Hs & Hd)].
  { destruct recursive; cbn in Hv; [|left; by destruct Hv as [-> [= -> _]]].
    apply dir_at_step in Hv as [[-> [= -> _]]|(es2 & f2 & d1 & n1 & [= <- _] & Hs & Hd)]; [by left|].
    right. split; [done|]. by exists d1, n1. }
  - left. unfold own. apply list_elem_of_bind. exists (name, Leaf l). split; [|done].
    unfold leaf_entries. rewrite Hf, Hst. left.
  - right. split; [done|]. exists d1, n1. split; [done|]. by exists d, es1, f1, name, l, st.
Qed.

Lemma denied_counted a : permission_denied (bump_denied a) = permission_denied a + 1.
Proof using Type. done. Qed.

Lemma walk_entries_complete recursive rel es failure acc :
  let d := walk_entries recursive rel (dir_path rel) es failure acc in
  (∀ x, x ∈ pushed acc → x ∈ pushed d) ∧ (∀ e, e ∈ map fst (yielded acc) → e ∈ map fst (yielded d)) ∧
  permission_denied (audit_after d) = permission_denied (audit_after acc) ∧
  match raised d with
  | None => (∀ e, e ∈ own rel es → e ∈ map fst (yielded d)) ∧
      (recursive = true → ∀ x, x ∈ subdirs rel es → x ∈ pushed d)
  | Some err => failure = Some err ∨ ∃ name l, (name, Leaf l) ∈ es ∧ lf_stat l = Err err
  end.
Proof using Type.
  revert acc. induction es as [|[name m] es IH]; intros acc; cbv zeta.
  { cbn. split_and!; try done. destruct failure; [by left|]. split; [by intros e ?%not_elem_of_nil|].
    by intros _ x ?%not_elem_of_nil. }
  cbn [Walk.walk_entries]. fold (pruned_at rel name).
  assert (∀ r, failure = Some r ∨ (∃ k l, (k, Leaf l) ∈ es ∧ lf_stat l = Err r) →
    failure = Some r ∨ (∃ k l, (k, Leaf l) ∈ (name, m) :: es ∧ lf_stat l = Err r)) as Hmore.
  { intros r [?|(k & l & Hin & ?)]; [by left|right]. exists k, l. split; [by right|done]. }
  destruct m as [l|es' f'].
  - destruct (filtered (child rel name)) eqn:Hf.
    + destruct (IH (mkDirOut (yielded acc) (pushed acc) (bump_filtered (audit_after acc)) None)) as (H1 & H2 & H3 & H4).
      split_and!; [done|done|done|]. destruct (raised _); [by apply Hmore|]. rewrite own_cons, subdirs_cons.
      unfold leaf_entries. by rewrite Hf.
    + destruct (lf_stat l) as [st|err] eqn:Hst; cbn [raised yielded pushed audit_after].
      2: { split_and!; try done. right. exists name, l. split; [left|done]. }
      set (acc' := mkDirOut _ _ _ _). destruct (IH acc') as (H1 & H2 & H3 & H4).
      assert (∀ e, e ∈ map fst (yielded acc') ↔
        e ∈ map fst (yielded acc) ∨ e = make_entry (join_path (dir_path rel) name) (child rel name) l st) as Hy.
      { intros e. unfold acc'. cbn [yielded]. rewrite map_app, elem_of_app. cbn [map fst].
        by rewrite list_elem_of_singleton. }
      split_and!; [done|intros e He; apply H2, Hy; by left|done|].
      destruct (raised _); [by apply Hmore|]. destruct H4 as [H4 H5]. rewrite own_cons, subdirs_cons.
      split; [|done]. intros e. unfold leaf_entries. rewrite Hf, Hst, elem_of_app, list_elem_of_singleton.
      intros [->|He]; [apply H2, Hy; by right|by apply H4].
  - set (acc' := if recursive && negb (pruned_at rel name) then _ else _). cbv zeta.
    assert (yielded acc' = yielded acc ∧ permission_denied (audit_after acc') = permission_denied (audit_after acc) ∧
      (∀ x, x ∈ pushed acc → x ∈ pushed acc') ∧
      (recursive = true → pruned_at rel name = false → (child rel name, Folder es' f') ∈ pushed acc'))
      as (A1 & A2 & A3 & A4).
    { unfold acc'. destruct recursive, (pruned_at rel name); cbn; split_and!; try done; intros; by constructor. }
    destruct (IH acc') as (H1 & H2 & H3 & H4). rewrite A1 in H2. split_and!; [naive_solver|done|congruence|].
    destruct (raised _); [by apply Hmore|]. destruct H4 as [H4 H5]. rewrite own_cons, subdirs_cons.
    split; [done|]. intros Hr x. destruct (pruned_at rel name) eqn:Hp; [by apply H5|].
    rewrite elem_of_app, list_elem_of_singleton. intros [->|Hx]; [by apply H1, A4|by apply H5].
Qed.

Lemma walk_loop_complete recursive fuel stack out audit :
  let o := walk_loop fuel root recursive stack out audit in
  error o = None →
  (∀ e, e ∈ map fst out → e ∈ map fst (trace o)) ∧ permission_denied audit ≤ permission_denied (final_audit o) ∧
  ∀ rel n e, (rel, n) ∈ stack → found recursive rel n e →
    e ∈ map fst (trace o) ∨
    (behind_denied recursive rel n e ∧ permission_denied audit < permission_denied (final_audit o)).
Proof using Type.
  cbv zeta. revert stack out audit. induction fuel as [|k IH]; intros [|[rel n] stack] out audit He; try done.
  1, 2: cbn; split_and!; [done|done|by intros ? ? ? ?%not_elem_of_nil].
  destruct n as [l|es f]; [done|]. cbn [Walk.walk_loop] in *. fold (dir_path rel) in *.
  pose proof (walk_entries_complete recursive rel es f (mkDirOut [] stack audit None)) as Hd. cbv zeta in Hd.
  set (d := walk_entries recursive rel (dir_path rel) es f (mkDirOut [] stack audit None)) in *.
  destruct Hd as (D1 & _ & D3 & D4). cbn [pushed audit_after] in D1, D3.
  assert (∀ e, e ∈ map fst out → e ∈ map fst (out ++ yielded d)) as Hout
    by (intros e ?; rewrite map_app, elem_of_app; by left).
  destruct (raised d) as [[]|]; [|done|].
  - destruct (IH _ _ _ He) as (E1 & E2 & E3). rewrite denied_counted in E2, E3.
    rewrite D3 in E2, E3. split_and!; [naive_solver|lia|]. intros rel' n' e [[= -> ->]|Hin]%elem_of_cons Hfound.
    + right. split; [|lia]. exists rel, (Folder es f). split_and!; [apply visited_start| |done].
      exists es, f. split; [done|]. by destruct D4; [left|right].
    + destruct (E3 rel' n' e (D1 _ Hin) Hfound) as [?|[? ?]]; [by left|right]. split; [done|lia].
  - destruct (IH _ _ _ He) as (E1 & E2 & E3). destruct D4 as [D4 D5].
    rewrite D3 in E2, E3. split_and!; [naive_solver|done|]. intros rel' n' e [[= -> ->]|Hin]%elem_of_cons Hfound.
    + destruct (found_step _ _ _ _ _ Hfound) as [Ho|(Hr & d1 & n1 & Hs & Hf1)].
      * left. apply E1. rewrite map_app, elem_of_app. right. by apply D4.
      * destruct (E3 d1 n1 e (D5 Hr _ Hs) Hf1) as [?|[(d2 & n2 & V & N & F) ?]]; [by left|right]. split; [|done].
        exists d2, n2. split_and!; [by eapply visited_sub|done|done].
    + by apply (E3 rel' n' e); [apply D1|].
Qed.
End walks.

(** ** Names *)

(** Directory entries have names: not empty, without a slash, distinct in a folder. *)
Fixpoint named (n : node) : Prop :=
  match n with
  | Leaf _ => True
  | Folder es _ =>
      NoDup (map fst es) ∧
      (fix go (es : list (text * node)) : Prop :=
        match es with [] => True | (name, m) :: rest => (name ≠ [] ∧ SLASH ∉ name) ∧ named m ∧ go rest end) es
  end.

Lemma named_folder es f :
  named (Folder es f) ↔ NoDup (map fst es) ∧ ∀ name m, (name, m) ∈ es → name ≠ [] ∧ SLASH ∉ name ∧ named m.
Proof.
  cbn [named]. split; intros [Hnd H]; (split; [done|]); clear Hnd.
  - intros name m Hin. induction es as [|[k x] es IH]; [by apply not_elem_of_nil in Hin|].
    destruct H as ((? & ?) & ? & H). apply elem_of_cons in Hin as [[= -> ->]|Hin]; [done|by apply IH].
  - induction es as [|[k x] es IH]; [done|]. destruct (H k x) as (? & ? & ?); [left|]. split_and!; try done.
    apply IH. intros name m Hin. apply H. by right.
Qed.

(** [e] is at or below the entry [name] of the directory [rel]. *)
Definition below (rel name : text) (t : text) : Prop :=
  ∃ r, (r = [] ∨ ∃ r', r = SLASH :: r') ∧ t = child rel name ++ r.

Lemma child_app rel name r : child rel name ++ r = child rel (name ++ r).
Proof. destruct rel; [done|]. unfold child. by rewrite <- app_assoc. Qed.

Lemma child_inj rel a b : child rel a = child rel b → a = b.
Proof. destruct rel; [done|]. unfold child. intros H%app_inv_head. by injection H. Qed.

Lemma below_inj rel a b t : SLASH ∉ a → SLASH ∉ b → below rel a t → below rel b t → a = b.
Proof.
  intros Ha Hb (r1 & H1 & ->) (r2 & H2 & Heq). rewrite !child_app in Heq. apply child_inj in Heq.
  clear rel. revert b Hb Heq. induction a as [|x a IH]; intros [|y b] Hb Heq; cbn in Heq.
  - done.
  - exfalso. destruct H1 as [->|[r' ->]]; [done|]. injection Heq as Hy _. apply Hb. rewrite <- Hy. left.
  - exfalso. destruct H2 as [->|[r' ->]]; [done|]. injection Heq as Hy _. apply Ha. rewrite Hy. left.
  - injection Heq as -> Heq. f_equal. apply not_elem_of_cons in Ha as [_ Ha], Hb as [_ Hb]. by apply IH.
Qed.

Lemma child_nonempty rel name : name ≠ [] → child rel name ≠ [].
Proof. intros Hn. destruct rel; [done|]. by destruct name. Qed.

Lemma child_child rel a b : a ≠ [] → child (child rel a) b = child rel a ++ SLASH :: b.
Proof. intros Ha. pose proof (child_nonempty rel a Ha). unfold child at 1. by destruct (child rel a). Qed.

Lemma nodup_fst_inj {A B} (l : list (A * B)) a b1 b2 : NoDup (map fst l) → (a, b1) ∈ l → (a, b2) ∈ l → b1 = b2.
Proof.
  induction l as [|[k b] l IH]; [by intros _ ?%not_elem_of_nil|]. cbn. intros [Hk Hl]%NoDup_cons.
  intros [[= -> ->]|H1]%elem_of_cons [[= <-]|H2]%elem_of_cons; try subst; try done.
  - destruct Hk. by apply (list_elem_of_fmap_2 fst) in H2.
  - destruct Hk. by apply (list_elem_of_fmap_2 fst) in H1.
  - by apply IH.
Qed.

Section distinct.
Context (uni_lower : Z → list Z) (match_file : text → bool) (fs : text → option (list Z)) (root : text).
Local Abbreviation visit := (visit uni_lower match_file fs root).
Local Abbreviation leaf_entries := (leaf_entries uni_lower match_file root).
Local Abbreviation pruned_at := (pruned_at match_file fs root).

(** One entry of a folder in the listing *)
Definition visit_entry (rel : text) (x : text * node) : list Entry :=
  match x.2 with
  | Leaf l => leaf_entries rel x.1 l
  | Folder _ _ => if pruned_at rel x.1 then [] else visit (child rel x.1) x.2
  end.

Lemma visit_bind rel es f : visit rel (Folder es f) = es ≫= visit_entry rel.
Proof.
  induction es as [|[name m] es IH]; [done|].
  change (visit rel (Folder ((name, m) :: es) f)) with (visit_entry rel (name, m) ++ visit rel (Folder es f)).
  by rewrite IH.
Qed.

Lemma visit_below n rel e :
  named n → e ∈ visit rel n → ∃ name m, (∃ es f, n = Folder es f ∧ (name, m) ∈ es) ∧ below rel name (e_rel e).
Proof.
  revert rel e. induction n as [l|es f IH] using node_ind'; intros rel e Hn He; [by apply not_elem_of_nil in He|].
  apply named_folder in Hn as [_ Hn]. rewrite visit_bind in He.
  apply list_elem_of_bind in He as ([name m] & He & Hin). exists name, m. split; [by exists es, f|].
  destruct (Hn name m Hin) as (Hne & Hsl & Hm). unfold visit_entry in He. cbn [fst snd] in He.
  destruct m as [l|es' f'].
  - unfold WalkFacts.leaf_entries in He. destruct (filtered _ _ _); [by apply not_elem_of_nil in He|].
    destruct (lf_stat l); [|by apply not_elem_of_nil in He]. apply list_elem_of_singleton in He as ->.
    exists []. split; [by left|]. cbn. by rewrite app_nil_r.
  - destruct (pruned_at rel name); [by apply not_elem_of_nil in He|].
    destruct (IH name (Folder es' f') Hin (child rel name) e Hm He)
      as (b & m' & _ & r & _ & Hr).
    exists (SLASH :: b ++ r). split; [right; by eexists|]. rewrite Hr, child_child by done.
    by rewrite <- app_assoc.
Qed.

(** No two entries of the listing have one relative path. *)
Lemma visit_nodup n rel : named n → NoDup (map e_rel (visit rel n)).
Proof.
  revert rel. induction n as [l|es f IH] using node_ind'; intros rel Hn; [constructor|].
  pose proof Hn as [Hnd Hall]%named_folder. rewrite visit_bind.
  assert (map e_rel (es ≫= visit_entry rel) = es ≫= λ x, map e_rel (visit_entry rel x)) as ->.
  { clear. induction es as [|x es IH]; [done|]. cbn. by rewrite map_app, IH. }
  apply NoDup_bind.
  - intros [a m1] [b m2] t Ha Hb H1 H2.
    assert (∀ name m, (name, m) ∈ es → t ∈ map e_rel (visit_entry rel (name, m)) → below rel name t) as Hbelow.
    { intros name m Hin Ht. apply list_elem_of_fmap in Ht as (e & -> & He).
      destruct (Hall name m Hin) as (Hne & Hsl & Hm).
      destruct (visit_below (Folder [(name, m)] None) rel e) as (b' & m' & (es' & f' & [= <- <-] & Hin') & Hb').
      - apply named_folder. split; [apply NoDup_singleton|]. by intros ? ? [= -> ->]%list_elem_of_singleton.
      - rewrite visit_bind. apply list_elem_of_bind. exists (name, m). split; [done|left].
      - apply list_elem_of_singleton in Hin' as [= -> ->]. done. }
    assert (a = b) as <-.
    { destruct (Hall a m1 Ha) as (_ & ? & _), (Hall b m2 Hb) as (_ & ? & _).
      eapply below_inj; [done|done|by eapply Hbelow|by eapply Hbelow]. }
    f_equal. by eapply nodup_fst_inj.
  - intros [name m] Hin. unfold visit_entry. cbn [fst snd]. destruct (Hall name m Hin) as (_ & _ & Hm).
    destruct m as [l|es' f'].
    + unfold WalkFacts.leaf_entries. destruct (filtered _ _ _); [constructor|].
      destruct (lf_stat l); [apply NoDup_singleton|constructor].
    + destruct (pruned_at rel name); [constructor|]. by eapply IH.
  - by eapply NoDup_fmap_1.
Qed.
End distinct.

(** ** Properties *)

Definition no_audit (count : bool) : WalkAudit := mkAudit 0 0 0 0 [] count.

(** C25: the walk lists exactly the admitted files.  Over a readable tree it ends without an
    error, and it yields, once each, the files that its directories hold and the filter
    passes (a sidecar passes even when the exclusion spec matches it), in the directories
    reached through directories that are not pruned, with the size, time and identity of
    their [lstat]. *)
Theorem walk_exact uni_lower match_file fs root start_rel es audit :
  let start := Folder es None in
  readable start = true → named start →
  let o := walk uni_lower match_file fs root start_rel (Some start) true audit in
  error o = None ∧ NoDup (map e_rel (map fst (trace o))) ∧
  ∀ e, e ∈ map fst (trace o) ↔ admitted uni_lower match_file fs root start_rel start e.
Proof.
  intros start Hr Hn. cbv zeta. unfold walk.
  destruct (walk_loop_readable uni_lower match_file fs root (node_size start) [(start_rel, start)] [] audit)
    as (He & Hp & _).
  - cbn [map snd]. rewrite stack_size_cons. unfold stack_size. cbn [map list_sum foldr]. lia.
  - intros d n [= -> ->]%list_elem_of_singleton. split; [done|by exists es].
  - rewrite visits_one in Hp. cbn [map app] in Hp.
    split_and!; [done| |].
    + rewrite Hp. by apply visit_nodup.
    + intros e. split.
      * apply walk_loop_sound; [|by intros ? ?%not_elem_of_nil].
        intros d n [= -> ->]%list_elem_of_singleton. constructor.
      * intros Ha. rewrite Hp. by apply admitted_visit.
Qed.

(** The reconciliation the interface promises: with [count_pruned] on, over a readable
    tree, files seen + files excluded + files in pruned directories = files on disk. *)
Theorem walk_accounting uni_lower match_file fs root start_rel es :
  let start := Folder es None in
  readable start = true → named start →
  let o := walk uni_lower match_file fs root start_rel (Some start) true (no_audit true) in
  let seen : gset text := list_to_set (map e_rel (map fst (trace o))) in
  Z.of_nat (size seen) + excluded_filtered (final_audit o) + pruned_files (final_audit o) = files start ∧
  permission_denied (final_audit o) = 0.
Proof.
  intros start Hr Hn. cbv zeta. unfold walk.
  destruct (walk_loop_readable uni_lower match_file fs root (node_size start) [(start_rel, start)] [] (no_audit true))
    as (_ & Hp & Hd & Hc).
  - cbn [map snd]. rewrite stack_size_cons. unfold stack_size. cbn [map list_sum foldr]. lia.
  - intros d n [= -> ->]%list_elem_of_singleton. split; [done|by exists es].
  - split; [|done]. rewrite size_list_to_set, !length_map.
    + rewrite (Hc eq_refl). cbn [map snd]. rewrite stack_files_cons. change (stack_files []) with 0.
      unfold no_audit. cbn [length excluded_filtered pruned_files]. lia.
    + rewrite visits_one in Hp. cbn [map app] in Hp. rewrite Hp. by apply visit_nodup.
Qed.

(** A small library: a hidden directory with two files, an excluded file and a sidecar *)
Definition plain (size : Z) : node := Leaf (mkLeaf (Ok (mkStat 33188 size 0 1 7 1)) (Err OSError_)).
Definition example_tree : list (text * node) :=
  [(txt ".git", Folder [(txt "a", plain 1); (txt "b", plain 2)] None); (txt "skip.nfo", plain 3);
   (txt "skip.tmp", plain 4); (txt "m", Folder [(txt "x.mkv", plain 5)] None)].
Definition example_spec (t : text) : bool := starts_with t (txt ".git") || starts_with t (txt "skip").

Lemma walk_exact_witness :
  let start := Folder example_tree None in
  let o := walk (λ c, [c]) example_spec (λ _, None) (txt "/r") [] (Some start) true (no_audit false) in
  map e_rel (map fst (trace o)) = [txt "skip.nfo"; txt "m/x.mkv"] ∧
  ∀ e, e ∈ map fst (trace o) ↔ admitted (λ c, [c]) example_spec (λ _, None) (txt "/r") [] start e.
Proof.
  intros start o. split; [vm_compute; reflexivity|]. apply walk_exact; [vm_compute; reflexivity|].
  assert (∀ name m, (name, m) ∈ example_tree → name ≠ [] ∧ SLASH ∉ name) as Hnames.
  { intros name m H. elem_cases H; injection H as -> ->; split; (discriminate || by apply (bool_decide_eq_true_1 _)). }
  apply named_folder. split; [apply (bool_decide_eq_true_1 _); vm_compute; reflexivity|].
  intros name m H. destruct (Hnames name m H). split_and!; [done|done|].
  elem_cases H; injection H as -> ->; try exact I; apply named_folder;
    (split; [apply (bool_decide_eq_true_1 _); vm_compute; reflexivity|]);
    intros name m H; elem_cases H; injection H as -> ->;
    split_and!; (discriminate || exact I || by apply (bool_decide_eq_true_1 _)).
Defined.

Lemma walk_accounting_witness :
  let start := Folder example_tree None in
  let o := walk (λ c, [c]) example_spec (λ _, None) (txt "/r") [] (Some start) true (no_audit true) in
  let seen : gset text := list_to_set (map e_rel (map fst (trace o))) in
  files start = 5 ∧ (size seen, excluded_filtered (final_audit o), pruned_files (final_audit o)) = (2%nat, 1, 2) ∧
  Z.of_nat (size seen) + excluded_filtered (final_audit o) + pruned_files (final_audit o) = files start.
Proof.
  intros start o seen. split_and!; [reflexivity|vm_compute; reflexivity|].
  assert (named start) as Hn.
  { apply named_folder. split; [apply (bool_decide_eq_true_1 _); vm_compute; reflexivity|].
  intros name m H. elem_cases H; injection H as -> ->;
    (split_and!; [discriminate|by apply (bool_decide_eq_true_1 _)|]); try exact I; apply named_folder;
    (split; [apply (bool_decide_eq_true_1 _); vm_compute; reflexivity|]);
    intros name m H; elem_cases H; injection H as -> ->;
    split_and!; (discriminate || exact I || by apply (bool_decide_eq_true_1 _)). }
  assert (readable start = true) as Hr by (vm_compute; reflexivity).
  destruct (walk_accounting (λ c, [c]) example_spec (λ _, None) (txt "/r") [] example_tree Hr Hn) as [H _].
  exact H.
Defined.
