(* ===== verification/Scan.v ===== *)
(** * The library scan ([tasks/scan.py])

    One run of the scan job: the diff of the walk against the catalogue, the batch
    commits with their extract jobs, move detection, tombstones and the final report.
    The session is a state; every commit and every enqueued job is an effect recorded
    in order, so a crash leaves exactly the committed part. *)
From S2P Require Import Prelude PyStr Uuid Utf8 PathLabel Text Json Catalog HashPolicy Sidecar Metadata Alerts Walk Move Associate.
From stdpp Require Import options.

Record Library := mkLibrary {
  lib_id : Z;
  root_path : text;
  enabled_categories : list string;
  enabled_groups : list string;
  count_pruned_files : bool;
  lib_hash_policy : string;
  hash_full_max_bytes : option Z;
}.

Record Settings := mkSettings {
  staged_pipeline : bool;
  scan_empty_guard : bool;
  scan_cross_library_moves : bool;
  scan_hash_full_max_bytes : Z;
  sidecar_metadata_priority : string;
}.

Inductive run_status := running | stopping | cancelled | finished | stopped | failed.
Global Instance run_status_eq_dec : EqDecision run_status.
Proof. solve_decision. Defined.

Inductive scan_error :=
  | ScanRootError
  | WalkError
  | RowError (e : move_error)
  | DataError.

(** The counters of [ScanRun.stats] *)
Record Stats := mkScanStats {
  t_seen : Z;
  t_new : Z;
  t_changed : Z;
  t_missing : Z;
  t_bytes : Z;
  t_excluded : Z;
  t_pruned_files : Z;
  t_moved : Z;
  t_move_ambiguous : Z;
  t_cross_moved : Z;
  t_cross_move_ambiguous : Z;
}.

(** What the outside sees, in order; a commit that does not write the run's status
    leaves what was there.  [Defer]: one batch of extract jobs; [Sync]: one job of the
    search index. *)
Inductive effect :=
  | Commit (items : rows) (events : list AlertEvent) (status : option run_status) (stats : Stats)
  | Defer (ids : list Z)
  | Sync (ids : list Z).

(** The session and the local variables of the run *)
Record Scan := mkScan {
  s_rows : rows;
  s_events : list AlertEvent;
  s_seen : gset text;
  s_new : Z;
  s_changed : Z;
  s_bytes : Z;
  s_gate : Z;
  s_pending : list Z;
  s_new_ids : list Z;
  s_drafts : list AlertDraft;
  s_made : nat;
  s_polls : nat;
  s_effects : list effect;
}.

Definition set_rows (st : Scan) (m : rows) : Scan :=
  mkScan m (s_events st) (s_seen st) (s_new st) (s_changed st) (s_bytes st) (s_gate st) (s_pending st)
    (s_new_ids st) (s_drafts st) (s_made st) (s_polls st) (s_effects st).
Definition set_alerts (st : Scan) (events : list AlertEvent) (drafts : list AlertDraft) : Scan :=
  mkScan (s_rows st) events (s_seen st) (s_new st) (s_changed st) (s_bytes st) (s_gate st) (s_pending st)
    (s_new_ids st) drafts (s_made st) (s_polls st) (s_effects st).
Definition set_pending (st : Scan) (pending : list Z) : Scan :=
  mkScan (s_rows st) (s_events st) (s_seen st) (s_new st) (s_changed st) (s_bytes st) (s_gate st) pending
    (s_new_ids st) (s_drafts st) (s_made st) (s_polls st) (s_effects st).
Definition set_counts (st : Scan) (seen : gset text) (new changed bytes gate : Z) : Scan :=
  mkScan (s_rows st) (s_events st) seen new changed bytes gate (s_pending st)
    (s_new_ids st) (s_drafts st) (s_made st) (s_polls st) (s_effects st).
Definition add_new (st : Scan) (ids : list Z) : Scan :=
  mkScan (s_rows st) (s_events st) (s_seen st) (s_new st) (s_changed st) (s_bytes st) (s_gate st) (s_pending st)
    (s_new_ids st ++ ids) (s_drafts st) (S (s_made st)) (s_polls st) (s_effects st).
Definition emit (st : Scan) (effects : list effect) : Scan :=
  mkScan (s_rows st) (s_events st) (s_seen st) (s_new st) (s_changed st) (s_bytes st) (s_gate st) (s_pending st)
    (s_new_ids st) (s_drafts st) (s_made st) (s_polls st) (s_effects st ++ effects).
Definition poll (st : Scan) : Scan :=
  mkScan (s_rows st) (s_events st) (s_seen st) (s_new st) (s_changed st) (s_bytes st) (s_gate st) (s_pending st)
    (s_new_ids st) (s_drafts st) (s_made st) (S (s_polls st)) (s_effects st).

(** ** Rows *)

Definition blank_curated (now : Z) : Curated := mkCurated None None [] ∅ ∅ ∅ now.

(** [os.path.splitext(path)[1].lstrip(".").lower() or None] *)
Definition extension_of (uni_lower : Z → list Z) (path : text) : option text :=
  or_none (tlower uni_lower (lstrip DOT (splitext path).2)).

Definition new_row (uni_lower : Z → list Z) (id : Z) (lib : Library) (cls : string * string) (e : Entry)
    (scope : string) (now : Z) : Item :=
  mkItem id (lib_id lib) (Some cls.1) (Some cls.2) active (e_path e) (e_rel e) (basename (e_path e))
    (extension_of uni_lower (e_path e)) (e_size e) (e_mtime e) None None None
    (Some (f_nlink (e_fsid e))) (f_inode (e_fsid e)) (f_dev (e_fsid e)) (f_symlink_target (e_fsid e))
    now None None (Some scope) None None (blank_curated now).

(** Size, time or symlink target differ: the row is modified and active again. *)
Definition modified_row (it : Item) (e : Entry) (now : Z) : Item :=
  mkItem (i_id it) (i_library_id it) (i_file_category it) (i_file_group it) active (e_path e)
    (i_rel_path it) (i_filename it) (i_extension it) (e_size e) (e_mtime e)
    (i_quick_hash it) (i_content_hash it) (i_mid_hash it) (Some (f_nlink (e_fsid e)))
    (f_inode (e_fsid e)) (f_dev (e_fsid e)) (f_symlink_target (e_fsid e)) now (i_deleted_at it)
    (i_sidecar_of it) (i_path_scope it) (i_source_agent_id it) (i_share_hint it) (i_curated it).

(** Nothing differs: refresh what a mount or a hardlink may have moved, and take a
    missing row back. *)
Definition unchanged_row (it : Item) (e : Entry) (now : Z) : Item :=
  let id := e_fsid e in
  let known := bool_decide (is_Some (f_inode id)) in
  mkItem (i_id it) (i_library_id it) (i_file_category it) (i_file_group it)
    (match i_status it with missing => active | s => s end) (e_path e)
    (i_rel_path it) (i_filename it) (i_extension it) (i_size it) (i_mtime it)
    (i_quick_hash it) (i_content_hash it) (i_mid_hash it)
    (if known then Some (f_nlink id) else i_nlink it) (if known then f_inode id else i_inode it)
    (if known then f_dev id else i_dev it) (if known then f_symlink_target id else i_symlink_target it)
    now (i_deleted_at it) (i_sidecar_of it) (i_path_scope it) (i_source_agent_id it) (i_share_hint it) (i_curated it).

Definition set_status (it : Item) (s : ItemStatus) : Item :=
  mkItem (i_id it) (i_library_id it) (i_file_category it) (i_file_group it) s
    (i_path it) (i_rel_path it) (i_filename it) (i_extension it) (i_size it) (i_mtime it)
    (i_quick_hash it) (i_content_hash it) (i_mid_hash it) (i_nlink it) (i_inode it) (i_dev it)
    (i_symlink_target it) (i_last_seen it) (i_deleted_at it) (i_sidecar_of it) (i_path_scope it)
    (i_source_agent_id it) (i_share_hint it) (i_curated it).

Definition differs (it : Item) (e : Entry) : bool :=
  negb (i_size it =? e_size e) || negb (i_mtime it =? e_mtime e) ||
  negb (bool_decide (i_symlink_target it = f_symlink_target (e_fsid e))).

(** The dict [existing]: the rows of the library by relative path, in query order *)
Definition existing_map : Type := list (text * Z).
Fixpoint find_row (rel : text) (existing : existing_map) : option Z :=
  match existing with
  | [] => None
  | (r, i) :: rest => if bool_decide (r = rel) then Some i else find_row rel rest
  end.

Definition FLUSH_EVERY : nat := 250.
Definition DEFER_CHUNK : nat := 1000.
Definition WALK_BATCH : nat := 250.

(** One [batch_defer_async] per chunk *)
Definition _defer_extract_batch (ids : list Z) : list effect := map Defer (chunked DEFER_CHUNK ids).

(** [for start in range(0, len(ids), 1000): await sync_items.defer_async(...)] *)
Definition SYNC_CHUNK : nat := 1000.
Definition sync_items (ids : list Z) : list effect := map Sync (chunked SYNC_CHUNK ids).

(** The entries as the loop receives them, each with the audit as it stands when its
    batch was pulled; a walk that raises takes its last, unfinished batch with it. *)
Fixpoint delivered_entries (fuel : nat) (l : list (Entry * WalkAudit)) (final : WalkAudit) (err : bool) :
    list (Entry * WalkAudit) :=
  match fuel with
  | O => []
  | S k =>
      let chunk := take WALK_BATCH l in
      if bool_decide (length chunk = WALK_BATCH) then
        map (λ '(e, _), (e, match last chunk with Some (_, a) => a | None => final end)) chunk ++
        delivered_entries k (drop WALK_BATCH l) final err
      else if err then [] else map (λ '(e, _), (e, final)) chunk
  end.
Definition deliver (w : walk_out) : list (Entry * WalkAudit) :=
  delivered_entries (S (length (trace w))) (trace w) (final_audit w)
    (bool_decide (is_Some (error w))).

(** ** The run *)

Inductive walk_end := WalkDone | WalkStopped | WalkAborted.

Section scan.
Context (uni_lower : Z → list Z) (match_file : text → bool) (fs : text → option (list Z)).
Context (xxh3_64 xxh3_128 blake2b64 sha256 : list Z → string) (glob : text → option (text → bool)).
(** The orders the database chooses, and the libraries of agents *)
Context (flush_order : list (Z * Item) → list (Z * Item)) (query_order : list Item → list Item).
Context (fetch_order : list Z → list Z) (agent_library : Z → bool).
(** The ids the database assigns, the status the API has set at each poll, the clock
    at each entry of the walk *)
Context (new_id : nat → Z) (signal : nat → run_status) (clock : nat → Z).
Context (tax : Taxonomy) (settings : Settings) (lib : Library).

Section run.
Context (policy : ResolvedHashPolicy) (rules : list AlertRule) (already_queued : list Z).
Context (existing : existing_map).

Definition _capture (event_type : string) (rel : text) (id : Z) (old : option string) (now : Z) (st : Scan) : Scan :=
  match rules with
  | [] => st
  | _ =>
      set_alerts st (s_events st)
        (s_drafts st ++ evaluate_event uni_lower glob sha256 rules
          (mkEvent event_type (uuid_str (lib_id lib)) rel old None) (Some id) now)
  end.

Definition gate_active : bool :=
  negb (bool_decide (enabled_categories lib = [])) || negb (bool_decide (enabled_groups lib = [])).

Definition is_sidecar (e : Entry) : bool := bool_decide (is_Some (classify uni_lower (e_rel e))).
Definition is_symlink (e : Entry) : bool := bool_decide (is_Some (f_symlink_target (e_fsid e))).

Definition gated (e : Entry) : bool :=
  let '(category, group) := detect uni_lower tax (e_path e) in
  gate_active && negb (is_sidecar e) && negb (bool_decide (category ∈ enabled_categories lib)) &&
  negb (bool_decide (group ∈ enabled_groups lib)).

(** A file that was seen for the first time *)
Definition create_item (now : Z) (st : Scan) (e : Entry) : result scan_error Scan :=
  let id := new_id (s_made st) in
  match path_to_ltree blake2b64 (e_rel e) (Some (lib_id lib)) SLASH with
  | Err err => Err (RowError (LabelError err))
  | Ok scope =>
      match update_row (s_rows st) id
              (new_row uni_lower id lib (detect uni_lower tax (e_path e)) e scope now) with
      | Err err => Err (RowError err)
      | Ok m =>
          let st := set_counts (set_rows st m) (s_seen st) (s_new st + 1) (s_changed st) (s_bytes st) (s_gate st) in
          if is_sidecar e || is_symlink e then Ok (add_new st [])
          else Ok (_capture "created" (e_rel e) id None now (set_pending (add_new st [id]) (s_pending st ++ [id])))
      end
  end.

(** A file the catalogue has under this path *)
Definition update_item (now : Z) (st : Scan) (e : Entry) (id : Z) (it : Item) : Scan :=
  if differs it e then
    let st := set_rows st (<[id := modified_row it e now]> (s_rows st)) in
    let st := set_counts st (s_seen st) (s_new st) (s_changed st + 1) (s_bytes st) (s_gate st) in
    if is_sidecar e || is_symlink e then st
    else _capture "modified" (e_rel e) id (i_quick_hash it) now (set_pending st (s_pending st ++ [id]))
  else
    let st := set_rows st (<[id := unchanged_row it e now]> (s_rows st)) in
    if bool_decide (i_quick_hash it = None) && negb (is_sidecar e) && negb (is_symlink e) &&
       negb (bool_decide (id ∈ already_queued))
    then set_pending st (s_pending st ++ [id]) else st.

(** One turn of the loop; [false] where the gate skipped the file *)
Definition on_entry (k : nat) (st : Scan) (e : Entry) : result scan_error (Scan * bool) :=
  if gated e then
    Ok (set_counts st (s_seen st) (s_new st) (s_changed st) (s_bytes st) (s_gate st + 1), false)
  else
    let st := set_counts st ({[e_rel e]} ∪ s_seen st) (s_new st) (s_changed st) (s_bytes st + e_size e) (s_gate st) in
    match find_row (e_rel e) existing with
    | None => st <-! create_item (clock k) st e; Ok (st, true)
    | Some id =>
        match s_rows st !! id with
        | None => Ok (st, true)
        | Some it => Ok (update_item (clock k) st e id it, true)
        end
    end.

Definition persist (st : Scan) : Scan :=
  match rules, s_drafts st with
  | _ :: _, _ :: _ => set_alerts st (persist_drafts (s_events st) (s_drafts st)).1 []
  | _, _ => st
  end.

Definition progress (st : Scan) (audit : WalkAudit) : Stats :=
  mkScanStats (Z.of_nat (size (s_seen st))) (s_new st) (s_changed st) 0 (s_bytes st)
    (s_gate st + excluded_filtered audit) (pruned_files audit) 0 0 0 0.

(** Commit the batch, then enqueue its extract jobs unless they are staged. *)
Definition publish_progress (st : Scan) (audit : WalkAudit) : Scan :=
  let st := persist st in
  let st := emit st [Commit (s_rows st) (s_events st) None (progress st audit)] in
  if staged_pipeline settings then st
  else set_pending (emit st (_defer_extract_batch (s_pending st))) [].

(** The loop over the entries.  On an exception the state is the one at the raise. *)
Fixpoint process (l : list (Entry * WalkAudit)) (k : nat) (st : Scan) (audit : WalkAudit) :
    result (Scan * scan_error) (Scan * walk_end * WalkAudit) :=
  match l with
  | [] => Ok (st, WalkDone, audit)
  | (e, a) :: rest =>
      match on_entry k st e with
      | Err err => Err (st, err)
      | Ok (st, counted) =>
          if counted && (Nat.eqb (size (s_seen st) mod FLUSH_EVERY) 0) then
            let st := publish_progress st a in
            let status := signal (s_polls st) in
            let st := poll st in
            match status with
            | running => process rest (S k) st a
            | stopping => Ok (st, WalkStopped, a)
            | _ => Ok (emit st [Commit (s_rows st) (s_events st) None (progress st a)], WalkAborted, a)
            end
          else process rest (S k) st a
      end
  end.

(** *** After the walk *)

Definition row_of (st : Scan) (id : Z) : option Item := s_rows st !! id.

Definition prior_active (st : Scan) : nat :=
  length (filterb (λ '(_, id), match row_of st id with Some it => is_active it | None => false end) existing).

(** The walk saw nothing at all in a library that had active items. *)
Definition empty_mount (st : Scan) (audit : WalkAudit) (scope : text) (force_empty : bool) : bool :=
  bool_decide (scope = []) && negb force_empty && scan_empty_guard settings &&
  bool_decide (s_seen st = ∅) && (s_gate st + excluded_filtered audit + pruned_dirs audit =? 0) &&
  negb (Nat.eqb (prior_active st) 0).

(** In the scanned set, not seen *)
Definition vanished (st : Scan) (scope : text) (is_file recursive : bool) : existing_map :=
  filterb (λ '(rel, _), _in_scanned_set rel scope is_file recursive && negb (bool_decide (rel ∈ s_seen st))) existing.

Definition move_candidates (st : Scan) (scope : text) (is_file recursive : bool) : list Z :=
  map snd (filterb (λ '(_, id), match row_of st id with
    | Some it => is_active it && bool_decide (is_Some (i_quick_hash it))
    | None => false end) (vanished st scope is_file recursive)).

(** The ids of [ids] that no longer have a row *)
Definition dropped_ids (m : rows) (ids : list Z) : list Z :=
  filterb (λ i, negb (bool_decide (is_Some (m !! i)))) ids.
Definition without (ids gone : list Z) : list Z := filterb (λ i, negb (bool_decide (i ∈ gone))) ids.

(** One moved event per relocation, in place of the created event of its duplicate *)
Definition retract_created (moved_out : list MovedOut) (st : Scan) : Scan :=
  let dups := map duplicate_id moved_out in
  let paths := map survivor_rel_path moved_out in
  set_alerts st
    (filterb (λ ev, negb (bool_decide (d_event_type (ae_draft ev) = "created") && negb (delivered ev) &&
        bool_decide (d_library_id (ae_draft ev) = uuid_str (lib_id lib)) &&
        bool_decide (p_rel_path (d_payload (ae_draft ev)) ∈ paths))) (s_events st))
    (filterb (λ d, match d_item_id d with Some i => negb (bool_decide (i ∈ dups)) | None => true end)
      (s_drafts st)).

Definition capture_moves (moved_out : list MovedOut) (now : Z) (st : Scan) : Scan :=
  match rules, moved_out with
  | _ :: _, _ :: _ =>
      foldl (λ st mo, _capture "moved" (survivor_rel_path mo) (survivor_id mo) None now st)
        (retract_created moved_out st) moved_out
  | _, _ => st
  end.

Definition move_pass (st : Scan) (stop_requested : bool) (scope : text) (is_file recursive : bool) (now : Z) :
    result (Scan * scan_error) (Scan * move_stats * list Z) :=
  let candidates := if stop_requested then [] else move_candidates st scope is_file recursive in
  if bool_decide (candidates = []) || bool_decide (s_new_ids st = []) then Ok (st, mkStats 0 0, [])
  else
    let new_items := fetch_order (s_new_ids st) in
    match detect_moves xxh3_64 xxh3_128 blake2b64 fs flush_order (s_rows st) candidates new_items
            (full_max_bytes policy) (compute_content policy) now with
    | Err err => Err (st, RowError err)
    | Ok (m, stats, moved_out) =>
        let st := set_pending (set_rows st m) (without (s_pending st) (dropped_ids m new_items)) in
        Ok (capture_moves moved_out now st, stats, map survivor_id moved_out)
    end.

Definition cross_pass (st : Scan) (stop_requested : bool) (now : Z) :
    result (Scan * scan_error) (Scan * move_stats) :=
  if stop_requested || bool_decide (s_new_ids st = []) || negb (scan_cross_library_moves settings)
  then Ok (st, mkStats 0 0)
  else
    let remaining := fetch_order (filterb (λ i, bool_decide (is_Some (s_rows st !! i))) (s_new_ids st)) in
    if bool_decide (remaining = []) then Ok (st, mkStats 0 0)
    else
      match detect_cross_library_moves xxh3_64 xxh3_128 blake2b64 fs flush_order agent_library query_order
              (s_rows st) remaining (lib_id lib) (full_max_bytes policy) (compute_content policy) now with
      | Err err => Err (st, RowError err)
      | Ok (m, stats, survivors) =>
          let st := set_rows st m in
          if moved stats =? 0 then Ok (st, stats)
          else Ok (set_pending st (without (s_pending st) (dropped_ids m remaining) ++ survivors), stats)
      end.

(** The tombstones of a full walk *)
Fixpoint tombstone (l : existing_map) (now : Z) (st : Scan) (missing_ : Z) : Scan * Z :=
  match l with
  | [] => (st, missing_)
  | (rel, id) :: rest =>
      match row_of st id with
      | Some it =>
          if negb (bool_decide (i_rel_path it ∈ s_seen st)) && is_active it then
            tombstone rest now
              (_capture "deleted" rel id None now (set_rows st (<[id := set_status it missing]> (s_rows st))))
              (missing_ + 1)
          else tombstone rest now st missing_
      | None => tombstone rest now st missing_
      end
  end.

Definition final_stats (st : Scan) (audit : WalkAudit) (missing_ : Z) (moves cross : move_stats) : Stats :=
  mkScanStats (Z.of_nat (size (s_seen st))) (s_new st - moved moves - moved cross) (s_changed st) missing_
    (s_bytes st) (s_gate st + excluded_filtered audit) (pruned_files audit)
    (moved moves) (move_ambiguous moves) (moved cross) (move_ambiguous cross).

(** From the walk to the commit that ends the run, and its extract jobs *)
Definition wrap_up (st : Scan) (audit : WalkAudit) (stop_requested : bool) (scope : text)
    (is_file recursive force_empty : bool) (now : Z) : result (Scan * scan_error) (Scan * Stats * list Z) :=
  if negb stop_requested && empty_mount st audit scope force_empty then Err (st, ScanRootError)
  else
    '(st, moves, survivors) <-! move_pass st stop_requested scope is_file recursive now;
    '(st, cross) <-! cross_pass st stop_requested now;
    let '(st, missing_) :=
      if stop_requested then (st, 0) else tombstone (vanished st scope is_file recursive) now st 0 in
    let stats := final_stats st audit missing_ moves cross in
    let st := persist st in
    let st := emit st [Commit (s_rows st) (s_events st) (Some (if stop_requested then stopped else finished)) stats] in
    Ok (set_pending (emit st (_defer_extract_batch (s_pending st))) [], stats, survivors).
End run.

(** ** The whole scan *)

(** What a path below the root is on disk, links followed, and its [lstat] *)
Context (on_disk : text → option node) (lstat : text → result os_error leaf).
(** The mount table and the links of a path, for the [auto] hash policy *)
Context (uni_decimal : Z → option Z) (realpath : text → text) (mountinfo : option text).
(** [str.isdigit] and the XML parser, for the metadata sidecars *)
Context (uni_digit : Z → bool) (fromstring : list Z → option elem).

Definition in_library (it : Item) : bool := i_library_id it =? lib_id lib.

Definition library_rows (m : rows) : list Item :=
  query_order (filterb in_library (map snd (map_to_list m))).

Definition load_existing (m : rows) : existing_map := map (λ it, (i_rel_path it, i_id it)) (library_rows m).

(** The root is a directory, and its listing does not fail at the first entry. *)
Definition assert_scannable_root : bool :=
  match on_disk [] with
  | Some (Folder [] (Some _)) => false
  | Some (Folder _ _) => true
  | _ => false
  end.

Definition is_regular (l : leaf) : bool :=
  match lf_stat l with Ok st => S_ISREG (st_mode st) | Err _ => false end.

(** [None]: a directory that is not there; the run ends and writes nothing. *)
Definition scope_is_file (m : rows) (scope : text) : option bool :=
  let absent :=
    if existsb (λ it, bool_decide (i_rel_path it = scope)) (library_rows m) then Some true else None in
  match scope with
  | [] => Some false
  | _ =>
      match on_disk scope with
      | Some (Folder _ _) => Some false
      | Some (Leaf l) => if is_regular l then Some true else absent
      | None => absent
      end
  end.

Definition start_state (m : rows) (events : list AlertEvent) : Scan :=
  mkScan m events ∅ 0 0 0 0 [] [] [] 0 0 [].

Definition no_stats : Stats := mkScanStats 0 0 0 0 0 0 0 0 0 0 0.

Definition list_scope (scope : text) (is_file recursive : bool) : walk_out :=
  let audit := mkAudit 0 0 0 0 [] (count_pruned_files lib) in
  if is_file then
    mkWalkOut (map (λ e, (e, audit)) (_walk_one_file uni_lower match_file (root_path lib) scope (lstat scope)))
      audit None
  else walk uni_lower match_file fs (root_path lib) scope (on_disk scope) recursive audit.

Inductive outcome := Report (stats : Stats) (sidecars : sidecar_stats) | ScopeMissing | Aborted.

(** [_reindex_library] *)
Definition _reindex_library (m : rows) : list effect :=
  sync_items (map i_id (filterb is_active (library_rows m))).

(** The association pass after the run's commit, and the index jobs of the scan *)
Definition associate (st : Scan) (stats : Stats) (survivors : list Z) :
    result (Scan * scan_error) (Scan * outcome) :=
  match associate_sidecars uni_lower uni_decimal uni_digit fromstring fs
          (bool_decide (sidecar_metadata_priority settings = "sidecar"))
          (library_rows (s_rows st)) (s_rows st) with
  | None => Err (st, DataError)
  | Some (m, sidecars, changed_ids) =>
      let st := set_rows st m in
      let commit := Commit m (s_events st) None stats in
      let index := if 0 <? parents_updated sidecars then _reindex_library m else sync_items changed_ids in
      Ok (emit st (commit :: index ++ sync_items survivors ++ [commit]), Report stats sidecars)
  end.

Definition _scan_body (m : rows) (events : list AlertEvent) (rule_rows : list AlertRule)
    (already_queued : list Z) (scope_rel : option text) (recursive force_empty : bool) (now : Z) :
    result (Scan * scan_error) (Scan * outcome) :=
  let scope := _norm_scope scope_rel in
  let st := start_state m events in
  if negb assert_scannable_root then Err (st, ScanRootError)
  else
    match scope_is_file m scope with
    | None => Ok (emit st [Commit m events (Some finished) no_stats], ScopeMissing)
    | Some is_file =>
        let policy := (resolve_hash_policy uni_lower uni_decimal realpath ∅ now mountinfo
          (lib_hash_policy lib) (root_path lib) (hash_full_max_bytes lib)
          (scan_hash_full_max_bytes settings)).1 in
        let existing := load_existing m in
        let rules := match load_enabled_rules glob rule_rows with Ok rs => rs | Err _ => [] end in
        let w := list_scope scope is_file recursive in
        '(st, ending, audit) <-! process rules already_queued existing (deliver w) 0 st (final_audit w);
        match ending with
        | WalkAborted => Ok (st, Aborted)
        | WalkDone =>
            match error w with
            | Some _ => Err (st, WalkError)
            | None =>
                '(st, stats, survivors) <-! wrap_up policy rules existing st (final_audit w) false scope is_file
                  recursive force_empty now;
                associate st stats survivors
            end
        | WalkStopped =>
            '(st, stats, survivors) <-! wrap_up policy rules existing st audit true scope is_file recursive
              force_empty now;
            associate st stats survivors
        end
    end.

(** The rows and events of the last commit *)
Definition committed (m : rows) (events : list AlertEvent) (effects : list effect) : rows * list AlertEvent :=
  foldl (λ acc x, match x with Commit m ev _ _ => (m, ev) | _ => acc end) (m, events) effects.

(** The job: on an exception the session is rolled back and the run marked failed. *)
Definition scan_library (m : rows) (events : list AlertEvent) (rule_rows : list AlertRule)
    (already_queued : list Z) (rel_path : option text) (recursive force_empty : bool) (now : Z) :
    list effect * result scan_error outcome :=
  match _scan_body m events rule_rows already_queued rel_path recursive force_empty now with
  | Ok (st, out) => (s_effects st, Ok out)
  | Err (st, err) =>
      let '(m', events') := committed m events (s_effects st) in
      (s_effects st ++ [Commit m' events' (Some failed) no_stats], Err err)
  end.

End scan.

(** ** The environment of a scan in one record *)

Record World := mkWorld {
  w_lower : Z → list Z;
  w_spec : text → bool;
  w_fs : text → option (list Z);
  w_xxh3_64 : list Z → string;
  w_xxh3_128 : list Z → string;
  w_blake2b64 : list Z → string;
  w_sha256 : list Z → string;
  w_glob : text → option (text → bool);
  w_flush : list (Z * Item) → list (Z * Item);
  w_query : list Item → list Item;
  w_fetch : list Z → list Z;
  w_agent : Z → bool;
  w_new_id : nat → Z;
  w_signal : nat → run_status;
  w_clock : nat → Z;
  w_tax : Taxonomy;
  w_settings : Settings;
  w_lib : Library;
  w_on_disk : text → option node;
  w_lstat : text → result os_error leaf;
  w_decimal : Z → option Z;
  w_realpath : text → text;
  w_mountinfo : option text;
  w_digit : Z → bool;
  w_xml : list Z → option elem;
}.

(** The arguments of the job and the state it starts from *)
Record Job := mkJob {
  j_rows : rows;
  j_events : list AlertEvent;
  j_rules : list AlertRule;
  j_queued : list Z;
  j_rel_path : option text;
  j_recursive : bool;
  j_force_empty : bool;
  j_now : Z;
}.

Definition scan (w : World) (j : Job) : list effect * result scan_error outcome :=
  scan_library (w_lower w) (w_spec w) (w_fs w) (w_xxh3_64 w) (w_xxh3_128 w) (w_blake2b64 w) (w_sha256 w)
    (w_glob w) (w_flush w) (w_query w) (w_fetch w) (w_agent w) (w_new_id w) (w_signal w) (w_clock w) (w_tax w)
    (w_settings w) (w_lib w) (w_on_disk w) (w_lstat w) (w_decimal w) (w_realpath w) (w_mountinfo w) (w_digit w) (w_xml w)
    (j_rows j) (j_events j) (j_rules j) (j_queued j) (j_rel_path j) (j_recursive j) (j_force_empty j) (j_now j).

Definition listing (w : World) (scope : text) (is_file recursive : bool) : walk_out :=
  list_scope (w_lower w) (w_spec w) (w_fs w) (w_lib w) (w_on_disk w) (w_lstat w) scope is_file recursive.

Definition scope_of (w : World) (j : Job) : option bool :=
  scope_is_file (w_query w) (w_lib w) (w_on_disk w) (j_rows j) (_norm_scope (j_rel_path j)).
