(* ===== verification/ScanFacts.v ===== *)
(** * The library scan: facts and properties *)
From S2P Require Import Prelude PyStr Uuid Utf8 PathLabel Text Json Catalog HashPolicy Sidecar Metadata Alerts Walk WalkFacts Move Associate MoveFacts Scan.
From stdpp Require Import options.

(** ** Effects *)

(** The ids of an enqueued job *)
Definition job_ids (x : effect) : option (list Z) :=
  match x with Commit _ _ _ _ => None | Defer ids | Sync ids => Some ids end.

Definition last_rows (cur : rows) (l : list effect) : rows :=
  foldl (λ acc x, match x with Commit m _ _ _ => m | _ => acc end) cur l.

(** Every enqueued id, for extraction or for the index, has a row in the latest commit
    before it. *)
Fixpoint defers_ok (cur : rows) (l : list effect) : Prop :=
  match l with
  | [] => True
  | x :: l' =>
      match job_ids x with Some ids => ∀ i, i ∈ ids → is_Some (cur !! i) | None => True end ∧
      defers_ok (last_rows cur [x]) l'
  end.

Lemma last_rows_app cur l1 l2 : last_rows cur (l1 ++ l2) = last_rows (last_rows cur l1) l2.
Proof. unfold last_rows. apply foldl_app. Qed.

Lemma defers_ok_app cur l1 l2 : defers_ok cur (l1 ++ l2) ↔ defers_ok cur l1 ∧ defers_ok (last_rows cur l1) l2.
Proof.
  revert cur. induction l1 as [|x l1 IH]; intros cur; [naive_solver|]. cbn [app defers_ok].
  rewrite IH. change (last_rows cur (x :: l1)) with (last_rows (last_rows cur [x]) l1). tauto.
Qed.

Lemma committed_rows m ev l : (committed m ev l).1 = last_rows m l.
Proof.
  unfold committed, last_rows. revert m ev. induction l as [|x l IH]; intros m ev; [done|].
  destruct x; cbn; apply IH.
Qed.

(** Jobs only *)
Definition only_jobs (ids : list Z) (l : list effect) : Prop :=
  ∀ e, e ∈ l → ∃ c, job_ids e = Some c ∧ ∀ i, i ∈ c → i ∈ ids.

Lemma defer_batch_jobs ids : only_jobs ids (_defer_extract_batch ids).
Proof.
  intros e (c & -> & Hc)%list_elem_of_fmap. exists c. split; [done|]. intros i. by eapply chunks_elem.
Qed.

Lemma sync_jobs ids : only_jobs ids (sync_items ids).
Proof.
  intros e (c & -> & Hc)%list_elem_of_fmap. exists c. split; [done|]. intros i. by eapply chunks_elem.
Qed.

Lemma jobs_ok cur ids l :
  only_jobs ids l → (∀ i, i ∈ ids → is_Some (cur !! i)) → defers_ok cur l ∧ last_rows cur l = cur.
Proof.
  intros Hl Hids. induction l as [|e l IH]; [done|].
  destruct (Hl e) as (c & Hj & Hc); [left|]. destruct IH as [H1 H2]; [intros e' ?; apply Hl; by right|].
  cbn [defers_ok]. assert (last_rows cur [e] = cur) as He by (by destruct e). rewrite Hj, He.
  split; [split; [auto|done]|]. change (e :: l) with ([e] ++ l). by rewrite last_rows_app, He.
Qed.

Lemma jobs_no_commit ids l m ev s t : only_jobs ids l → Commit m ev s t ∉ l.
Proof. intros Hl Hin. by destruct (Hl _ Hin) as (c & ? & _). Qed.

(** The chunks together are the whole batch, in order. *)
Lemma defer_batch_all ids :
  (_defer_extract_batch ids ≫= λ e, default [] (job_ids e)) = ids.
Proof.
  unfold _defer_extract_batch. rewrite <- (chunks_concat DEFER_CHUNK ids) at 2 by (unfold DEFER_CHUNK; lia).
  induction (chunked DEFER_CHUNK ids) as [|c l IH]; [done|]. cbn. by rewrite <- IH.
Qed.

(** ** The catalogue during a run *)

(** Every row of [m0] is in [m] with its curated columns; a row that turned [missing]
    satisfies [gone]. *)
Definition keeps (gone : Z → Item → Prop) (m0 m : rows) : Prop :=
  ∀ i it0, m0 !! i = Some it0 → ∃ it, m !! i = Some it ∧ i_curated it = i_curated it0 ∧
    (i_status it = missing → i_status it0 = missing ∨ gone i it0).

Definition nobody (_ : Z) (_ : Item) : Prop := False.

Lemma keeps_refl gone m : keeps gone m m.
Proof. intros i it0 H. exists it0. naive_solver. Qed.

Definition keyed (m : rows) : Prop := ∀ i it, m !! i = Some it → i_id it = i.

(** The same across the association pass, which may write curated columns *)
Definition keeps_by (o : bool) (gone : Z → Item → Prop) (m0 m : rows) : Prop :=
  ∀ i it0, m0 !! i = Some it0 → ∃ it, m !! i = Some it ∧ kept o (i_curated it0) (i_curated it) ∧
    (i_status it = missing → i_status it0 = missing ∨ gone i it0).

Lemma keeps_weaken o (gone gone' : Z → Item → Prop) m0 m :
  (∀ i it0, gone i it0 → gone' i it0) → keeps gone m0 m → keeps_by o gone' m0 m.
Proof.
  intros Hg Hk i it0 H0. destruct (Hk i it0 H0) as (it & ? & Hc & H). exists it.
  rewrite Hc. split_and!; [done|done|]. naive_solver.
Qed.

Lemma keeps_passed o gone m0 m m' : keeps_by o gone m0 m → all_passed o m m' → keeps_by o gone m0 m'.
Proof.
  intros Hk Hp i it0 H0. destruct (Hk i it0 H0) as (it & Hi & Hc & Hm). specialize (Hp i). rewrite Hi in Hp.
  inversion Hp as [? it' Hpass Heq1 Heq2|]; subst. exists it'. rewrite (passed_status _ _ _ Hpass).
  split_and!; [done|etransitivity; [exact Hc|apply Hpass]|done].
Qed.

(** Every commit of a run: rows are kept, and a row turns [missing] only from the commit
    on that finishes the run, when [confirmed]. *)
Definition finishes (s : option run_status) : bool := bool_decide (s = Some finished).
Definition fin_effect (x : effect) : bool := match x with Commit _ _ s _ => finishes s | _ => false end.
Definition fin_after (fin : bool) (l : list effect) : bool := fin || existsb fin_effect l.

Lemma fin_after_commit fin m ev s t : finishes s = false → fin_after fin [Commit m ev s t] = fin.
Proof. unfold fin_after. cbn. intros ->. apply orb_false_r. Qed.

Lemma jobs_not_fin ids l : only_jobs ids l → existsb fin_effect l = false.
Proof.
  intros Hl. destruct (existsb _ l) eqn:He; [|done].
  apply existsb_elem in He as (x & Hx & He). destruct (Hl x Hx) as (c & Hj & _). by destruct x.
Qed.

Section commits.
Context (o : bool) (confirmed : Item → Prop) (m0 : rows).

Definition kept_rows (fin : bool) (m : rows) : Prop := keeps_by o (λ _ it0, fin = true ∧ confirmed it0) m0 m.

Fixpoint commits_ok (fin : bool) (l : list effect) : Prop :=
  match l with
  | [] => True
  | x :: l' =>
      match x with Commit m _ _ _ => kept_rows (fin_after fin [x]) m | _ => True end ∧
      commits_ok (fin_after fin [x]) l'
  end.

Lemma fin_after_app fin l1 l2 : fin_after fin (l1 ++ l2) = fin_after (fin_after fin l1) l2.
Proof. unfold fin_after. by rewrite existsb_app, orb_assoc. Qed.

Lemma commits_ok_app fin l1 l2 : commits_ok fin (l1 ++ l2) ↔ commits_ok fin l1 ∧ commits_ok (fin_after fin l1) l2.
Proof.
  revert fin. induction l1 as [|x l1 IH]; intros fin.
  - unfold fin_after. cbn. rewrite orb_false_r. tauto.
  - cbn [app commits_ok]. rewrite IH. change (x :: l1) with ([x] ++ l1). rewrite fin_after_app. tauto.
Qed.

Lemma commits_ok_jobs fin ids l : only_jobs ids l → commits_ok fin l ∧ fin_after fin l = fin.
Proof.
  intros Hl. split; [|unfold fin_after; by rewrite (jobs_not_fin ids l Hl), orb_false_r]. revert fin. induction l as [|x l IH]; intros fin; [done|].
  destruct (Hl x) as (c & Hj & _); [left|]. cbn [commits_ok]. split; [by destruct x|].
  apply IH. intros y Hy. apply Hl. by right.
Qed.

(** The rows of the last commit *)
Lemma commits_ok_last fin l m : kept_rows fin m → commits_ok fin l → kept_rows (fin_after fin l) (last_rows m l).
Proof.
  revert fin m. induction l as [|x l IH]; intros fin m Hm; [unfold fin_after; cbn; by rewrite orb_false_r|].
  cbn [commits_ok]. intros [Hx Hl]. change (x :: l) with ([x] ++ l). rewrite fin_after_app, last_rows_app.
  apply IH; [|done]. destruct x; [done|..]; unfold fin_after; cbn; by rewrite orb_false_r.
Qed.

(** Commits before any that finishes *)
Lemma commits_ok_from fin l :
  (∀ m ev s t, Commit m ev s t ∈ l → keeps (λ _ it0, s = Some finished ∧ confirmed it0) m0 m) → commits_ok fin l.
Proof.
  revert fin. induction l as [|x l IH]; intros fin H; [done|]. cbn [commits_ok]. split.
  - destruct x as [m ev s t| |]; [|done|done]. eapply keeps_weaken, (H m ev s t); [|left].
    intros i it0 [-> Hc]. split; [|done]. unfold fin_after. cbn. apply orb_true_r.
  - apply IH. intros m ev s t Hin. apply (H m ev s t). by right.
Qed.

Lemma commits_ok_at l1 m ev s t l2 :
  commits_ok false (l1 ++ Commit m ev s t :: l2) →
  keeps_by o (λ _ it0, (∃ m' ev' t', Commit m' ev' (Some finished) t' ∈ l1 ++ [Commit m ev s t]) ∧ confirmed it0) m0 m.
Proof.
  rewrite commits_ok_app. intros [_ [H _]] i it0 H0. destruct (H i it0 H0) as (it & Hi & Hk & Hm).
  exists it. split_and!; [done|done|]. intros Hs. destruct (Hm Hs) as [?|[Hf Hc]]; [by left|right]. split; [|done].
  rewrite <- fin_after_app in Hf. unfold fin_after in Hf. cbn [orb] in Hf.
  apply existsb_elem in Hf as ([m' ev' s' t'| |] & Hx & Hf); [|done|done].
  apply bool_decide_eq_true in Hf as ->. by exists m', ev', t'.
Qed.
End commits.

Section invariant.
Context (blake2b64 : list Z → string) (new_id : nat → Z) (lib : Z) (m0 : rows).

(** The store of a run that started from [m0]: rows are keyed by id, respect the unique
    index and are not parked; the rows of [m0] keep what a scan must not touch; the
    others are the [made] rows of this run. *)
Record store_ok (m : rows) (new_ids : list Z) (made : nat) : Prop := {
  so_key : ∀ i it, m !! i = Some it → i_id it = i;
  so_unique : unique_paths m;
  so_parked : no_parked m;
  so_old : ∀ i it0, m0 !! i = Some it0 → ∃ it, m !! i = Some it ∧ i_curated it = i_curated it0 ∧
    i_library_id it = i_library_id it0 ∧ i_rel_path it = i_rel_path it0 ∧
    (i_status it = missing → i_status it0 = missing);
  so_made : ∀ i it, m !! i = Some it → m0 !! i = None →
    (∃ k, (k < made)%nat ∧ i = new_id k) ∧ i_status it = active ∧ i_library_id it = lib;
  so_nodup : NoDup new_ids;
  so_new : ∀ i, i ∈ new_ids → m0 !! i = None ∧ ∃ it, m !! i = Some it ∧
    is_Some (match row_label blake2b64 it lib with Ok l => Some l | Err _ => None end);
}.

Record run_ok (m : rows) (new_ids pending : list Z) (made : nat) (effects : list effect) : Prop := {
  ro_store : store_ok m new_ids made;
  ro_pending : ∀ i, i ∈ pending → is_Some (m !! i);
  ro_commits : ∀ m' ev s t, Commit m' ev s t ∈ effects → keeps nobody m0 m';
  ro_defers : defers_ok m0 effects;
}.

Definition scan_ok (st : Scan) : Prop :=
  run_ok (s_rows st) (s_new_ids st) (s_pending st) (s_made st) (s_effects st).

Context (Hinj : ∀ j k, new_id j = new_id k → j = k) (Hfresh : ∀ k, m0 !! new_id k = None).

Lemma store_keeps m ids made : store_ok m ids made → keeps nobody m0 m.
Proof. intros Hs i it0 H. destruct (so_old _ _ _ Hs i it0 H) as (it & ? & ? & _ & _ & ?). exists it. naive_solver. Qed.

Lemma new_id_unused m ids made : store_ok m ids made → m !! new_id made = None.
Proof using Hinj Hfresh.
  intros Hs. destruct (m !! new_id made) as [it|] eqn:Hm; [|done].
  destruct (so_made _ _ _ Hs _ it Hm (Hfresh made)) as [(k & Hk & Heq) _]. apply Hinj in Heq. lia.
Qed.

(** A change of one row that keeps its identity *)
Lemma store_update m ids made i it it' :
  store_ok m ids made → m !! i = Some it →
  i_id it' = i_id it → i_library_id it' = i_library_id it → i_rel_path it' = i_rel_path it →
  i_curated it' = i_curated it → (i_status it' = missing → i_status it = missing) →
  (i_status it = active → i_status it' = active) →
  store_ok (<[i := it']> m) ids made.
Proof.
  intros [Hk Hu Hp Ho Hm Hn Hw] Hi Eid Elib Erel Ecur Est Eact. split.
  - intros j x [[<- <-]|[_ Hj]]%lookup_insert_Some; [rewrite Eid; by apply Hk|by apply Hk].
  - intros a b x y Ha Hb Hxy.
    assert (∀ j z, <[i := it']> m !! j = Some z → ∃ z', m !! j = Some z' ∧ rkey z' = rkey z) as Hback.
    { intros j z [[<- <-]|[_ Hj]]%lookup_insert_Some; [|by exists z]. exists it. split; [done|].
      unfold rkey. by rewrite Elib, Erel. }
    destruct (Hback a x Ha) as (x' & Ha' & Hx'), (Hback b y Hb) as (y' & Hb' & Hy').
    apply (Hu a b x' y' Ha' Hb'). congruence.
  - intros j x [[<- <-]|[_ Hj]]%lookup_insert_Some; [rewrite Erel|]; by eapply Hp.
  - intros j it0 H0. destruct (Ho j it0 H0) as (x & Hx & ? & ? & ? & ?).
    destruct (decide (i = j)) as [<-|Hne]; [|exists x; by rewrite lookup_insert_ne].
    rewrite Hx in Hi. injection Hi as ->. exists it'. rewrite lookup_insert_eq. split_and!; try congruence. auto.
  - intros j x [[<- <-]|[_ Hj]]%lookup_insert_Some H0; [|by apply Hm].
    destruct (Hm i it Hi H0) as (? & ? & ?). split_and!; [done|auto|congruence].
  - done.
  - intros j Hj. destruct (Hw j Hj) as (H0 & x & Hx & Hl). split; [done|].
    destruct (decide (i = j)) as [<-|Hne]; [|exists x; by rewrite lookup_insert_ne].
    rewrite Hx in Hi. injection Hi as ->. exists it'. rewrite lookup_insert_eq. split; [done|].
    unfold row_label in *. by rewrite Erel.
Qed.

(** A row is inserted where the index allows it. *)
Lemma store_insert m ids made it m' (listed : bool) :
  store_ok m ids made → update_row m (new_id made) it = Ok m' →
  i_id it = new_id made → i_library_id it = lib → i_status it = active →
  head (i_rel_path it) ≠ Some 65535 →
  is_Some (match row_label blake2b64 it lib with Ok l => Some l | Err _ => None end) →
  store_ok m' (if listed then ids ++ [new_id made] else ids) (S made).
Proof using Hinj Hfresh.
  intros Hs Hup Hid Hl Hst Hhd Hlab. pose proof (new_id_unused m ids made Hs) as Hno.
  unfold update_row in Hup. destruct (taken m (new_id made) it) eqn:Ht; [done|]. injection Hup as <-.
  pose proof (update_row_unique m (new_id made) it (so_unique _ _ _ Hs) Ht) as Huniq.
  destruct Hs as [Hk Hu Hp Ho Hm Hn Hw].
  assert (new_id made ∉ ids) as Hnotin.
  { intros (_ & x & Hx & _)%Hw. by rewrite Hno in Hx. }
  split.
  - intros j x [[<- <-]|[_ Hj]]%lookup_insert_Some; [done|by apply Hk].
  - done.
  - intros j x [[<- <-]|[_ Hj]]%lookup_insert_Some; [done|by eapply Hp].
  - intros j it0 H0. destruct (Ho j it0 H0) as (x & Hx & Hrest). exists x.
    rewrite lookup_insert_ne; [done|]. intros <-. by rewrite Hno in Hx.
  - intros j x [[<- <-]|[_ Hj]]%lookup_insert_Some H0.
    + split_and!; [|done|done]. exists made. split; [lia|done].
    + destruct (Hm j x Hj H0) as ((k & ? & ?) & ? & ?). split_and!; [|done|done]. exists k. split; [lia|done].
  - destruct listed; [|done]. apply NoDup_app. split_and!; [done| |apply NoDup_singleton].
    by intros x Hx ->%list_elem_of_singleton.
  - intros j Hj. assert (j ∈ ids ∨ j = new_id made) as [Hj'| ->].
    { destruct listed; [|by left]. apply elem_of_app in Hj as [?|?%list_elem_of_singleton]; auto. }
    + destruct (Hw j Hj') as (H0 & x & Hx & Hlx). split; [done|]. exists x.
      rewrite lookup_insert_ne; [done|]. intros <-. done.
    + split; [apply Hfresh|]. exists it. by rewrite lookup_insert_eq.
Qed.
End invariant.

(** ** The walk of a run *)

Section walk_run.
Context (uni_lower : Z → list Z) (blake2b64 sha256 : list Z → string) (glob : text → option (text → bool)).
Context (new_id : nat → Z) (signal : nat → run_status) (clock : nat → Z).
Context (tax : Taxonomy) (settings : Settings) (lib : Library).
Context (rules : list AlertRule) (already_queued : list Z) (existing : existing_map) (m0 : rows).
Context (Hinj : ∀ j k, new_id j = new_id k → j = k) (Hfresh : ∀ k, m0 !! new_id k = None).

Local Abbreviation ok := (scan_ok blake2b64 new_id (lib_id lib) m0).
Local Abbreviation on_entry := (on_entry uni_lower blake2b64 sha256 glob new_id clock tax lib rules already_queued existing).
Local Abbreviation process := (process uni_lower blake2b64 sha256 glob new_id signal clock tax settings lib rules
  already_queued existing).
Local Abbreviation capture := (_capture uni_lower sha256 glob lib rules).
Local Abbreviation gated := (gated uni_lower tax lib).

Lemma capture_alerts ev rel id old now st : ∃ d, capture ev rel id old now st = set_alerts st (s_events st) d.
Proof. unfold _capture. destruct rules; [exists (s_drafts st); by destruct st|by eexists]. Qed.

Lemma persist_alerts st : ∃ ev d, persist rules st = set_alerts st ev d.
Proof. unfold persist. destruct rules, (s_drafts st) eqn:Hd; eauto; exists (s_events st), (s_drafts st); by destruct st. Qed.

Lemma ok_alerts st ev d : ok st → ok (set_alerts st ev d).
Proof. done. Qed.

Lemma ok_counts st a b c d e : ok st → ok (set_counts st a b c d e).
Proof. done. Qed.

Lemma ok_pending st l : ok st → (∀ i, i ∈ l → is_Some (s_rows st !! i)) → ok (set_pending st l).
Proof. intros [? ? ? ?] H. by split. Qed.

Lemma ok_add_pending st i : ok st → is_Some (s_rows st !! i) → ok (set_pending st (s_pending st ++ [i])).
Proof.
  intros Hok Hi. apply ok_pending; [done|]. intros j [Hj|Hj]%elem_of_app; [by apply (ro_pending _ _ _ _ _ _ _ _ _ Hok)|].
  by apply list_elem_of_singleton in Hj as ->.
Qed.

Lemma ok_update st i it it' :
  ok st → s_rows st !! i = Some it →
  i_id it' = i_id it → i_library_id it' = i_library_id it → i_rel_path it' = i_rel_path it →
  i_curated it' = i_curated it → (i_status it' = missing → i_status it = missing) →
  (i_status it = active → i_status it' = active) →
  ok (set_rows st (<[i := it']> (s_rows st))).
Proof.
  intros [Hs Hp Hc Hd] Hi ? ? ? ? ? ?. split; cbn; [by eapply store_update| |done|done].
  intros j Hj. destruct (decide (i = j)) as [<-|Hne]; [rewrite lookup_insert_eq|rewrite lookup_insert_ne by done]; eauto.
Qed.

Lemma create_item_ok now st e st' :
  ok st → head (e_rel e) ≠ Some 65535 →
  create_item uni_lower blake2b64 sha256 glob new_id tax lib rules now st e = Ok st' →
  ok st' ∧ s_seen st' = s_seen st.
Proof using Hinj Hfresh.
  intros Hok Hhd. unfold create_item.
  destruct (path_to_ltree _ _ _ _) as [scope|] eqn:Hl; [|done].
  destruct (update_row _ _ _) as [m|] eqn:Hup; [|done].
  set (it := new_row _ _ _ _ _ _ _) in Hup.
  assert (∀ listed, store_ok blake2b64 new_id (lib_id lib) m0 m
    (if listed : bool then s_new_ids st ++ [new_id (s_made st)] else s_new_ids st) (S (s_made st))) as Hs.
  { intros listed. eapply store_insert; try done; [by apply Hok|]. unfold row_label. cbn. by rewrite Hl. }
  assert (m !! new_id (s_made st) = Some it) as Hin.
  { unfold update_row in Hup. destruct (taken _ _ _); [done|]. injection Hup as <-. by rewrite lookup_insert_eq. }
  destruct Hok as [_ Hp Hc Hd].
  assert (∀ i, i ∈ s_pending st → is_Some (m !! i)) as Hp'.
  { intros i Hi. unfold update_row in Hup. destruct (taken _ _ _); [done|]. injection Hup as <-.
    destruct (decide (new_id (s_made st) = i)) as [<-|Hne]; [by rewrite lookup_insert_eq|].
    rewrite lookup_insert_ne by done. by apply Hp. }
  destruct (is_sidecar _ e || is_symlink e); intros [= <-].
  - split; [|done]. split; cbn; [|done|done|done]. rewrite app_nil_r. apply (Hs false).
  - destruct (capture_alerts "created" (e_rel e) (new_id (s_made st)) None now
      (set_pending (add_new (set_counts (set_rows st m) (s_seen st) (s_new st + 1) (s_changed st) (s_bytes st)
        (s_gate st)) [new_id (s_made st)]) (s_pending st ++ [new_id (s_made st)]))) as [d Hd'].
    cbn in Hd'. cbn. rewrite Hd'. split; [|done]. split; cbn; [apply (Hs true)| |done|done].
    intros i [Hi|Hi]%elem_of_app; [by apply Hp'|]. apply list_elem_of_singleton in Hi as ->. by rewrite Hin.
Qed.

Lemma update_item_ok now st e id it :
  ok st → s_rows st !! id = Some it →
  let st' := update_item uni_lower sha256 glob lib rules already_queued now st e id it in
  ok st' ∧ s_seen st' = s_seen st.
Proof.
  intros Hok Hid. cbv zeta. unfold update_item. destruct (differs it e).
  - assert (ok (set_counts (set_rows st (<[id := modified_row it e now]> (s_rows st))) (s_seen st) (s_new st)
      (s_changed st + 1) (s_bytes st) (s_gate st))) as Hok'.
    { apply ok_counts. by eapply ok_update. }
    set (st1 := set_counts _ _ _ _ _ _) in *.
    destruct (is_sidecar _ e || is_symlink e); [done|].
    match goal with |- context [capture ?a ?b ?c ?d ?n ?s] => destruct (capture_alerts a b c d n s) as [dr ->] end.
    split; [|done]. refine (ok_alerts _ _ _ (ok_add_pending st1 id Hok' _)). cbn. by rewrite lookup_insert_eq.
  - assert (ok (set_rows st (<[id := unchanged_row it e now]> (s_rows st)))) as Hok'.
    { eapply ok_update; try done; cbn; by destruct (i_status it). }
    destruct (_ && _ && _ && _); [|done]. split; [|done].
    refine (ok_add_pending _ id Hok' _). cbn. by rewrite lookup_insert_eq.
Qed.

Lemma on_entry_ok k st e st' c :
  ok st → head (e_rel e) ≠ Some 65535 → on_entry k st e = Ok (st', c) →
  ok st' ∧ s_seen st' = if gated e then s_seen st else {[e_rel e]} ∪ s_seen st.
Proof using Hinj Hfresh.
  intros Hok Hhd. unfold Scan.on_entry. destruct (gated e); [by intros [= <- _]|].
  set (st1 := set_counts st _ _ _ _ _).
  assert (ok st1) as Hok1 by done.
  destruct (find_row (e_rel e) existing) as [id|].
  - destruct (s_rows st1 !! id) as [it|] eqn:Hid; [|by intros [= <- _]].
    intros [= <- _]. destruct (update_item_ok (clock k) st1 e id it Hok1 Hid) as [? ->]. done.
  - destruct (create_item _ _ _ _ _ _ _ _ _ _ _) as [st2|] eqn:Hc; [|done]. intros [= <- _].
    destruct (create_item_ok (clock k) st1 e st2 Hok1 Hhd Hc) as [? ->]. done.
Qed.

Lemma ok_commit st ev s t : ok st → ok (emit st [Commit (s_rows st) ev s t]).
Proof.
  intros [Hs Hp Hc Hd]. split; cbn; [done|done| |].
  - intros m' ev' s' t' [?|H]%elem_of_app; [by eapply Hc|]. apply list_elem_of_singleton in H as [= -> -> -> ->].
    by eapply store_keeps.
  - apply defers_ok_app. by split.
Qed.

Lemma ok_commit_defer st ev s t :
  ok st → ok (set_pending (emit (emit st [Commit (s_rows st) ev s t]) (_defer_extract_batch (s_pending st))) []).
Proof.
  intros Hok. destruct (ok_commit st ev s t Hok) as [Hs Hp Hc Hd].
  destruct (jobs_ok (s_rows st) _ _ (defer_batch_jobs (s_pending st))) as [H1 H2]; [apply Hok|].
  split; cbn in *; [done|by intros i ?%not_elem_of_nil| |].
  - intros m' ev' s' t' [?|H]%elem_of_app; [by eapply Hc|].
    by apply (jobs_no_commit _ _ _ _ _ _ (defer_batch_jobs _)) in H.
  - apply defers_ok_app. split; [done|]. rewrite last_rows_app. done.
Qed.

Lemma publish_ok st audit : ok st → let st' := publish_progress settings rules st audit in ok st' ∧ s_seen st' = s_seen st.
Proof.
  intros Hok. cbv zeta. unfold publish_progress. destruct (persist_alerts st) as (ev & d & ->).
  destruct (staged_pipeline settings); (split; [|done]).
  - apply (ok_commit (set_alerts st ev d)). done.
  - apply (ok_commit_defer (set_alerts st ev d)). done.
Qed.

Definition counted_rels (l : list (Entry * WalkAudit)) : gset text :=
  list_to_set (map e_rel (filterb (λ e, negb (gated e)) (map fst l))).

Lemma process_ok l k st a :
  ok st → (∀ e, e ∈ map fst l → head (e_rel e) ≠ Some 65535) →
  match process l k st a with
  | Ok (st', ending, _) => ok st' ∧ (ending = WalkDone → s_seen st' = counted_rels l ∪ s_seen st)
  | Err (st', _) => ok st'
  end.
Proof using Hinj Hfresh.
  revert k st a. induction l as [|[e a0] l IH]; intros k st a Hok Hhd.
  { cbn. split; [done|]. intros _. unfold counted_rels. cbn. set_solver. }
  cbn [Scan.process]. destruct (on_entry k st e) as [[st1 c]|err] eqn:He; [|done].
  destruct (on_entry_ok k st e st1 c Hok) as [Hok1 Hseen1]; [apply Hhd; left|done|].
  assert (∀ e, e ∈ map fst l → head (e_rel e) ≠ Some 65535) as Hhd' by (intros x Hx; apply Hhd; by right).
  assert (counted_rels ((e, a0) :: l) ∪ s_seen st = counted_rels l ∪ s_seen st1) as Hset.
  { unfold counted_rels. cbn [map fst List.filter]. rewrite Hseen1. destruct (gated e); cbn; set_solver. }
  destruct (c && _).
  - destruct (publish_ok st1 a0 Hok1) as [Hok2 Hseen2].
    set (st2 := publish_progress settings rules st1 a0) in *. assert (ok (poll st2)) as Hok3 by done.
    destruct (signal (s_polls st2)); try done; try (split; [by apply (ok_commit (poll st2))|done]).
    specialize (IH (S k) (poll st2) a0 Hok3 Hhd'). destruct (process l (S k) (poll st2) a0) as [[[st' en] ?]|[? ?]]; [|done].
    destruct IH as [H1 H2]. split; [done|]. intros Hen. rewrite (H2 Hen), Hset. cbn. by rewrite Hseen2.
  - specialize (IH (S k) st1 a0 Hok1 Hhd'). destruct (process l (S k) st1 a0) as [[[st' en] ?]|[? ?]]; [|done].
    destruct IH as [H1 H2]. split; [done|]. intros Hen. by rewrite (H2 Hen), Hset.
Qed.
End walk_run.

(** ** Moves in a run *)

Section late.
Context (blake2b64 : list Z → string) (lib : Z) (m0 : rows).

(** The store after the intra-library pass: rows may have been relocated. *)
Record late_ok (m : rows) (new_ids : list Z) : Prop := {
  lo_key : ∀ i it, m !! i = Some it → i_id it = i;
  lo_unique : unique_paths m;
  lo_parked : no_parked m;
  lo_old : ∀ i it0, m0 !! i = Some it0 → ∃ it, m !! i = Some it ∧ i_curated it = i_curated it0 ∧
    (i_status it = missing → i_status it0 = missing);
  lo_made : ∀ i it, m !! i = Some it → m0 !! i = None → i_status it = active ∧ i_library_id it = lib;
  lo_nodup : NoDup new_ids;
  lo_new : ∀ i, i ∈ new_ids → m0 !! i = None ∧ ∀ it, m !! i = Some it →
    is_Some (match row_label blake2b64 it lib with Ok l => Some l | Err _ => None end);
}.

Lemma store_late new_id m ids made : store_ok blake2b64 new_id lib m0 m ids made → late_ok m ids.
Proof.
  intros [Hk Hu Hp Ho Hm Hn Hw]. split; try done.
  - intros i it0 H0. destruct (Ho i it0 H0) as (it & ? & ? & _ & _ & ?). by exists it.
  - intros i it Hi H0. by destruct (Hm i it Hi H0) as (_ & ? & ?).
  - intros i Hi. destruct (Hw i Hi) as (H0 & it & Hit & Hl). split; [done|]. intros it' Hit'.
    rewrite Hit in Hit'. by injection Hit' as <-.
Qed.

Context (xxh3_64 xxh3_128 : list Z → string) (fs : text → option (list Z)) (fm : Z) (cc : bool).

Lemma hashed_some (ids : list Z) m i it :
  hash_rows xxh3_64 xxh3_128 fs ids fm cc m !! i = Some it →
  ∃ it', m !! i = Some it' ∧ ∃ q c h, it = set_hashes it' q c h.
Proof.
  unfold hash_rows. revert it. induction ids as [|j ids IH]; intros it; cbn [foldr].
  { intros H. exists it. split; [done|]. exists (i_quick_hash it), (i_content_hash it), (i_mid_hash it). by destruct it. }
  destruct (decide (i = j)) as [->|Hne].
  - rewrite lookup_alter_eq, fmap_Some. intros (x & Hx & ->). destruct (IH x Hx) as (y & Hy & q & c & h & ->).
    exists y. split; [done|].
    destruct (ensure_hashes_columns xxh3_64 xxh3_128 fs (set_hashes y q c h) fm cc) as (q' & c' & h' & ->).
    by exists q', c', h'.
  - rewrite lookup_alter_ne by done. apply IH.
Qed.

Lemma hashed_is_some (ids : list Z) m i it' :
  m !! i = Some it' → ∃ q c h, hash_rows xxh3_64 xxh3_128 fs ids fm cc m !! i = Some (set_hashes it' q c h).
Proof.
  intros Hm. destruct (hash_rows xxh3_64 xxh3_128 fs ids fm cc m !! i) as [it|] eqn:Hh.
  - destruct (hashed_some ids m i it Hh) as (x & Hx & q & c & h & ->). rewrite Hm in Hx. injection Hx as ->.
    by exists q, c, h.
  - exfalso. assert (∀ ids, is_Some (hash_rows xxh3_64 xxh3_128 fs ids fm cc m !! i)) as H.
    { induction ids0 as [|j ids0 IH]; [by exists it'|]. unfold hash_rows in *. cbn [foldr].
      destruct (decide (i = j)) as [->|Hne]; [rewrite lookup_alter_eq|by rewrite lookup_alter_ne].
      destruct IH as [x ->]. by eexists. }
    destruct (H ids) as [? H']. by rewrite Hh in H'.
Qed.

(** A transfer of [plans] over the hashed store keeps the store in order: the survivors
    are rows of the run's start, the duplicates rows made by the run. *)
Lemma transfer_late m m' ids new_ids plans final :
  late_ok m new_ids → unique_paths m' →
  let m1 := hash_rows xxh3_64 xxh3_128 fs ids fm cc m in
  (∀ p, p ∈ plans → is_Some (m0 !! i_id (survivor p)) ∧ i_id (duplicate p) ∈ new_ids ∧
    m1 !! i_id (survivor p) = Some (survivor p) ∧ m1 !! i_id (duplicate p) = Some (duplicate p) ∧
    i_id (final p) = i_id (survivor p) ∧ i_curated (final p) = i_curated (survivor p) ∧
    i_status (final p) = active ∧ i_rel_path (final p) = i_rel_path (duplicate p)) →
  (∀ p, p ∈ plans → m' !! i_id (duplicate p) = None ∧ m' !! i_id (survivor p) = Some (final p)) →
  (∀ i, i ∉ map (λ p, i_id (survivor p)) plans → i ∉ map (λ p, i_id (duplicate p)) plans → m' !! i = m1 !! i) →
  late_ok m' new_ids.
Proof.
  intros [Hk Hu Hp Ho Hm Hn Hw] Hu' m1 Hplans Hset Hrest.
  assert (∀ i it, m' !! i = Some it →
    (∃ p, p ∈ plans ∧ i = i_id (survivor p) ∧ it = final p) ∨
    (i ∉ map (λ p, i_id (survivor p)) plans ∧ ∃ it', m !! i = Some it' ∧ ∃ q c h, it = set_hashes it' q c h)) as Hcases.
  { intros i it Hi. destruct (decide (i ∈ map (λ p, i_id (survivor p)) plans)) as [Hin|Hin].
    - left. apply list_elem_of_fmap in Hin as (p & -> & Hin). exists p. destruct (Hset p Hin) as [_ Hs].
      rewrite Hs in Hi. by injection Hi as <-.
    - right. split; [done|]. destruct (decide (i ∈ map (λ p, i_id (duplicate p)) plans)) as [Hd|Hd].
      + exfalso. apply list_elem_of_fmap in Hd as (p & -> & Hd). destruct (Hset p Hd) as [Hno _]. by rewrite Hno in Hi.
      + rewrite Hrest in Hi by done. by apply hashed_some in Hi. }
  split; [| done | | | | done |].
  - intros i it Hi. destruct (Hcases i it Hi) as [(p & Hpp & -> & ->)|(_ & it' & Hi' & q & c & h & ->)].
    + by destruct (Hplans p Hpp) as (_ & _ & _ & _ & ? & _).
    + exact (Hk i it' Hi').
  - intros i it Hi. destruct (Hcases i it Hi) as [(p & Hpp & -> & ->)|(_ & it' & Hi' & q & c & h & ->)].
    + destruct (Hplans p Hpp) as (_ & _ & _ & Hd & _ & _ & _ & ->).
      destruct (hashed_some _ _ _ _ Hd) as (x & Hx & q & c & h & ->). exact (Hp _ x Hx).
    + exact (Hp i it' Hi').
  - intros i it0 H0. destruct (Ho i it0 H0) as (it & Hi & Hc & Hst).
    destruct (decide (i ∈ map (λ p, i_id (survivor p)) plans)) as [Hin|Hin].
    + apply list_elem_of_fmap in Hin as (p & -> & Hin). destruct (Hset p Hin) as [_ Hs].
      destruct (Hplans p Hin) as (_ & _ & H1 & _ & _ & Ecur & Est & _).
      destruct (hashed_some _ _ _ _ H1) as (x & Hx & q & c & h & Hsurv).
      exists (final p). split_and!; [done| |by rewrite Est]. rewrite Ecur, Hsurv. rewrite Hi in Hx. by injection Hx as <-.
    + destruct (hashed_is_some ids m i it Hi) as (q & c & h & Hh). exists (set_hashes it q c h).
      split_and!; [|done|done]. rewrite Hrest; [done|done|].
      intros (p & -> & Hd)%list_elem_of_fmap. destruct (Hplans p Hd) as (_ & Hnew & _).
      apply Hw in Hnew as [Hnew _]. by rewrite Hnew in H0.
  - intros i it Hi H0. destruct (Hcases i it Hi) as [(p & Hpp & -> & ->)|(_ & it' & Hi' & q & c & h & ->)].
    + destruct (Hplans p Hpp) as ([x Hx] & _). by rewrite Hx in H0.
    + exact (Hm i it' Hi' H0).
  - intros i Hi. destruct (Hw i Hi) as [H0 Hl]. split; [done|]. intros it Hit.
    destruct (Hcases i it Hit) as [(p & Hpp & -> & ->)|(_ & it' & Hi' & q & c & h & ->)].
    + destruct (Hplans p Hpp) as ([x Hx] & _). by rewrite Hx in H0.
    + exact (Hl it' Hi').
Qed.
End late.

Lemma without_dropped m ids pending i :
  i ∈ without pending (dropped_ids m ids) → i ∈ pending ∧ (i ∈ ids → is_Some (m !! i)).
Proof.
  unfold without, dropped_ids. intros [Hi Hn]%elem_of_filterb. split; [done|]. intros Hids.
  apply negb_true_iff, bool_decide_eq_false in Hn. destruct (m !! i) as [it|] eqn:Hm; [by eexists|].
  exfalso. apply Hn, elem_of_filterb. split; [done|]. by rewrite Hm.
Qed.

Section after_walk.
Context (uni_lower : Z → list Z) (fs : text → option (list Z)).
Context (xxh3_64 xxh3_128 blake2b64 sha256 : list Z → string) (glob : text → option (text → bool)).
Context (flush_order : list (Z * Item) → list (Z * Item)) (query_order : list Item → list Item).
Context (fetch_order : list Z → list Z) (agent_library : Z → bool) (new_id : nat → Z).
Context (settings : Settings) (lib : Library) (policy : ResolvedHashPolicy) (rules : list AlertRule).
Context (existing : existing_map) (m0 : rows).
Context (Horder : ∀ us, flush_order us ≡ₚ us) (Hquery : ∀ l, query_order l ≡ₚ l) (Hfetch : ∀ l, fetch_order l ≡ₚ l).
Context (Hexist : ∀ rel id, (rel, id) ∈ existing →
  ∃ it0, m0 !! id = Some it0 ∧ i_library_id it0 = lib_id lib ∧ i_rel_path it0 = rel).
Context (Hexnd : NoDup (map snd existing)).

Local Abbreviation move_pass := (move_pass uni_lower fs xxh3_64 xxh3_128 blake2b64 sha256 glob flush_order
  fetch_order lib policy rules existing).
Local Abbreviation cross_pass := (cross_pass fs xxh3_64 xxh3_128 blake2b64 flush_order query_order fetch_order
  agent_library settings lib policy).
Local Abbreviation fm := (full_max_bytes policy).
Local Abbreviation cc := (compute_content policy).

Definition late_scan (st : Scan) : Prop :=
  late_ok blake2b64 (lib_id lib) m0 (s_rows st) (s_new_ids st) ∧ ∀ i, i ∈ s_pending st → is_Some (s_rows st !! i).

Lemma capture_moves_alerts mo now st : ∃ ev d, capture_moves uni_lower sha256 glob lib rules mo now st = set_alerts st ev d.
Proof.
  unfold capture_moves.
  assert (∀ l st, ∃ ev d, foldl (λ st mo, _capture uni_lower sha256 glob lib rules "moved" (survivor_rel_path mo)
    (survivor_id mo) None now st) st l = set_alerts st ev d) as Hf.
  { induction l as [|x l IH]; intros s; [exists (s_events s), (s_drafts s); by destruct s|]. cbn [foldl].
    destruct (capture_alerts uni_lower sha256 glob lib rules "moved" (survivor_rel_path x) (survivor_id x) None now s)
      as [d ->]. destruct (IH (set_alerts s (s_events s) d)) as (ev & d' & ->). by eexists ev, d'. }
  destruct rules as [|r rs] eqn:Hr; [exists (s_events st), (s_drafts st); by destruct st|]. rewrite <- Hr in *.
  destruct mo as [|x mo]; [exists (s_events st), (s_drafts st); by destruct st|].
  destruct (Hf (x :: mo) (retract_created lib (x :: mo) st)) as (ev & d & ->). by eexists ev, d.
Qed.

Lemma candidates_elem st scope is_file recursive i :
  i ∈ move_candidates existing st scope is_file recursive →
  ∃ it0, m0 !! i = Some it0 ∧ i_library_id it0 = lib_id lib.
Proof using Hexist.
  unfold move_candidates, vanished. intros ([rel j] & -> & [[Hin _]%elem_of_filterb _]%elem_of_filterb)%list_elem_of_fmap.
  destruct (Hexist rel j Hin) as (it0 & ? & ? & _). by exists it0.
Qed.

Lemma move_pass_ok st stop scope is_file recursive now :
  store_ok blake2b64 new_id (lib_id lib) m0 (s_rows st) (s_new_ids st) (s_made st) →
  (∀ i, i ∈ s_pending st → is_Some (s_rows st !! i)) →
  match move_pass st stop scope is_file recursive now with
  | Ok (st', _, survivors) =>
      late_scan st' ∧ s_seen st' = s_seen st ∧ s_effects st' = s_effects st ∧ s_new_ids st' = s_new_ids st ∧
      ∀ i, i ∈ survivors → is_Some (m0 !! i)
  | Err _ => False
  end.
Proof using Horder Hfetch Hexist Hexnd.
  intros Hs Hp. pose proof (store_late _ _ _ _ _ _ _ Hs) as Hlate. unfold Scan.move_pass.
  set (cands := if stop then [] else _).
  destruct (bool_decide_reflect (cands = [])) as [|Hc];
    [cbn; split_and!; try done; by intros i ?%not_elem_of_nil|].
  destruct (bool_decide_reflect (s_new_ids st = [])) as [|Hn];
    [cbn; split_and!; try done; by intros i ?%not_elem_of_nil|]. cbn [orb].
  set (news := fetch_order (s_new_ids st)).
  assert (∀ i, i ∈ news ↔ i ∈ s_new_ids st) as Hnews by (intros i; unfold news; by rewrite Hfetch).
  assert (∀ i, i ∈ cands → ∃ it0, m0 !! i = Some it0 ∧ i_library_id it0 = lib_id lib) as Hcands.
  { unfold cands. destruct stop; [by intros i ?%not_elem_of_nil|]. apply candidates_elem. }
  assert (scan_input blake2b64 (s_rows st) cands news (lib_id lib)) as Hin.
  { destruct Hs as [Hk Hu Hpk Ho Hm Hnd Hw]. split; try done.
    - unfold cands. destruct stop; [constructor|]. unfold move_candidates, vanished.
      by apply nodup_map_filterb, nodup_map_filterb.
    - unfold news. by rewrite Hfetch.
    - intros i (it0 & H0 & _)%Hcands Hi%Hnews. apply Hw in Hi as [Hno _]. by rewrite Hno in H0.
    - intros i [Hi|Hi].
      + destruct (Hcands i Hi) as (it0 & H0 & Hl). destruct (Ho i it0 H0) as (it & Hit & _ & Hl' & _).
        exists it. split_and!; [done|by apply Hk|congruence].
      + apply Hnews in Hi. destruct (Hw i Hi) as (H0 & it & Hit & _). exists it.
        split_and!; [done|by apply Hk|by apply (Hm i it Hit H0)].
    - intros i it Hi%Hnews Hit. destruct (Hw i Hi) as (_ & it' & Hit' & Hl). rewrite Hit in Hit'. by injection Hit' as <-. }
  assert (news ≠ []) as Hnn.
  { intros He. apply Hn. apply Permutation_nil. rewrite <- He. unfold news. by rewrite Hfetch. }
  pose proof (detect_moves_ok xxh3_64 xxh3_128 blake2b64 fs flush_order (s_rows st) cands news (lib_id lib) fm now cc
    Horder Hin Hc Hnn) as H.
  cbv zeta in H. destruct (plan_moves _ _) as [plans amb].
  destruct H as (m' & out & -> & Hu' & Hset & Hrest & Hsid & Hdid & Hfrom & Hrel).
  destruct (capture_moves_alerts out now (set_pending (set_rows st m') (without (s_pending st) (dropped_ids m' news))))
    as (ev & d & ->).
  split; [|split_and!; try done; intros i; rewrite Hsid; intros (p & -> & Hpp)%list_elem_of_fmap;
    destruct (Hfrom p Hpp) as (Hc1 & _); destruct (Hcands _ Hc1) as (it0 & H0 & _); by exists it0].
  split; cbn.
  - set (final p := relocate (survivor p) (duplicate p)
      (match row_label blake2b64 (duplicate p) (lib_id lib) with Ok l => l | Err _ => "" end) now).
    eapply (transfer_late blake2b64 (lib_id lib) m0 xxh3_64 xxh3_128 fs fm cc (s_rows st) m' news (s_new_ids st)
      plans final); [done|done| | |done].
    + intros p Hpp. destruct (Hfrom p Hpp) as (H1 & H2 & H3 & H4). split_and!; try done.
      * destruct (Hcands _ H1) as (it0 & H0 & _). by exists it0.
      * by apply Hnews.
      * apply Hnews in H2. destruct (so_new _ _ _ _ _ _ _ Hs _ H2) as (H0 & _).
        destruct (hashed_some _ _ _ _ _ _ _ _ _ H4) as (x & Hx & q & c & h & Hd). cbn. rewrite Hd. cbn.
        by apply (so_made _ _ _ _ _ _ _ Hs _ x Hx H0).
    + intros p Hpp. destruct (Hset p Hpp) as (H1 & sc & H2 & H3). split; [done|]. rewrite H3. unfold final. by rewrite H2.
  - intros i [Hi Hd]%without_dropped. destruct (Hp i Hi) as [it Hit].
    destruct (decide (i ∈ map (λ p, i_id (survivor p)) plans)) as [Hsv|Hsv].
    + apply list_elem_of_fmap in Hsv as (p & -> & Hpp). destruct (Hset p Hpp) as (_ & sc & _ & ->). by eexists.
    + destruct (decide (i ∈ map (λ p, i_id (duplicate p)) plans)) as [Hdp|Hdp].
      * apply Hd. apply list_elem_of_fmap in Hdp as (p & -> & Hpp). by destruct (Hfrom p Hpp) as (_ & ? & _).
      * rewrite Hrest by done. destruct (hashed_is_some xxh3_64 xxh3_128 fs fm cc news (s_rows st) i it Hit)
          as (q & c & h & ->). by eexists.
Qed.

Lemma cross_pass_ok st stop now :
  late_scan st →
  match cross_pass st stop now with
  | Ok (st', _) => late_scan st' ∧ s_seen st' = s_seen st ∧ s_effects st' = s_effects st
  | Err _ => False
  end.
Proof using Horder Hquery Hfetch uni_lower sha256 glob.
  intros [Hl Hp]. unfold Scan.cross_pass.
  destruct (stop || _ || _); [by cbn|].
  set (rem := fetch_order _). destruct (bool_decide_reflect (rem = [])) as [|Hr]; [by cbn|].
  assert (∀ i, i ∈ rem ↔ i ∈ s_new_ids st ∧ is_Some (s_rows st !! i)) as Hrem.
  { intros i. unfold rem. by rewrite Hfetch, elem_of_filterb, bool_decide_eq_true. }
  assert (scan_input blake2b64 (s_rows st) [] rem (lib_id lib)) as Hin.
  { destruct Hl as [Hk Hu Hpk Ho Hm Hnd Hw]. split; try done.
    - constructor.
    - unfold rem. rewrite Hfetch. clear -Hnd. induction Hnd as [|i l Hi Hnd IH]; [constructor|]. cbn.
      case_match; [|done]. constructor; [|done]. by intros [? _]%elem_of_filterb.
    - intros i ?%not_elem_of_nil. done.
    - intros i [?%not_elem_of_nil|Hi]; [done|]. apply Hrem in Hi as [Hi [it Hit]]. exists it.
      split_and!; [done|by apply Hk|]. apply (Hm i it Hit). by apply Hw.
    - intros i it Hi Hit. apply Hrem in Hi as [Hi _]. destruct (Hw i Hi) as [_ H]. by apply H. }
  assert (∀ i it, s_rows st !! i = Some it → i_id it = i) as Hids by apply Hl.
  pose proof (cross_moves_ok xxh3_64 xxh3_128 blake2b64 fs flush_order agent_library query_order (s_rows st) rem
    (lib_id lib) fm now cc Horder Hquery Hin Hids) as H.
  pose proof (λ n, elem_of_hashed xxh3_64 xxh3_128 blake2b64 fs agent_library (s_rows st) rem
    (lib_id lib) fm cc Hin n) as Hhashed.
  unfold plan_cross in H. cbv zeta in H.
  set (m1 := hash_rows _ _ _ _ _ _ _) in H, Hhashed.
  destruct (cross_loop _ _ _ _) as [plans amb].
  destruct H as (m' & -> & Hu' & Hplans & Hset & Hrest).
  assert (∀ p, p ∈ plans → i_id (duplicate p) ∈ s_new_ids st ∧ i_id (duplicate p) ∈ rem ∧
    m1 !! i_id (survivor p) = Some (survivor p) ∧ m1 !! i_id (duplicate p) = Some (duplicate p) ∧
    is_Some (m0 !! i_id (survivor p))) as Hfrom.
  { intros [c n] Hpp. apply Hplans in Hpp as (Hn & Hc & Ht & _). apply Hhashed in Hn as (Hn & Hn1 & Hnl). cbn.
    pose proof (elem_of_sized agent_library (s_rows st) rem (lib_id lib) _ Hn) as Hr'.
    split_and!; [by apply Hrem|done|done|done|].
    destruct (m0 !! i_id c) as [it0|] eqn:H0; [by eexists|]. exfalso.
    destruct (hashed_some _ _ _ _ _ _ _ _ _ Hc) as (x & Hx & q & cc' & h & Heq).
    destruct (lo_made _ _ _ _ _ Hl _ x Hx H0) as [_ Hlib].
    unfold is_tombstone in Ht. rewrite Heq in Ht. cbn in Ht. by rewrite Hlib, Z.eqb_refl in Ht. }
  assert (late_ok blake2b64 (lib_id lib) m0 m' (s_new_ids st)) as Hl'.
  { set (final p := revive (lib_id lib) (survivor p) (duplicate p)
      (match row_label blake2b64 (duplicate p) (lib_id lib) with Ok l => l | Err _ => "" end) now).
    eapply (transfer_late blake2b64 (lib_id lib) m0 xxh3_64 xxh3_128 fs fm cc (s_rows st) m' _ (s_new_ids st)
      plans final); [done|done| | |done].
    - intros p Hpp. by destruct (Hfrom p Hpp) as (? & ? & ? & ? & ?).
    - intros p Hpp. destruct (Hset p Hpp) as (H1 & sc & H2 & H3). split; [done|]. rewrite H3. unfold final. by rewrite H2. }
  assert (∀ i, is_Some (s_rows st !! i) → is_Some (m' !! i) ∨ (i ∈ rem ∧ m' !! i = None)) as Hdom.
  { intros i [it Hit]. destruct (decide (i ∈ map (λ p, i_id (survivor p)) plans)) as [Hsv|Hsv].
    - left. apply list_elem_of_fmap in Hsv as (p & -> & Hpp). destruct (Hset p Hpp) as (_ & sc & _ & ->). by eexists.
    - destruct (decide (i ∈ map (λ p, i_id (duplicate p)) plans)) as [Hdp|Hdp].
      + right. apply list_elem_of_fmap in Hdp as (p & -> & Hpp). destruct (Hset p Hpp) as [? _].
        by destruct (Hfrom p Hpp) as (_ & ? & _).
      + left. rewrite Hrest by done.
        destruct (hashed_is_some xxh3_64 xxh3_128 fs fm cc (sized_items agent_library (s_rows st) rem (lib_id lib))
          (s_rows st) i it Hit) as (q & c & h & Hh). unfold m1. rewrite Hh. by eexists. }
  destruct (Z.eqb_spec (moved (mkStats (Z.of_nat (length plans)) amb)) 0) as [Hz|Hz]; (split; [|done]); split; cbn; try done.
  - assert (plans = []) as -> by (destruct plans; [done|cbn in Hz; lia]).
    intros i Hi. destruct (Hdom i) as [?|[_ Hno]]; [by apply Hp|done|]. exfalso.
    destruct (Hp i Hi) as [it Hit]. rewrite Hrest in Hno by (apply not_elem_of_nil).
    destruct (hashed_is_some xxh3_64 xxh3_128 fs fm cc (sized_items agent_library (s_rows st) rem (lib_id lib))
      (s_rows st) i it Hit) as (q & c & h & Hh). unfold m1 in Hno. by rewrite Hh in Hno.
  - intros i [[Hi Hd]%without_dropped|Hi]%elem_of_app.
    + destruct (Hdom i) as [?|[Hr' _]]; [by apply Hp|done|by apply Hd].
    + apply list_elem_of_fmap in Hi as (p & -> & Hpp). destruct (Hset p Hpp) as (_ & sc & _ & ->). by eexists.
Qed.

(** The rows that a tombstone pass over [l] may mark *)
Definition marked (l : existing_map) (seen : gset text) (i : Z) (it0 : Item) : Prop :=
  ∃ rel, (rel, i) ∈ l ∧ i_rel_path it0 = rel ∧ i_library_id it0 = lib_id lib.

Lemma tombstone_ok l now st n :
  (∀ rel id, (rel, id) ∈ l → (rel, id) ∈ existing) →
  keeps (marked l (s_seen st)) m0 (s_rows st) → (∀ i, i ∈ s_pending st → is_Some (s_rows st !! i)) →
  let '(st', _) := tombstone uni_lower sha256 glob lib rules l now st n in
  keeps (marked l (s_seen st)) m0 (s_rows st') ∧ (∀ i, i ∈ s_pending st' → is_Some (s_rows st' !! i)) ∧
  s_seen st' = s_seen st ∧ s_effects st' = s_effects st.
Proof using Hexist.
  intros Hsub.
  assert (∀ l' st n, (∀ x, x ∈ l' → x ∈ l) →
    keeps (marked l (s_seen st)) m0 (s_rows st) → (∀ i, i ∈ s_pending st → is_Some (s_rows st !! i)) →
    let '(st', _) := tombstone uni_lower sha256 glob lib rules l' now st n in
    keeps (marked l (s_seen st)) m0 (s_rows st') ∧ (∀ i, i ∈ s_pending st' → is_Some (s_rows st' !! i)) ∧
    s_seen st' = s_seen st ∧ s_effects st' = s_effects st) as H; [|by apply H].
  clear st n. induction l' as [|[rel id] l' IH]; intros st n Hl' Hk Hp; [done|]. cbn [tombstone].
  assert (∀ x, x ∈ l' → x ∈ l) as Hl'' by (intros x Hx; apply Hl'; by right).
  unfold row_of. destruct (s_rows st !! id) as [it|] eqn:Hid; [|by apply IH].
  destruct (_ && is_active it); [|by apply IH].
  set (st1 := set_rows st _). destruct (capture_alerts uni_lower sha256 glob lib rules "deleted" rel id None now st1)
    as [d ->].
  specialize (IH (set_alerts st1 (s_events st1) d) (n + 1) Hl''). cbn in IH.
  apply IH.
  - intros i it0 H0. destruct (Hk i it0 H0) as (x & Hx & Hc & Hm). destruct (decide (id = i)) as [<-|Hne].
    + exists (set_status it missing). rewrite lookup_insert_eq. rewrite Hid in Hx. injection Hx as <-.
      split_and!; [done|done|]. intros _. right. exists rel.
      assert ((rel, id) ∈ existing) as Hex by (apply Hsub, Hl'; left).
      destruct (Hexist rel id Hex) as (y & Hy & ? & ?). rewrite H0 in Hy. injection Hy as <-.
      split_and!; [apply Hl'; left|done|done].
    + exists x. rewrite lookup_insert_ne by done. done.
  - intros i Hi. destruct (decide (id = i)) as [<-|Hne]; [by rewrite lookup_insert_eq|].
    rewrite lookup_insert_ne by done. by apply Hp.
Qed.

Lemma tombstone_keyed l now st n :
  keyed (s_rows st) → keyed (s_rows (tombstone uni_lower sha256 glob lib rules l now st n).1).
Proof using.
  revert st n. induction l as [|[rel id] l IH]; intros st n Hk; [done|]. cbn [tombstone].
  unfold row_of. destruct (s_rows st !! id) as [it|] eqn:Hid; [|by apply IH].
  destruct (_ && is_active it); [|by apply IH]. apply IH.
  match goal with |- context [_capture _ _ _ _ _ ?a ?b ?c ?d ?n ?s] =>
    destruct (capture_alerts uni_lower sha256 glob lib rules a b c d n s) as [al ->] end.
  intros j x. cbn. intros [[<- <-]|[_ Hj]]%lookup_insert_Some; [exact (Hk id it Hid)|by apply Hk].
Qed.

Lemma wrap_up_ok st audit stop scope is_file recursive force_empty now :
  scan_ok blake2b64 new_id (lib_id lib) m0 st →
  match wrap_up uni_lower fs xxh3_64 xxh3_128 blake2b64 sha256 glob flush_order query_order fetch_order agent_library
    settings lib policy rules existing st audit stop scope is_file recursive force_empty now with
  | Ok (st', _, survivors) =>
      defers_ok m0 (s_effects st') ∧ last_rows m0 (s_effects st') = s_rows st' ∧ keyed (s_rows st') ∧
      (∀ i, i ∈ survivors → is_Some (m0 !! i)) ∧
      fin_after false (s_effects st') = fin_after (negb stop) (s_effects st) ∧
      ∀ m' ev s t, Commit m' ev s t ∈ s_effects st' →
        keeps (λ i it0, stop = false ∧ s = Some finished ∧
          marked (vanished existing st scope is_file recursive) (s_seen st) i it0) m0 m'
  | Err (st', err) => st' = st ∧ err = ScanRootError ∧ stop = false ∧ empty_mount settings existing st audit scope force_empty = true
  end.
Proof using Horder Hquery Hfetch Hexist Hexnd.
  intros [Hs Hp Hc Hd]. unfold wrap_up.
  destruct (negb stop && empty_mount settings existing st audit scope force_empty) eqn:Hempty.
  { apply andb_true_iff in Hempty as [Hst He]. by destruct stop. }
  pose proof (move_pass_ok st stop scope is_file recursive now Hs Hp) as Hm.
  destruct (move_pass st stop scope is_file recursive now) as [[[st1 moves] sv]|]; [|done]. cbn [result_bind].
  destruct Hm as ([Hl1 Hp1] & Hseen1 & Heff1 & Hids1 & Hsv).
  pose proof (cross_pass_ok st1 stop now (conj Hl1 Hp1)) as Hx.
  destruct (cross_pass st1 stop now) as [[st2 cross]|]; [|done]. cbn [result_bind].
  destruct Hx as ([Hl2 Hp2] & Hseen2 & Heff2).
  set (gone := if stop then nobody else marked (vanished existing st scope is_file recursive) (s_seen st)).
  assert (∀ g, keeps g m0 (s_rows st2)) as Hk2.
  { intros g i it0 H0. destruct (lo_old _ _ _ _ _ Hl2 i it0 H0) as (it & ? & ? & ?). exists it. naive_solver. }
  set (van1 := vanished existing st2 scope is_file recursive).
  assert (van1 = vanished existing st scope is_file recursive) as Hvan.
  { unfold van1, vanished. by rewrite Hseen2, Hseen1. }
  assert (let '(st3, _) := if stop then (st2, 0) else tombstone uni_lower sha256 glob lib rules van1 now st2 0 in
    keeps gone m0 (s_rows st3) ∧ (∀ i, i ∈ s_pending st3 → is_Some (s_rows st3 !! i)) ∧ keyed (s_rows st3) ∧
    s_effects st3 = s_effects st) as H3.
  { pose proof (lo_key _ _ _ _ _ Hl2) as Hkey2. destruct stop; [split_and!; [apply Hk2|done|exact Hkey2|congruence]|].
    pose proof (tombstone_keyed van1 now st2 0 Hkey2) as Hkey3.
    pose proof (tombstone_ok van1 now st2 0) as Ht.
    destruct (tombstone _ _ _ _ _ _ _ _ _) as [st3 n]. destruct Ht as (T1 & T2 & T3 & T4); [|apply Hk2|done|].
    - intros rel id Hin. unfold van1, vanished in Hin. by apply elem_of_filterb in Hin as [? _].
    - split_and!; [|done|done|congruence]. rewrite Hvan in T1. rewrite Hseen2, Hseen1 in T1. done. }
  destruct (if stop then (st2, 0) else _) as [st3 n]. destruct H3 as (Hk3 & Hp3 & Hkey3 & He3).
  cbv zeta. destruct (persist_alerts rules st3) as (ev & d & ->). cbn -[_defer_extract_batch]. rewrite He3.
  pose proof (defer_batch_jobs (s_pending st3)) as Hjobs.
  destruct (jobs_ok (s_rows st3) _ _ Hjobs Hp3) as [D1 D2]. split_and!; [| |done|done| |].
  - rewrite <- app_assoc. apply defers_ok_app. split; [done|]. done.
  - by rewrite !last_rows_app.
  - rewrite !existsb_app, (jobs_not_fin _ _ Hjobs). unfold fin_after.
    destruct stop; cbn; by rewrite ?orb_false_r, ?orb_true_r.
  - intros m' ev' s' t' [[H|H]%elem_of_app|H]%elem_of_app.
    + intros i it0 H0. destruct (Hc _ _ _ _ H i it0 H0) as (it & H1 & H2 & H3).
      exists it. split_and!; [done|done|]. intros Hm. destruct (H3 Hm) as [?|Hno]; [by left|by destruct Hno].
    + apply list_elem_of_singleton in H as [= -> -> -> ->]. intros i it0 H0.
      destruct (Hk3 i it0 H0) as (it & H1 & H2 & H3). exists it. split_and!; [done|done|]. intros Hm.
      destruct (H3 Hm) as [?|Hg]; [by left|right]. unfold gone in Hg. by destruct stop.
    + by apply (jobs_no_commit _ _ _ _ _ _ Hjobs) in H.
Qed.
End after_walk.

(** ** What the loop receives *)

Lemma delivered_sub fuel l final err e :
  e ∈ map fst (delivered_entries fuel l final err) → e ∈ map fst l.
Proof.
  revert l. induction fuel as [|k IH]; intros l; cbn [delivered_entries]; [by intros ?%not_elem_of_nil|].
  assert (∀ f : Entry * WalkAudit → Entry * WalkAudit, (∀ x, (f x).1 = x.1) → ∀ c : list (Entry * WalkAudit), map fst (map f c) = map fst c) as Hf.
  { intros f Hf c. rewrite map_map. by apply map_ext. }
  assert (e ∈ map fst (take WALK_BATCH l) ∨ e ∈ map fst (drop WALK_BATCH l) → e ∈ map fst l) as Hsplit.
  { rewrite <- elem_of_app, <- map_app. by rewrite take_drop. }
  intros H. apply Hsplit. revert H.
  destruct (bool_decide _).
  - rewrite map_app, elem_of_app, Hf by (by intros []). intros [H|H]; [by left|right]. by apply IH.
  - destruct err; [by intros ?%not_elem_of_nil|]. rewrite Hf by (by intros []). by left.
Qed.

Lemma delivered_all fuel l final :
  (length l < fuel)%nat → map fst (delivered_entries fuel l final false) = map fst l.
Proof.
  revert l. induction fuel as [|k IH]; intros l Hl; [lia|]. cbn [delivered_entries].
  assert (∀ f : Entry * WalkAudit → Entry * WalkAudit, (∀ x, (f x).1 = x.1) → ∀ c : list (Entry * WalkAudit), map fst (map f c) = map fst c) as Hf.
  { intros f Hf c. rewrite map_map. by apply map_ext. }
  destruct (bool_decide_reflect (length (take WALK_BATCH l) = WALK_BATCH)) as [Hlen|Hlen].
  - rewrite map_app, Hf by (by intros []). rewrite IH.
    + rewrite <- map_app. by rewrite take_drop.
    + rewrite length_drop. rewrite length_take in Hlen. unfold WALK_BATCH in *. lia.
  - rewrite Hf by (by intros []). rewrite take_ge; [done|]. rewrite length_take in Hlen. lia.
Qed.

(** ** The whole run *)

(** The database's and the walk's part: ids are fresh, the orders are permutations, no
    name on disk starts with U+FFFF. *)
Record world_ok (w : World) (m0 : rows) : Prop := {
  wo_inj : ∀ j k, w_new_id w j = w_new_id w k → j = k;
  wo_fresh : ∀ k, m0 !! w_new_id w k = None;
  wo_flush : ∀ us, w_flush w us ≡ₚ us;
  wo_query : ∀ l, w_query w l ≡ₚ l;
  wo_fetch : ∀ l, w_fetch w l ≡ₚ l;
  wo_names : ∀ scope is_file recursive e,
    e ∈ map fst (trace (listing w scope is_file recursive)) → head (e_rel e) ≠ Some 65535;
}.

(** The catalogue: rows under their ids, the unique index, no parked row *)
Record catalogue_ok (m : rows) : Prop := {
  co_key : ∀ i it, m !! i = Some it → i_id it = i;
  co_unique : unique_paths m;
  co_parked : no_parked m;
}.

(** What lies on disk in the scope of a run and the exclusion spec leaves in: the file of
    a single-file scope, or a file that [found] describes in the directories of the scope *)
Definition on_disk_in_scope (w : World) (j : Job) (is_file : bool) (e : Entry) : Prop :=
  let scope := _norm_scope (j_rel_path j) in
  if is_file then ∃ l st, w_lstat w scope = Ok l ∧ lf_stat l = Ok st ∧ S_ISREG (st_mode st) = true ∧
    filtered (w_lower w) (w_spec w) scope = false ∧ e = make_entry (join_path (root_path (w_lib w)) scope) scope l st
  else ∃ start, w_on_disk w scope = Some start ∧
    found (w_lower w) (w_spec w) (w_fs w) (root_path (w_lib w)) (j_recursive j) scope start e.

(** The file lies in or below a directory of the scope that answers [PermissionError]. *)
Definition out_of_sight (w : World) (j : Job) (is_file : bool) (e : Entry) : Prop :=
  is_file = false ∧ ∃ start, w_on_disk w (_norm_scope (j_rel_path j)) = Some start ∧
    behind_denied (w_lower w) (w_spec w) (w_fs w) (root_path (w_lib w)) (j_recursive j)
      (_norm_scope (j_rel_path j)) start e.

(** What a scan may do to a row of the library that it marks [missing]: the path lies in
    the scope of the run, the walk of that scope raised no error, and each file on disk at
    the path is one that the category selection gates out, or lies behind a directory that
    denied access, which the audit of the run then counts. *)
Definition confirmed_gone (w : World) (j : Job) (it0 : Item) : Prop :=
  i_library_id it0 = lib_id (w_lib w) ∧
  ∃ is_file, scope_of w j = Some is_file ∧
    let scope := _norm_scope (j_rel_path j) in
    let walked := listing w scope is_file (j_recursive j) in
    _in_scanned_set (i_rel_path it0) scope is_file (j_recursive j) = true ∧ error walked = None ∧
    ∀ e, on_disk_in_scope w j is_file e → e_rel e = i_rel_path it0 →
      gated (w_lower w) (w_tax w) (w_lib w) e = true ∨
      (out_of_sight w j is_file e ∧ 0 < permission_denied (final_audit walked)).

(** A listing without an error holds every file of the scope that is not out of sight. *)
Lemma listing_complete w j is_file e :
  let walked := listing w (_norm_scope (j_rel_path j)) is_file (j_recursive j) in
  error walked = None → on_disk_in_scope w j is_file e →
  e ∈ map fst (trace walked) ∨ (out_of_sight w j is_file e ∧ 0 < permission_denied (final_audit walked)).
Proof.
  unfold on_disk_in_scope, out_of_sight, listing, list_scope. cbv zeta. set (scope := _norm_scope _).
  destruct is_file.
  - intros _ (l & st & H1 & H2 & H3 & H4 & ->). left. unfold _walk_one_file. rewrite H1, H2, H3, H4. left.
  - set (audit := mkAudit 0 0 0 0 [] _). intros He (start & Hd & Hf). rewrite Hd in *. unfold walk in *.
    destruct (walk_loop_complete _ _ _ _ _ _ _ _ _ He) as (_ & _ & H).
    destruct (H scope start e) as [?|[? ?]]; [left|done|by left|right]. split; [|done].
    split; [done|]. by exists start.
Qed.

Section whole.
Context (w : World) (j : Job) (Hw : world_ok w (j_rows j)) (Hm : catalogue_ok (j_rows j)).

Lemma existing_rows rel id :
  (rel, id) ∈ load_existing (w_query w) (w_lib w) (j_rows j) →
  ∃ it0, j_rows j !! id = Some it0 ∧ i_library_id it0 = lib_id (w_lib w) ∧ i_rel_path it0 = rel.
Proof using Hw Hm.
  unfold load_existing, library_rows. intros (it & [= -> ->] & Hin)%list_elem_of_fmap.
  rewrite (wo_query _ _ Hw) in Hin. apply elem_of_filterb in Hin as [Hin Hl].
  apply list_elem_of_fmap in Hin as ([i x] & -> & Hin). apply elem_of_map_to_list in Hin. cbn in *.
  exists x. unfold in_library in Hl. rewrite (co_key _ Hm i x Hin). split_and!; [done|by apply Z.eqb_eq|done].
Qed.

Lemma existing_nodup : NoDup (map snd (load_existing (w_query w) (w_lib w) (j_rows j))).
Proof using Hw Hm.
  unfold load_existing, library_rows. rewrite map_map. cbn. rewrite (wo_query _ _ Hw).
  apply nodup_map_filterb. rewrite map_map. apply (NoDup_map_factor _ fst); [apply NoDup_fst_map_to_list|].
  intros [a x] [b y] Ha%elem_of_map_to_list Hb%elem_of_map_to_list. cbn.
  by rewrite (co_key _ Hm a x Ha), (co_key _ Hm b y Hb).
Qed.

Lemma start_ok : scan_ok (w_blake2b64 w) (w_new_id w) (lib_id (w_lib w)) (j_rows j) (start_state (j_rows j) (j_events j)).
Proof using Hm.
  destruct Hm as [Hk Hu Hp]. split; cbn; [split; try done|by intros i ?%not_elem_of_nil|by intros m ? ? ? ?%not_elem_of_nil|done].
  - intros i it0 H0. by exists it0.
  - intros i it Hi H0. by rewrite Hi in H0.
  - constructor.
  - intros i ?%not_elem_of_nil. done.
Qed.

Definition override : bool := bool_decide (sidecar_metadata_priority (w_settings w) = "sidecar").
Local Abbreviation kept_all := (commits_ok override (confirmed_gone w j) (j_rows j) false).

Lemma start_kept : kept_rows override (confirmed_gone w j) (j_rows j) false (j_rows j).
Proof. by apply (keeps_weaken _ (λ _ _, False)), keeps_refl. Qed.

(** A run that raised: what was committed, and the last commit again *)
Lemma crash_ok l events :
  defers_ok (j_rows j) l → kept_all l →
  let l' := l ++ [Commit (committed (j_rows j) (j_events j) l).1 events (Some failed) no_stats] in
  defers_ok (j_rows j) l' ∧ kept_all l'.
Proof.
  intros Hd Hk. cbv zeta. rewrite committed_rows. split; [by apply defers_ok_app|].
  apply commits_ok_app. split; [done|]. split; [|done]. rewrite fin_after_commit by done.
  apply commits_ok_last; [apply start_kept|done].
Qed.

Lemma library_rows_elem m it : keyed m → it ∈ library_rows (w_query w) (w_lib w) m → is_Some (m !! i_id it).
Proof using Hw.
  intros Hk. unfold library_rows. rewrite (wo_query _ _ Hw). intros [Hin _]%elem_of_filterb.
  apply list_elem_of_fmap in Hin as ([i x] & -> & Hin). apply elem_of_map_to_list in Hin. cbn.
  rewrite (Hk i x Hin). by eexists.
Qed.

Lemma associate_ok st stats survivors :
  defers_ok (j_rows j) (s_effects st) → last_rows (j_rows j) (s_effects st) = s_rows st → keyed (s_rows st) →
  (∀ i, i ∈ survivors → is_Some (j_rows j !! i)) → kept_all (s_effects st) →
  match associate (w_lower w) (w_fs w) (w_query w) (w_settings w) (w_lib w) (w_decimal w) (w_digit w) (w_xml w)
          st stats survivors with
  | Ok (st', _) => defers_ok (j_rows j) (s_effects st') ∧ kept_all (s_effects st')
  | Err (st', _) => st' = st
  end.
Proof using Hw.
  intros Hd Hlast Hkey Hsv Hk. unfold associate.
  destruct (associate_sidecars _ _ _ _ _ _ _ _) as [[[m sidecars] ids]|] eqn:Ha; [|done].
  apply associate_passed in Ha as [Hp Hids].
  pose proof (commits_ok_last _ _ _ _ _ _ start_kept Hk) as Hlk. rewrite Hlast in Hlk.
  assert (kept_rows override (confirmed_gone w j) (j_rows j) (fin_after false (s_effects st)) m) as Hkm
    by (eapply keeps_passed; eassumption).
  assert (∀ i, is_Some (s_rows st !! i) → is_Some (m !! i)) as Hdom.
  { intros i [x Hx]. specialize (Hp i). rewrite Hx in Hp. inversion Hp. by eexists. }
  assert (keyed m) as Hkm'.
  { intros i x Hx. specialize (Hp i). rewrite Hx in Hp. inversion Hp as [y ? Hpass Hy|]; subst.
    rewrite (passed_id _ _ _ Hpass). by apply Hkey. }
  set (commit := Commit m _ None stats). set (index := if 0 <? parents_updated sidecars then _reindex_library _ _ m else sync_items ids).
  assert (∃ l, only_jobs l index ∧ ∀ i, i ∈ l → is_Some (m !! i)) as (l & Hjobs & Hl).
  { unfold index. destruct (0 <? _); (eexists; split; [apply sync_jobs|]).
    - intros i (it & -> & [Hit _]%elem_of_filterb)%list_elem_of_fmap. by apply library_rows_elem.
    - intros i Hi. destruct (Hids i Hi) as (it & Hit & ->). by apply Hdom, library_rows_elem. }
  assert (∀ i, i ∈ survivors → is_Some (m !! i)) as Hsvm.
  { intros i Hi. destruct (Hsv i Hi) as [x Hx]. destruct (Hkm i x Hx) as (y & ? & _). by eexists. }
  destruct (jobs_ok m _ _ Hjobs Hl) as [I1 I2], (jobs_ok m _ _ (sync_jobs survivors) Hsvm) as [S1 S2].
  assert (∀ fin, fin_after fin [commit] = fin) as Hfin by (intros fin; by apply fin_after_commit).
  change (commit :: index ++ sync_items survivors ++ [commit]) with ([commit] ++ index ++ sync_items survivors ++ [commit]).
  cbn [s_effects emit set_rows]. split.
  - apply defers_ok_app. split; [done|]. rewrite Hlast. split; [done|]. apply (proj2 (defers_ok_app m index _)).
    split; [done|]. rewrite I2. apply (proj2 (defers_ok_app m (sync_items survivors) _)). by rewrite S2.
  - apply commits_ok_app. split; [done|]. apply commits_ok_app. split; [by split; [rewrite Hfin|]|]. rewrite Hfin.
    destruct (commits_ok_jobs override (confirmed_gone w j) (j_rows j) (fin_after false (s_effects st)) _ _ Hjobs)
      as [J1 J2].
    destruct (commits_ok_jobs override (confirmed_gone w j) (j_rows j) (fin_after false (s_effects st)) _ _
      (sync_jobs survivors)) as [K1 K2].
    apply commits_ok_app. split; [done|]. rewrite J2.
    apply (proj2 (commits_ok_app _ _ _ _ (sync_items survivors) [commit])). split; [done|]. rewrite K2.
    by split; [rewrite Hfin|].
Qed.

Ltac crash err :=
  match goal with |- context [committed ?m ?ev ?l] =>
    let E := fresh in
    pose proof (crash_ok l (committed m ev l).2) as E; destruct (committed m ev l); by apply E end.

(** Every commit of a run and every enqueued job, whatever its outcome *)
Lemma scan_effects_ok : let '(effects, _) := scan w j in defers_ok (j_rows j) effects ∧ kept_all effects.
Proof using Hw Hm.
  unfold scan, scan_library, _scan_body. fold (scope_of w j).
  set (scope := _norm_scope (j_rel_path j)).
  destruct start_ok as [_ _ Hc0 Hd0].
  destruct (assert_scannable_root (w_on_disk w)); cbn [negb]; [|crash ScanRootError].
  destruct (scope_of w j) as [is_file|] eqn:Hscope.
  2: { cbn. split; [done|]. split; [|done]. apply (keeps_weaken _ (λ _ _, False)); [done|apply keeps_refl]. }
  fold (listing w scope is_file (j_recursive j)). set (wk := listing w scope is_file (j_recursive j)).
  cbv zeta. set (rules := match load_enabled_rules _ _ with Ok rs => rs | Err _ => [] end).
  set (ex := load_existing (w_query w) (w_lib w) (j_rows j)).
  set (policy := (resolve_hash_policy _ _ _ _ _ _ _ _ _ _).1).
  pose proof (process_ok (w_lower w) (w_blake2b64 w) (w_sha256 w) (w_glob w) (w_new_id w) (w_signal w) (w_clock w)
    (w_tax w) (w_settings w) (w_lib w) rules (j_queued j) ex (j_rows j) (wo_inj _ _ Hw) (wo_fresh _ _ Hw)
    (deliver wk) 0 (start_state (j_rows j) (j_events j)) (final_audit wk) start_ok) as Hp.
  assert (∀ e, e ∈ map fst (deliver wk) → head (e_rel e) ≠ Some 65535) as Hnames.
  { intros e He. apply (wo_names _ _ Hw scope is_file (j_recursive j)). by eapply delivered_sub. }
  specialize (Hp Hnames).
  assert (∀ l, (∀ m ev s t, Commit m ev s t ∈ l → keeps nobody (j_rows j) m) → kept_all l) as Hweak.
  { intros l Hc. apply commits_ok_from. intros m ev s t Hin i it0 H0.
    destruct (Hc m ev s t Hin i it0 H0) as (it & ? & ? & H). exists it. split_and!; [done|done|].
    intros Hmi. destruct (H Hmi) as [?|Hno]; [by left|by destruct Hno]. }
  destruct (process _ _ _ _ _ _ _ _ _ _ _ _ _ (deliver wk) _ _ _) as [[[st en] a]|[st err]].
  2: { cbn [result_bind]. destruct Hp as [_ _ Hc Hd]. apply Hweak in Hc. crash err. }
  destruct Hp as [Hok Hseen]. cbn [result_bind]. pose proof Hok as [_ _ Hc Hd]. apply Hweak in Hc.
  pose proof (λ a stop, wrap_up_ok (w_lower w) (w_fs w) (w_xxh3_64 w) (w_xxh3_128 w) (w_blake2b64 w) (w_sha256 w)
    (w_glob w) (w_flush w) (w_query w) (w_fetch w) (w_agent w) (w_new_id w) (w_settings w) (w_lib w) policy rules
    ex (j_rows j) (wo_flush _ _ Hw) (wo_query _ _ Hw) (wo_fetch _ _ Hw) existing_rows existing_nodup st a stop
    scope is_file (j_recursive j) (j_force_empty j) (j_now j) Hok) as Hwrap.
  (* the end of a run whose walk was stopped or is complete *)
  assert (∀ a stop, (stop = false → en = WalkDone ∧ error wk = None) →
    let '(effects, _) :=
      match ('(st, stats, survivors) <-! wrap_up (w_lower w) (w_fs w) (w_xxh3_64 w) (w_xxh3_128 w) (w_blake2b64 w)
          (w_sha256 w) (w_glob w) (w_flush w) (w_query w) (w_fetch w) (w_agent w) (w_settings w) (w_lib w) policy
          rules ex st a stop scope is_file (j_recursive j) (j_force_empty j) (j_now j);
        associate (w_lower w) (w_fs w) (w_query w) (w_settings w) (w_lib w) (w_decimal w) (w_digit w) (w_xml w)
          st stats survivors) with
      | Ok (st, out) => (s_effects st, Ok out)
      | Err (st, err) => let '(m', events') := committed (j_rows j) (j_events j) (s_effects st) in
          (s_effects st ++ [Commit m' events' (Some failed) no_stats], Err err)
      end in defers_ok (j_rows j) effects ∧ kept_all effects) as Hend.
  { intros a' stop Hstop. specialize (Hwrap a' stop).
    destruct (wrap_up _ _ _ _ _ _ _ _ _ _ _ _ _ _ _ _ _ _ _ _ _ _ _ _) as [[[st' stats] sv]|[st' err]];
      cbn [result_bind]; [|destruct Hwrap as (-> & _); crash err].
    destruct Hwrap as (Hd' & Hlast & Hkey & Hsv & Hfin & Hk').
    assert (kept_all (s_effects st')) as Hka.
    { apply commits_ok_from. intros m ev s t Hin i it0 H0.
      destruct (Hk' m ev s t Hin i it0 H0) as (it & H1 & H2 & H3). exists it. split_and!; [done|done|].
      intros Hmi. destruct (H3 Hmi) as [?|(Hst & Hs & rel & Hin' & Hrel & Hlib)]; [by left|right]. split; [done|].
      destruct (Hstop Hst) as [-> Herr].
      split; [done|]. exists is_file. split; [done|]. fold scope wk. rewrite Hrel.
      unfold vanished in Hin'. apply elem_of_filterb in Hin' as [_ [Hin1 Hin2]%andb_true_iff].
      split_and!; [done|done|]. intros e He Her.
      destruct (listing_complete w j is_file e Herr He) as [Hlist|?]; [left|by right]. rewrite Hseen in Hin2 by done.
      apply negb_true_iff, bool_decide_eq_false in Hin2.
      destruct (gated _ _ _ e) eqn:Hg; [done|]. exfalso. apply Hin2. apply elem_of_union_l.
      unfold counted_rels. apply elem_of_list_to_set. rewrite <- Her. apply list_elem_of_fmap_2.
      apply elem_of_filterb. split; [|by rewrite Hg]. unfold deliver.
      rewrite Herr. rewrite delivered_all by lia. done. }
    pose proof (associate_ok st' stats sv Hd' Hlast Hkey Hsv Hka) as Ha.
    destruct (associate _ _ _ _ _ _ _ _ _ _ _) as [[st2 out]|[st2 err]]; [done|subst st2; crash err]. }
  destruct en; [|by apply Hend|done].
  destruct (error wk) as [oe|] eqn:Herr; [crash WalkError|]. by apply Hend.
Qed.
End whole.

(** ** Properties *)

(** C3: a scan never loses a row.  In every commit of every run — finished, stopped,
    cancelled or crashed, with moves within and across libraries and the metadata of
    sidecars folded in — each row of the catalogue the run started from is still there
    under its id.  The columns the user owns are as they were, extracted metadata changes
    only under the two sidecar prefixes and loses no key, and unless the operator made
    sidecars the authority a title or year that was set stays. *)
Theorem scan_keeps_catalogue w j :
  world_ok w (j_rows j) → catalogue_ok (j_rows j) →
  let '(effects, _) := scan w j in
  ∀ m ev s t, Commit m ev s t ∈ effects →
  ∀ i it0, j_rows j !! i = Some it0 → ∃ it, m !! i = Some it ∧ kept (override w) (i_curated it0) (i_curated it).
Proof.
  intros Hw Hm. pose proof (scan_effects_ok w j Hw Hm) as H. destruct (scan w j) as [effects r].
  destruct H as [_ H]. intros m ev s t Hin i it0 H0. apply list_elem_of_split in Hin as (l1 & l2 & ->).
  destruct (commits_ok_at _ _ _ _ _ _ _ _ _ H i it0 H0) as (it & ? & ? & _). by exists it.
Qed.


(** C26: jobs are enqueued only for committed rows: whatever the mode (staged or not) and
    the outcome, each id of an enqueued batch, for extraction or for the search index, has
    a row in the last commit before it, so a worker never looks up a row that is not there
    yet. *)
Theorem extract_deferred_after_commit w j :
  world_ok w (j_rows j) → catalogue_ok (j_rows j) →
  defers_ok (j_rows j) (scan w j).1.
Proof.
  intros Hw Hm. pose proof (scan_effects_ok w j Hw Hm) as H. destruct (scan w j) as [effects r]. apply H.
Qed.

(** An empty mount is refused.  A full scan whose root lists nothing, over a library
    with an active row, fails before it commits anything: the only commit is the failed
    run's, with the catalogue and the alert events as they were. *)
Theorem empty_mount_refused w j i it0 :
  world_ok w (j_rows j) → catalogue_ok (j_rows j) →
  w_on_disk w [] = Some (Folder [] None) → _norm_scope (j_rel_path j) = [] →
  scan_empty_guard (w_settings w) = true → j_force_empty j = false →
  j_rows j !! i = Some it0 → i_library_id it0 = lib_id (w_lib w) → i_status it0 = active →
  scan w j = ([Commit (j_rows j) (j_events j) (Some failed) no_stats], Err ScanRootError).
Proof.
  intros Hw Hm Hdisk Hscope Hguard Hforce H0 Hlib Hst.
  set (audit := mkAudit 0 0 0 0 [] (count_pruned_files (w_lib w))).
  set (ex := load_existing (w_query w) (w_lib w) (j_rows j)).
  set (st := start_state (j_rows j) (j_events j)).
  assert (empty_mount (w_settings w) ex st audit [] false = true) as Hempty.
  { unfold empty_mount. rewrite Hguard. cbn [negb andb].
    rewrite !bool_decide_eq_true_2 by done. cbn [andb]. apply andb_true_iff. split; [done|].
    apply negb_true_iff, Nat.eqb_neq. intros Hnil. unfold prior_active in Hnil.
    apply length_zero_iff_nil in Hnil. pose proof (proj1 (filterb_nil _ _) Hnil (i_rel_path it0, i)) as Hf.
    assert ((i_rel_path it0, i) ∈ ex) as Hin.
    { unfold ex, load_existing, library_rows. apply list_elem_of_fmap. exists it0.
      rewrite (co_key _ Hm i it0 H0). split; [done|]. rewrite (wo_query _ _ Hw). apply elem_of_filterb. split.
      - apply list_elem_of_fmap. exists (i, it0). split; [done|]. by apply elem_of_map_to_list.
      - unfold in_library. by apply Z.eqb_eq. }
    specialize (Hf Hin). cbv beta iota in Hf. change (row_of st i) with (j_rows j !! i) in Hf.
    rewrite H0 in Hf. unfold is_active in Hf. by rewrite Hst in Hf. }
  unfold scan, scan_library, _scan_body, assert_scannable_root. rewrite Hdisk. cbn [negb]. rewrite Hscope.
  cbn [scope_is_file].
  assert (list_scope (w_lower w) (w_spec w) (w_fs w) (w_lib w) (w_on_disk w) (w_lstat w) [] false (j_recursive j) =
    mkWalkOut [] audit None) as Hlist by (unfold list_scope, walk; by rewrite Hdisk).
  rewrite Hlist. cbv zeta. change (deliver (mkWalkOut [] audit None)) with (@nil (Entry * WalkAudit)).
  cbn [process result_bind error final_audit]. unfold wrap_up. rewrite Hforce. fold ex st. rewrite Hempty. done.
Qed.

(** *** A concrete run: a file renamed, a file gone *)

Definition file_row (id : Z) (rel : string) (quick : string) : Item :=
  mkItem id 7 None None active (txt "/r/") (txt rel) (txt rel) None 5 0 (Some quick) None None
    (Some 1) (Some 7) (Some 1) None 0 None None (Some "x") None None (mkCurated (Some (txt rel)) None [] ∅ ∅ ∅ 0).
Definition example_rows : rows := {[1 := file_row 1 "m/a.mkv" "h"; 2 := file_row 2 "n/b.mkv" "h2"]}.
Definition example_file : node := Leaf (mkLeaf (Ok (mkStat 33188 5 0 1 7 1)) (Err OSError_)).
Definition example_disk (unreadable : option os_error) : node :=
  Folder [(txt "m", Folder [(txt "x.mkv", example_file)] None); (txt "n", Folder [] unreadable)] None.
Definition example_world (root : node) : World :=
  mkWorld (λ c, [c]) (λ _, false) (λ _, Some []) (λ _, "h") (λ _, "h") (λ _, "h") (λ _, "h") (λ _, None)
    id id id (λ _, false) (λ k, 1000 + Z.of_nat k) (λ _, running) (λ _, 50) (mkTaxonomy ∅ ∅)
    (mkSettings false true true 1000 "fill") (mkLibrary 7 (txt "/r") [] [] false "full" None)
    (λ p, match p with [] => Some root | _ => None end) (λ _, Err OSError_) (λ _, None) id None (λ _, false) (λ _, None).
Definition example_job : Job := mkJob example_rows [] [] [] None true false 60.

Lemma example_catalogue : catalogue_ok example_rows.
Proof.
  assert (scan_input_b (λ _, "h") example_rows [] [] 7 = true) as Hb by (vm_compute; reflexivity).
  apply scan_input_check in Hb as [Hu Hp _ _ _ _ _]. split; [|done|done].
  intros i it Hi.
  assert (forallb (λ '(i, a), i_id a =? i) (map_to_list example_rows) = true) as HP by (vm_compute; reflexivity).
  pose proof (store_forall _ _ HP i it Hi) as H. by apply Z.eqb_eq.
Qed.

Lemma example_world_ok root :
  forallb (λ e, negb (bool_decide (head (e_rel e) = Some 65535)))
    (map fst (trace (listing (example_world root) [] false true)) ++
     map fst (trace (listing (example_world root) [] false false))) = true →
  world_ok (example_world root) example_rows.
Proof.
  intros Hb. split; cbn [example_world w_new_id w_flush w_query w_fetch]; try done.
  - intros a b. lia.
  - intros k. unfold example_rows. rewrite lookup_insert_ne by lia. apply lookup_singleton_ne. lia.
  - intros scope is_file recursive e He Hh. rewrite forallb_elem in Hb.
    assert (e ∈ map fst (trace (listing (example_world root) [] false true)) ++
      map fst (trace (listing (example_world root) [] false false))) as Hin.
    { rewrite elem_of_app. destruct is_file; [by apply not_elem_of_nil in He|].
      destruct scope as [|c scope]; [|by apply not_elem_of_nil in He]. destruct recursive; [by left|by right]. }
    specialize (Hb e Hin). by rewrite bool_decide_eq_true_2 in Hb.
Qed.

Definition summary (l : list effect) : list (list (Z * text * ItemStatus) * option run_status + list Z) :=
  map (λ x, match x with
    | Commit m _ s _ => inl (map (λ '(i, it), (i, i_rel_path it, i_status it)) (map_to_list m), s)
    | Defer ids | Sync ids => inr ids end) l.

Lemma scan_keeps_catalogue_witness :
  summary (scan (example_world (example_disk None)) example_job).1 =
    [inl ([(2, txt "n/b.mkv", missing); (1, txt "m/x.mkv", active)], Some finished);
     inl ([(2, txt "n/b.mkv", missing); (1, txt "m/x.mkv", active)], None); inr [1];
     inl ([(2, txt "n/b.mkv", missing); (1, txt "m/x.mkv", active)], None)] ∧
  let '(effects, _) := scan (example_world (example_disk None)) example_job in
  ∀ m ev s t, Commit m ev s t ∈ effects →
  ∀ i it0, example_rows !! i = Some it0 → ∃ it, m !! i = Some it ∧ kept false (i_curated it0) (i_curated it).
Proof.
  split; [vm_compute; reflexivity|].
  apply (scan_keeps_catalogue (example_world (example_disk None)) example_job); [|apply example_catalogue].
  apply example_world_ok. vm_compute. reflexivity.
Defined.


(** The library of the example with two new files: their jobs follow their commit. *)
Definition grown_disk : node :=
  Folder [(txt "m", Folder [(txt "a.mkv", example_file); (txt "c.mkv", example_file)] None);
          (txt "n", Folder [(txt "b.mkv", example_file)] None)] None.

Lemma extract_deferred_after_commit_witness :
  map (λ x, match x with Commit _ _ s _ => inl s | Defer ids | Sync ids => inr ids end)
    (scan (example_world grown_disk) example_job).1 =
    [inl (Some finished); inr [1000]; inl None; inl None] ∧
  defers_ok example_rows (scan (example_world grown_disk) example_job).1.
Proof.
  split; [vm_compute; reflexivity|].
  apply (extract_deferred_after_commit (example_world grown_disk) example_job); [|apply example_catalogue].
  apply example_world_ok. vm_compute. reflexivity.
Defined.

Lemma empty_mount_refused_witness :
  scan (example_world (Folder [] None)) example_job =
    ([Commit example_rows [] (Some failed) no_stats], Err ScanRootError).
Proof.
  apply (empty_mount_refused (example_world (Folder [] None)) example_job 1 (file_row 1 "m/a.mkv" "h"));
    try reflexivity; [|apply example_catalogue].
  apply example_world_ok. vm_compute. reflexivity.
Defined.

(** An unreadable directory counts as an empty one: the walk skips it after counting
    the denial, and the run that finishes marks the files recorded under it [missing]
    although it never saw whether they are there. *)
Theorem unreadable_directory_tombstoned :
  head (summary (scan (example_world (example_disk (Some PermissionError))) example_job).1) =
    Some (inl ([(2, txt "n/b.mkv", missing); (1, txt "m/x.mkv", active)], Some finished)) ∧
  permission_denied (final_audit
    (listing (example_world (example_disk (Some PermissionError))) [] false true)) = 1.
Proof. vm_compute. done. Qed.

(** A movie beside an NFO whose rating is [nan]: [float] accepts it, the JSON column does
    not, and the run is marked failed after it had finished. *)
Definition nfo_rows : rows := {[1 := file_row 1 "m/a.mkv" "h"; 2 := file_row 2 "m/a.nfo" "h"]}.
Definition nfo_disk : node :=
  Folder [(txt "m", Folder [(txt "a.mkv", example_file); (txt "a.nfo", example_file)] None)] None.
Definition nfo_element : elem :=
  Elem (txt "movie") [] None [Elem (txt "title") [] (Some (txt "Heat")) []; Elem (txt "rating") [] (Some (txt "nan")) []].
Definition nfo_world : World :=
  mkWorld (λ c, [c]) (λ _, false) (λ _, Some [0]) (λ _, "h") (λ _, "h") (λ _, "h") (λ _, "h") (λ _, None)
    id id id (λ _, false) (λ k, 1000 + Z.of_nat k) (λ _, running) (λ _, 50) (mkTaxonomy ∅ ∅)
    (mkSettings false true true 1000 "fill") (mkLibrary 7 (txt "/r") [] [] false "full" None)
    (λ p, match p with [] => Some nfo_disk | _ => None end) (λ _, Err OSError_) (λ _, None) id None
    (λ _, false) (λ _, Some nfo_element).

Lemma nan_rating_fails_scan :
  let '(effects, r) := scan nfo_world (mkJob nfo_rows [] [] [] None true false 60) in
  (omap (λ x, match x with Commit _ _ s _ => Some s | _ => None end) effects, r) =
    ([Some finished; Some failed], Err DataError).
Proof. vm_compute. reflexivity. Qed.
