(* ===== verification/AgentMeta.v ===== *)
(** * Agent extraction payloads ([agentsync.py], [embed.py], [chunking.py])

    The extraction result an agent sends with a change event and its fold into the
    metadata column of the item: the namespace of keys an agent cannot write, the
    diagnostics it may, the provenance stamps, and the fingerprints that go when the
    text they were derived from changes. *)
From S2P Require Import Prelude PyStr Uuid Utf8 PathLabel Text Json Alerts.
From Stdlib Require Import SpecFloat.
From stdpp Require Import options.

Record ExtractedPayload := mkExtracted {
  schema_version : Z;
  meta : list (text * json);
  body_text : option text;
  body_text_truncated : bool;
}.

Definition EXTRACTED_BY_KEY : text := txt "_extracted_by".
Definition EXTRACT_SCHEMA_KEY : text := txt "_extract_schema".
Definition EXTRACTED_AT_KEY : text := txt "_extracted_at".
Definition EXTRACTED_BY_AGENT : text := txt "agent".
Definition AGENT_WRITABLE_UNDERSCORE_KEYS : list text :=
  map txt ["_extract_error"; "_extract_error_kind"; "_exif_error"; "_ocr_error"].
Definition AGENT_ERROR_MAX_CHARS : nat := 500.

Definition EMBEDDING_KEY : text := txt "_embedding".
Definition FINGERPRINT_KEY : text := txt "_embedding_fp".
Definition CHUNKS_FP_KEY : text := txt "_chunks_fp".

Definition central_key (key : text) : bool :=
  starts_with key (txt "_") && negb (mem key AGENT_WRITABLE_UNDERSCORE_KEYS).

(** [dict(strip_embedding(meta))] *)
Definition strip_embedding (m : gmap text json) : gmap text json :=
  delete EMBEDDING_KEY (delete FINGERPRINT_KEY m).

(** [meta.get(key) or default] *)
Definition get_truthy (m : gmap text json) (key : string) : option json :=
  match m !! txt key with Some v => if truthy v then Some v else None | None => None end.

(** [None]: [AttributeError], for a value that has no [strip] *)
Definition source_text (m : gmap text json) : option text :=
  match get_truthy m "body_text" with
  | Some (JText t) => Some (strip_space t)
  | Some _ => None
  | None =>
      match get_truthy m "ocr_text" with
      | Some (JText t) => Some (strip_space t)
      | Some _ => None
      | None => Some []
      end
  end.

Section merge.
Context (float_repr : spec_float → text) (uni_printable : Z → bool).
(** [get_settings().archive_members_index_chars], a non-negative number *)
Context (archive_members_index_chars : nat).

(** The code points below U+0020 and U+007F..U+009F *)
Definition is_control (c : Z) : bool := (c <? 32) || (127 <=? c) && (c <=? 159).
(** ["\t\n\v\f\r"] *)
Definition space_control (c : Z) : bool := (9 <=? c) && (c <=? 13).
Definition SPACE : Z := 32.

Definition one_line (t : text) : text :=
  let kept := filterb (λ c, space_control c || negb (is_control c)) t in
  let shown := map (λ c, if space_control c then SPACE else c) kept in
  take AGENT_ERROR_MAX_CHARS (join_text SPACE (words shown)).

Definition _agent_error_text (value : json) : text :=
  match value with JNull => [] | _ => one_line (py_str float_repr uni_printable value) end.

Definition NEWLINE : Z := 10.

(** [str(m.get("name")) for m in members if isinstance(m, dict) and m.get("name")] *)
Definition member_names (members : list json) : list text :=
  omap (λ m, match m with
    | JDict d => v ← dict_get (txt "name") d;
        if truthy v then Some (py_str float_repr uni_printable v) else None
    | _ => None end) members.

Definition _derive_archive_members (merged : gmap text json) : gmap text json :=
  match merged !! txt "archive", merged !! txt "archive_members" with
  | Some (JDict archive), None =>
      match dict_get (txt "members") archive with
      | Some (JList members) =>
          match member_names members with
          | [] => merged
          | names =>
              let flat := join_text NEWLINE names in
              let cap := archive_members_index_chars in
              <[txt "archive_members" := JText (if (0 <? cap)%nat then take cap flat else flat)]> merged
          end
      | _ => merged
      end
  | _, _ => merged
  end.

(** One turn of the loop over [payload.meta.items()] *)
Definition merge_key (merged : gmap text json) (kv : text * json) : gmap text json :=
  let '(key, value) := kv in
  if starts_with key (txt "_") then
    if negb (mem key AGENT_WRITABLE_UNDERSCORE_KEYS) then merged
    else match _agent_error_text value with [] => merged | t => <[key := JText t]> merged end
  else <[key := value]> merged.

Definition put_body (payload : ExtractedPayload) (merged : gmap text json) : gmap text json :=
  match body_text payload with
  | None => merged
  | Some t => <[txt "body_text_truncated" := JBool (body_text_truncated payload)]>
      (<[txt "body_text" := JText t]> merged)
  end.

Definition stamp (payload : ExtractedPayload) (now : Z) (merged : gmap text json) : gmap text json :=
  <[EXTRACTED_AT_KEY := JText (isoformat now)]>
    (<[EXTRACT_SCHEMA_KEY := JInt (schema_version payload)]>
      (<[EXTRACTED_BY_KEY := JText EXTRACTED_BY_AGENT]> merged)).

(** [None]: [AttributeError] *)
Definition merge_extracted_metadata (existing : gmap text json) (payload : ExtractedPayload) (now : Z) :
    option (gmap text json) :=
  let merged := _derive_archive_members
    (stamp payload now (put_body payload (foldl merge_key existing (meta payload)))) in
  new ← source_text merged;
  old ← source_text existing;
  if bool_decide (new = old) then Some merged
  else Some (delete CHUNKS_FP_KEY (strip_embedding merged)).

(** The payload as the wire has it, the measure of the size gate; [None]:
    [UnicodeEncodeError] *)
Definition payload_json (p : ExtractedPayload) : json :=
  JDict [(txt "schema", JInt (schema_version p)); (txt "meta", JDict (meta p));
    (txt "body_text", match body_text p with Some t => JText t | None => JNull end);
    (txt "body_text_truncated", JBool (body_text_truncated p))].
Definition extracted_json_len (p : ExtractedPayload) : option nat :=
  bs ← utf8_encode (json_dumps float_repr false (payload_json p)); Some (length bs).
End merge.

(** ** Facts *)

Definition PROVENANCE_KEYS : list text := [EXTRACTED_BY_KEY; EXTRACT_SCHEMA_KEY; EXTRACTED_AT_KEY].
Definition DERIVED_KEYS : list text := [EMBEDDING_KEY; FINGERPRINT_KEY; CHUNKS_FP_KEY].

(** A diagnostic as the console may show it *)
Definition clean_error (t : text) : Prop :=
  t ≠ [] ∧ (length t ≤ AGENT_ERROR_MAX_CHARS)%nat ∧ ∀ c, c ∈ t → is_control c = false.

(** Membership of a closed key in a closed list *)
Ltac key_cases := apply (bool_decide_eq_true_1 _); vm_compute; reflexivity.

Section facts.
Context (float_repr : spec_float → text) (uni_printable : Z → bool) (archive_members_index_chars : nat).
Local Abbreviation error_text := (_agent_error_text float_repr uni_printable).
Local Abbreviation merge_keys := (foldl (merge_key float_repr uni_printable)).
Local Abbreviation derive := (_derive_archive_members float_repr uni_printable archive_members_index_chars).
Local Abbreviation merge := (merge_extracted_metadata float_repr uni_printable archive_members_index_chars).

Lemma agent_error_text_clean v : error_text v = [] ∨ clean_error (error_text v).
Proof.
  assert (∀ t, one_line t = [] ∨ clean_error (one_line t)) as H; [|unfold _agent_error_text; destruct v; auto].
  intros t. destruct (decide (one_line t = [])) as [|Hne]; [by left|right]. unfold one_line in *.
  split_and!; [done|rewrite length_take; lia|]. intros c Hc%elem_of_list_take%join_text_sub.
  destruct Hc as [->|(w & Hw & Hc)]; [done|].
  destruct (runs_sub is_space [] _ w c Hw Hc) as [?%not_elem_of_nil|Hs]; [done|]. clear Hc. rename Hs into Hc.
  apply list_elem_of_fmap in Hc as (x & -> & Hx). apply elem_of_filterb in Hx as [_ Hx].
  destruct (space_control x); [done|by apply negb_true_iff in Hx].
Qed.

(** What one key of the payload leaves alone *)
Lemma merge_key_central m kv key : central_key key = true → merge_key float_repr uni_printable m kv !! key = m !! key.
Proof.
  intros [Hu Hw]%andb_true_iff. destruct kv as [k v]. cbn [merge_key].
  destruct (starts_with k _) eqn:Hk.
  - destruct (mem k _) eqn:Hm; cbn [negb]; [|done]. case_match; [done|].
    apply lookup_insert_ne. intros ->. by rewrite Hm in Hw.
  - apply lookup_insert_ne. intros ->. by rewrite Hk in Hu.
Qed.

Lemma merge_keys_central l m key : central_key key = true → merge_keys m l !! key = m !! key.
Proof.
  intros Hk. revert m. induction l as [|kv l IH]; intros m; [done|]. cbn [foldl].
  by rewrite IH, merge_key_central.
Qed.

Lemma merge_keys_writable l m key :
  key ∈ AGENT_WRITABLE_UNDERSCORE_KEYS →
  merge_keys m l !! key = m !! key ∨ ∃ t, merge_keys m l !! key = Some (JText t) ∧ clean_error t.
Proof.
  intros Hk. revert m. induction l as [|[k v] l IH]; intros m; [by left|]. cbn [foldl].
  destruct (IH (merge_key float_repr uni_printable m (k, v))) as [->|]; [|by right].
  cbn [merge_key]. assert (starts_with key (txt "_") = true) as Hu.
  { unfold AGENT_WRITABLE_UNDERSCORE_KEYS in Hk. cbn [map] in Hk. by elem_cases Hk. }
  destruct (starts_with k _) eqn:Hs.
  - destruct (negb _); [by left|]. pose proof (agent_error_text_clean v) as Hc.
    destruct (error_text v) as [|c t]; [by left|].
    destruct (decide (k = key)) as [->|Hne]; [|left; by apply lookup_insert_ne].
    right. exists (c :: t). rewrite lookup_insert_eq. destruct Hc as [|Hc]; done.
  - left. apply lookup_insert_ne. intros ->. by rewrite Hs in Hu.
Qed.

(** *** What the other steps leave alone *)

Lemma derive_other m key : key ≠ txt "archive_members" → derive m !! key = m !! key.
Proof.
  intros Hne. unfold _derive_archive_members. repeat case_match; try done; by apply lookup_insert_ne.
Qed.

Lemma put_body_other p m key : starts_with key (txt "_") = true → put_body p m !! key = m !! key.
Proof.
  intros Hk. unfold put_body. case_match; [|done]. rewrite !lookup_insert_ne; [done|..]; by intros <-.
Qed.

Lemma stamp_other p now m key : key ∉ PROVENANCE_KEYS → stamp p now m !! key = m !! key.
Proof.
  unfold PROVENANCE_KEYS. rewrite !not_elem_of_cons. intros (? & ? & ? & _). unfold stamp.
  by rewrite !lookup_insert_ne.
Qed.

Lemma strip_source_text m :
  source_text (delete CHUNKS_FP_KEY (strip_embedding m)) = source_text m.
Proof.
  assert (∀ k : string, txt k ∉ DERIVED_KEYS →
    get_truthy (delete CHUNKS_FP_KEY (strip_embedding m)) k = get_truthy m k) as Hg.
  { intros k. unfold DERIVED_KEYS, get_truthy, strip_embedding. rewrite !not_elem_of_cons. intros (? & ? & ? & _).
    by rewrite !lookup_delete_ne. }
  unfold source_text. by rewrite !Hg by key_cases.
Qed.

(** The keys of the merged dict, before the derivation keys may go *)
Lemma merged_keys old p now key :
  let m := derive (stamp p now (put_body p (merge_keys old (meta p)))) in
  (key ∈ PROVENANCE_KEYS → m !! key = stamp p now ∅ !! key) ∧
  (central_key key = true → key ∉ PROVENANCE_KEYS → m !! key = old !! key) ∧
  (key ∈ AGENT_WRITABLE_UNDERSCORE_KEYS →
    m !! key = old !! key ∨ ∃ t, m !! key = Some (JText t) ∧ clean_error t).
Proof.
  intros m.
  assert (starts_with key (txt "_") = true → key ∉ PROVENANCE_KEYS → m !! key = merge_keys old (meta p) !! key) as Hrest.
  { intros Hu Hk. unfold m. rewrite derive_other by (by intros ->). by rewrite stamp_other, put_body_other. }
  split_and!.
  - intros Hk. unfold m. unfold PROVENANCE_KEYS in Hk.
    elem_cases Hk; rewrite derive_other by key_cases; unfold stamp; by simplify_map_eq.
  - intros Hc Hk. rewrite Hrest; [by apply merge_keys_central| |done]. by apply andb_true_iff in Hc as [? _].
  - intros Hk. rewrite Hrest; [by apply merge_keys_writable|..];
      unfold AGENT_WRITABLE_UNDERSCORE_KEYS in Hk; cbn [map] in Hk; elem_cases Hk; first [done|key_cases].
Qed.

Lemma strip_lookup (m : gmap text json) key :
  delete CHUNKS_FP_KEY (strip_embedding m) !! key = if bool_decide (key ∈ DERIVED_KEYS) then None else m !! key.
Proof.
  unfold strip_embedding. case_bool_decide as Hk; unfold DERIVED_KEYS in Hk.
  - elem_cases Hk; by simplify_map_eq.
  - rewrite !not_elem_of_cons in Hk. destruct Hk as (? & ? & ? & _). by rewrite !lookup_delete_ne.
Qed.

(** C9: an agent's payload has no way into the keys central owns.  A key of the underscore
    namespace other than the four diagnostics and the three stamps keeps its value,
    except that the three derivation keys go together when, and only when, the text
    they were derived from changed; the stamps are central's own; a diagnostic is kept
    or replaced by one non-empty line of at most 500 characters without controls. *)
Theorem merge_extracted_guarded old p now new :
  merge old p now = Some new →
  (∀ key, central_key key = true → key ∉ PROVENANCE_KEYS → key ∉ DERIVED_KEYS → new !! key = old !! key) ∧
  (∀ key, key ∈ DERIVED_KEYS →
    new !! key = if bool_decide (source_text new = source_text old) then old !! key else None) ∧
  new !! EXTRACTED_BY_KEY = Some (JText EXTRACTED_BY_AGENT) ∧
  new !! EXTRACT_SCHEMA_KEY = Some (JInt (schema_version p)) ∧
  new !! EXTRACTED_AT_KEY = Some (JText (isoformat now)) ∧
  (∀ key, key ∈ AGENT_WRITABLE_UNDERSCORE_KEYS →
    new !! key = old !! key ∨ ∃ t, new !! key = Some (JText t) ∧ clean_error t).
Proof.
  unfold merge_extracted_metadata. pose proof (merged_keys old p now) as Hm. set (m := derive _) in *.
  assert (∀ key, key ∈ DERIVED_KEYS → m !! key = old !! key) as Hd.
  { intros key Hk. unfold DERIVED_KEYS in Hk. elem_cases Hk; apply Hm; first [done|key_cases]. }
  assert (∀ key, key ∈ PROVENANCE_KEYS ∨ key ∈ AGENT_WRITABLE_UNDERSCORE_KEYS → key ∉ DERIVED_KEYS) as Ho.
  { intros key [Hk|Hk]; unfold PROVENANCE_KEYS, AGENT_WRITABLE_UNDERSCORE_KEYS in Hk; cbn [map] in Hk;
      elem_cases Hk; key_cases. }
  destruct (source_text m) as [s|] eqn:Hs; [|done]. cbn [mbind option_bind].
  destruct (source_text old) as [s'|] eqn:Hs'; [|done]. cbn [mbind option_bind].
  set (stripped := delete CHUNKS_FP_KEY (strip_embedding m)).
  intros Hnew. assert (new = m ∧ s = s' ∨ new = stripped ∧ s ≠ s') as Hcase by (case_bool_decide; naive_solver).
  assert (source_text new = Some s) as Hn.
  { destruct Hcase as [[-> _]|[-> _]]; [done|]. unfold stripped. by rewrite strip_source_text. }
  assert (∀ key, key ∉ DERIVED_KEYS → new !! key = m !! key) as Hsame.
  { intros key Hk. destruct Hcase as [[-> _]|[-> _]]; [done|]. unfold stripped.
    by rewrite strip_lookup, bool_decide_eq_false_2. }
  assert (∀ key, key ∈ PROVENANCE_KEYS → new !! key = stamp p now ∅ !! key) as Hprov.
  { intros key Hk. rewrite Hsame by (apply Ho; by left). by apply Hm. }
  rewrite Hn, !Hprov by key_cases.
  split_and!; [| |unfold stamp; by simplify_map_eq..|].
  - intros key Hc Hp Hk. rewrite Hsame by done. by apply Hm.
  - intros key Hk. destruct Hcase as [[-> ->]|[-> Hne]].
    + rewrite bool_decide_eq_true_2 by done. by apply Hd.
    + rewrite bool_decide_eq_false_2 by congruence. unfold stripped. by rewrite strip_lookup, bool_decide_eq_true_2.
  - intros key Hk. rewrite Hsame by (apply Ho; by right). by apply Hm.
Qed.
End facts.

Definition example_meta : gmap text json :=
  list_to_map [(txt "_embedding_fp", JText (txt "fp1")); (txt "_sniffed_mime", JText (txt "application/pdf"));
    (txt "body_text", JText (txt "old text"))].
Definition example_payload : ExtractedPayload :=
  mkExtracted 2
    [(txt "_embedding_fp", JText (txt "forged")); (txt "_extracted_by", JText (txt "central"));
     (txt "_ocr_error", JText ([7] ++ txt "bad" ++ [10] ++ txt "page")); (txt "width", JInt 640)]
    (Some (txt "new text")) false.

Definition example_merge : option (gmap text json) :=
  merge_extracted_metadata (λ _, []) (λ _, true) 20000 example_meta example_payload 0.

Lemma merge_extracted_guarded_witness :
  ∃ new, example_merge = Some new ∧
    new !! FINGERPRINT_KEY = None ∧ new !! txt "_sniffed_mime" = Some (JText (txt "application/pdf")) ∧
    new !! EXTRACTED_BY_KEY = Some (JText (txt "agent")) ∧ new !! txt "_ocr_error" = Some (JText (txt "bad page")).
Proof.
  assert ((new ← example_merge; new !! txt "_ocr_error") = Some (JText (txt "bad page"))) as Herr
    by (vm_compute; reflexivity).
  assert ((new ← example_merge; source_text new) = Some (txt "new text")) as Hsrc by (vm_compute; reflexivity).
  destruct example_merge as [new|] eqn:Hm; [|done]. exists new.
  destruct (merge_extracted_guarded _ _ _ _ _ _ _ Hm) as (Hcentral & Hderived & Hby & _).
  split_and!; [done| | |done|done].
  - rewrite Hderived by key_cases. cbn in Hsrc. rewrite Hsrc. by rewrite bool_decide_eq_false_2.
  - rewrite Hcentral; [vm_compute; reflexivity|vm_compute; reflexivity|key_cases|key_cases].
Defined.

(** A truthy [body_text] or [ocr_text] that is not a string has no [strip]: the fold
    raises and takes the whole replication batch with it. *)
Lemma non_text_body_raises fr pr cap old p now v :
  body_text p = None → meta p = [(txt "body_text", v)] → truthy v = true → (∀ t, v ≠ JText t) →
  merge_extracted_metadata fr pr cap old p now = None.
Proof.
  intros Hb Hm Hv Hne. unfold merge_extracted_metadata. rewrite Hm. cbn [foldl merge_key]. unfold put_body. rewrite Hb.
  set (m := _derive_archive_members _ _ _ _).
  assert (m !! txt "body_text" = Some v) as Hl.
  { unfold m. rewrite derive_other by key_cases. rewrite stamp_other by key_cases. apply (lookup_insert_eq old). }
  assert (source_text m = None) as ->; [|done].
  unfold source_text, get_truthy. rewrite Hl, Hv. destruct v; try done. by edestruct Hne.
Qed.
