(* ===== verification/AgentSync.v ===== *)
(** * Agent replication ([agentsync.py], [api/agent_commands.py])

    The change events an agent sends, the sequence guard, the collapse of a batch into
    a plan, and its application to the catalogue in one transaction; the replication
    endpoint with its authentication.  Times are microseconds; [float] is binary64. *)
From S2P Require Import Prelude PyStr Uuid Utf8 PathLabel Text Json Catalog Sidecar Move AgentMeta.
From Stdlib Require Import SpecFloat.
From stdpp Require Import options.

(** ** Times *)

Definition float_of_int (n : Z) : spec_float := binary_normalize prec emax n 0 false.
Definition MILLION : Z := 1000000.

(** [round(x)], ties to even; [None]: [nan] or [inf] *)
Definition round_even (x : spec_float) : option Z :=
  match x with
  | S754_zero _ => Some 0
  | S754_finite s m e =>
      if 0 <=? e then Some (cond_Zopp s (Zpos m * 2 ^ e))
      else
        let k := 2 ^ (- e) in
        let q := Zpos m / k in
        let r := Zpos m mod k in
        Some (cond_Zopp s (if (k <? 2 * r) || ((2 * r =? k) && Z.odd q) then q + 1 else q))
  | _ => None
  end.

(** [round(mtime * 1_000_000)] *)
Definition mtime_to_us (mtime : spec_float) : option Z :=
  round_even (SFmul prec emax mtime (float_of_int MILLION)).

(** 0001-01-01 and the last microsecond of 9999-12-31 *)
Definition MIN_TIME : Z := -62135596800000000.
Definition MAX_TIME : Z := 253402300799999999.

(** [datetime.fromtimestamp(x, tz=UTC)]: the whole seconds are exact, the fraction is
    scaled in binary64 and rounded to even.  [None]: [ValueError] or [OverflowError] *)
Definition fromtimestamp (x : spec_float) : option Z :=
  us ← match x with
    | S754_zero _ => Some 0
    | S754_finite s m e =>
        if 0 <=? e then Some (cond_Zopp s (Zpos m * 2 ^ e) * MILLION)
        else
          let k := 2 ^ (- e) in
          let fraction := binary_normalize prec emax (cond_Zopp s (Zpos m mod k)) e s in
          r ← round_even (SFmul prec emax fraction (float_of_int MILLION));
          Some (cond_Zopp s (Zpos m / k) * MILLION + r)
    | _ => None
    end;
  if (MIN_TIME <=? us) && (us <=? MAX_TIME) then Some us else None.

(** [n / d] of two [int]s *)
Definition float_of_quotient (n : Z) (d : positive) : spec_float :=
  match n with
  | Z0 => S754_zero false
  | Zpos p => SFdiv prec emax (S754_finite false p 0) (S754_finite false d 0)
  | Zneg p => SFdiv prec emax (S754_finite true p 0) (S754_finite false d 0)
  end.
(** [t.timestamp()], and [us / 1_000_000] *)
Definition timestamp (us : Z) : spec_float := float_of_quotient us 1000000.

Example time_values :
  fromtimestamp (SFdiv prec emax (float_of_int 17223344551234567) (float_of_int 10000000)) = Some 1722334455123457 ∧
  mtime_to_us (timestamp 1722334455123457) = Some 1722334455123457 ∧
  fromtimestamp (timestamp (-1)) = Some (-1) ∧ fromtimestamp S754_nan = None ∧
  fromtimestamp (float_of_int 300000000000) = None.
Proof. vm_compute. done. Qed.

(** ** The wire *)

Inductive EventType := Created | Modified | Deleted | Moved.
Global Instance event_type_eq_dec : EqDecision EventType.
Proof. solve_decision. Defined.

Record AgentEvent := mkAgentEvent {
  seq_no : Z;
  event_type : EventType;
  library_ref : text;
  rel_path : text;
  from_rel_path : option text;
  ev_size : option Z;
  ev_mtime : option spec_float;
  ev_quick_hash : option string;
  ev_content_hash : option string;
  ev_share_hint : option json;
  extracted : option ExtractedPayload;
}.

Record ReplicationBatch := mkBatch { b_agent_id : string; entries : list AgentEvent }.

Inductive refusal := empty | gap | stale | duplicate | non_monotonic | internal_gap.
Inductive BatchVerdict :=
  | Accepted (accepted_from accepted_to : Z)
  | Refused (reason : refusal) (expected_seq_no : Z).

(** The loop over [entries[1:]] *)
Fixpoint check_rest (first prev : Z) (l : list AgentEvent) : BatchVerdict :=
  match l with
  | [] => Accepted first prev
  | ev :: l' =>
      let s := seq_no ev in
      if s =? prev then Refused duplicate (prev + 1)
      else if s <? prev then Refused non_monotonic (prev + 1)
      else if negb (s =? prev + 1) then Refused internal_gap (prev + 1)
      else check_rest first s l'
  end.

Definition check_batch (batch : ReplicationBatch) (last_seq : Z) : BatchVerdict :=
  match entries batch with
  | [] => Refused empty (last_seq + 1)
  | ev :: rest =>
      let first := seq_no ev in
      if first <=? last_seq then Refused stale (last_seq + 1)
      else if negb (first =? last_seq + 1) then Refused gap (last_seq + 1)
      else check_rest first first rest
  end.

(** ** The collapse of a batch *)

Record UpsertPlan := mkUpsertPlan { upserts : list AgentEvent; deletes : list text }.

(** [state]: the winning upsert of a path, [None] for a delete *)
Definition plan_step (state : gmap text (option AgentEvent)) (ev : AgentEvent) : gmap text (option AgentEvent) :=
  match event_type ev with
  | Moved =>
      <[rel_path ev := Some ev]>
        (match from_rel_path ev with Some p => <[p := None]> state | None => state end)
  | Deleted => <[rel_path ev := None]> state
  | Created | Modified => <[rel_path ev := Some ev]> state
  end.
Definition plan_state (events : list AgentEvent) : gmap text (option AgentEvent) := foldl plan_step ∅ events.

Definition ev_le (a b : AgentEvent) : bool := text_le (rel_path a) (rel_path b).

Definition plan_upserts (events : list AgentEvent) : UpsertPlan :=
  let state := map_to_list (plan_state events) in
  mkUpsertPlan
    (merge_sort ev_le (omap (λ '(_, w), w) state))
    (merge_sort text_le (omap (λ '(p, w), match w with None => Some p | Some _ => None end) state)).

(** ** The central state *)

Record Agent := mkAgent {
  ag_id : Z;
  ag_name : text;
  hostname : text;
  revoked_at : option Z;
  cert_fingerprint : option text;
  last_auth_mode : option string;
  last_contiguous_seq_no : Z;
  last_seen_at : option Z;
  last_reconcile_at : option Z;
}.

Record AgentLibrary := mkAgentLibrary {
  al_id : Z;
  al_name : text;
  al_root_path : text;
  source_agent_id : option Z;
  agent_library_ref : option text;
}.

Record ReconcileSession := mkSession {
  rs_id : Z;
  rs_agent_id : Z;
  rs_library_ref : text;
  started_at : Z;
  staged_rows : Z;
}.

(** A row of a manifest, its time in microseconds *)
Record ManifestRow := mkManifestRow {
  mr_rel_path : text;
  mr_size : Z;
  mtime_us : Z;
  mr_quick_hash : option string;
  mr_content_hash : option string;
}.

Record LedgerRow := mkLedger { lr_item_id : option Z; op : EventType; applied_at : Z }.

(** The tables, and how many ids of each the database has handed out *)
Record Central := mkCentral {
  items : rows;
  libraries : list AgentLibrary;
  agents : gmap Z Agent;
  ledger : gmap (Z * Z) LedgerRow;
  sessions : gmap Z ReconcileSession;
  staging : gmap (Z * text) ManifestRow;
  items_made : nat;
  libraries_made : nat;
  sessions_made : nat;
}.

Inductive sync_error :=
  | RowError (e : move_error)
  | TimestampError
  | AttributeError
  | UnicodeError
  | DataError
  | MissingLibrary.

Definition of_option {A} (e : sync_error) (x : option A) : result sync_error A :=
  match x with Some a => Ok a | None => Err e end.

(** What the columns accept: BIGINT, TEXT and JSONB *)
Definition int64 (n : Z) : bool := (- 2 ^ 63 <=? n) && (n <? 2 ^ 63).
Definition column_ok (t : text) : bool := bool_decide (is_Some (utf8_encode t)) && negb (has_code NUL t).
Definition hash_ok (h : option string) : bool := match h with Some s => column_ok (txt s) | None => true end.
Definition row_ok (it : Item) : bool :=
  int64 (i_size it) && column_ok (i_rel_path it) && hash_ok (i_quick_hash it) && hash_ok (i_content_hash it) &&
  match i_share_hint it with Some j => jsonb_ok j | None => true end && jsonb_map_ok (metadata_ (i_curated it)).

Record SyncSettings := mkSyncSettings {
  agents_enabled : bool;
  agent_auth_mode : string;
  proxy_shared_secret : text;
  agent_replication_max_entries : nat;
  agent_extracted_max_bytes : nat;
  archive_members_index_chars : nat;
  agent_reconcile_page_max : nat;
  agent_reconcile_session_ttl : Z;
}.

Definition slashes (t : text) : text := map (λ c, if c =? BACKSLASH then SLASH else c) t.

Definition set_agent (c : Central) (a : Agent) : Central :=
  mkCentral (items c) (libraries c) (<[ag_id a := a]> (agents c)) (ledger c) (sessions c) (staging c)
    (items_made c) (libraries_made c) (sessions_made c).
Definition touch_agent (a : Agent) (last_seq now : Z) : Agent :=
  mkAgent (ag_id a) (ag_name a) (hostname a) (revoked_at a) (cert_fingerprint a) (last_auth_mode a)
    last_seq (Some now) (last_reconcile_at a).

(** ** Libraries of agents *)

Definition _agent_library_basename (library_ref : text) : text :=
  match after_last SLASH (rstrip SLASH (slashes library_ref)) with [] => library_ref | base => base end.

Definition suffixed (base : text) (suffix : Z) : text := base ++ txt " (" ++ int_text suffix ++ txt ")".

(** The loop that looks for a free name; [None]: out of fuel *)
Fixpoint free_name (fuel : nat) (names : list text) (base name : text) (suffix : Z) : option text :=
  if mem name names then
    match fuel with
    | O => None
    | S k => free_name k names base (suffixed base suffix) (suffix + 1)
    end
  else Some name.

Definition find_library (libs : list AgentLibrary) (agent : Z) (ref : text) : option AgentLibrary :=
  List.find (λ l, bool_decide (source_agent_id l = Some agent) && bool_decide (agent_library_ref l = Some ref)) libs.

Section sync.
Context (uni_lower : Z → list Z) (float_repr : spec_float → text) (uni_printable : Z → bool).
Context (blake2b64 : list Z → string).
(** The ids the database assigns, the iteration order of a set of references *)
Context (new_id new_library new_session : nat → Z) (ref_order : list text → list text).
Context (tax : Taxonomy) (settings : SyncSettings).

Definition base_name (agent : Agent) (library_ref : text) : text :=
  (match ag_name agent with [] => hostname agent | n => n end) ++ txt ": " ++ _agent_library_basename library_ref.

Definition _provision_agent_library (c : Central) (agent : Agent) (library_ref : text) :
    result sync_error (Central * AgentLibrary * bool) :=
  match find_library (libraries c) (ag_id agent) library_ref with
  | Some l => Ok (c, l, false)
  | None =>
      let names := map al_name (libraries c) in
      let base := base_name agent library_ref in
      match free_name (length names) names base base 2 with
      | None => Err MissingLibrary
      | Some name =>
          if column_ok library_ref && column_ok name then
            let l := mkAgentLibrary (new_library (libraries_made c)) name library_ref
              (Some (ag_id agent)) (Some library_ref) in
            Ok (mkCentral (items c) (libraries c ++ [l]) (agents c) (ledger c) (sessions c) (staging c)
              (items_made c) (S (libraries_made c)) (sessions_made c), l, true)
          else Err DataError
      end
  end.

(** [for ref in refs] *)
Fixpoint provision_all (c : Central) (agent : Agent) (refs : list text) (lib_cache : gmap text AgentLibrary) (created : Z) :
    result sync_error (Central * gmap text AgentLibrary * Z) :=
  match refs with
  | [] => Ok (c, lib_cache, created)
  | ref :: refs' =>
      '(c, l, new) <-! _provision_agent_library c agent ref;
      provision_all c agent refs' (<[ref := l]> lib_cache) (if new then created + 1 else created)
  end.

(** ** Applying a batch *)

Definition delete_ref_step (m : gmap text text) (ev : AgentEvent) : gmap text text :=
  match event_type ev with
  | Moved => match from_rel_path ev with Some p => <[p := library_ref ev]> m | None => m end
  | Deleted => <[rel_path ev := library_ref ev]> m
  | _ => m
  end.
Definition delete_refs (events : list AgentEvent) : gmap text text := foldl delete_ref_step ∅ events.

(** The rows of the wanted keys, as the queries return them *)
Definition preload (m : rows) (want : list (Z * text)) : gmap (Z * text) Z :=
  list_to_map (omap (λ '(i, r),
    let k := (i_library_id r, i_rel_path r) in if bool_decide (k ∈ want) then Some (k, i) else None) (map_to_list m)).

Definition filename_of (rel : text) : text := after_last SLASH (slashes rel).
Definition extension_of (filename : text) : option text :=
  match rsplit DOT filename with Some (_, e) => Some (tlower uni_lower e) | None => None end.

Definition agent_row (id library : Z) (agent : Z) (rel : text) (size mtime : Z) (qh ch : option string)
    (scope : string) (now : Z) (hint : option json) (metadata : gmap text json) : Item :=
  let '(category, group) := detect uni_lower tax rel in
  let filename := filename_of rel in
  mkItem id library (Some category) (Some group) active rel rel filename (extension_of filename) size mtime
    qh ch None None None None None now None None (Some scope) (Some agent) hint
    (mkCurated None None [] ∅ metadata ∅ now).

Definition merge := merge_extracted_metadata float_repr uni_printable (archive_members_index_chars settings).

(** The columns an event writes to the row it finds *)
Definition event_row (it : Item) (agent : Z) (ev : AgentEvent) (mtime now : Z) (curated : Curated) : Item :=
  mkItem (i_id it) (i_library_id it) (i_file_category it) (i_file_group it) active (rel_path ev)
    (i_rel_path it) (i_filename it) (i_extension it) (default (i_size it) (ev_size ev))
    (match ev_mtime ev with Some _ => mtime | None => i_mtime it end)
    (ev_quick_hash ev) (ev_content_hash ev) (i_mid_hash it) (i_nlink it) (i_inode it) (i_dev it)
    (i_symlink_target it) now (i_deleted_at it) (i_sidecar_of it) (i_path_scope it) (Some agent)
    (match ev_share_hint ev with Some h => Some h | None => i_share_hint it end) curated.

Definition set_metadata (c : Curated) (m : gmap text json) : Curated :=
  mkCurated (title c) (year c) (tags c) (external_ids c) m (user_metadata c) (first_seen c).

Definition tombstone_row (it : Item) (agent now : Z) : Item :=
  mkItem (i_id it) (i_library_id it) (i_file_category it) (i_file_group it) missing (i_path it)
    (i_rel_path it) (i_filename it) (i_extension it) (i_size it) (i_mtime it)
    (i_quick_hash it) (i_content_hash it) (i_mid_hash it) (i_nlink it) (i_inode it) (i_dev it)
    (i_symlink_target it) now (i_deleted_at it) (i_sidecar_of it) (i_path_scope it) (Some agent)
    (i_share_hint it) (i_curated it).

(** An oversize payload is dropped. *)
Definition capped (p : option ExtractedPayload) : result sync_error (option ExtractedPayload) :=
  match p with
  | None => Ok None
  | Some x =>
      n <-! of_option UnicodeError (extracted_json_len float_repr x);
      Ok (if (agent_extracted_max_bytes settings <? n)%nat then None else Some x)
  end.

Definition scope_of (library : Z) (rel : text) : result sync_error string :=
  match path_to_ltree blake2b64 rel (Some library) SLASH with Ok s => Ok s | Err e => Err (RowError (LabelError e)) end.
Definition put_row (m : rows) (i : Z) (it : Item) : result sync_error rows :=
  if row_ok it then match update_row m i it with Ok m => Ok m | Err e => Err (RowError e) end else Err DataError.

Record Apply := mkApply {
  ap_items : rows;
  existing : gmap (Z * text) Z;
  item_id_by_rel : gmap text Z;
  touched_ids : list Z;
  ap_made : nat;
  upserted : Z;
  tombstoned : Z;
  noop_tombstones : Z;
}.

Section loops.
Context (agent : Z) (lib_cache : gmap text AgentLibrary) (now : Z).

Definition upsert_one (st : Apply) (ev : AgentEvent) : result sync_error Apply :=
  l <-! of_option MissingLibrary (lib_cache !! library_ref ev);
  let key := (al_id l, rel_path ev) in
  mtime <-! match ev_mtime ev with Some x => of_option TimestampError (fromtimestamp x) | None => Ok now end;
  payload <-! capped (extracted ev);
  match existing st !! key with
  | None =>
      scope <-! scope_of (al_id l) (rel_path ev);
      metadata <-! match payload with
        | Some p => of_option AttributeError (merge ∅ p now)
        | None => Ok ∅
        end;
      let id := new_id (ap_made st) in
      m <-! put_row (ap_items st) id
        (agent_row id (al_id l) agent (rel_path ev) (default 0 (ev_size ev)) mtime (ev_quick_hash ev)
          (ev_content_hash ev) scope now (ev_share_hint ev) metadata);
      Ok (mkApply m (<[key := id]> (existing st)) (<[rel_path ev := id]> (item_id_by_rel st))
        (touched_ids st ++ [id]) (S (ap_made st)) (upserted st + 1) (tombstoned st) (noop_tombstones st))
  | Some id =>
      it <-! of_option MissingLibrary (ap_items st !! id);
      curated <-! match payload with
        | Some p => metadata <-! of_option AttributeError (merge (metadata_ (i_curated it)) p now);
            Ok (set_metadata (i_curated it) metadata)
        | None => Ok (i_curated it)
        end;
      m <-! put_row (ap_items st) id (event_row it agent ev mtime now curated);
      Ok (mkApply m (existing st) (<[rel_path ev := id]> (item_id_by_rel st)) (touched_ids st ++ [id])
        (ap_made st) (upserted st + 1) (tombstoned st) (noop_tombstones st))
  end.

Fixpoint upsert_all (st : Apply) (l : list AgentEvent) : result sync_error Apply :=
  match l with [] => Ok st | ev :: l' => st <-! upsert_one st ev; upsert_all st l' end.

Definition delete_one (delete_ref : gmap text text) (st : Apply) (p : text) : Apply :=
  let row := ref ← delete_ref !! p; l ← lib_cache !! ref; i ← existing st !! (al_id l, p);
    it ← ap_items st !! i; Some (i, it) in
  match row with
  | None => mkApply (ap_items st) (existing st) (item_id_by_rel st) (touched_ids st) (ap_made st)
      (upserted st) (tombstoned st) (noop_tombstones st + 1)
  | Some (i, it) => mkApply (<[i := tombstone_row it agent now]> (ap_items st)) (existing st)
      (<[p := i]> (item_id_by_rel st)) (touched_ids st ++ [i]) (ap_made st)
      (upserted st) (tombstoned st + 1) (noop_tombstones st)
  end.
End loops.

(** [INSERT ... ON CONFLICT DO NOTHING], one row for each entry *)
Fixpoint record_entries (agent now : Z) (ids : gmap text Z) (l : list AgentEvent)
    (led : gmap (Z * Z) LedgerRow) : result sync_error (gmap (Z * Z) LedgerRow) :=
  match l with
  | [] => Ok led
  | ev :: l' =>
      if int64 (seq_no ev) then
        let row := mkLedger (ids !! rel_path ev) (event_type ev) now in
        record_entries agent now ids l'
          (match led !! (agent, seq_no ev) with Some _ => led | None => <[(agent, seq_no ev) := row]> led end)
      else Err DataError
  end.

Record BatchResult := mkBatchResult {
  applied : nat;
  r_upserted : Z;
  r_tombstoned : Z;
  r_noop_tombstones : Z;
  libraries_created : Z;
  last_seq : Z;
  r_item_ids : list Z;
  r_library_ids : gset Z;
}.

(** The (library, path) pairs the plan may touch *)
Definition wanted (lib_cache : gmap text AgentLibrary) (plan : UpsertPlan) (delete_ref : gmap text text) : list (Z * text) :=
  omap (λ ev, l ← lib_cache !! library_ref ev; Some (al_id l, rel_path ev)) (upserts plan) ++
  omap (λ p, ref ← delete_ref !! p; l ← lib_cache !! ref; Some (al_id l, p)) (deletes plan).

(** The whole transaction; on an error nothing of it remains. *)
Definition apply_batch (c : Central) (agent : Agent) (batch : ReplicationBatch) (now : Z) :
    result sync_error (Central * BatchResult) :=
  let plan := plan_upserts (entries batch) in
  let delete_ref := delete_refs (entries batch) in
  let refs := remove_dups (map library_ref (upserts plan) ++ omap (λ p, delete_ref !! p) (deletes plan)) in
  '(c, lib_cache, created) <-! provision_all c agent (ref_order refs) ∅ 0;
  let st := mkApply (items c) (preload (items c) (wanted lib_cache plan delete_ref)) ∅ [] (items_made c) 0 0 0 in
  st <-! upsert_all (ag_id agent) lib_cache now st (upserts plan);
  let st := foldl (delete_one (ag_id agent) lib_cache now delete_ref) st (deletes plan) in
  led <-! record_entries (ag_id agent) now (item_id_by_rel st) (entries batch) (ledger c);
  let last := match last (entries batch) with Some ev => seq_no ev | None => 0 end in
  let a := touch_agent agent (Z.max (last_contiguous_seq_no agent) last) now in
  Ok (set_agent (mkCentral (ap_items st) (libraries c) (agents c) led (sessions c) (staging c)
        (ap_made st) (libraries_made c) (sessions_made c)) a,
      mkBatchResult (length (entries batch)) (upserted st) (tombstoned st) (noop_tombstones st) created
        (last_contiguous_seq_no a) (touched_ids st)
        (list_to_set (map (λ '(_, l), al_id l) (map_to_list lib_cache)))).

(** ** Authentication *)

Record AgentRequest := mkAgentRequest {
  authorization : option text;
  x_proxy_auth : option text;
  x_agent_san : option text;
  x_agent_fp : option text;
}.

Definition set_credentials (a : Agent) (fp : option text) (mode : option string) : Agent :=
  mkAgent (ag_id a) (ag_name a) (hostname a) (revoked_at a) fp mode (last_contiguous_seq_no a)
    (last_seen_at a) (last_reconcile_at a).

(** Refusals are HTTP statuses; the state is the committed one, the agent the session's. *)
Definition _authenticate_agent_bearer (c : Central) (agent_id : Z) (r : AgentRequest) :
    result Z (Central * Agent) :=
  let auth := default [] (authorization r) in
  let token := if bool_decide (tlower uni_lower (take 7 auth) = txt "bearer ") then strip_space (drop 7 auth) else [] in
  if bool_decide (token = []) then Err 401
  else match agents c !! agent_id with
    | None => Err 404
    | Some agent =>
        if bool_decide (is_Some (revoked_at agent)) then Err 403
        else match cert_fingerprint agent with
          | None | Some [] => Err 403
          | Some fp =>
              if bool_decide (token = fp) then Ok (c, set_credentials agent (Some fp) (Some "bearer")) else Err 401
          end
    end.

(** The unique index on the bound fingerprints *)
Definition fingerprint_taken (c : Central) (agent_id : Z) (fp : text) : bool :=
  existsb (λ '(i, a), negb (i =? agent_id) && bool_decide (cert_fingerprint a = Some fp)) (map_to_list (agents c)).

Definition _authenticate_agent_mtls (c : Central) (agent_id : Z) (r : AgentRequest) :
    result Z (Central * Agent) :=
  let secret := proxy_shared_secret settings in
  let provided := default [] (x_proxy_auth r) in
  let san := default [] (x_agent_san r) in
  if bool_decide (secret = []) || bool_decide (provided = []) || negb (bool_decide (provided = secret)) then Err 401
  else if bool_decide (san = []) || negb (bool_decide (san = txt (uuid_str agent_id))) then Err 403
  else match agents c !! agent_id with
    | None => Err 404
    | Some agent =>
        if bool_decide (is_Some (revoked_at agent)) then Err 403
        else
          let fp := default [] (x_agent_fp r) in
          match cert_fingerprint agent with
          | Some (x :: bound) =>
              if bool_decide (fp = []) || bool_decide (fp = x :: bound)
              then Ok (c, set_credentials agent (cert_fingerprint agent) (Some "mtls"))
              else if fingerprint_taken c agent_id fp then Err 500
              else
                let healed := set_credentials agent (Some fp) (last_auth_mode agent) in
                Ok (set_agent c healed, set_credentials healed (Some fp) (Some "mtls"))
          | _ => Ok (c, set_credentials agent (cert_fingerprint agent) (Some "mtls"))
          end
    end.

Definition _authenticate_agent (c : Central) (agent_id : Z) (r : AgentRequest) : result Z (Central * Agent) :=
  let mode := agent_auth_mode settings in
  if bool_decide (mode = "mtls-header") || bool_decide (mode = "both") && bool_decide (is_Some (x_proxy_auth r))
  then _authenticate_agent_mtls c agent_id r
  else _authenticate_agent_bearer c agent_id r.

(** ** The endpoint *)

(** The jobs deferred after the commit *)
Inductive job := SyncItems (ids : list Z) | AssociateLibraries (ids : gset Z).

Inductive response :=
  | HttpError (status : Z)
  | Maintenance
  | Resend (reason : refusal) (expected_seq_no : Z)
  | Applied (r : BatchResult)
  | ServerError (e : sync_error).

Definition apply_replication_batch (c : Central) (agent_id : Z) (body : ReplicationBatch) (request : AgentRequest)
    (maintenance : bool) (now : Z) : Central * response * list job :=
  if negb (agents_enabled settings) then (c, HttpError 404, [])
  else match _authenticate_agent c agent_id request with
  | Err status => (c, HttpError status, [])
  | Ok (c, agent) =>
      let alive := touch_agent agent (last_contiguous_seq_no agent) now in
      if negb (bool_decide (b_agent_id body = uuid_str agent_id)) then (c, HttpError 403, [])
      else if maintenance then (set_agent c alive, Maintenance, [])
      else if (agent_replication_max_entries settings <? length (entries body))%nat then (c, HttpError 413, [])
      else match check_batch body (last_contiguous_seq_no agent) with
        | Refused reason expected => (set_agent c alive, Resend reason expected, [])
        | Accepted _ _ =>
            match apply_batch c agent body now with
            | Err e => (c, ServerError e, [])
            | Ok (c', r) =>
                (c', Applied r, match r_item_ids r with [] => [] | ids => [SyncItems ids; AssociateLibraries (r_library_ids r)] end)
            end
        end
  end.
End sync.
