(* ===== verification/AgentSyncFacts.v ===== *)
(** * Agent replication: facts and properties *)
From S2P Require Import Prelude PyStr Uuid Utf8 PathLabel Text Json Catalog Sidecar Move AgentMeta AgentSync.
From Stdlib Require Import SpecFloat.
From stdpp Require Import options.

(** ** Rows by key *)

Definition row_at (m : rows) (k : Z * text) : option (Z * Item) :=
  head (filterb (λ '(_, r), bool_decide (rkey r = k)) (map_to_list m)).

Lemma row_at_some m k i r : unique_paths m → row_at m k = Some (i, r) ↔ m !! i = Some r ∧ rkey r = k.
Proof.
  intros Hu. unfold row_at. rewrite head_Some. split.
  - intros [l Hl]. assert ((i, r) ∈ filterb (λ '(_, r), bool_decide (rkey r = k)) (map_to_list m)) as Hin
      by (rewrite Hl; left).
    apply elem_of_filterb in Hin as [Hin Hk]. bool_to_prop. by apply elem_of_map_to_list in Hin.
  - intros [Hi Hk].
    assert ((i, r) ∈ filterb (λ '(_, r), bool_decide (rkey r = k)) (map_to_list m)) as Hin.
    { apply elem_of_filterb. split; [by apply elem_of_map_to_list|by apply bool_decide_eq_true_2]. }
    destruct (filterb _ _) as [|[j s] l] eqn:Hl; [by apply not_elem_of_nil in Hin|].
    assert ((j, s) ∈ filterb (λ '(_, r), bool_decide (rkey r = k)) (map_to_list m)) as Hj by (rewrite Hl; left).
    apply elem_of_filterb in Hj as [Hj Hs]. bool_to_prop. apply elem_of_map_to_list in Hj.
    assert (j = i) as -> by (eapply Hu; [done..|congruence]).
    rewrite Hi in Hj. injection Hj as ->. by eexists.
Qed.

Lemma row_at_none m k : unique_paths m → row_at m k = None ↔ ∀ i r, m !! i = Some r → rkey r ≠ k.
Proof.
  intros Hu. split.
  - intros Hn i r Hi Hk. assert (row_at m k = Some (i, r)) as Hr by (by apply row_at_some). congruence.
  - intros Hall. destruct (row_at m k) as [[i r]|] eqn:Hr; [|done].
    apply row_at_some in Hr as [Hi Hk]; [|done]. by edestruct Hall.
Qed.

Lemma row_at_ext m m' k :
  unique_paths m → unique_paths m' →
  (∀ i r, rkey r = k → m !! i = Some r ↔ m' !! i = Some r) → row_at m k = row_at m' k.
Proof.
  intros Hu Hu' He. destruct (row_at m k) as [[i r]|] eqn:Hr.
  - apply row_at_some in Hr as [Hi Hk]; [|done]. symmetry. apply row_at_some; [done|]. by rewrite <- He.
  - symmetry. apply row_at_none; [done|]. intros i r Hi Hk. eapply row_at_none in Hr; [|done|by eapply He]. done.
Qed.

(** A row written at its own key *)
Lemma row_at_insert m i r k :
  unique_paths m → unique_paths (<[i := r]> m) → (∀ old, m !! i = Some old → rkey old = rkey r) →
  row_at (<[i := r]> m) k = if bool_decide (rkey r = k) then Some (i, r) else row_at m k.
Proof.
  intros Hu Hu' Hold. case_bool_decide as Hk.
  - apply row_at_some; [done|]. by rewrite lookup_insert_eq.
  - apply row_at_ext; [done..|]. intros j s Hs. destruct (decide (i = j)) as [<-|Hne].
    + rewrite lookup_insert_eq. split; [by intros [= <-]|]. intros Hj. apply Hold in Hj. congruence.
    + by rewrite lookup_insert_ne.
Qed.

Lemma put_row_ok m i it m' : put_row m i it = Ok m' → m' = <[i := it]> m ∧ (unique_paths m → unique_paths m').
Proof.
  unfold put_row, update_row. destruct (row_ok it); [|done]. destruct (taken m i it) eqn:Ht; [done|].
  intros [= <-]. split; [done|]. intros Hu. by apply update_row_unique.
Qed.

Lemma unique_same_key m i r r' : unique_paths m → m !! i = Some r → rkey r' = rkey r → unique_paths (<[i := r']> m).
Proof.
  intros Hu Hi Hk a b x y Ha Hb He.
  apply lookup_insert_Some in Ha as [[<- <-]|[_ Ha]], Hb as [[<- <-]|[_ Hb]]; [done|..|by eapply Hu];
    eapply Hu; try done; congruence.
Qed.

(** ** The sequence guard *)

Lemma check_rest_accepts first prev l f t :
  check_rest first prev l = Accepted f t ↔
  map seq_no l = seqZ (prev + 1) (Z.of_nat (length l)) ∧ f = first ∧ t = prev + Z.of_nat (length l).
Proof.
  revert prev. induction l as [|ev l IH]; intros prev.
  { cbn. split; [intros [= <- <-]; by rewrite Z.add_0_r|intros (_ & -> & ->); by rewrite Z.add_0_r]. }
  assert (seqZ (prev + 1) (Z.of_nat (length (ev :: l))) = (prev + 1) :: seqZ (prev + 2) (Z.of_nat (length l))) as Hs.
  { rewrite seqZ_cons by (cbn; lia). f_equal. f_equal; cbn; lia. }
  cbn [check_rest map]. rewrite Hs. clear Hs.
  destruct (Z.eqb_spec (seq_no ev) prev) as [->|]; [split; [done|intros (Hl & _); injection Hl; lia]|].
  destruct (Z.ltb_spec (seq_no ev) prev); [split; [done|intros (Hl & _); injection Hl; lia]|].
  destruct (Z.eqb_spec (seq_no ev) (prev + 1)) as [->|]; cbn [negb];
    [|split; [done|intros (Hl & _); injection Hl; lia]].
  rewrite IH. replace (prev + 1 + 1) with (prev + 2) by lia. cbn [length].
  split; intros (H1 & -> & H3); (split_and!; [|done|lia]); [by f_equal|by injection H1].
Qed.

(** A batch is accepted exactly when it is the non-empty run of events that follows the
    watermark. *)
Lemma check_batch_accepts batch w f t :
  check_batch batch w = Accepted f t ↔
  entries batch ≠ [] ∧ map seq_no (entries batch) = seqZ (w + 1) (Z.of_nat (length (entries batch))) ∧
  f = w + 1 ∧ t = w + Z.of_nat (length (entries batch)).
Proof.
  unfold check_batch. destruct (entries batch) as [|ev l]; [naive_solver|].
  assert (seqZ (w + 1) (Z.of_nat (length (ev :: l))) = (w + 1) :: seqZ (w + 2) (Z.of_nat (length l))) as ->.
  { rewrite seqZ_cons by (cbn; lia). f_equal. f_equal; cbn; lia. }
  cbn [map length].
  destruct (Z.leb_spec (seq_no ev) w); [split; [done|intros (_ & Hl & _); injection Hl; lia]|].
  destruct (Z.eqb_spec (seq_no ev) (w + 1)) as [->|]; cbn [negb];
    [|split; [done|intros (_ & Hl & _); injection Hl; lia]].
  rewrite check_rest_accepts. replace (w + 1 + 1) with (w + 2) by lia.
  split; [intros (-> & -> & ->); split_and!; [done|done|done|lia]|].
  intros (_ & Hl & -> & ->). injection Hl as ->. split_and!; [done|done|lia].
Qed.

(** ** The abstract file table of an agent *)

Record FileState := mkFileState {
  fs_size : Z;
  fs_mtime : Z;
  fs_quick_hash : option string;
  fs_content_hash : option string;
}.
Abbreviation table := (gmap (text * text) FileState).

(** What an event says of its file, when it says all of it *)
Definition event_file (ev : AgentEvent) : option FileState :=
  s ← ev_size ev; x ← ev_mtime ev; t ← fromtimestamp x;
  Some (mkFileState s t (ev_quick_hash ev) (ev_content_hash ev)).

Definition put_file (T : table) (ev : AgentEvent) : table :=
  match event_file ev with Some f => <[(library_ref ev, rel_path ev) := f]> T | None => T end.

(** One event after the other, each on its own *)
Definition apply_event (T : table) (ev : AgentEvent) : table :=
  match event_type ev with
  | Deleted => delete (library_ref ev, rel_path ev) T
  | Moved => put_file (match from_rel_path ev with Some p => delete (library_ref ev, p) T | None => T end) ev
  | Created | Modified => put_file T ev
  end.
Definition apply_events : table → list AgentEvent → table := foldl apply_event.

(** The paths an event touches *)
Definition event_paths (ev : AgentEvent) : list text :=
  rel_path ev :: match event_type ev, from_rel_path ev with Moved, Some p => [p] | _, _ => [] end.

Definition complete (ev : AgentEvent) : Prop := event_type ev = Deleted ∨ is_Some (event_file ev).

(** The events of a batch agree on the library of each path they touch. *)
Definition one_library (es : list AgentEvent) : Prop :=
  ∀ a b p, a ∈ es → b ∈ es → p ∈ event_paths a → p ∈ event_paths b → library_ref a = library_ref b.

(** A library for each path *)
Definition path_library (es : list AgentEvent) (p : text) : text :=
  match List.find (λ ev, bool_decide (p ∈ event_paths ev)) es with Some ev => library_ref ev | None => [] end.

Lemma path_library_spec es ev p :
  one_library es → ev ∈ es → p ∈ event_paths ev → path_library es p = library_ref ev.
Proof.
  intros Hone Hev Hp. unfold path_library. destruct (List.find _ es) as [ev'|] eqn:Hf.
  - apply find_some in Hf as [Hin Hb]. bool_to_prop. apply list_elem_of_In in Hin. by eapply Hone.
  - eapply find_none in Hf; [|by apply list_elem_of_In]. by apply bool_decide_eq_false in Hf.
Qed.

(** The winner of a path after the loop of [plan_upserts] *)
Definition outcome (w : option AgentEvent) : option FileState := w ≫= event_file.

(** *** The collapse keeps the meaning *)

Lemma put_file_lookup T ev ref p :
  is_Some (event_file ev) →
  put_file T ev !! (ref, p) = if bool_decide ((library_ref ev, rel_path ev) = (ref, p)) then event_file ev else T !! (ref, p).
Proof.
  intros [f Hf]. unfold put_file. rewrite Hf. case_bool_decide as Hk; [by rewrite Hk, lookup_insert_eq|by rewrite lookup_insert_ne].
Qed.

(** What an event writes, path by path; [None]: a delete *)
Definition writes (ev : AgentEvent) : list (text * option AgentEvent) :=
  match event_type ev with
  | Moved => match from_rel_path ev with Some p => [(p, None)] | None => [] end ++ [(rel_path ev, Some ev)]
  | Deleted => [(rel_path ev, None)]
  | _ => [(rel_path ev, Some ev)]
  end.
Definition write_table (ref : text) (T : table) (x : text * option AgentEvent) : table :=
  match x.2 with Some e => put_file T e | None => delete (ref, x.1) T end.
Definition write_plan (S : gmap text (option AgentEvent)) (x : text * option AgentEvent) := <[x.1 := x.2]> S.
Definition write_ref (ref : text) (D : gmap text text) (x : text * option AgentEvent) :=
  match x.2 with Some _ => D | None => <[x.1 := ref]> D end.

Lemma apply_event_writes T ev : apply_event T ev = foldl (write_table (library_ref ev)) T (writes ev).
Proof. unfold apply_event, writes. by destruct (event_type ev), (from_rel_path ev). Qed.
Lemma plan_step_writes S ev : plan_step S ev = foldl write_plan S (writes ev).
Proof. unfold plan_step, writes. by destruct (event_type ev), (from_rel_path ev). Qed.
Lemma delete_ref_writes D ev : delete_ref_step D ev = foldl (write_ref (library_ref ev)) D (writes ev).
Proof. unfold delete_ref_step, writes. by destruct (event_type ev), (from_rel_path ev). Qed.

Lemma writes_spec ev x :
  x ∈ writes ev → x.1 ∈ event_paths ev ∧ ∀ e, x.2 = Some e → e = ev ∧ rel_path e = x.1 ∧ event_type e ≠ Deleted.
Proof.
  unfold writes, event_paths. destruct (event_type ev) eqn:Ht, (from_rel_path ev) as [p|]; cbn [app]; intros Hx;
    elem_cases Hx; cbn; (split; [set_solver|]); intros e [= <-]; by rewrite Ht.
Qed.

Section plan.
Context (L : text → text) (T0 : table).

(** The table, the plan and the libraries of its deletes after the same events *)
Definition agree (T : table) (S : gmap text (option AgentEvent)) (D : gmap text text) : Prop :=
  (∀ ref p, T !! (ref, p) = match S !! p with
    | Some w => if bool_decide (L p = ref) then outcome w else T0 !! (ref, p)
    | None => T0 !! (ref, p) end) ∧
  (∀ p, S !! p = Some None → D !! p = Some (L p)).

Lemma agree_write T S D p w :
  (∀ e, w = Some e → library_ref e = L p ∧ rel_path e = p ∧ is_Some (event_file e)) → agree T S D →
  agree (write_table (L p) T (p, w)) (write_plan S (p, w)) (write_ref (L p) D (p, w)).
Proof.
  intros Hw [HT HD]. unfold write_table, write_plan, write_ref. cbn [fst snd]. split.
  - intros ref q. destruct w as [e|].
    + destruct (Hw e eq_refl) as (Hl & Hr & He). rewrite put_file_lookup, Hl, Hr by done.
      destruct (decide (p = q)) as [<-|Hne].
      * rewrite lookup_insert_eq. destruct (decide (L p = ref)) as [->|Hneq].
        -- by rewrite !bool_decide_eq_true_2.
        -- rewrite !bool_decide_eq_false_2 by congruence. rewrite HT.
           destruct (S !! p); [by rewrite bool_decide_eq_false_2|done].
      * rewrite lookup_insert_ne by done. rewrite bool_decide_eq_false_2 by congruence. apply HT.
    + destruct (decide (p = q)) as [->|Hne].
      * rewrite lookup_insert_eq. case_bool_decide as H1; [by rewrite H1, lookup_delete_eq|].
        rewrite lookup_delete_ne by congruence. rewrite HT. destruct (S !! q); [by rewrite bool_decide_eq_false_2|done].
      * rewrite lookup_insert_ne by done. rewrite lookup_delete_ne by congruence. apply HT.
  - intros q. destruct (decide (p = q)) as [->|Hne].
    + rewrite lookup_insert_eq. intros [= ->]. by rewrite lookup_insert_eq.
    + rewrite lookup_insert_ne by done. intros Hq%HD. destruct w; [done|]. by rewrite lookup_insert_ne.
Qed.

Lemma plan_agrees es :
  (∀ ev p, ev ∈ es → p ∈ event_paths ev → L p = library_ref ev) → Forall complete es →
  agree (apply_events T0 es) (plan_state es) (delete_refs es).
Proof.
  induction es as [|ev es IH] using rev_ind; intros HL Hc; [by split; intros *; rewrite ?lookup_empty|].
  apply Forall_app in Hc as [Hc Hev]. rewrite Forall_singleton in Hev.
  assert (agree (apply_events T0 es) (plan_state es) (delete_refs es)) as Ha.
  { apply IH; [|done]. intros e p He. apply HL, elem_of_app. by left. }
  unfold apply_events, plan_state, delete_refs in *. rewrite !foldl_app. cbn [foldl].
  rewrite apply_event_writes, plan_step_writes, delete_ref_writes.
  assert (∀ x, x ∈ writes ev → L x.1 = library_ref ev ∧
    ∀ e, x.2 = Some e → library_ref e = L x.1 ∧ rel_path e = x.1 ∧ is_Some (event_file e)) as Hw.
  { intros x Hx. apply writes_spec in Hx as [Hp Hx].
    assert (L x.1 = library_ref ev) as Hx1 by (apply HL; [set_solver|done]). split; [done|].
    intros e He. destruct (Hx e He) as (-> & ? & ?). destruct Hev as [Hd|Hd]; [done|by split_and!]. }
  clear HL IH Hc Hev. revert Ha Hw. generalize (library_ref ev). generalize (writes ev).
  generalize (foldl apply_event T0 es) as T, (foldl plan_step ∅ es) as S, (foldl delete_ref_step ∅ es) as D.
  intros T S D ws ref. revert T S D. induction ws as [|[p w] ws IHw]; intros T S D Ha Hw; [done|]. cbn [foldl].
  destruct (Hw (p, w)) as [<- He]; [left|]. apply IHw; [by apply agree_write|]. intros x Hx. apply Hw. by right.
Qed.
End plan.

Lemma plan_upsert_event es p ev :
  plan_state es !! p = Some (Some ev) → ev ∈ es ∧ rel_path ev = p ∧ event_type ev ≠ Deleted.
Proof.
  unfold plan_state. revert p ev. induction es as [|e es IH] using rev_ind; intros p ev; [cbn; by rewrite lookup_empty|].
  rewrite foldl_app. cbn [foldl]. rewrite plan_step_writes. intros Hl.
  assert (∀ ws S, foldl write_plan S ws !! p = Some (Some ev) →
    S !! p = Some (Some ev) ∨ (p, Some ev) ∈ ws) as Hws.
  { clear. induction ws as [|[q w] ws IH]; intros S; cbn [foldl]; [by left|].
    intros [Hl|Hl]%IH; [|right; by right]. unfold write_plan in Hl. cbn in Hl.
    apply lookup_insert_Some in Hl as [[-> ->]|[_ Hl]]; [right; left|by left]. }
  destruct (Hws _ _ Hl) as [H|H].
  - apply IH in H as (? & ? & ?). split; [set_solver|done].
  - apply writes_spec in H as [_ H]. destruct (H ev eq_refl) as (-> & ? & ?). split; [set_solver|done].
Qed.

Lemma elem_of_upserts es ev : ev ∈ upserts (plan_upserts es) ↔ plan_state es !! rel_path ev = Some (Some ev).
Proof.
  cbn [plan_upserts upserts]. rewrite merge_sort_Permutation, list_elem_of_omap. split.
  - intros ([p w] & Hin & ->). apply elem_of_map_to_list in Hin.
    by destruct (plan_upsert_event _ _ _ Hin) as (_ & -> & _).
  - intros H. exists (rel_path ev, Some ev). split; [by apply elem_of_map_to_list|done].
Qed.

Lemma elem_of_deletes es p : p ∈ deletes (plan_upserts es) ↔ plan_state es !! p = Some None.
Proof.
  cbn [plan_upserts deletes]. rewrite merge_sort_Permutation, list_elem_of_omap. split.
  - intros ([q [ev|]] & Hin & H); [done|]. injection H as ->. by apply elem_of_map_to_list in Hin.
  - intros H. exists (p, None). split; [by apply elem_of_map_to_list|done].
Qed.

Lemma NoDup_upserts es : NoDup (map rel_path (upserts (plan_upserts es))).
Proof.
  cbn [plan_upserts upserts].
  assert (∀ l : list (text * option AgentEvent), NoDup l.*1 →
    (∀ p ev, (p, Some ev) ∈ l → rel_path ev = p) → NoDup (map rel_path (omap (λ '(_, w), w) l))) as H.
  { induction l as [|[p w] l IH]; intros Hnd Hrel; [constructor|]. cbn in Hnd. apply NoDup_cons in Hnd as [Hp Hnd].
    assert (NoDup (map rel_path (omap (λ '(_, w), w) l))) as Hl by (apply IH; [done|intros; apply Hrel; by right]).
    destruct w as [ev|]; [|done]. cbn. constructor; [|done].
    intros Hin. apply list_elem_of_fmap in Hin as (e & He & Hin). apply list_elem_of_omap in Hin as ([q w] & Hin & ->).
    rewrite (Hrel p ev), (Hrel q e) in He by (by left || by right). subst q.
    apply Hp, list_elem_of_fmap. by exists (p, Some e). }
  rewrite merge_sort_Permutation.
  apply H; [apply NoDup_fst_map_to_list|]. intros p ev Hin. apply elem_of_map_to_list in Hin.
  by destruct (plan_upsert_event _ _ _ Hin) as (_ & ? & _).
Qed.

(** ** The state of the tables *)

Definition file_of (it : Item) : option FileState :=
  if bool_decide (i_status it = active)
  then Some (mkFileState (i_size it) (i_mtime it) (i_quick_hash it) (i_content_hash it)) else None.

(** What the catalogue says of a path of a library *)
Definition file_at (m : rows) (k : Z * text) : option FileState := row ← row_at m k; file_of row.2.

(** What the catalogue says of a path of an agent's root *)
Definition agent_file (c : Central) (agent : Z) (ref rel : text) : option FileState :=
  l ← find_library (libraries c) agent ref; file_at (items c) (al_id l, rel).

Definition represents (c : Central) (agent : Z) (T : table) : Prop :=
  ∀ ref rel, agent_file c agent ref rel = T !! (ref, rel).

Section ids.
Context (new_id new_library : nat → Z).

(** The unique indexes, the foreign key from a row to its library, and ids that were not
    handed out before. *)
Record central_ok (c : Central) : Prop := {
  ok_paths : unique_paths (items c);
  ok_libraries : ∀ l k, l ∈ libraries c → k ∈ libraries c → al_id l = al_id k → l = k;
  ok_agents : ∀ a ag, agents c !! a = Some ag → ag_id ag = a;
  ok_new_items : ∀ n, (items_made c ≤ n)%nat → items c !! new_id n = None;
  ok_new_libraries : ∀ n l, (libraries_made c ≤ n)%nat → l ∈ libraries c → al_id l ≠ new_library n;
  ok_foreign : ∀ n i r, (libraries_made c ≤ n)%nat → items c !! i = Some r → i_library_id r ≠ new_library n;
}.
End ids.

Lemma find_library_some libs agent ref l :
  find_library libs agent ref = Some l →
  l ∈ libs ∧ source_agent_id l = Some agent ∧ agent_library_ref l = Some ref.
Proof.
  unfold find_library. intros [Hin Hb]%find_some. bool_to_prop. split_and!; [by apply list_elem_of_In|done|done].
Qed.

Lemma find_library_app libs k agent ref :
  find_library (libs ++ [k]) agent ref =
    match find_library libs agent ref with
    | Some l => Some l
    | None => if bool_decide (source_agent_id k = Some agent) && bool_decide (agent_library_ref k = Some ref) then Some k else None
    end.
Proof.
  unfold find_library. induction libs as [|l libs IH]; [done|]. cbn [app List.find]. rewrite IH.
  by destruct (bool_decide (source_agent_id l = Some agent) && bool_decide (agent_library_ref l = Some ref)).
Qed.

(** ** Libraries of agents *)

(** *** The loop over names ends *)

Lemma int_text_inj n m : 0 ≤ n → 0 ≤ m → int_text n = int_text m → n = m.
Proof.
  intros Hn Hm. unfold int_text. rewrite (proj2 (Z.ltb_ge n 0)), (proj2 (Z.ltb_ge m 0)) by lia. cbn [app].
  intros H%txt_inj%dec_inj. lia.
Qed.

Lemma suffixed_inj base n m : 0 ≤ n → 0 ≤ m → suffixed base n = suffixed base m → n = m.
Proof. unfold suffixed. intros Hn Hm H%app_inv_head%app_inv_head%app_inv_tail. by apply int_text_inj. Qed.

Lemma suffixed_not_base base n : suffixed base n ≠ base.
Proof. unfold suffixed. intros H%(f_equal length). rewrite !length_app in H. cbn in H. lia. Qed.

(** Every name the loop rejects is taken and different from those before. *)
Lemma free_name_rejects fuel names base name suffix :
  0 ≤ suffix → (name = base ∨ ∃ n, 0 ≤ n < suffix ∧ name = suffixed base n) →
  free_name fuel names base name suffix = None →
  ∃ tried, length tried = S fuel ∧ NoDup tried ∧ (∀ t, t ∈ tried → t ∈ names) ∧
    ∀ t, t ∈ tried → t = name ∨ ∃ n, suffix ≤ n ∧ t = suffixed base n.
Proof.
  revert name suffix. induction fuel as [|k IH]; intros name suffix Hs Hname; cbn [free_name];
    (destruct (mem name names) eqn:Hm; [|done]); unfold mem in Hm; bool_to_prop.
  { intros _. exists [name]. split_and!; [done|apply NoDup_singleton|..]; intros t ->%list_elem_of_singleton; auto. }
  intros Hf. destruct (IH (suffixed base suffix) (suffix + 1)) as (tried & Hlen & Hnd & Hin & Hform);
    [lia|right; exists suffix; split; [lia|done]|done|].
  assert (∀ t, t ∈ tried → ∃ n, suffix ≤ n ∧ t = suffixed base n) as Hall.
  { intros t Ht. destruct (Hform t Ht) as [->|(n & Hn & ->)]; [exists suffix|exists n]; split; [lia|done|lia|done]. }
  exists (name :: tried). split_and!.
  - cbn. by rewrite Hlen.
  - constructor; [|done]. intros Ht. destruct (Hall _ Ht) as (n & Hn & He). destruct Hname as [->|(m & Hm' & ->)].
    + by apply (suffixed_not_base base n).
    + apply suffixed_inj in He; lia.
  - intros t [->|Ht]%elem_of_cons; [done|by apply Hin].
  - intros t [->|Ht]%elem_of_cons; [by left|right; by apply Hall].
Qed.

(** The fuel is enough: more names are tried than there are. *)
Lemma free_name_total names base : is_Some (free_name (length names) names base base 2).
Proof.
  destruct (free_name (length names) names base base 2) as [t|] eqn:Hf; [by eexists|exfalso].
  apply free_name_rejects in Hf as (tried & Hlen & Hnd & Hin & _); [|lia|by left].
  assert (length tried ≤ length names)%nat; [|lia]. by apply submseteq_length, NoDup_submseteq.
Qed.

(** *** Provisioning *)

(** What provisioning for [agent] may change: it adds empty libraries of that agent. *)
Record provisioned (agent : Z) (c c' : Central) : Prop := {
  pv_items : items c' = items c;
  pv_agents : agents c' = agents c;
  pv_ledger : ledger c' = ledger c;
  pv_sessions : sessions c' = sessions c;
  pv_staging : staging c' = staging c;
  pv_items_made : items_made c' = items_made c;
  pv_sessions_made : sessions_made c' = sessions_made c;
  pv_find : ∀ a ref l, find_library (libraries c) a ref = Some l → find_library (libraries c') a ref = Some l;
  pv_files : ∀ a ref rel, agent_file c' a ref rel = agent_file c a ref rel;
  pv_libraries : ∀ l, l ∈ libraries c' → l ∈ libraries c ∨
    source_agent_id l = Some agent ∧ ∀ i r, items c !! i = Some r → i_library_id r ≠ al_id l;
}.

Lemma provisioned_refl agent c : provisioned agent c c.
Proof. constructor; auto. Qed.

Lemma provisioned_trans agent c1 c2 c3 : provisioned agent c1 c2 → provisioned agent c2 c3 → provisioned agent c1 c3.
Proof.
  intros [] []. constructor; [congruence..|by eauto|congruence|].
  intros l Hl. destruct (pv_libraries1 l Hl) as [Hl'|[? Hi]]; [by apply pv_libraries0|right].
  split; [done|]. by rewrite <- pv_items0.
Qed.

Lemma file_at_foreign m lib rel : unique_paths m → (∀ i r, m !! i = Some r → i_library_id r ≠ lib) → file_at m (lib, rel) = None.
Proof.
  intros Hu Hno. unfold file_at. rewrite (proj2 (row_at_none _ _ Hu)); [done|].
  intros i r Hi [= Hl _]. by eapply Hno.
Qed.

Section provision.
Context (new_id new_library : nat → Z) `{!Inj (=) (=) new_library}.
Local Abbreviation ok := (central_ok new_id new_library).
Local Abbreviation provision := (_provision_agent_library new_library).

Lemma provision_ok c agent ref c' l new :
  ok c → provision c agent ref = Ok (c', l, new) →
  ok c' ∧ provisioned (ag_id agent) c c' ∧ find_library (libraries c') (ag_id agent) ref = Some l.
Proof using Inj0.
  intros Hok. unfold _provision_agent_library.
  destruct (find_library (libraries c) (ag_id agent) ref) as [k|] eqn:Hf.
  { intros [= <- <- <-]. split_and!; [done|apply provisioned_refl|done]. }
  destruct (free_name _ _ _ _ _) as [name|]; [|done]. destruct (_ && _); [|done]. intros [= <- <- <-].
  set (l := mkAgentLibrary _ _ _ _ _). destruct Hok as [Hu Hl Ha Hi Hn Hfk].
  assert (∀ k, k ∈ libraries c ++ [l] ↔ k ∈ libraries c ∨ k = l) as Hin by (intros k; set_solver).
  split_and!.
  - constructor; cbn [items libraries agents items_made libraries_made]; [done| |done|done|..].
    + intros k1 k2 [H1| ->]%Hin [H2| ->]%Hin He; [by apply Hl| |..|done].
      * by destruct (Hn (libraries_made c) k1).
      * by destruct (Hn (libraries_made c) k2).
    + intros n k Hle [Hk| ->]%Hin; [apply Hn; [lia|done]|]. cbn. intros H%(inj new_library). lia.
    + intros n i r Hle Hr. eapply Hfk; [|done]. lia.
  - constructor; cbn [items libraries]; try done.
    + intros a r k Hk. by rewrite find_library_app, Hk.
    + intros a r p. unfold agent_file. cbn [items libraries]. rewrite find_library_app.
      destruct (find_library (libraries c) a r); [done|]. destruct (_ && _); [|done]. cbn.
      apply file_at_foreign; [done|]. intros i x Hx. by eapply Hfk.
    + intros k [Hk| ->]%Hin; [by left|right]. split; [done|]. intros i r Hr. by eapply Hfk.
  - cbn [libraries]. rewrite find_library_app, Hf. cbn. by rewrite !bool_decide_eq_true_2.
Qed.

Lemma provision_all_ok refs c agent cache n c' cache' n' :
  ok c → provision_all new_library c agent refs cache n = Ok (c', cache', n') →
  (∀ ref l, cache !! ref = Some l → find_library (libraries c) (ag_id agent) ref = Some l) →
  ok c' ∧ provisioned (ag_id agent) c c' ∧
  (∀ ref l, cache' !! ref = Some l → find_library (libraries c') (ag_id agent) ref = Some l) ∧
  (∀ ref, ref ∈ refs ∨ is_Some (cache !! ref) → is_Some (cache' !! ref)).
Proof using Inj0.
  revert c cache n. induction refs as [|ref refs IH]; intros c cache n Hok; cbn [provision_all].
  { intros [= <- <- <-] Hcache. split_and!; [done|apply provisioned_refl|done|].
    intros ref [?%not_elem_of_nil|?]; done. }
  destruct (provision c agent ref) as [[[c1 l] new]|] eqn:Hp; [|done]. cbn [result_bind].
  intros Hall Hcache. destruct (provision_ok _ _ _ _ _ _ Hok Hp) as (Hok1 & Hpv & Hl).
  destruct (IH _ _ _ Hok1 Hall) as (Hok' & Hpv' & Hc' & Hin).
  { intros r k [[<- <-]|[_ Hk]]%lookup_insert_Some; [done|]. by apply Hpv, Hcache. }
  split_and!; [done|by eapply provisioned_trans|done|].
  intros r Hr. apply Hin. destruct (decide (ref = r)) as [<-|Hne]; [right; by rewrite lookup_insert_eq|].
  rewrite lookup_insert_ne by done. set_solver.
Qed.
End provision.

(** ** Writes to the rows *)

(** What no event changes of a row: its identity, its place in the catalogue and the
    columns of the user. *)
Record keeps_row (r r' : Item) : Prop := {
  kr_id : i_id r' = i_id r;
  kr_key : rkey r' = rkey r;
  kr_scope : i_path_scope r' = i_path_scope r;
  kr_class : i_file_category r' = i_file_category r ∧ i_file_group r' = i_file_group r;
  kr_curated : set_metadata (i_curated r') ∅ = set_metadata (i_curated r) ∅;
}.

Lemma keeps_row_refl r : keeps_row r r.
Proof. by constructor. Qed.
Lemma keeps_row_trans r1 r2 r3 : keeps_row r1 r2 → keeps_row r2 r3 → keeps_row r1 r3.
Proof. intros [? ? ? [? ?] ?] [? ? ? [? ?] ?]. constructor; [congruence..|split; congruence|congruence]. Qed.

(** [m'] differs from [m] at the keys [K] only. *)
Record touches (K : Z * text → Prop) (m m' : rows) : Prop := {
  tc_unique : unique_paths m → unique_paths m';
  tc_kept : ∀ i r, m !! i = Some r → ∃ r', m' !! i = Some r' ∧ keeps_row r r' ∧ (¬ K (rkey r) → r' = r);
  tc_made : ∀ i r', m' !! i = Some r' → is_Some (m !! i) ∨ K (rkey r');
}.

Lemma touches_refl K m : touches K m m.
Proof. constructor; [done|intros i r Hi; exists r; split_and!; auto using keeps_row_refl|eauto]. Qed.

Lemma touches_trans K m1 m2 m3 : touches K m1 m2 → touches K m2 m3 → touches K m1 m3.
Proof.
  intros [Hu1 Hk1 Hm1] [Hu2 Hk2 Hm2]. constructor; [auto|..].
  - intros i r Hi. destruct (Hk1 i r Hi) as (r' & Hi' & Hr & Hs), (Hk2 i r' Hi') as (r'' & Hi'' & Hr' & Hs').
    exists r''. split_and!; [done|by eapply keeps_row_trans|]. intros HK. rewrite <- Hs by done. apply Hs'.
    by rewrite (kr_key _ _ Hr).
  - intros i r Hi. destruct (Hm2 i r Hi) as [[r' Hi']|?]; [|by right].
    destruct (Hm1 i r' Hi') as [?|HK]; [by left|right].
    destruct (Hk2 i r' Hi') as (r'' & Hi'' & Hr & _). rewrite Hi in Hi''. injection Hi'' as <-.
    by rewrite (kr_key _ _ Hr).
Qed.

Lemma touches_mono (K K' : Z * text → Prop) m m' : (∀ k, K k → K' k) → touches K m m' → touches K' m m'.
Proof.
  intros HK [Hu Hk Hm]. constructor; [done|..].
  - intros i r Hi. destruct (Hk i r Hi) as (r' & ? & ? & Hs). exists r'. split_and!; auto.
  - intros i r Hi. destruct (Hm i r Hi); auto.
Qed.

Lemma touches_row_at K m m' k : touches K m m' → unique_paths m → ¬ K k → row_at m' k = row_at m k.
Proof.
  intros Ht Hu HK. symmetry. apply row_at_ext; [done|by eapply tc_unique|]. intros i r Hr. split.
  - intros Hi. destruct (tc_kept _ _ _ Ht i r Hi) as (r' & Hi' & _ & Hs). rewrite Hs in Hi'; [done|]. by rewrite Hr.
  - intros Hi. destruct (tc_made _ _ _ Ht i r Hi) as [[r' Hi']|]; [|by rewrite Hr in *].
    destruct (tc_kept _ _ _ Ht i r' Hi') as (r'' & Hi'' & Hk & Hs). rewrite Hi in Hi''. injection Hi'' as <-.
    rewrite <- Hs in Hi'; [done|]. by rewrite <- (kr_key _ _ Hk), Hr.
Qed.

(** One row rewritten, or made at a free key *)
Lemma touches_write m i old r :
  m !! i = Some old → keeps_row old r → touches (eq (rkey r)) m (<[i := r]> m).
Proof.
  intros Hi Hr. constructor.
  - intros Hu. eapply unique_same_key; [done..|apply Hr].
  - intros j s Hj. destruct (decide (i = j)) as [<-|Hne].
    + rewrite lookup_insert_eq. rewrite Hi in Hj. injection Hj as ->. exists r. split_and!; [done..|].
      intros HK. by destruct HK; rewrite (kr_key _ _ Hr).
    + rewrite lookup_insert_ne by done. exists s. auto using keeps_row_refl.
  - intros j s [[<- <-]|[_ Hj]]%lookup_insert_Some; eauto.
Qed.

Lemma touches_new m i r : m !! i = None → (unique_paths m → unique_paths (<[i := r]> m)) → touches (eq (rkey r)) m (<[i := r]> m).
Proof.
  intros Hi Hu. constructor; [done|..].
  - intros j s Hj. assert (i ≠ j) by congruence. rewrite lookup_insert_ne by done. exists s. auto using keeps_row_refl.
  - intros j s [[<- <-]|[_ Hj]]%lookup_insert_Some; eauto.
Qed.

(** ** The loops of [apply_batch] *)

Lemma preload_lookup m want k :
  unique_paths m → preload m want !! k = if bool_decide (k ∈ want) then fst <$> row_at m k else None.
Proof.
  intros Hu. unfold preload. revert k.
  apply (list_to_map_graph _ (λ k, if bool_decide (k ∈ want) then fst <$> row_at m k else None)).
  intros k i. rewrite list_elem_of_omap. split.
  - intros ([j r] & Hin & Hj). apply elem_of_map_to_list in Hin. case_bool_decide as Hw; [|done].
    injection Hj as <- <-. rewrite bool_decide_eq_true_2 by done.
    by rewrite (proj2 (row_at_some m (i_library_id r, i_rel_path r) j r Hu)).
  - case_bool_decide as Hw; [|done]. rewrite fmap_Some. intros ([j r] & Hr & ->).
    apply row_at_some in Hr as [Hi <-]; [|done]. exists (j, r). rewrite elem_of_map_to_list. split; [done|].
    by rewrite bool_decide_eq_true_2.
Qed.

(** A run of events of a log that starts after its first [w] *)
Lemma accepted_slice log es w :
  (∀ i ev, log !! i = Some ev → seq_no ev = Z.of_nat i + 1) →
  (∀ ev, ev ∈ es → ev ∈ log) → map seq_no es = seqZ (Z.of_nat w + 1) (Z.of_nat (length es)) →
  (w ≤ length log)%nat →
  es = take (length es) (drop w log) ∧ (w + length es ≤ length log)%nat ∧
  ∀ j ev, es !! j = Some ev → log !! (w + j)%nat = Some ev.
Proof.
  intros numbered Hin Hseq Hw.
  assert (∀ j ev, es !! j = Some ev → log !! (w + j)%nat = Some ev) as Hat.
  { intros j ev Hj. assert (map seq_no es !! j = Some (seq_no ev)) as Hs.
    { change (map seq_no es) with (seq_no <$> es). by rewrite list_lookup_fmap, Hj. }
    rewrite Hseq in Hs. apply lookup_seqZ in Hs as [Hs _].
    destruct (list_elem_of_lookup_1 log ev) as [i Hi]; [apply Hin; by eapply list_elem_of_lookup_2|].
    rewrite (numbered i ev Hi) in Hs. by replace (w + j)%nat with i by lia. }
  assert (w + length es ≤ length log)%nat as Hlen.
  { destruct (decide (length es = 0%nat)) as [->|Hne]; [lia|].
    destruct (lookup_lt_is_Some_2 es (length es - 1)) as [ev Hev]; [lia|].
    apply Hat, lookup_lt_Some in Hev. lia. }
  split_and!; [|done|done]. apply list_eq. intros j. destruct (es !! j) as [ev|] eqn:Hj.
  - assert (j < length es)%nat by (by eapply lookup_lt_Some).
    rewrite lookup_take_lt, lookup_drop by done. symmetry. by apply Hat.
  - apply lookup_ge_None in Hj. symmetry. by rewrite lookup_take_ge.
Qed.

Section inv.
Context (new_id : nat → Z) `{!Inj (=) (=) new_id} (want : list (Z * text)).

(** The session's rows, its dict of known rows and the ids still free *)
Record apply_inv (st : Apply) : Prop := {
  ai_unique : unique_paths (ap_items st);
  ai_existing : ∀ k, k ∈ want → existing st !! k = fst <$> row_at (ap_items st) k;
  ai_fresh : ∀ n, (ap_made st ≤ n)%nat → ap_items st !! new_id n = None;
}.

(** One row put at the key [k] of the event *)
Lemma apply_inv_put st m k id made ids touched u t n r :
  apply_inv st → m = <[id := r]> (ap_items st) → unique_paths m → rkey r = k →
  ((∃ old, ap_items st !! id = Some old ∧ rkey old = k) ∧ made = ap_made st ∨
   ap_items st !! id = None ∧ id = new_id (ap_made st) ∧ made = S (ap_made st)) →
  apply_inv (mkApply m (<[k := id]> (existing st)) ids touched made u t n).
Proof using Inj0.
  intros [Hu He Hf] -> Hu' Hk Hid. constructor; cbn; [done|..].
  - intros q Hq. rewrite row_at_insert; [|done..|]; [|intros old Ho; destruct Hid as [[(o & Ho' & ?) _]|[? _]]; congruence].
    rewrite Hk. case_bool_decide as Hkq; [by rewrite Hkq, lookup_insert_eq|].
    rewrite lookup_insert_ne by done. by apply He.
  - intros i Hi. destruct Hid as [[(o & Ho & _) ->]|(Hn & -> & ->)].
    + rewrite lookup_insert_ne; [by apply Hf|]. intros ->. rewrite Hf in Ho; done.
    + rewrite lookup_insert_ne; [apply Hf; lia|]. intros ?%(inj new_id). lia.
Qed.

End inv.

Section sync.
Context (uni_lower : Z → list Z) (float_repr : spec_float → text) (uni_printable : Z → bool).
Context (blake2b64 : list Z → string) (new_id new_library : nat → Z) (ref_order : list text → list text).
Context (tax : Taxonomy) (settings : SyncSettings).
Context `{!Inj (=) (=) new_id, !Inj (=) (=) new_library}.
Local Abbreviation ok := (central_ok new_id new_library).
Local Abbreviation upsert := (upsert_one uni_lower float_repr uni_printable blake2b64 new_id tax settings).
Local Abbreviation upsert_list := (upsert_all uni_lower float_repr uni_printable blake2b64 new_id tax settings).
Local Abbreviation apply := (apply_batch uni_lower float_repr uni_printable blake2b64 new_id new_library ref_order tax settings).

Section loops.
Context (agent : Z) (cache : gmap text AgentLibrary) (now : Z) (want : list (Z * text)).

Lemma upsert_one_ok st ev l st' :
  apply_inv new_id want st → cache !! library_ref ev = Some l → (al_id l, rel_path ev) ∈ want →
  upsert agent cache now st ev = Ok st' →
  apply_inv new_id want st' ∧ touches (eq (al_id l, rel_path ev)) (ap_items st) (ap_items st') ∧
  (is_Some (event_file ev) → file_at (ap_items st') (al_id l, rel_path ev) = event_file ev).
Proof using Inj0.
  intros Hinv Hl Hw. unfold upsert_one. rewrite Hl. cbn [of_option result_bind].
  set (k := (al_id l, rel_path ev)) in *.
  destruct (match ev_mtime ev with Some x => _ | None => _ end) as [mtime|] eqn:Hmtime; [|done]. cbn [result_bind].
  assert (∀ f, event_file ev = Some f →
    f = mkFileState (default 0 (ev_size ev)) mtime (ev_quick_hash ev) (ev_content_hash ev) ∧
    is_Some (ev_size ev) ∧ is_Some (ev_mtime ev)) as Hf.
  { intros f. unfold event_file. destruct (ev_size ev), (ev_mtime ev) as [x|]; cbn; try done.
    destruct (fromtimestamp x); cbn in *; [|done]. injection Hmtime as ->. intros [= <-]. eauto. }
  destruct (capped _ _ _) as [payload|]; [|done]. cbn [result_bind].
  pose proof (ai_existing _ _ _ Hinv k Hw) as Hex.
  destruct (existing st !! k) as [id|] eqn:He.
  - symmetry in Hex. rewrite fmap_Some in Hex. destruct Hex as ([id' it] & Hr & [= ->]).
    apply row_at_some in Hr as [Hi Hk]; [|apply Hinv]. rewrite Hi. cbn [of_option result_bind].
    destruct (match payload with Some p => _ | None => _ end) as [cur|] eqn:Hc; [|done]. cbn [result_bind].
    destruct (put_row _ _ _) as [m|] eqn:Hp; [|done]. cbn [result_bind]. intros [= <-]. cbn [ap_items].
    apply put_row_ok in Hp as [-> Hu]. set (it' := event_row _ _ _ _ _ _) in *.
    assert (rkey it' = k) as Hk' by (rewrite <- Hk; done).
    assert (keeps_row it it') as Hkeep.
    { constructor; [done..|]. cbn. destruct payload as [p|]; [|by injection Hc as <-].
      destruct (of_option _ _); [|done]. by injection Hc as <-. }
    split_and!.
    + rewrite <- (insert_id (existing st) k id') by done. eapply apply_inv_put; eauto. apply Hu, Hinv.
    + rewrite <- Hk'. by eapply touches_write.
    + intros [f Hef]. destruct (Hf f Hef) as (-> & [sz Hsz] & [x Hx]). unfold file_at.
      rewrite row_at_insert; [|apply Hinv|apply Hu, Hinv|intros o Ho; congruence].
      rewrite Hk', bool_decide_eq_true_2 by done. cbn. unfold file_of, it', event_row. cbn. by rewrite Hef, Hsz, Hx.
  - symmetry in Hex. rewrite fmap_None in Hex.
    destruct (scope_of _ _ _) as [scope|]; [|done]. cbn [result_bind].
    destruct (match payload with Some p => _ | None => _ end) as [md|] eqn:Hc; [|done]. cbn [result_bind].
    destruct (put_row _ _ _) as [m|] eqn:Hp; [|done]. cbn [result_bind]. intros [= <-]. cbn [ap_items].
    apply put_row_ok in Hp as [-> Hu]. set (it' := agent_row _ _ _ _ _ _ _ _ _ _ _ _ _ _) in *.
    assert (rkey it' = k) as Hk' by (unfold it', agent_row; by destruct (detect _ _ _)).
    assert (ap_items st !! new_id (ap_made st) = None) as Hn by (by apply Hinv).
    split_and!.
    + eapply apply_inv_put; eauto. apply Hu, Hinv.
    + rewrite <- Hk'. apply touches_new; auto.
    + intros [f Hef]. destruct (Hf f Hef) as (-> & _). unfold file_at.
      rewrite row_at_insert; [|apply Hinv|apply Hu, Hinv|intros o Ho; congruence].
      rewrite Hk', bool_decide_eq_true_2 by done. cbn. rewrite Hef. unfold file_of, it', agent_row.
      by destruct (detect _ _ _).
Qed.

(** The key of an event in the libraries of the batch *)
Definition upsert_key (ev : AgentEvent) (k : Z * text) : Prop :=
  ∃ l, cache !! library_ref ev = Some l ∧ k = (al_id l, rel_path ev).

Lemma upsert_all_ok evs st st' :
  apply_inv new_id want st → upsert_list agent cache now st evs = Ok st' →
  NoDup (map rel_path evs) →
  (∀ ev, ev ∈ evs → ∃ l, cache !! library_ref ev = Some l ∧ (al_id l, rel_path ev) ∈ want) →
  apply_inv new_id want st' ∧ touches (λ k, ∃ ev, ev ∈ evs ∧ upsert_key ev k) (ap_items st) (ap_items st') ∧
  ∀ ev k, ev ∈ evs → upsert_key ev k → is_Some (event_file ev) → file_at (ap_items st') k = event_file ev.
Proof using Inj0.
  revert st. induction evs as [|ev evs IH]; intros st Hinv; cbn [upsert_all].
  { intros [= <-] _ _. split_and!; [done|apply touches_refl|by intros ? ? ?%not_elem_of_nil]. }
  destruct (upsert agent cache now st ev) as [st1|] eqn:Hone; [|done]. cbn [result_bind map].
  intros Hall Hnd Hev. apply NoDup_cons in Hnd as [Hp Hnd].
  destruct (Hev ev) as (l & Hl & Hw); [left|].
  destruct (upsert_one_ok st ev l st1) as (Hinv1 & Ht1 & Hf1); [done..|].
  destruct (IH st1) as (Hinv' & Ht & Hf); [done|done|done|intros e He; apply Hev; by right|].
  split_and!; [done| |].
  - eapply touches_trans; (eapply touches_mono; [|done]).
    + intros k <-. exists ev. split; [left|by exists l].
    + intros k (e & He & Hk). exists e. split; [by right|done].
  - intros e k He Hk Hs. apply elem_of_cons in He as [->|He]; [|by apply Hf].
    destruct Hk as (l' & Hl' & ->). rewrite Hl in Hl'. injection Hl' as <-. rewrite <- Hf1 by done.
    unfold file_at. f_equal. eapply touches_row_at; [done|apply Hinv1|].
    intros (e & He & l' & Hl' & [= _ Hrel]). apply Hp, list_elem_of_fmap. by exists e.
Qed.

(** The key of a delete in the libraries of the batch *)
Definition delete_key (delete_ref : gmap text text) (p : text) (k : Z * text) : Prop :=
  ∃ ref l, delete_ref !! p = Some ref ∧ cache !! ref = Some l ∧ k = (al_id l, p).

Lemma delete_one_ok dr st p :
  apply_inv new_id want st → (∀ k, delete_key dr p k → k ∈ want) →
  let st' := delete_one agent cache now dr st p in
  apply_inv new_id want st' ∧ touches (delete_key dr p) (ap_items st) (ap_items st') ∧ ap_made st' = ap_made st ∧
  ∀ k, delete_key dr p k → file_at (ap_items st') k = None.
Proof using Type.
  intros Hinv Hw. unfold delete_one.
  destruct (ref ← dr !! p; _) as [[i it]|] eqn:Hrow.
  - destruct (dr !! p) as [ref|] eqn:Hr; [|done]. cbn [mbind option_bind] in Hrow.
    destruct (cache !! ref) as [l|] eqn:Hl; [|done]. cbn [mbind option_bind] in Hrow.
    assert ((al_id l, p) ∈ want) as Hk by (apply Hw; by exists ref, l).
    rewrite (ai_existing _ _ _ Hinv _ Hk) in Hrow.
    destruct (row_at (ap_items st) (al_id l, p)) as [[j r]|] eqn:Hj; [|done]. cbn in Hrow.
    apply row_at_some in Hj as [Hi Hkey]; [|apply Hinv]. rewrite Hi in Hrow. injection Hrow as <- <-.
    set (r' := tombstone_row r agent now).
    assert (unique_paths (<[j := r']> (ap_items st))) as Hu by (eapply unique_same_key; [apply Hinv|done|done]).
    assert (∀ k, row_at (<[j := r']> (ap_items st)) k = if bool_decide (rkey r' = k) then Some (j, r') else row_at (ap_items st) k)
      as Hat by (intros k; apply row_at_insert; [apply Hinv|done|intros o Ho; rewrite Hi in Ho; by injection Ho as <-]).
    split_and!; cbn; [|apply (touches_mono (eq (rkey r'))); [|by eapply touches_write; [|constructor]]|done|].
    + constructor; cbn; [done| |].
      * intros k Hkw. rewrite Hat, (ai_existing _ _ _ Hinv k Hkw). case_bool_decide as Hb; [|done].
        assert (row_at (ap_items st) k = Some (j, r)) as ->; [|done]. apply row_at_some; [apply Hinv|]. by rewrite <- Hb.
      * intros n Hn. rewrite lookup_insert_ne; [by apply Hinv|]. intros ->.
        rewrite (ai_fresh _ _ _ Hinv n Hn) in Hi. done.
    + intros k <-. exists ref, l. by rewrite <- Hkey.
    + intros k (ref' & l' & Hr' & Hl' & ->). simplify_eq. unfold file_at. rewrite Hat, bool_decide_eq_true_2; done.
  - split_and!; cbn; [by destruct Hinv|apply touches_refl|done|].
    intros k (ref & l & Hr & Hl & ->). rewrite Hr in Hrow. cbn [mbind option_bind] in Hrow. rewrite Hl in Hrow. cbn [mbind option_bind] in Hrow.
    assert ((al_id l, p) ∈ want) as Hk by (apply Hw; by exists ref, l).
    rewrite (ai_existing _ _ _ Hinv _ Hk) in Hrow. unfold file_at.
    destruct (row_at (ap_items st) (al_id l, p)) as [[j r]|] eqn:Hj; [|done]. cbn in Hrow.
    apply row_at_some in Hj as [Hi _]; [|apply Hinv]. by rewrite Hi in Hrow.
Qed.

Lemma delete_all_ok dr ps st :
  apply_inv new_id want st → (∀ p k, p ∈ ps → delete_key dr p k → k ∈ want) →
  let st' := foldl (delete_one agent cache now dr) st ps in
  apply_inv new_id want st' ∧ touches (λ k, ∃ p, p ∈ ps ∧ delete_key dr p k) (ap_items st) (ap_items st') ∧
  ap_made st' = ap_made st ∧ ∀ p k, p ∈ ps → delete_key dr p k → file_at (ap_items st') k = None.
Proof using Type.
  revert st. induction ps as [|p ps IH]; intros st Hinv Hw; cbn [foldl].
  { split_and!; [done|apply touches_refl|done|by intros ? ? ?%not_elem_of_nil]. }
  destruct (delete_one_ok dr st p) as (Hinv1 & Ht1 & Hm1 & Hf1); [done|intros k; apply Hw; left|].
  destruct (IH (delete_one agent cache now dr st p)) as (Hinv' & Ht & Hm & Hf);
    [done|intros q k Hq; apply Hw; by right|].
  split_and!; [done| |congruence|].
  - eapply touches_trans; (eapply touches_mono; [|done]); intros k.
    + intros Hk. exists p. split; [left|done].
    + intros (q & Hq & Hk). exists q. split; [by right|done].
  - intros q k Hq Hk. destruct (decide (q ∈ ps)) as [Hin|Hout]; [by apply (Hf q)|].
    apply elem_of_cons in Hq as [->|Hq]; [|done]. rewrite <- (Hf1 k) by done. unfold file_at. f_equal.
    eapply touches_row_at; [done|apply Hinv1|]. intros (q & Hq & Hk').
    destruct Hk as (? & ? & _ & _ & ->), Hk' as (? & ? & _ & _ & [= _ ->]). done.
Qed.
End loops.

(** *** The whole batch *)

(** The keys a batch of [agent] may write: paths of its own libraries *)
Definition own_key (c : Central) (agent : Z) (k : Z * text) : Prop :=
  ∃ l, l ∈ libraries c ∧ source_agent_id l = Some agent ∧ al_id l = k.1.

(** How a batch that was applied went: the libraries [c1] it found or made, and the rows
    after its upserts and after its deletes. *)
Record applied_as (c : Central) (agent : Agent) (batch : ReplicationBatch) (now : Z) (c' : Central)
    (c1 : Central) (cache : gmap text AgentLibrary) (m1 : rows) : Prop := {
  aa_ok1 : ok c1;
  aa_ok : ok c';
  aa_provisioned : provisioned (ag_id agent) c c1;
  aa_libraries : libraries c' = libraries c1;
  aa_cache : ∀ ref l, cache !! ref = Some l → find_library (libraries c1) (ag_id agent) ref = Some l;
  aa_refs : ∀ ev, ev ∈ upserts (plan_upserts (entries batch)) → is_Some (cache !! library_ref ev);
  aa_delete_refs : ∀ p ref, p ∈ deletes (plan_upserts (entries batch)) → delete_refs (entries batch) !! p = Some ref →
    is_Some (cache !! ref);
  aa_upserts : touches (λ k, ∃ ev, ev ∈ upserts (plan_upserts (entries batch)) ∧ upsert_key cache ev k) (items c) m1;
  aa_upserted : ∀ ev k, ev ∈ upserts (plan_upserts (entries batch)) → upsert_key cache ev k →
    is_Some (event_file ev) → file_at m1 k = event_file ev;
  aa_deletes : touches (λ k, ∃ p, p ∈ deletes (plan_upserts (entries batch)) ∧
    delete_key cache (delete_refs (entries batch)) p k) m1 (items c');
  aa_deleted : ∀ p k, p ∈ deletes (plan_upserts (entries batch)) →
    delete_key cache (delete_refs (entries batch)) p k → file_at (items c') k = None;
  aa_unique : unique_paths m1;
  aa_agents : agents c' = <[ag_id agent := touch_agent agent
    (Z.max (last_contiguous_seq_no agent) (match last (entries batch) with Some ev => seq_no ev | None => 0 end)) now]>
    (agents c);
}.

Lemma apply_batch_as c agent batch now c' r :
  (∀ l, ref_order l ≡ₚ l) → ok c → apply c agent batch now = Ok (c', r) →
  ∃ c1 cache m1, applied_as c agent batch now c' c1 cache m1.
Proof using Inj0 Inj1.
  intros Hperm Hok. unfold apply_batch.
  set (plan := plan_upserts (entries batch)). set (dr := delete_refs (entries batch)).
  set (refs := remove_dups _).
  destruct (provision_all _ _ _ _ _ _) as [[[c1 cache] n]|] eqn:Hp; [|done]. cbn [result_bind].
  set (want := wanted cache plan dr). set (st0 := mkApply _ _ _ _ _ _ _ _).
  destruct (upsert_list (ag_id agent) cache now st0 (upserts plan)) as [st1|] eqn:Hup; [|done]. cbn [result_bind].
  set (st2 := foldl _ st1 _).
  destruct (record_entries _ _ _ _ _) as [led|]; [|done]. cbn [result_bind]. intros [= <- _].
  destruct (provision_all_ok new_id new_library _ _ _ _ _ _ _ _ Hok Hp) as (Hok1 & Hpv & Hcache & Hrefs);
    [by intros ? ?; rewrite lookup_empty|].
  assert (∀ ref, ref ∈ refs → is_Some (cache !! ref)) as Hin.
  { intros ref Href. apply Hrefs. left. by rewrite Hperm. }
  assert (∀ ev, ev ∈ upserts plan → is_Some (cache !! library_ref ev)) as Hu.
  { intros ev Hev. apply Hin. unfold refs. rewrite elem_of_remove_dups, elem_of_app. left. by apply list_elem_of_fmap_2. }
  assert (∀ p ref, p ∈ deletes plan → dr !! p = Some ref → is_Some (cache !! ref)) as Hd.
  { intros p ref Hpd Hr. apply Hin. unfold refs. rewrite elem_of_remove_dups, elem_of_app. right.
    apply list_elem_of_omap. eauto. }
  assert (apply_inv new_id want st0) as Hinv0.
  { constructor; cbn [st0 ap_items existing ap_made]; [apply Hok1| |apply Hok1].
    intros k Hk. rewrite preload_lookup, bool_decide_eq_true_2; [done|done|apply Hok1]. }
  destruct (upsert_all_ok (ag_id agent) cache now want (upserts plan) st0 st1) as (Hinv1 & Ht1 & Hf1); [done|done|apply NoDup_upserts|..].
  { intros ev Hev. destruct (Hu ev Hev) as [l Hl]. exists l. split; [done|]. unfold want, wanted.
    apply elem_of_app. left. apply list_elem_of_omap. exists ev. by rewrite Hl. }
  destruct (delete_all_ok (ag_id agent) cache now want dr (deletes plan) st1) as (Hinv2 & Ht2 & _ & Hf2); [done|..].
  { intros p k Hpd (ref & l & Hr & Hl & ->). unfold want, wanted. apply elem_of_app. right.
    apply list_elem_of_omap. exists p. rewrite Hr. cbn [mbind option_bind]. by rewrite Hl. }
  fold st2 in Hinv2, Ht2, Hf2. cbn [st0 ap_items] in Ht1.
  rewrite (pv_items _ _ _ Hpv) in Ht1.
  exists c1, cache, (ap_items st1). constructor; try done; cbn [set_agent items libraries agents];
    [|apply Hinv1|by rewrite (pv_agents _ _ _ Hpv)].
  destruct Hok1 as [Hp1 Hl1 Ha1 Hi1 Hn1 Hfk1]. constructor; cbn [set_agent items libraries agents items_made libraries_made]; try done.
  - apply Hinv2.
  - intros a ag. rewrite lookup_insert_Some. intros [[<- <-]|[_ Ha]]; [done|by apply Ha1].
  - apply Hinv2.
  - intros k i x Hk Hx.
    assert (touches (λ q, ∃ l, l ∈ libraries c1 ∧ q.1 = al_id l) (items c1) (ap_items st2)) as Ht.
    { rewrite <- (pv_items _ _ _ Hpv) in Ht1. eapply touches_trans; (eapply touches_mono; [|done]).
      - intros q (ev & _ & l & Hl & ->). exists l. split; [|done]. by eapply find_library_some, Hcache.
      - intros q (p & _ & ref & l & _ & Hl & ->). exists l. split; [|done]. by eapply find_library_some, Hcache. }
    destruct (tc_made _ _ _ Ht i x Hx) as [[y Hy]|(l & Hl & Hq)].
    + destruct (tc_kept _ _ _ Ht i y Hy) as (z & Hz & Hkeep & _). rewrite Hx in Hz. injection Hz as <-.
      pose proof (kr_key _ _ Hkeep) as [= -> _]. by eapply Hfk1.
    + cbn in Hq. rewrite Hq. by apply Hn1.
Qed.

Section applied.
Context (c : Central) (agent : Agent) (batch : ReplicationBatch) (now : Z) (c' c1 : Central).
Context (cache : gmap text AgentLibrary) (m1 : rows) (Hok : ok c).
Context (Happ : applied_as c agent batch now c' c1 cache m1).
Local Abbreviation a := (ag_id agent).

Lemma applied_touches : touches (own_key c' a) (items c) (items c').
Proof using Happ.
  destruct Happ. eapply touches_trans; (eapply touches_mono; [|done]).
  - intros q (ev & _ & l & Hl & ->). exists l. rewrite aa_libraries0.
    by apply aa_cache0, find_library_some in Hl as (? & ? & _).
  - intros q (p & _ & ref & l & _ & Hl & ->). exists l. rewrite aa_libraries0.
    by apply aa_cache0, find_library_some in Hl as (? & ? & _).
Qed.

(** Rows of other libraries keep their file state. *)
Lemma applied_file_other l rel :
  l ∈ libraries c' → source_agent_id l ≠ Some a → file_at (items c') (al_id l, rel) = file_at (items c) (al_id l, rel).
Proof using Happ Hok.
  intros Hl Hs. unfold file_at. f_equal. eapply touches_row_at; [apply applied_touches|apply Hok|].
  intros (k & Hk & Hks & Hid). cbn in Hid.
  assert (k = l) as -> by (by eapply (ok_libraries _ _ _ (aa_ok _ _ _ _ _ _ _ _ Happ))). done.
Qed.

Lemma applied_other_agent b T : b ≠ a → represents c b T → represents c' b T.
Proof using Happ Hok.
  intros Hb HT ref rel. rewrite <- HT, <- (pv_files _ _ _ (aa_provisioned _ _ _ _ _ _ _ _ Happ) b ref rel).
  unfold agent_file. rewrite (aa_libraries _ _ _ _ _ _ _ _ Happ).
  destruct (find_library (libraries c1) b ref) as [l|] eqn:Hl; [|done]. cbn.
  apply find_library_some in Hl as (Hl & Hs & _). rewrite (pv_items _ _ _ (aa_provisioned _ _ _ _ _ _ _ _ Happ)).
  apply applied_file_other; [by rewrite (aa_libraries _ _ _ _ _ _ _ _ Happ)|congruence].
Qed.

(** The file state of an agent's path, where the plan has nothing for it *)
Lemma applied_untouched l ref rel :
  find_library (libraries c1) a ref = Some l →
  (∀ ev, plan_state (entries batch) !! rel = Some (Some ev) → library_ref ev ≠ ref) →
  (plan_state (entries batch) !! rel = Some None → delete_refs (entries batch) !! rel ≠ Some ref) →
  file_at (items c') (al_id l, rel) = file_at (items c) (al_id l, rel).
Proof using Happ Hok.
  intros Hl Hno Hnod. unfold file_at. f_equal.
  assert (∀ r k, cache !! r = Some k → al_id k = al_id l → r = ref) as Hsame.
  { intros r k Hk He. apply (aa_cache _ _ _ _ _ _ _ _ Happ), find_library_some in Hk as (Hk & _ & Hr).
    apply find_library_some in Hl as (Hl & _ & Hlr).
    assert (k = l) as -> by (by eapply (ok_libraries _ _ _ (aa_ok1 _ _ _ _ _ _ _ _ Happ))). congruence. }
  rewrite (touches_row_at _ _ _ _ (aa_deletes _ _ _ _ _ _ _ _ Happ)); [|by eapply aa_unique|].
  - eapply touches_row_at; [by eapply aa_upserts|apply Hok|]. intros (ev & Hev & k & Hk & [= Hid ->]).
    apply elem_of_upserts in Hev. by apply (Hno _ Hev), (Hsame _ k).
  - intros (p & Hp & r & k & Hr & Hk & [= Hid ->]). apply elem_of_deletes in Hp. apply (Hnod Hp).
    by rewrite <- (Hsame r k).
Qed.

(** ... and where it has *)
Lemma applied_planned l ref rel w :
  find_library (libraries c1) a ref = Some l → plan_state (entries batch) !! rel = Some w →
  match w with
  | Some ev => library_ref ev = ref ∧ is_Some (event_file ev)
  | None => delete_refs (entries batch) !! rel = Some ref
  end →
  file_at (items c') (al_id l, rel) = outcome w.
Proof using Happ.
  intros Hl Hw Hcase. destruct w as [ev|]; cbn [outcome mbind option_bind].
  - destruct Hcase as [Href Hev]. destruct (plan_upsert_event _ _ _ Hw) as (_ & Hrel & _).
    assert (ev ∈ upserts (plan_upserts (entries batch))) as Hin by (apply elem_of_upserts; by rewrite Hrel).
    destruct (aa_refs _ _ _ _ _ _ _ _ Happ ev Hin) as [k Hk].
    assert (k = l) as -> by (apply (aa_cache _ _ _ _ _ _ _ _ Happ) in Hk; congruence).
    rewrite <- (aa_upserted _ _ _ _ _ _ _ _ Happ ev (al_id l, rel) Hin); [|by exists l; rewrite Hrel|done].
    unfold file_at. f_equal. eapply touches_row_at; [by eapply aa_deletes|by eapply aa_unique|].
    intros (p & Hp & _ & k & _ & _ & [= _ <-]). apply elem_of_deletes in Hp. congruence.
  - assert (rel ∈ deletes (plan_upserts (entries batch))) as Hin by (by apply elem_of_deletes).
    destruct (aa_delete_refs _ _ _ _ _ _ _ _ Happ rel ref Hin Hcase) as [k Hk].
    assert (k = l) as -> by (apply (aa_cache _ _ _ _ _ _ _ _ Happ) in Hk; congruence).
    eapply (aa_deleted _ _ _ _ _ _ _ _ Happ); [done|by exists ref, l].
Qed.

Lemma applied_represents T :
  Forall complete (entries batch) → one_library (entries batch) → represents c a T →
  represents c' a (apply_events T (entries batch)).
Proof using Happ Hok.
  intros Hc Hone HT ref rel. set (es := entries batch) in *. set (L := path_library es).
  destruct (plan_agrees L T es) as [Hagree Hdel]; [intros ev p; by apply path_library_spec|done|].
  assert (∀ ev, plan_state es !! rel = Some (Some ev) →
    library_ref ev = L rel ∧ is_Some (event_file ev) ∧ ev ∈ upserts (plan_upserts es)) as Hup.
  { intros ev Hev. destruct (plan_upsert_event _ _ _ Hev) as (Hin & Hr & Hd). split_and!.
    - symmetry. apply path_library_spec; [done..|]. rewrite <- Hr. left.
    - rewrite Forall_forall in Hc. by destruct (Hc ev Hin).
    - apply elem_of_upserts. by rewrite Hr. }
  rewrite Hagree, <- HT, <- (pv_files _ _ _ (aa_provisioned _ _ _ _ _ _ _ _ Happ) a ref rel).
  unfold agent_file. rewrite (aa_libraries _ _ _ _ _ _ _ _ Happ).
  destruct (find_library (libraries c1) a ref) as [l|] eqn:Hl; cbn.
  - rewrite (pv_items _ _ _ (aa_provisioned _ _ _ _ _ _ _ _ Happ)).
    destruct (plan_state es !! rel) as [w|] eqn:Hw; [case_bool_decide as HL|].
    + apply (applied_planned l ref); [done|done|]. destruct w as [ev|]; [|rewrite Hdel by done; by rewrite HL].
      destruct (Hup _ eq_refl) as (-> & ? & _). done.
    + eapply applied_untouched; [done|..].
      * fold es. intros ev Hev. rewrite Hw in Hev. injection Hev as ->. by destruct (Hup _ eq_refl) as (-> & _).
      * fold es. intros H. rewrite Hdel by done. congruence.
    + apply (applied_untouched l ref); [done|..]; fold es; by rewrite Hw.
  - destruct (plan_state es !! rel) as [w|] eqn:Hw; [|done]. case_bool_decide as HL; [|done].
    destruct w as [ev|]; [|done]. destruct (Hup _ eq_refl) as (Hr & _ & Hin).
    destruct (aa_refs _ _ _ _ _ _ _ _ Happ ev Hin) as [k Hk]. apply (aa_cache _ _ _ _ _ _ _ _ Happ) in Hk. congruence.
Qed.
End applied.

(** ** The endpoint over a run of deliveries *)

(** A request that reaches the endpoint, from any agent, new or repeated *)
Record Delivery := mkDelivery {
  d_agent : Z;
  d_body : ReplicationBatch;
  d_request : AgentRequest;
  d_maintenance : bool;
  d_now : Z;
}.
Local Abbreviation endpoint :=
  (apply_replication_batch uni_lower float_repr uni_printable blake2b64 new_id new_library ref_order tax settings).
Local Abbreviation authenticate := (_authenticate_agent uni_lower settings).
Definition deliver (c : Central) (d : Delivery) : Central :=
  (endpoint c (d_agent d) (d_body d) (d_request d) (d_maintenance d) (d_now d)).1.1.
Definition run : Central → list Delivery → Central := foldl deliver.

Definition watermark (c : Central) (agent : Z) : option Z := last_contiguous_seq_no <$> agents c !! agent.

(** Only columns of agents that are no watermark change. *)
Record idle (c c' : Central) : Prop := {
  id_items : items c' = items c;
  id_libraries : libraries c' = libraries c;
  id_made : items_made c' = items_made c ∧ libraries_made c' = libraries_made c;
  id_watermark : ∀ a, watermark c' a = watermark c a;
  id_agents : (∀ a ag, agents c !! a = Some ag → ag_id ag = a) → ∀ a ag, agents c' !! a = Some ag → ag_id ag = a;
}.

Lemma idle_refl c : idle c c.
Proof using Type. by constructor. Qed.

Lemma idle_set_agent c c0 ag old :
  idle c c0 → agents c0 !! ag_id ag = Some old → last_contiguous_seq_no ag = last_contiguous_seq_no old →
  idle c (set_agent c0 ag).
Proof using Type.
  intros [? ? ? Hw Ha] Ho Hl. constructor; try done.
  - intros a. rewrite <- Hw. unfold watermark. cbn. destruct (decide (ag_id ag = a)) as [<-|Hne].
    + rewrite lookup_insert_eq, Ho. cbn. by rewrite Hl.
    + by rewrite lookup_insert_ne.
  - intros Hid a x. cbn. intros [[<- <-]|[_ Hx]]%lookup_insert_Some; [done|]. by apply Ha.
Qed.

Lemma idle_ok c c' : idle c c' → ok c → ok c'.
Proof using Type.
  intros [Hi Hl [Hm1 Hm2] Hw Ha] [H1 H2 H3 H4 H5 H6].
  constructor; rewrite ?Hi, ?Hl, ?Hm1, ?Hm2; auto.
Qed.

Lemma idle_represents c c' a T : idle c c' → represents c a T → represents c' a T.
Proof using Type. intros [Hi Hl _ _ _] HT ref rel. rewrite <- HT. unfold agent_file. by rewrite Hi, Hl. Qed.

(** What the authentication returns *)
Lemma authenticate_ok c agent r c0 ag :
  ok c → authenticate c agent r = Ok (c0, ag) →
  ∃ old, agents c !! agent = Some old ∧ revoked_at old = None ∧ idle c c0 ∧ ag_id ag = agent ∧
    (∃ o, agents c0 !! agent = Some o) ∧ last_contiguous_seq_no ag = last_contiguous_seq_no old ∧
    watermark c0 agent = Some (last_contiguous_seq_no old).
Proof using Type.
  intros Hok. unfold _authenticate_agent, _authenticate_agent_bearer, _authenticate_agent_mtls.
  destruct (agents c !! agent) as [old|] eqn:Ho; [|repeat case_match; done].
  pose proof (ok_agents _ _ _ Hok _ _ Ho) as Hid.
  assert (watermark c agent = Some (last_contiguous_seq_no old)) as Hw by (unfold watermark; by rewrite Ho).
  destruct (bool_decide (is_Some (revoked_at old))) eqn:Hrev; [repeat case_match; done|].
  apply bool_decide_eq_false, eq_None_not_Some in Hrev.
  intros Hauth. exists old. split; [done|]. split; [done|].
  assert (∀ fp mode, idle c (set_agent c (set_credentials old fp mode))) as Hheal.
  { intros fp mode. eapply idle_set_agent; [apply idle_refl|cbn; by rewrite Hid|done]. }
  repeat case_match; simplify_eq; (split_and!; [first [apply idle_refl|apply Hheal]|done|cbn|done|]);
    try (by eexists); try done.
  all: try (rewrite lookup_insert_eq; by eexists).
  all: unfold watermark; cbn; by rewrite lookup_insert_eq.
Qed.

(** A delivery changes nothing of the catalogue, or it applies a batch that continues the
    watermark. *)
Lemma deliver_cases c d :
  (∀ l, ref_order l ≡ₚ l) → ok c →
  idle c (deliver c d) ∨
  ∃ c0 ag c1 cache m1 w,
    idle c c0 ∧ ag_id ag = d_agent d ∧ watermark c (d_agent d) = Some w ∧ last_contiguous_seq_no ag = w ∧
    entries (d_body d) ≠ [] ∧ map seq_no (entries (d_body d)) = seqZ (w + 1) (Z.of_nat (length (entries (d_body d)))) ∧
    applied_as c0 ag (d_body d) (d_now d) (deliver c d) c1 cache m1.
Proof using Inj0 Inj1.
  intros Hperm Hok. unfold deliver, apply_replication_batch. destruct d as [agent body request maintenance now].
  cbn [d_agent d_body d_request d_maintenance d_now].
  destruct (negb _); [left; apply idle_refl|].
  destruct (authenticate c agent request) as [[c0 ag]|] eqn:Hauth; [|left; apply idle_refl].
  apply authenticate_ok in Hauth as (old & Ho & _ & Hidle & Hag & [o Hc0] & Hseq & Hw); [|done].
  assert (last_contiguous_seq_no o = last_contiguous_seq_no old) as Ho'.
  { unfold watermark in Hw. rewrite Hc0 in Hw. by injection Hw. }
  assert (idle c (set_agent c0 (touch_agent ag (last_contiguous_seq_no ag) now))) as Halive.
  { eapply idle_set_agent; [done|cbn; by rewrite Hag|]. cbn. congruence. }
  destruct (negb _); [by left|]. destruct maintenance; [by left|]. destruct (_ <? _)%nat; [by left|].
  destruct (check_batch body (last_contiguous_seq_no ag)) as [f t|reason expected] eqn:Hcheck; [|by left].
  destruct (apply c0 ag body now) as [[c' r]|e] eqn:Happ; [right|by left].
  rewrite check_batch_accepts in Hcheck. destruct Hcheck as (Hne & Hseqs & _).
  destruct (apply_batch_as c0 ag body now c' r) as (c1 & cache & m1 & Has); [done|by eapply idle_ok|done|].
  exists c0, ag, c1, cache, m1, (last_contiguous_seq_no old). rewrite Hseq in Hseqs.
  split_and!; try done. unfold watermark. by rewrite Ho.
Qed.

Lemma deliver_ok c d : (∀ l, ref_order l ≡ₚ l) → ok c → ok (deliver c d).
Proof using Inj0 Inj1.
  intros Hperm Hok. destruct (deliver_cases c d Hperm Hok) as [Hi|(c0 & ag & c1 & cache & m1 & w & _ & _ & _ & _ & _ & _ & Ha)].
  - by eapply idle_ok.
  - by eapply aa_ok.
Qed.

(** ** One agent's event log *)

Section log.
Context (log : list AgentEvent) (agent : Z).
Hypothesis numbered : ∀ i ev, log !! i = Some ev → seq_no ev = Z.of_nat i + 1.
Hypothesis all_complete : Forall complete log.

(** The catalogue shows what the events up to the watermark say. *)
Definition in_step (c : Central) (w : nat) : Prop :=
  watermark c agent = Some (Z.of_nat w) ∧ (w ≤ length log)%nat ∧ represents c agent (apply_events ∅ (take w log)).

(** What the agent sends: events of its log in any selection and order, in batches that
    agree on the library of each path *)
Definition from_log (d : Delivery) : Prop :=
  (∀ ev, ev ∈ entries (d_body d) → ev ∈ log) ∧ one_library (entries (d_body d)).

Lemma deliver_in_step c d w :
  (∀ l, ref_order l ≡ₚ l) → ok c → in_step c w → (d_agent d = agent → from_log d) →
  ∃ w', (w ≤ w')%nat ∧ in_step (deliver c d) w'.
Proof using Inj0 Inj1 numbered all_complete.
  intros Hperm Hok (Hw & Hlen & HT) Hd.
  destruct (deliver_cases c d Hperm Hok) as [Hi|(c0 & ag & c1 & cache & m1 & v & Hi & Hag & Hv & Hseq & Hne & Hrun & Ha)].
  { exists w. split; [done|]. split_and!; [by rewrite (id_watermark _ _ Hi)|done|by eapply idle_represents]. }
  assert (ok c0) as Hok0 by (by eapply idle_ok). assert (represents c0 agent (apply_events ∅ (take w log))) as HT0 by (by eapply idle_represents).
  pose proof (aa_agents _ _ _ _ _ _ _ _ Ha) as Hagents.
  destruct (decide (d_agent d = agent)) as [He|He].
  - destruct (Hd He) as [Hin Hone]. rewrite He, Hw in Hv. injection Hv as <-.
    destruct (accepted_slice log (entries (d_body d)) w) as (Hslice & Hlen' & Hat); [done..|].
    set (n := length (entries (d_body d))) in *. exists (w + n)%nat. split; [lia|]. split_and!; [|done|].
    + unfold watermark. rewrite Hagents, Hag, He, lookup_insert_eq. cbn. f_equal. rewrite Hseq.
      destruct (last (entries (d_body d))) as [ev|] eqn:Hlast; [|by apply last_None in Hlast].
      rewrite last_lookup in Hlast. fold n in Hlast. assert (n ≠ 0%nat) by (unfold n; by destruct (entries (d_body d))).
      rewrite (numbered _ _ (Hat _ _ Hlast)). lia.
    + rewrite <- take_take_drop, <- Hslice. unfold apply_events. rewrite foldl_app. fold apply_events.
      rewrite <- He, <- Hag in HT0 |- *. eapply applied_represents; try done.
      rewrite Forall_forall in all_complete |- *. intros ev Hev. by apply all_complete, Hin.
  - exists w. split; [done|]. split_and!; [|done|].
    + rewrite <- Hw, <- (id_watermark _ _ Hi). unfold watermark. rewrite Hagents, lookup_insert_ne; [done|congruence].
    + eapply applied_other_agent; try done. congruence.
Qed.

(** C4: replication refines the one-by-one application of the agent's event log.  The log
    is numbered 1, 2, 3, ... and each of its events that is not a deletion says all of its
    file: a size, and a time that [datetime] can represent.  Start from a well-formed
    catalogue that shows the first [w] events, and let any requests arrive, from this and
    from other agents, repeated, reordered, with gaps, refused or failing.  The batches of
    this agent hold events of its log, and within one batch no relative path is used under
    two library roots (the plan of a batch is keyed by the relative path alone, and a batch
    that has the same one in two roots loses an event: lemma same_path_in_two_roots_lost).
    Then the catalogue shows exactly the events up to the new watermark, which never moves
    back: each event takes effect once and in order. *)
Theorem replication_exactly_once c w ds :
  (∀ l, ref_order l ≡ₚ l) → ok c → in_step c w → (∀ d, d ∈ ds → d_agent d = agent → from_log d) →
  ∃ w', (w ≤ w')%nat ∧ in_step (run c ds) w'.
Proof using Inj0 Inj1 numbered all_complete.
  intros Hperm. revert c w. induction ds as [|d ds IH]; intros c w Hok Hw Hds; [by exists w|].
  destruct (deliver_in_step c d w) as (w1 & Hle & Hw1); [done..|apply Hds; left|].
  destruct (IH (deliver c d) w1) as (w2 & Hle2 & Hw2); [by apply deliver_ok|done|intros e He; apply Hds; by right|].
  exists w2. split; [lia|done].
Qed.
End log.

(** C8: whatever an agent sends, its delivery stays inside its own libraries.  No row is
    lost and every row keeps its id, library, path, scope, classification and the columns
    of the user; a row of a library that is not the agent's is untouched, a new row is in
    a library of the agent, and what the catalogue says of every other agent stays. *)
Theorem replication_isolated c d :
  (∀ l, ref_order l ≡ₚ l) → ok c →
  (∀ i r, items c !! i = Some r → ∃ r', items (deliver c d) !! i = Some r' ∧ keeps_row r r' ∧
    ((∀ l, l ∈ libraries c → al_id l = i_library_id r → source_agent_id l ≠ Some (d_agent d)) → r' = r)) ∧
  (∀ i r', items (deliver c d) !! i = Some r' → items c !! i = None →
    ∃ l, l ∈ libraries (deliver c d) ∧ al_id l = i_library_id r' ∧ source_agent_id l = Some (d_agent d)) ∧
  (∀ b T, b ≠ d_agent d → represents c b T → represents (deliver c d) b T).
Proof using Inj0 Inj1.
  intros Hperm Hok.
  destruct (deliver_cases c d Hperm Hok) as [Hi|(c0 & ag & c1 & cache & m1 & v & Hi & Hag & _ & _ & _ & _ & Ha)].
  { split_and!.
    - intros i r Hr. rewrite (id_items _ _ Hi). exists r. auto using keeps_row_refl.
    - intros i r. rewrite (id_items _ _ Hi). congruence.
    - intros b T _. by apply idle_represents. }
  assert (ok c0) as Hok0 by (by eapply idle_ok). pose proof (applied_touches _ _ _ _ _ _ _ _ Ha) as Ht.
  rewrite (id_items _ _ Hi), Hag in Ht. split_and!.
  - intros i r Hr. destruct (tc_kept _ _ _ Ht i r Hr) as (r' & Hr' & Hk & Hs). exists r'. split_and!; [done..|].
    intros Hno. apply Hs. intros (l & Hl & Hls & Hid).
    rewrite (aa_libraries _ _ _ _ _ _ _ _ Ha) in Hl.
    apply (pv_libraries _ _ _ (aa_provisioned _ _ _ _ _ _ _ _ Ha)) in Hl as [Hl|[_ Hl]].
    + rewrite (id_libraries _ _ Hi) in Hl. by eapply Hno.
    + rewrite (id_items _ _ Hi) in Hl. by eapply Hl.
  - intros i r' Hr' Hn. destruct (tc_made _ _ _ Ht i r' Hr') as [[? ?]|(l & Hl & Hs & Hid)]; [congruence|].
    by exists l.
  - intros b T Hb HT. eapply applied_other_agent; [done|done|congruence|by eapply idle_represents].
Qed.

(** *** Who may write *)

Definition mtls_request (r : AgentRequest) : bool :=
  bool_decide (agent_auth_mode settings = "mtls-header") ||
  bool_decide (agent_auth_mode settings = "both") && bool_decide (is_Some (x_proxy_auth r)).

(** The proxy's secret and the identity it verified, or the fingerprint bound to the agent *)
Definition credentials (agent : Z) (old : Agent) (r : AgentRequest) : Prop :=
  if mtls_request r then
    proxy_shared_secret settings ≠ [] ∧ x_proxy_auth r = Some (proxy_shared_secret settings) ∧
    x_agent_san r = Some (txt (uuid_str agent))
  else
    ∃ fp auth, cert_fingerprint old = Some fp ∧ fp ≠ [] ∧ authorization r = Some auth ∧
      tlower uni_lower (take 7 auth) = txt "bearer " ∧ strip_space (drop 7 auth) = fp.

Lemma default_some {A} (x : option (list A)) l : default [] x = l → l ≠ [] → x = Some l.
Proof using Type. destruct x; cbn; congruence. Qed.

Lemma authenticate_credentials c agent r c0 ag :
  authenticate c agent r = Ok (c0, ag) → ∃ old, agents c !! agent = Some old ∧ revoked_at old = None ∧ credentials agent old r.
Proof using Type.
  unfold _authenticate_agent, credentials. fold (mtls_request r). destruct (mtls_request r).
  - unfold _authenticate_agent_mtls. destruct (_ || _) eqn:H1; [done|].
    match goal with |- (if ?b then _ else _) = _ → _ => destruct b eqn:H2 end; [done|].
    destruct (agents c !! agent) as [old|]; [|done]. destruct (bool_decide (is_Some _)) eqn:H3; [done|].
    intros _. exists old. bool_to_prop. split_and!; [done|by apply eq_None_not_Some|done|..].
    + apply default_some; done.
    + apply default_some; [done|congruence].
  - unfold _authenticate_agent_bearer. destruct (bool_decide (tlower _ _ = _)) eqn:H1; [|by rewrite bool_decide_eq_true_2].
    destruct (bool_decide (strip_space _ = [])) eqn:H2; [done|]. destruct (agents c !! agent) as [old|]; [|done].
    destruct (bool_decide (is_Some _)) eqn:H4; [done|]. destruct (cert_fingerprint old) as [[|x fp]|] eqn:Hfp; [done| |done].
    destruct (bool_decide (_ = x :: fp)) eqn:H5; [|done]. intros _. exists old. bool_to_prop.
    split_and!; [done|by apply eq_None_not_Some|].
    destruct (authorization r) as [auth|] eqn:Ha; [|done]. by exists (x :: fp), auth.
Qed.

(** A replication request that changes anything but an agent's bookkeeping columns was
    made with the plane enabled, outside maintenance, under the name of the agent in the
    path, for an agent that exists and is not revoked, with the proxy's secret and
    verified identity or with the fingerprint bound to it, and within the entry limit. *)
Theorem replication_authenticated c d :
  ¬ idle c (deliver c d) → ok c →
  agents_enabled settings = true ∧ d_maintenance d = false ∧ b_agent_id (d_body d) = uuid_str (d_agent d) ∧
  (length (entries (d_body d)) ≤ agent_replication_max_entries settings)%nat ∧
  ∃ old, agents c !! d_agent d = Some old ∧ revoked_at old = None ∧ credentials (d_agent d) old (d_request d).
Proof using Type.
  intros Hno Hok. unfold deliver, apply_replication_batch in Hno. destruct d as [agent body request maintenance now].
  cbn [d_agent d_body d_request d_maintenance d_now] in *.
  destruct (negb (agents_enabled settings)) eqn:He; [by destruct Hno; apply idle_refl|].
  destruct (authenticate c agent request) as [[c0 ag]|] eqn:Hauth; [|by destruct Hno; apply idle_refl].
  pose proof Hauth as Hcred. apply authenticate_credentials in Hcred.
  apply authenticate_ok in Hauth as (old & _ & _ & Hi & Hag & [o Hc0] & Hseq & Hw); [|done].
  destruct (negb (bool_decide _)) eqn:Hb; [done|]. destruct maintenance.
  { destruct Hno. eapply idle_set_agent; [done|cbn; by rewrite Hag|]. unfold watermark in Hw. rewrite Hc0 in Hw.
    injection Hw as Hw. cbn. congruence. }
  destruct (Nat.ltb_spec (agent_replication_max_entries settings) (length (entries body))); [done|].
  bool_to_prop. by split_and!.
Qed.
End sync.

(** ** Examples *)

Definition example_agent : Agent := mkAgent 7 (txt "nas") (txt "nas") None (Some (txt "fp")) None 0 None None.
Definition example_central : Central := mkCentral ∅ [] {[7 := example_agent]} ∅ ∅ ∅ 0 0 0.
Definition example_settings : SyncSettings := mkSyncSettings true "fingerprint" [] 1000 262144 20000 5000 3600000000.
Definition example_id (n : nat) : Z := Z.of_nat n + 100.
Definition example_event (n : Z) (t : EventType) (ref rel : string) (from : option string) : AgentEvent :=
  mkAgentEvent n t (txt ref) (txt rel) (txt <$> from) (Some n) (Some (float_of_int (1000 + n))) (Some "q") None None None.
Definition example_log : list AgentEvent :=
  [example_event 1 Created "/data" "a.txt" None; example_event 2 Created "/data" "b.txt" None;
   example_event 3 Moved "/data" "c.txt" (Some "a.txt"); example_event 4 Deleted "/data" "b.txt" None].
Definition example_delivery (es : list AgentEvent) : Delivery :=
  mkDelivery 7 (mkBatch (uuid_str 7) es) (mkAgentRequest (Some (txt "Bearer fp")) None None None) false 5000.
Definition example_deliver (c : Central) (es : list AgentEvent) : Central :=
  deliver (λ c, [c]) (λ _, []) (λ _, true) (λ _, "") example_id example_id (λ l, l) (mkTaxonomy ∅ ∅) example_settings
    c (example_delivery es).
Definition example_files (c : Central) : list (text * option FileState) :=
  map (λ rel, (txt rel, agent_file c 7 (txt "/data") (txt rel))) ["a.txt"; "b.txt"; "c.txt"].

#[export] Instance example_id_inj : Inj (=) (=) example_id.
Proof. intros n m. unfold example_id. lia. Qed.

Lemma example_ok : central_ok example_id example_id example_central.
Proof.
  constructor; cbn.
  - intros i j a b. by rewrite lookup_empty.
  - intros l k ?%not_elem_of_nil. done.
  - intros a ag [<- <-]%lookup_singleton_Some. done.
  - intros n _. apply lookup_empty.
  - intros n l _ ?%not_elem_of_nil. done.
  - intros n i r _. by rewrite lookup_empty.
Qed.

Lemma example_start : in_step example_log 7 example_central 0.
Proof. split_and!; [vm_compute; reflexivity|cbn; lia|]. intros ref rel. cbn. by rewrite lookup_empty. Qed.

Lemma example_complete : Forall complete example_log.
Proof. repeat apply Forall_cons_2; [..|apply Forall_nil_2]; first [by left|right; vm_compute; by eexists]. Qed.

Lemma example_numbered i ev : example_log !! i = Some ev → seq_no ev = Z.of_nat i + 1.
Proof. do 4 (destruct i as [|i]; [by intros [= <-]|]). done. Qed.

Lemma example_from_log es : Forall (λ ev, bool_decide (library_ref ev = txt "/data") = true) es →
  (∀ ev, ev ∈ es → ev ∈ example_log) → from_log example_log (example_delivery es).
Proof.
  intros Hes Hin. split; [done|]. intros a b p Ha Hb _ _. rewrite Forall_forall in Hes.
  pose proof (Hes a Ha) as Hra. pose proof (Hes b Hb) as Hrb. bool_to_prop. congruence.
Qed.

(** A batch, the same batch again, one that leaves a gap, the rest *)
Definition example_deliveries : list Delivery :=
  map example_delivery [take 2 example_log; take 2 example_log; drop 3 example_log; drop 2 example_log].
Definition example_run : list Delivery → Central :=
  run (λ c, [c]) (λ _, []) (λ _, true) (λ _, "") example_id example_id (λ l, l) (mkTaxonomy ∅ ∅) example_settings
    example_central.

Lemma replication_exactly_once_witness :
  watermark (example_run example_deliveries) 7 = Some 4 ∧
  represents (example_run example_deliveries) 7 (apply_events ∅ example_log).
Proof.
  assert (watermark (example_run example_deliveries) 7 = Some 4) as Hw by (vm_compute; reflexivity).
  split; [done|].
  destruct (replication_exactly_once (λ c, [c]) (λ _, []) (λ _, true) (λ _, "") example_id example_id (λ l, l)
    (mkTaxonomy ∅ ∅) example_settings example_log 7 example_numbered example_complete example_central 0
    example_deliveries) as (w & _ & Hw' & _ & HT); [done|apply example_ok|apply example_start|..].
  - intros d Hd _. unfold example_deliveries in Hd. cbn [map] in Hd.
    elem_cases Hd; apply example_from_log;
      first [intros ev; apply elem_of_list_take|intros ev; apply elem_of_list_drop|by repeat constructor].
  - fold (example_run example_deliveries) in Hw', HT. rewrite Hw in Hw'. injection Hw' as Hw'.
    replace w with 4%nat in HT by lia. done.
Defined.

Definition example_state : Central := example_run [example_delivery (take 2 example_log)].
Definition example_intruder : Delivery :=
  mkDelivery 8 (mkBatch (uuid_str 8) example_log) (mkAgentRequest (Some (txt "Bearer fp")) None None None) false 6000.

Lemma replication_isolated_witness :
  agent_file example_state 7 (txt "/data") (txt "a.txt") =
    Some (mkFileState 1 1001000000 (Some "q") None) ∧
  represents (deliver (λ c, [c]) (λ _, []) (λ _, true) (λ _, "") example_id example_id (λ l, l) (mkTaxonomy ∅ ∅)
    example_settings example_central example_intruder) 7 ∅.
Proof.
  split; [vm_compute; reflexivity|].
  apply (replication_isolated (λ c, [c]) (λ _, []) (λ _, true) (λ _, "") example_id example_id (λ l, l)
    (mkTaxonomy ∅ ∅) example_settings example_central example_intruder); [done|apply example_ok|done|].
  intros ref rel. by rewrite lookup_empty.
Defined.

Lemma replication_authenticated_witness :
  ∃ old, agents example_central !! 7 = Some old ∧ revoked_at old = None ∧
    credentials (λ c, [c]) example_settings 7 old (mkAgentRequest (Some (txt "Bearer fp")) None None None).
Proof.
  apply (replication_authenticated (λ c, [c]) (λ _, []) (λ _, true) (λ _, "") example_id example_id (λ l, l)
    (mkTaxonomy ∅ ∅) example_settings example_central (example_delivery (take 2 example_log))); [|apply example_ok].
  intros Hi. pose proof (id_watermark _ _ Hi 7) as Hw. fold (example_deliver example_central (take 2 example_log)) in Hw.
  assert (watermark (example_deliver example_central (take 2 example_log)) 7 = Some 2) as Hw2 by (vm_compute; reflexivity).
  rewrite Hw2 in Hw. discriminate Hw.
Defined.

(** Two roots of one agent that hold the same relative path: the plan is keyed by the path
    alone, so within one batch the event of the first root is lost for good. *)
Definition two_roots : list AgentEvent :=
  [example_event 1 Created "/data" "a.txt" None; example_event 2 Created "/music" "a.txt" None].
Lemma same_path_in_two_roots_lost :
  let c := example_deliver example_central two_roots in
  watermark c 7 = Some 2 ∧ agent_file c 7 (txt "/data") (txt "a.txt") = None ∧
  is_Some (agent_file c 7 (txt "/music") (txt "a.txt")).
Proof. vm_compute. split_and!; [done|done|by eexists]. Qed.
