(* ===== verification/Reconcile.v ===== *)
(** * Full-manifest reconciliation ([agentsync.py], [api/agent_commands.py])

    The sweep that corrects what incremental replication missed: the digest of a
    manifest, the session an agent pages its manifest into, and the anti-join of the
    staged rows with the catalogue. *)
From S2P Require Import Prelude PyStr Uuid Utf8 PathLabel Text Json Catalog Sidecar Move AgentMeta AgentSync.
From Stdlib Require Import SpecFloat.
From stdpp Require Import options.

(** ** The manifest *)

Definition hash_json (h : option string) : json := match h with Some s => JText (txt s) | None => JNull end.

(** The keys in the order [sort_keys] gives *)
Definition row_json (r : ManifestRow) : json :=
  JDict [(txt "content_hash", hash_json (mr_content_hash r)); (txt "mtime", JInt (mtime_us r));
    (txt "quick_hash", hash_json (mr_quick_hash r)); (txt "rel_path", JText (mr_rel_path r));
    (txt "size", JInt (mr_size r))].

Definition mr_le (a b : ManifestRow) : bool := text_le (mr_rel_path a) (mr_rel_path b).

(** The dump is ASCII, so its code points are its bytes. *)
Definition _manifest_blob (rows : list ManifestRow) : list Z :=
  json_dumps (λ _, []) true (JList (map row_json (merge_sort mr_le rows))).

(** A row of a page as the wire has it *)
Record ReconcileRow := mkReconcileRow {
  rr_rel_path : text;
  rr_size : Z;
  rr_mtime : spec_float;
  rr_quick_hash : option string;
  rr_content_hash : option string;
}.

Definition quantize (r : ReconcileRow) : option ManifestRow :=
  us ← mtime_to_us (rr_mtime r);
  Some (mkManifestRow (rr_rel_path r) (rr_size r) us (rr_quick_hash r) (rr_content_hash r)).

(** The manifest row of an item; its time goes through [float] seconds. *)
Definition project (it : Item) : option ManifestRow :=
  us ← mtime_to_us (timestamp (i_mtime it));
  Some (mkManifestRow (i_rel_path it) (i_size it) us (i_quick_hash it) (i_content_hash it)).

Definition active_rows (m : rows) (library : Z) : list Item :=
  filterb (λ it, (i_library_id it =? library) && bool_decide (i_status it = active)) (map snd (map_to_list m)).

(** What the staging columns accept *)
Definition staged_ok (r : ManifestRow) : bool :=
  int64 (mr_size r) && int64 (mtime_us r) && column_ok (mr_rel_path r) && hash_ok (mr_quick_hash r) &&
  hash_ok (mr_content_hash r).

(** ** Sessions *)

Inductive reconcile_error := UnknownSession | DigestMismatch | SyncError (e : sync_error).

Definition set_sessions (c : Central) (ss : gmap Z ReconcileSession) (st : gmap (Z * text) ManifestRow) : Central :=
  mkCentral (items c) (libraries c) (agents c) (ledger c) ss st (items_made c) (libraries_made c) (sessions_made c).

(** Deletes sessions; their staged rows cascade. *)
Definition keep_sessions (keep : ReconcileSession → bool) (c : Central) : Central :=
  let ss := filter (λ '(_, s), keep s = true) (sessions c) in
  set_sessions c ss (filter (λ '((i, _), _), is_Some (ss !! i)) (staging c)).

Definition _sweep_expired_sessions (c : Central) (now ttl : Z) : Central :=
  keep_sessions (λ s, negb (started_at s <? now - ttl)) c.

Definition drop_session (c : Central) (id : Z) : Central := keep_sessions (λ s, negb (rs_id s =? id)) c.

(** The state is the committed one. *)
Definition _load_live_session (c : Central) (agent : Agent) (session_id now ttl : Z) :
    Central * option ReconcileSession :=
  match sessions c !! session_id with
  | None => (c, None)
  | Some s =>
      if negb (rs_agent_id s =? ag_id agent) then (c, None)
      else if started_at s <? now - ttl then (set_agent (drop_session c session_id) agent, None)
      else (c, Some s)
  end.

Definition staged_of (c : Central) (session_id : Z) : list ManifestRow :=
  omap (λ '((i, _), r), if i =? session_id then Some r else None) (map_to_list (staging c)).

Inductive start_result := Match | Mismatch (session_id : Z).

Record Counts := mkCounts {
  c_upserted : Z;
  c_tombstoned : Z;
  c_reactivated : Z;
  c_updated : Z;
  c_trashed_conflicts : Z;
  c_unchanged : Z;
}.

(** The loop of the anti-join: the rows, the ids given out, the counters, the touched ids *)
Record Sweep := mkSweep {
  w_items : rows;
  w_made : nat;
  w_counts : Counts;
  w_touched : list Z;
}.

Definition stamp_reconciled (a : Agent) (reset : bool) (now : Z) : Agent :=
  mkAgent (ag_id a) (ag_name a) (hostname a) (revoked_at a) (cert_fingerprint a) (last_auth_mode a)
    (if reset then 0 else last_contiguous_seq_no a) (Some now) (Some now).

(** The columns a manifest row writes to the row it finds *)
Definition manifest_row (it : Item) (agent : Z) (s : ManifestRow) (mtime now : Z) : Item :=
  mkItem (i_id it) (i_library_id it) (i_file_category it) (i_file_group it) active (mr_rel_path s)
    (i_rel_path it) (i_filename it) (i_extension it) (mr_size s) mtime
    (mr_quick_hash s) (mr_content_hash s) (i_mid_hash it) (i_nlink it) (i_inode it) (i_dev it)
    (i_symlink_target it) now (i_deleted_at it) (i_sidecar_of it) (i_path_scope it) (Some agent)
    (i_share_hint it) (i_curated it).

(** Some field of the row differs from the manifest; [None]: the row has no time *)
Definition differs (it : Item) (s : ManifestRow) : bool :=
  negb (i_size it =? mr_size s) || negb (bool_decide (mtime_to_us (timestamp (i_mtime it)) = Some (mtime_us s))) ||
  negb (bool_decide (i_quick_hash it = mr_quick_hash s)) || negb (bool_decide (i_content_hash it = mr_content_hash s)).

Section reconcile.
Context (uni_lower : Z → list Z) (sha256 blake2b64 : list Z → string).
(** The ids the database assigns, the order its queries return staged and catalogue rows in *)
Context (new_id new_library new_session : nat → Z).
Context (staged_order : list ManifestRow → list ManifestRow) (row_order : list (Z * Item) → list (Z * Item)).
Context (tax : Taxonomy) (settings : SyncSettings).
Local Abbreviation ttl := (agent_reconcile_session_ttl settings).

Definition manifest_digest (rows : list ManifestRow) : string := sha256 (_manifest_blob rows).

Definition compute_central_digest (c : Central) (agent : Agent) (library_ref : text) : option (string * nat) :=
  match find_library (libraries c) (ag_id agent) library_ref with
  | None => Some (manifest_digest [], 0%nat)
  | Some l =>
      manifest ← mapM project (active_rows (items c) (al_id l));
      Some (manifest_digest manifest, length manifest)
  end.

Definition reconcile_start (c : Central) (agent : Agent) (library_ref : text) (digest : string) (row_count : nat)
    (rebuilt : bool) (now : Z) : result sync_error (Central * start_result) :=
  let c := _sweep_expired_sessions c now ttl in
  '(central_digest, central_count) <-! of_option TimestampError (compute_central_digest c agent library_ref);
  let c := keep_sessions (λ s, negb (rs_agent_id s =? ag_id agent)) c in
  if bool_decide (central_digest = digest) && bool_decide (central_count = row_count) then
    Ok (set_agent c (stamp_reconciled agent rebuilt now), Match)
  else if column_ok library_ref then
    let id := new_session (sessions_made c) in
    let s := mkSession id (ag_id agent) library_ref now 0 in
    let c := set_agent c (touch_agent agent (last_contiguous_seq_no agent) now) in
    Ok (mkCentral (items c) (libraries c) (agents c) (ledger c) (<[id := s]> (sessions c)) (staging c)
          (items_made c) (libraries_made c) (S (sessions_made c)), Mismatch id)
  else Err DataError.

(** The upserts of one page *)
Fixpoint stage_all (session_id : Z) (rows : list ReconcileRow) (st : gmap (Z * text) ManifestRow) :
    result sync_error (gmap (Z * text) ManifestRow) :=
  match rows with
  | [] => Ok st
  | r :: rows' =>
      x <-! of_option TimestampError (quantize r);
      if staged_ok x then stage_all session_id rows' (<[(session_id, mr_rel_path x) := x]> st) else Err DataError
  end.

(** The committed state and the outcome *)
Definition reconcile_stage_rows (c : Central) (agent : Agent) (session_id : Z) (rows : list ReconcileRow) (now : Z) :
    Central * result reconcile_error nat :=
  match _load_live_session c agent session_id now ttl with
  | (c, None) => (c, Err UnknownSession)
  | (c, Some s) =>
      match stage_all session_id rows (staging c) with
      | Err e => (c, Err (SyncError e))
      | Ok st =>
          let n := length (staged_of (set_sessions c (sessions c) st) session_id) in
          let s := mkSession (rs_id s) (rs_agent_id s) (rs_library_ref s) (started_at s) (Z.of_nat n) in
          (set_agent (set_sessions c (<[session_id := s]> (sessions c)) st) agent, Ok n)
      end
  end.

(** One staged row against the rows of the library *)
Definition sweep_row (agent library now : Z) (central : gmap text Z) (w : Sweep) (s : ManifestRow) :
    result sync_error Sweep :=
  let n := w_counts w in
  mtime <-! of_option TimestampError (fromtimestamp (timestamp (mtime_us s)));
  match central !! mr_rel_path s with
  | None =>
      scope <-! scope_of blake2b64 library (mr_rel_path s);
      let id := new_id (w_made w) in
      m <-! put_row (w_items w) id
        (agent_row uni_lower tax id library agent (mr_rel_path s) (mr_size s) mtime (mr_quick_hash s)
          (mr_content_hash s) scope now None ∅);
      Ok (mkSweep m (S (w_made w))
        (mkCounts (c_upserted n + 1) (c_tombstoned n) (c_reactivated n) (c_updated n) (c_trashed_conflicts n) (c_unchanged n))
        (w_touched w ++ [id]))
  | Some id =>
      it <-! of_option MissingLibrary (w_items w !! id);
      let written := <[id := manifest_row it agent s mtime now]> (w_items w) in
      match i_status it with
      | trashed => Ok (mkSweep (w_items w) (w_made w)
          (mkCounts (c_upserted n) (c_tombstoned n) (c_reactivated n) (c_updated n) (c_trashed_conflicts n + 1) (c_unchanged n))
          (w_touched w))
      | missing => Ok (mkSweep written (w_made w)
          (mkCounts (c_upserted n) (c_tombstoned n) (c_reactivated n + 1) (c_updated n) (c_trashed_conflicts n) (c_unchanged n))
          (w_touched w ++ [id]))
      | active =>
          if differs it s then Ok (mkSweep written (w_made w)
            (mkCounts (c_upserted n) (c_tombstoned n) (c_reactivated n) (c_updated n + 1) (c_trashed_conflicts n) (c_unchanged n))
            (w_touched w ++ [id]))
          else Ok (mkSweep (w_items w) (w_made w)
            (mkCounts (c_upserted n) (c_tombstoned n) (c_reactivated n) (c_updated n) (c_trashed_conflicts n) (c_unchanged n + 1))
            (w_touched w))
      end
  end.

Fixpoint sweep_rows (agent library now : Z) (central : gmap text Z) (w : Sweep) (l : list ManifestRow) :
    result sync_error Sweep :=
  match l with
  | [] => Ok w
  | s :: l' => w <-! sweep_row agent library now central w s; sweep_rows agent library now central w l'
  end.

(** A row of the catalogue the manifest does not list *)
Definition sweep_absent (agent now : Z) (paths : gset text) (w : Sweep) (i : Z) : Sweep :=
  match w_items w !! i with
  | Some it =>
      if bool_decide (i_status it = active) && negb (bool_decide (i_rel_path it ∈ paths)) then
        let n := w_counts w in
        mkSweep (<[i := tombstone_row it agent now]> (w_items w)) (w_made w)
          (mkCounts (c_upserted n) (c_tombstoned n + 1) (c_reactivated n) (c_updated n) (c_trashed_conflicts n) (c_unchanged n))
          (w_touched w ++ [i])
      else w
  | None => w
  end.

(** All rows of the library, whatever their status *)
Definition library_rows (m : rows) (library : Z) : list (Z * Item) :=
  row_order (filterb (λ '(_, it), i_library_id it =? library) (map_to_list m)).

(** The anti-join of the verified rows [staged] *)
Definition anti_join (c : Central) (agent library now : Z) (staged : list ManifestRow) : result sync_error Sweep :=
  let rows := library_rows (items c) library in
  let central : gmap text Z := list_to_map (map (λ '(i, it), (i_rel_path it, i)) rows) in
  w <-! sweep_rows agent library now central (mkSweep (items c) (items_made c) (mkCounts 0 0 0 0 0 0) []) staged;
  Ok (foldl (sweep_absent agent now (list_to_set (map mr_rel_path staged))) w (map fst rows)).

Record ReconcileResult := mkReconcileResult { rc_counts : Counts; rc_item_ids : list Z; rc_library_id : Z }.

Definition reconcile_finish (c : Central) (agent : Agent) (session_id : Z) (digest : string) (row_count : nat)
    (reset_seq : bool) (now : Z) : Central * result reconcile_error ReconcileResult :=
  match _load_live_session c agent session_id now ttl with
  | (c, None) => (c, Err UnknownSession)
  | (c, Some sess) =>
      let staged := staged_order (staged_of c session_id) in
      if negb (bool_decide (length staged = row_count)) || negb (bool_decide (manifest_digest staged = digest)) then
        (set_agent (drop_session c session_id) agent, Err DigestMismatch)
      else
        match
          '(c1, l, _) <-! _provision_agent_library new_library c agent (rs_library_ref sess);
          w <-! anti_join c1 (ag_id agent) (al_id l) now staged;
          let c2 := mkCentral (w_items w) (libraries c1) (agents c1) (ledger c1) (sessions c1) (staging c1)
            (w_made w) (libraries_made c1) (sessions_made c1) in
          Ok (set_agent (drop_session c2 session_id) (stamp_reconciled agent reset_seq now),
              mkReconcileResult (w_counts w) (w_touched w) (al_id l))
        with
        | Ok (c', r) => (c', Ok r)
        | Err e => (c, Err (SyncError e))
        end
  end.

(** ** The endpoints *)

Inductive reconcile_response :=
  | RHttpError (status : Z)
  | RServerError (e : sync_error)
  | RStarted (r : start_result)
  | RStaged (n : nat)
  | RDigestMismatch
  | RReconciled (r : Counts).

Definition reconcile_start_endpoint (c : Central) (agent_id : Z) (library_ref : text) (digest : string)
    (row_count : nat) (rebuilt : bool) (request : AgentRequest) (now : Z) : Central * reconcile_response :=
  if negb (agents_enabled settings) then (c, RHttpError 404)
  else match _authenticate_agent uni_lower settings c agent_id request with
  | Err status => (c, RHttpError status)
  | Ok (c, agent) =>
      match reconcile_start c agent library_ref digest row_count rebuilt now with
      | Ok (c', r) => (c', RStarted r)
      | Err e => (c, RServerError e)
      end
  end.

Definition reconcile_rows_endpoint (c : Central) (agent_id session_id : Z) (rows : list ReconcileRow)
    (request : AgentRequest) (now : Z) : Central * reconcile_response :=
  if negb (agents_enabled settings) then (c, RHttpError 404)
  else match _authenticate_agent uni_lower settings c agent_id request with
  | Err status => (c, RHttpError status)
  | Ok (c, agent) =>
      if (agent_reconcile_page_max settings <? length rows)%nat then (c, RHttpError 413)
      else match reconcile_stage_rows c agent session_id rows now with
        | (c', Ok n) => (c', RStaged n)
        | (c', Err (SyncError e)) => (c', RServerError e)
        | (c', Err _) => (c', RHttpError 404)
        end
  end.

Definition reconcile_finish_endpoint (c : Central) (agent_id session_id : Z) (digest : string) (row_count : nat)
    (reset_seq : bool) (request : AgentRequest) (now : Z) : Central * reconcile_response * list job :=
  if negb (agents_enabled settings) then (c, RHttpError 404, [])
  else match _authenticate_agent uni_lower settings c agent_id request with
  | Err status => (c, RHttpError status, [])
  | Ok (c, agent) =>
      match reconcile_finish c agent session_id digest row_count reset_seq now with
      | (c', Ok r) =>
          (c', RReconciled (rc_counts r),
            match rc_item_ids r with [] => [] | ids => [SyncItems ids; AssociateLibraries {[rc_library_id r]}] end)
      | (c', Err DigestMismatch) => (c', RDigestMismatch, [])
      | (c', Err (SyncError e)) => (c', RServerError e, [])
      | (c', Err UnknownSession) => (c', RHttpError 404, [])
      end
  end.
End reconcile.
