(* ===== verification/ReconcileFacts.v ===== *)
(** * Full-manifest reconciliation: facts and properties *)
From S2P Require Import Prelude PyStr Uuid Utf8 PathLabel Text Json Catalog Sidecar Move AgentMeta AgentSync AgentSyncFacts Reconcile.
From Stdlib Require Import SpecFloat.
From stdpp Require Import options.

(** ** The blob says what the manifest is *)

(** *** Quoted text *)

Definition unhex (c : Z) : Z := if c <? 97 then c - 48 else c - 87.

Lemma unhex_digit d : 0 ≤ d < 16 → unhex (ord (hex_digit d)) = d.
Proof. apply (hex_digit_forall (λ d, unhex (ord (hex_digit d)) = d)). by repeat constructor. Qed.

Definition unhex4 (a b c d : Z) : Z := 4096 * unhex a + 256 * unhex b + 16 * unhex c + unhex d.

(** The first character of the inside of a quoted text *)
Definition decode_char (t : text) : option (Z * text) :=
  match t with
  | b :: k :: r =>
      if b =? BACKSLASH then
        if k =? 117 then
          match r with
          | a1 :: a2 :: a3 :: a4 :: r1 =>
              let n := unhex4 a1 a2 a3 a4 in
              if (55296 <=? n) && (n <? 56320) then
                match r1 with
                | _ :: _ :: b1 :: b2 :: b3 :: b4 :: r2 => Some (65536 + (n - 55296) * 1024 + (unhex4 b1 b2 b3 b4 - 56320), r2)
                | _ => None
                end
              else Some (n, r1)
          | _ => None
          end
        else Some (if k =? 110 then 10 else if k =? 114 then 13 else if k =? 116 then 9 else
                   if k =? 102 then 12 else if k =? 98 then 8 else k, r)
      else Some (b, k :: r)
  | _ => None
  end.

Lemma decode_hex4 n r :
  0 ≤ n < 65536 → ∃ a b c d, hex4 n ++ r = a :: b :: c :: d :: r ∧ unhex4 a b c d = n.
Proof.
  intros Hn. unfold hex4, hex2. cbn [map app]. eexists _, _, _, _. split; [done|]. unfold unhex4.
  rewrite !unhex_digit by (apply Z.mod_pos_bound; lia).
  Z.to_euclidean_division_equations. lia.
Qed.

Lemma decode_u n r :
  0 ≤ n < 65536 → is_scalar n = true → decode_char (BACKSLASH :: ord "u" :: hex4 n ++ r) = Some (n, r).
Proof.
  intros Hn Hs. destruct (decode_hex4 n r Hn) as (a & b & c & d & -> & He).
  cbn [decode_char Z.eqb]. change (BACKSLASH =? BACKSLASH) with true. change (ord "u" =? 117) with true. cbn iota.
  rewrite He. unfold is_scalar in Hs. destruct ((55296 <=? n) && (n <? 56320)) eqn:H; [bool_to_prop; lia|done].
Qed.

Lemma decode_pair n r :
  65536 ≤ n → n ≤ 1114111 →
  decode_char ((BACKSLASH :: ord "u" :: hex4 (55296 + (n - 65536) / 1024)) ++
    (BACKSLASH :: ord "u" :: hex4 (56320 + (n - 65536) mod 1024)) ++ r) = Some (n, r).
Proof.
  intros H1 H2. set (hi := 55296 + _). set (lo := 56320 + _).
  assert (55296 ≤ hi < 56320) as Hhi by (unfold hi; Z.to_euclidean_division_equations; lia).
  assert (56320 ≤ lo < 57344) as Hlo by (unfold lo; Z.to_euclidean_division_equations; lia).
  destruct (decode_hex4 lo r) as (e & f & g & h & He & Hlo4); [lia|].
  destruct (decode_hex4 hi (BACKSLASH :: ord "u" :: hex4 lo ++ r)) as (a & b & c & d & Hh & Hhi4); [lia|].
  rewrite <- !app_comm_cons, Hh, He. cbn [decode_char].
  change (BACKSLASH =? BACKSLASH) with true. change (ord "u" =? 117) with true. cbn iota. rewrite Hhi4, Hlo4.
  assert ((55296 <=? hi) && (hi <? 56320) = true) as -> by lia.
  do 2 f_equal. unfold hi, lo. Z.to_euclidean_division_equations. lia.
Qed.

Lemma decode_escape c r : is_scalar c = true → r ≠ [] → decode_char (escape_char true c ++ r) = Some (c, r).
Proof.
  intros Hc Hr. assert (0 ≤ c ≤ 1114111) as Hb by (unfold is_scalar in Hc; lia). unfold escape_char.
  destruct ((c =? QUOTE) || (c =? BACKSLASH)) eqn:Hq.
  { apply orb_true_iff in Hq as [->%Z.eqb_eq| ->%Z.eqb_eq]; done. }
  destruct (Z.eqb_spec c 10) as [->|]; [done|]. destruct (Z.eqb_spec c 13) as [->|]; [done|].
  destruct (Z.eqb_spec c 9) as [->|]; [done|]. destruct (Z.eqb_spec c 12) as [->|]; [done|].
  destruct (Z.eqb_spec c 8) as [->|]; [done|].
  destruct (Z.ltb_spec c 32); [apply decode_u; [lia|done]|].
  destruct (Z.ltb_spec 126 c); cbn [andb].
  - destruct (Z.ltb_spec c 65536); [apply decode_u; [lia|done]|]. rewrite <- app_assoc. by apply decode_pair; lia.
  - destruct r as [|k r]; [done|]. cbn [app decode_char]. apply orb_false_iff in Hq as [_ Hq]. by rewrite Hq.
Qed.

Lemma escape_not_quote c r : is_scalar c = true → ∃ x l, escape_char true c ++ r = x :: l ∧ x ≠ QUOTE.
Proof.
  intros _. unfold escape_char.
  destruct ((c =? QUOTE) || (c =? BACKSLASH)) eqn:Hq; [by eexists _, _|].
  apply orb_false_iff in Hq as [Hq _]. apply Z.eqb_neq in Hq.
  repeat (case_match; [eexists _, _; split; [reflexivity|first [done|vm_compute; discriminate]]|]).
  cbn [andb]. destruct (126 <? c), (c <? 65536);
    eexists _, _; (split; [reflexivity|first [done|vm_compute; discriminate]]).
Qed.

Definition scalars (t : text) : Prop := Forall (λ c, is_scalar c = true) t.

Lemma quoted_inj t1 t2 r1 r2 :
  scalars t1 → scalars t2 → quoted true t1 ++ r1 = quoted true t2 ++ r2 → t1 = t2 ∧ r1 = r2.
Proof.
  unfold quoted. rewrite <- !app_comm_cons. intros H1 H2 [= H]. rewrite <- !app_assoc in H. revert t2 H2 H.
  induction H1 as [|c t1 Hc H1 IH]; intros t2 H2 H.
  - destruct H2 as [|d t2 Hd H2]; [cbn in H; injection H as ->; by split|].
    rewrite bind_cons, <- app_assoc in H.
    destruct (escape_not_quote d ((t2 ≫= escape_char true) ++ [QUOTE] ++ r2) Hd) as (x & l & He & Hx).
    rewrite He in H. injection H as H _. by destruct Hx.
  - rewrite bind_cons, <- app_assoc in H.
    destruct H2 as [|d t2 Hd H2].
    + destruct (escape_not_quote c ((t1 ≫= escape_char true) ++ [QUOTE] ++ r1) Hc) as (x & l & He & Hx).
      rewrite He in H. injection H as H _. by destruct Hx.
    + rewrite bind_cons, <- app_assoc in H.
      apply (f_equal decode_char) in H. rewrite !decode_escape in H by (done || (by intros [_ ?]%app_eq_nil)).
      injection H as -> H. destruct (IH t2 H2 H) as [-> ->]. done.
Qed.

(** *** Numbers *)

Lemma take_while_stop p t c r : forallb p t = true → p c = false → take_while p (t ++ c :: r) = t.
Proof.
  induction t as [|x t IH]; cbn [forallb app take_while]; [by intros _ ->|].
  intros [-> Ht]%andb_true_iff Hc. f_equal. by apply IH.
Qed.

Lemma dec_digits n : forallb ascii_digit (txt (dec n)) = true.
Proof.
  pose proof (dec_decimal n) as H. induction (dec n) as [|c s IH]; [done|]. cbn [str_forall] in H.
  apply andb_true_iff in H as [Hc Hs]. cbn [txt forallb]. rewrite (IH Hs), andb_true_r.
  unfold is_decimal in Hc. unfold ascii_digit, ord. apply andb_true_iff in Hc as [H1%N.leb_le H2%N.leb_le].
  apply andb_true_iff. split; apply Z.leb_le; lia.
Qed.

Lemma dec_first n r : ∃ c l, txt (dec n) ++ r = c :: l ∧ ascii_digit c = true.
Proof.
  pose proof (dec_digits n) as H. destruct (dec n) as [|c s] eqn:Hd; [by apply dec_not_empty in Hd|].
  eexists _, _. split; [done|]. cbn [txt forallb] in H. by apply andb_true_iff in H as [? _].
Qed.

Lemma dec_prefix n m c d r s :
  ascii_digit c = false → ascii_digit d = false →
  txt (dec n) ++ c :: r = txt (dec m) ++ d :: s → n = m ∧ c :: r = d :: s.
Proof.
  intros Hc Hd H. assert (txt (dec n) = txt (dec m)) as He.
  { rewrite <- (take_while_stop ascii_digit (txt (dec n)) c r), H by (done || apply dec_digits).
    apply take_while_stop; [apply dec_digits|done]. }
  split; [by apply dec_inj, txt_inj|]. rewrite He in H. by apply app_inv_head in H.
Qed.

Lemma int_text_prefix n m c d r s :
  ascii_digit c = false → ascii_digit d = false →
  int_text n ++ c :: r = int_text m ++ d :: s → n = m ∧ c :: r = d :: s.
Proof.
  intros Hc Hd. unfold int_text. rewrite <- !app_assoc.
  destruct (Z.ltb_spec n 0), (Z.ltb_spec m 0); cbn [app txt].
  - intros [= H']. apply dec_prefix in H' as [H' ->]; [|done..]. split; [lia|done].
  - intros H'. destruct (dec_first (Z.to_N (Z.abs m)) (d :: s)) as (x & l & Hx & Hdx). rewrite Hx in H'. by injection H' as <- _.
  - intros H'. destruct (dec_first (Z.to_N (Z.abs n)) (c :: r)) as (x & l & Hx & Hdx). rewrite Hx in H'. by injection H' as -> _.
  - intros H'. apply dec_prefix in H' as [H' ->]; [|done..]. split; [lia|done].
Qed.

(** *** Rows and lists of rows *)

Local Abbreviation dump := (json_dumps (λ _, []) true).

Lemma txt_scalars s : scalars (txt s).
Proof.
  induction s as [|c s IH]; [constructor|]. constructor; [|done]. unfold is_scalar, ord, code.
  pose proof (N_ascii_bounded c). lia.
Qed.

Lemma hash_prefix h1 h2 r1 r2 : dump (hash_json h1) ++ r1 = dump (hash_json h2) ++ r2 → h1 = h2 ∧ r1 = r2.
Proof.
  destruct h1 as [s1|], h2 as [s2|]; cbn [hash_json json_dumps]; [|done..|].
  - intros [H ->]%quoted_inj; [|apply txt_scalars..]. split; [|done]. f_equal. by apply txt_inj.
  - intros H%app_inv_head. done.
Qed.

(** The fixed text before each field of a row, and after the last *)
Definition before (key : string) : text := quoted true (txt key) ++ [COLON].

Lemma row_dump r :
  dump (row_json r) =
    txt "{" ++ before "content_hash" ++ dump (hash_json (mr_content_hash r)) ++
    txt "," ++ before "mtime" ++ int_text (mtime_us r) ++
    txt "," ++ before "quick_hash" ++ dump (hash_json (mr_quick_hash r)) ++
    txt "," ++ before "rel_path" ++ quoted true (mr_rel_path r) ++
    txt "," ++ before "size" ++ int_text (mr_size r) ++ txt "}".
Proof.
  unfold row_json. cbn [json_dumps map join_text]. unfold before.
  by repeat (rewrite <- app_assoc || rewrite <- app_comm_cons).
Qed.

Lemma row_prefix r1 r2 s1 s2 :
  scalars (mr_rel_path r1) → scalars (mr_rel_path r2) →
  dump (row_json r1) ++ s1 = dump (row_json r2) ++ s2 → r1 = r2 ∧ s1 = s2.
Proof.
  intros H1 H2. rewrite !row_dump, <- !app_assoc. intros H.
  do 2 apply app_inv_head in H. apply hash_prefix in H as [Hc H].
  do 2 apply app_inv_head in H.
  assert (∀ n m (k : string) x y, int_text n ++ txt "," ++ before k ++ x = int_text m ++ txt "," ++ before k ++ y →
    n = m ∧ x = y) as Hint.
  { intros n m k x y Hi. apply int_text_prefix in Hi as [-> Hi]; [|done..]. split; [done|].
    by apply (app_inv_head (txt "," ++ before k)). }
  apply Hint in H as [Hm H]. apply hash_prefix in H as [Hq H]. do 2 apply app_inv_head in H.
  apply quoted_inj in H as [Hp H]; [|done..]. do 2 apply app_inv_head in H.
  apply int_text_prefix in H as [Hs [= H]]; [|done..]. destruct r1, r2. cbn in *. by subst.
Qed.

(** What follows a row in the list *)
Fixpoint more (rows : list ManifestRow) : text :=
  match rows with [] => txt "]" | r :: rows' => txt "," ++ dump (row_json r) ++ more rows' end.

Lemma blob_cons r rows :
  dump (JList (map row_json (r :: rows))) = txt "[" ++ dump (row_json r) ++ more rows.
Proof.
  cbn [map json_dumps]. f_equal. revert r. induction rows as [|x rows IH]; intros r; [done|].
  cbn [map]. change (join_text COMMA (dump (row_json r) :: dump (row_json x) :: map dump (map row_json rows)))
    with (dump (row_json r) ++ COMMA :: join_text COMMA (dump (row_json x) :: map dump (map row_json rows))).
  rewrite <- app_assoc, <- app_comm_cons, IH. done.
Qed.

Lemma more_inj l1 l2 :
  Forall (λ r, scalars (mr_rel_path r)) l1 → Forall (λ r, scalars (mr_rel_path r)) l2 → more l1 = more l2 → l1 = l2.
Proof.
  intros H1. revert l2. induction H1 as [|r l1 Hr H1 IH]; intros l2 H2; destruct H2 as [|r' l2 Hr' H2]; cbn [more];
    [done|done|done|].
  intros H%app_inv_head. apply row_prefix in H as [-> H]; [|done..]. f_equal. by apply IH.
Qed.

Lemma blob_inj l1 l2 :
  Forall (λ r, scalars (mr_rel_path r)) l1 → Forall (λ r, scalars (mr_rel_path r)) l2 →
  _manifest_blob l1 = _manifest_blob l2 → l1 ≡ₚ l2.
Proof.
  intros H1 H2. unfold _manifest_blob.
  pose proof (merge_sort_Permutation mr_le l1) as P1. pose proof (merge_sort_Permutation mr_le l2) as P2.
  intros H. etrans; [symmetry; exact P1|]. etrans; [|exact P2]. revert H.
  rewrite <- P1 in H1. rewrite <- P2 in H2. clear P1 P2.
  generalize dependent (merge_sort mr_le l2). generalize dependent (merge_sort mr_le l1). clear l1 l2.
  intros l1 H1 l2 H2 H.
  assert (l1 = l2) as ->; [|done].
  destruct l1 as [|r l1], l2 as [|r' l2]; [done|..].
  - rewrite blob_cons, row_dump in H. done.
  - rewrite blob_cons, row_dump in H. done.
  - rewrite !blob_cons in H. apply app_inv_head in H. apply Forall_cons in H1 as [Hr H1], H2 as [Hr' H2].
    apply row_prefix in H as [-> H]; [|done..]. f_equal. by apply more_inj.
Qed.

(** The blob does not depend on the order of the rows. *)
Lemma blob_perm l1 l2 : NoDup (map mr_rel_path l1) → l1 ≡ₚ l2 → _manifest_blob l1 = _manifest_blob l2.
Proof.
  intros Hnd Hp. unfold _manifest_blob. do 3 f_equal.
  assert (Transitive (λ a b : ManifestRow, mr_le a b)) as Htr by
    (intros a b c Hab%Is_true_eq_true Hbc%Is_true_eq_true; apply Is_true_eq_left; exact (text_le_trans _ _ _ Hab Hbc)).
  assert (Total (λ a b : ManifestRow, mr_le a b)) as Hto by
    (intros a b; destruct (text_le_total (mr_rel_path a) (mr_rel_path b)); [left|right]; by apply Is_true_eq_left).
  apply (StronglySorted_unique_strong (λ a b : ManifestRow, mr_le a b)); [|by apply StronglySorted_merge_sort..|].
  - intros a b. rewrite !merge_sort_Permutation. intros Ha Hb Hab Hba.
    assert (mr_rel_path a = mr_rel_path b) as He by (by apply text_le_antisym; apply Is_true_eq_true).
    rewrite <- Hp in Hb. clear Hp Hab Hba. induction l1 as [|r l1 IH]; [by apply not_elem_of_nil in Ha|].
    cbn [map] in Hnd. apply NoDup_cons in Hnd as [Hr Hnd].
    apply elem_of_cons in Ha as [->|Ha], Hb as [->|Hb]; [done|..|by apply IH].
    + destruct Hr. rewrite He. by apply list_elem_of_fmap_2.
    + destruct Hr. rewrite <- He. by apply list_elem_of_fmap_2.
  - by rewrite !merge_sort_Permutation.
Qed.

(** ** The central manifest *)

Definition central_manifest (c : Central) (agent : Z) (ref : text) : option (list ManifestRow) :=
  match find_library (libraries c) agent ref with
  | None => Some []
  | Some l => mapM project (active_rows (items c) (al_id l))
  end.

Lemma central_digest_manifest sha256 c agent ref :
  compute_central_digest sha256 c agent ref =
    (λ m, (manifest_digest sha256 m, length m)) <$> central_manifest c (ag_id agent) ref.
Proof.
  unfold compute_central_digest, central_manifest. destruct (find_library _ _ _); [|done].
  by destruct (mapM project _).
Qed.

(** C7: the sweep is skipped only for equal manifests.  When a start answers "match" to the
    digest of a manifest, and the digest has no second preimage, then central's active
    rows of that root are the rows of the manifest, path for path, with the same size,
    microsecond time and hashes; nothing of the catalogue changes. *)
Theorem reconcile_match_exact sha256 new_session settings c agent ref M rebuilt now c' :
  reconcile_start sha256 new_session settings c agent ref (manifest_digest sha256 M) (length M) rebuilt now =
    Ok (c', Match) →
  (∀ b, sha256 b = sha256 (_manifest_blob M) → b = _manifest_blob M) →
  (∀ r, r ∈ M → scalars (mr_rel_path r)) →
  (∀ i r, items c !! i = Some r → scalars (i_rel_path r)) →
  items c' = items c ∧ libraries c' = libraries c ∧
  ∃ manifest, central_manifest c (ag_id agent) ref = Some manifest ∧ manifest ≡ₚ M.
Proof.
  unfold reconcile_start. rewrite central_digest_manifest. intros Hstart Hpre HM Hc.
  change (central_manifest (_sweep_expired_sessions c now _) (ag_id agent) ref) with (central_manifest c (ag_id agent) ref) in Hstart.
  destruct (central_manifest c (ag_id agent) ref) as [manifest|] eqn:Hm; [|done].
  cbn [fmap option_fmap option_map of_option result_bind] in Hstart. cbn iota beta in Hstart.
  destruct (bool_decide (manifest_digest sha256 manifest = _)) eqn:Hd; cbn [andb] in Hstart; [|by destruct (column_ok ref)].
  destruct (bool_decide (length manifest = _)) eqn:Hl; [|by destruct (column_ok ref)].
  injection Hstart as <-. bool_to_prop. split_and!; [done..|]. exists manifest. split; [done|].
  apply blob_inj; [|by apply Forall_forall|by apply Hpre].
  unfold central_manifest in Hm. destruct (find_library _ _ _) as [l|]; [|by injection Hm as <-].
  apply mapM_Some_1 in Hm. rewrite Forall_forall. intros r Hr.
  apply list_elem_of_lookup in Hr as [j Hj]. eapply Forall2_lookup_r in Hm as (it & Hit & Hp); [|done].
  apply list_elem_of_lookup_2 in Hit. unfold active_rows in Hit. apply elem_of_filterb in Hit as [Hit _].
  apply list_elem_of_fmap in Hit as ([i x] & -> & Hix). apply elem_of_map_to_list in Hix.
  unfold project in Hp. destruct (mtime_to_us _) as [us|]; [|done]. injection Hp as <-. cbn. by eapply Hc.
Qed.

(** ** The anti-join *)

Definition is_active (it : Item) : bool := bool_decide (i_status it = active).

(** What a row says in the manifest of its library *)
Definition shown (it : Item) : option ManifestRow := if is_active it then project it else None.

(** The time of a manifest row survives the two conversions of its storage. *)
Definition time_survives (us : Z) : bool :=
  bool_decide ((t ← fromtimestamp (timestamp us); mtime_to_us (timestamp t)) = Some us).

Section sweep.
Context (uni_lower : Z → list Z) (blake2b64 : list Z → string) (new_id : nat → Z) (tax : Taxonomy).
Context `{!Inj (=) (=) new_id} (agent library now : Z) (central : gmap text Z).
Local Abbreviation sweep_one := (sweep_row uni_lower blake2b64 new_id tax agent library now central).
Local Abbreviation sweep_list := (sweep_rows uni_lower blake2b64 new_id tax agent library now central).

Record sweep_inv (w : Sweep) : Prop := {
  si_unique : unique_paths (w_items w);
  si_fresh : ∀ n, (w_made w ≤ n)%nat → w_items w !! new_id n = None;
}.

(** The number of rows the loop has looked at *)
Definition swept (w : Sweep) : Z :=
  let n := w_counts w in
  c_upserted n + c_reactivated n + c_updated n + c_trashed_conflicts n + c_unchanged n.

(** A row written from the manifest shows what the manifest says. *)
Lemma manifest_row_shown it s t :
  mtime_to_us (timestamp t) = Some (mtime_us s) → i_rel_path it = mr_rel_path s →
  shown (manifest_row it agent s t now) = Some s.
Proof using Type.
  intros Ht Hp. unfold shown, is_active, project, manifest_row. cbn. rewrite Ht, Hp. cbn. by destruct s.
Qed.

Lemma same_shown it s : i_status it = active → differs it s = false → i_rel_path it = mr_rel_path s → shown it = Some s.
Proof using Type.
  intros Ha Hd Hp. unfold differs in Hd. bool_to_prop. unfold shown, is_active, project. rewrite Ha.
  match goal with H : mtime_to_us _ = _ |- _ => rewrite H end. cbn. destruct s. cbn in *. by subst.
Qed.

(** The row at the key is in the recycle bin. *)
Definition trashed_at (m : rows) (k : Z * text) : bool :=
  match row_at m k with Some (_, it) => bool_decide (i_status it = trashed) | None => false end.

(** The outcome of one staged row at its key *)
Definition row_outcome (m m' : rows) (k : Z * text) (s : ManifestRow) : Prop :=
  if trashed_at m k then row_at m' k = row_at m k
  else ∃ i it, row_at m' k = Some (i, it) ∧ shown it = Some s.

Lemma sweep_row_ok w s w' :
  sweep_inv w → time_survives (mtime_us s) = true →
  central !! mr_rel_path s = fst <$> row_at (w_items w) (library, mr_rel_path s) →
  sweep_one w s = Ok w' →
  let k := (library, mr_rel_path s) in
  sweep_inv w' ∧ touches (eq k) (w_items w) (w_items w') ∧ swept w' = swept w + 1 ∧
  c_tombstoned (w_counts w') = c_tombstoned (w_counts w) ∧
  row_outcome (w_items w) (w_items w') k s ∧
  c_trashed_conflicts (w_counts w') = c_trashed_conflicts (w_counts w) + (if trashed_at (w_items w) k then 1 else 0).
Proof using Inj0.
  intros [Hu Hf] Htime Hcentral. unfold sweep_row. set (k := (library, mr_rel_path s)) in *.
  unfold time_survives in Htime. bool_to_prop.
  destruct (fromtimestamp (timestamp (mtime_us s))) as [t|]; [|done]. cbn [of_option result_bind mbind option_bind] in *.
  destruct (central !! mr_rel_path s) as [id|].
  - symmetry in Hcentral. rewrite fmap_Some in Hcentral. destruct Hcentral as ([i it] & Hr & [= ->]).
    unfold row_outcome, trashed_at. rewrite Hr. pose proof Hr as Hr'.
    apply row_at_some in Hr' as [Hi Hk]; [|done]. rewrite Hi. cbn [of_option result_bind].
    assert (i_rel_path it = mr_rel_path s) as Hp by (by injection Hk).
    set (it' := manifest_row it agent s t now).
    assert (rkey it' = k) as Hk' by (by rewrite <- Hk).
    assert (unique_paths (<[i := it']> (w_items w))) as Hu' by (by eapply unique_same_key; [|done|rewrite Hk, Hk']).
    assert (touches (eq k) (w_items w) (<[i := it']> (w_items w))) as Ht
      by (rewrite <- Hk'; eapply touches_write; [done|by constructor]).
    assert (∀ n, (w_made w ≤ n)%nat → (<[i := it']> (w_items w)) !! new_id n = None) as Hf'.
    { intros n Hn. rewrite lookup_insert_ne; [by apply Hf|]. intros ->. rewrite Hf in Hi; done. }
    assert (row_at (<[i := it']> (w_items w)) k = Some (i, it')) as Hat.
    { rewrite row_at_insert, Hk'; [by rewrite bool_decide_eq_true_2|done..|]. intros o Ho. congruence. }
    assert (shown it' = Some s) as Hs by (by apply manifest_row_shown).
    destruct (i_status it) eqn:Hst; [destruct (differs it s) eqn:Hd|..]; intros [= <-]; unfold swept; cbn;
      (split; [by constructor|]); (split; [first [done|apply touches_refl]|]); (split; [lia|]); (split; [done|]);
      (split; repeat case_bool_decide; first [done|lia|eauto using same_shown]).
  - symmetry in Hcentral. rewrite fmap_None in Hcentral. unfold row_outcome, trashed_at. rewrite Hcentral.
    destruct (scope_of _ _ _) as [scope|]; [|done]. cbn [result_bind].
    destruct (put_row _ _ _) as [m|] eqn:Hp; [|done]. cbn [result_bind]. intros [= <-]. cbn [w_items w_counts].
    apply put_row_ok in Hp as [-> Hu']. set (it' := agent_row _ _ _ _ _ _ _ _ _ _ _ _ _ _) in *.
    assert (rkey it' = k) as Hk' by (unfold it', agent_row; by destruct (detect _ _ _)).
    assert (w_items w !! new_id (w_made w) = None) as Hn by (by apply Hf).
    assert (shown it' = Some s) as Hs.
    { unfold it', agent_row, shown, is_active, project. destruct (detect _ _ _). cbn. rewrite Htime. cbn. by destruct s. }
    split_and!; [constructor; cbn; [by apply Hu'|]| |unfold swept; cbn; lia|done| |cbn; lia].
    + intros n Hle. rewrite lookup_insert_ne; [apply Hf; lia|]. intros ?%(inj new_id). lia.
    + rewrite <- Hk'. by apply touches_new.
    + exists (new_id (w_made w)), it'. split; [|done].
      rewrite row_at_insert, Hk'; [by rewrite bool_decide_eq_true_2|done|by apply Hu'|intros o Ho; congruence].
Qed.

Lemma row_outcome_touches K m1 m2 m2' k s :
  touches K m1 m2 → unique_paths m1 → ¬ K k → row_outcome m2 m2' k s → row_outcome m1 m2' k s.
Proof using Type. intros Ht Hu HK. unfold row_outcome, trashed_at. by rewrite (touches_row_at _ _ _ _ Ht Hu HK). Qed.

Lemma sweep_rows_ok l w w' :
  sweep_inv w → Forall (λ s, time_survives (mtime_us s) = true) l → NoDup (map mr_rel_path l) →
  (∀ s, s ∈ l → central !! mr_rel_path s = fst <$> row_at (w_items w) (library, mr_rel_path s)) →
  sweep_list w l = Ok w' →
  sweep_inv w' ∧ touches (λ k, ∃ s, s ∈ l ∧ (library, mr_rel_path s) = k) (w_items w) (w_items w') ∧
  swept w' = swept w + Z.of_nat (length l) ∧ c_tombstoned (w_counts w') = c_tombstoned (w_counts w) ∧
  (∀ s, s ∈ l → row_outcome (w_items w) (w_items w') (library, mr_rel_path s) s) ∧
  c_trashed_conflicts (w_counts w') = c_trashed_conflicts (w_counts w) +
    Z.of_nat (length (filterb (λ s, trashed_at (w_items w) (library, mr_rel_path s)) l)).
Proof using Inj0.
  revert w. induction l as [|s l IH]; intros w Hinv Ht Hnd Hc; cbn [sweep_rows].
  { intros [= <-]. split_and!; [done|apply touches_refl|cbn; lia|done|by intros ? ?%not_elem_of_nil|cbn; lia]. }
  apply Forall_cons in Ht as [Hts Ht]. cbn [map] in Hnd. apply NoDup_cons in Hnd as [Hs Hnd].
  destruct (sweep_one w s) as [w1|] eqn:Hone; [|done]. cbn [result_bind]. intros Hall.
  destruct (sweep_row_ok w s w1) as (Hinv1 & Ht1 & Hn1 & Htb1 & Ho1 & Htr1); [done|done|apply Hc; left|done|].
  assert (∀ x, x ∈ l → ¬ (library, mr_rel_path s) = (library, mr_rel_path x)) as Hother.
  { intros x Hx [= He]. apply Hs. rewrite He. by apply list_elem_of_fmap_2. }
  assert (∀ x, x ∈ l → row_at (w_items w1) (library, mr_rel_path x) = row_at (w_items w) (library, mr_rel_path x)) as Hsame.
  { intros x Hx. apply (touches_row_at _ _ _ _ Ht1); [apply Hinv|by apply Hother]. }
  destruct (IH w1) as (Hinv' & Ht' & Hn' & Htb' & Ho' & Htr'); [done|done|done| |done|].
  { intros x Hx. rewrite Hsame by done. apply Hc. by right. }
  split_and!; [done| |cbn [length]; lia|congruence| |].
  - eapply touches_trans; (eapply touches_mono; [|done]).
    + intros k <-. exists s. split; [left|done].
    + intros k (x & Hx & <-). exists x. split; [by right|done].
  - intros x [->|Hx]%elem_of_cons.
    + unfold row_outcome in *. rewrite (touches_row_at _ _ _ _ Ht'); [done|apply Hinv1|].
      intros (x & Hx & He). by apply (Hother x).
    + eapply row_outcome_touches; [done|apply Hinv|by apply Hother|by apply Ho'].
  - rewrite Htr', Htr1. cbn [filterb].
    assert (filterb (λ x, trashed_at (w_items w1) (library, mr_rel_path x)) l =
      filterb (λ x, trashed_at (w_items w) (library, mr_rel_path x)) l) as ->.
    { apply filterb_ext. intros x Hx. unfold trashed_at. by rewrite Hsame. }
    cbn [List.filter]. destruct (trashed_at (w_items w) (library, mr_rel_path s)); cbn [length]; lia.
Qed.

End sweep.

(** *** The rows the manifest does not list *)

Lemma sweep_absent_one new_id agent library now paths i w :
  sweep_inv new_id w → (∀ r, w_items w !! i = Some r → i_library_id r = library) →
  let w' := sweep_absent agent now paths w i in
  sweep_inv new_id w' ∧ touches (λ k, k.1 = library ∧ k.2 ∉ paths) (w_items w) (w_items w') ∧
  swept w' = swept w ∧ c_trashed_conflicts (w_counts w') = c_trashed_conflicts (w_counts w) ∧ w_made w' = w_made w ∧
  (∀ j r, w_items w' !! j = Some r → i_status r = active → w_items w !! j = Some r ∧ (j = i → i_rel_path r ∈ paths)) ∧
  (∀ j r, w_items w !! j = Some r → i_status r ≠ active → w_items w' !! j = Some r).
Proof.
  intros [Hu Hf] Hlib. unfold sweep_absent.
  destruct (w_items w !! i) as [it|] eqn:Hi.
  - destruct (bool_decide (i_status it = active) && _) eqn:Hb.
    + apply andb_true_iff in Hb as [Ha Hp]. bool_to_prop. set (it' := tombstone_row it agent now).
      split_and!; cbn; [constructor; cbn| |unfold swept; cbn; lia|done|done| |].
      * by eapply unique_same_key.
      * intros n Hn. rewrite lookup_insert_ne; [by apply Hf|]. intros ->. rewrite Hf in Hi; done.
      * apply (touches_mono (eq (rkey it'))); [intros k <-; split; [exact (Hlib it eq_refl)|done]|].
        eapply touches_write; [done|by constructor].
      * intros j r [[<- <-]|[Hne Hj]]%lookup_insert_Some Hact; [done|]. split; [done|by intros ->].
      * intros j r Hj Hact. rewrite lookup_insert_ne; [done|]. intros <-. congruence.
    + split_and!; [done|apply touches_refl|done|done|done| |done]. intros j r Hj Hact. split; [done|]. intros ->.
      rewrite Hi in Hj. injection Hj as ->. rewrite bool_decide_eq_true_2 in Hb by done.
      cbn [andb] in Hb. by bool_to_prop.
  - split_and!; [done|apply touches_refl|done|done|done| |done]. intros j r Hj Hact. split; [done|]. intros ->. congruence.
Qed.

Lemma sweep_absent_ok new_id agent library now paths ids w :
  sweep_inv new_id w → (∀ i r, i ∈ ids → w_items w !! i = Some r → i_library_id r = library) →
  let w' := foldl (sweep_absent agent now paths) w ids in
  sweep_inv new_id w' ∧ touches (λ k, k.1 = library ∧ k.2 ∉ paths) (w_items w) (w_items w') ∧
  swept w' = swept w ∧ c_trashed_conflicts (w_counts w') = c_trashed_conflicts (w_counts w) ∧ w_made w' = w_made w ∧
  (∀ i r, w_items w' !! i = Some r → i_status r = active → w_items w !! i = Some r ∧ (i ∈ ids → i_rel_path r ∈ paths)) ∧
  (∀ i r, w_items w !! i = Some r → i_status r ≠ active → w_items w' !! i = Some r).
Proof.
  revert w. induction ids as [|i ids IH]; intros w Hinv Hlib; cbn [foldl].
  { split_and!; [done|apply touches_refl|done|done|done| |done]. intros i r Hr _. split; [done|by intros ?%not_elem_of_nil]. }
  destruct (sweep_absent_one new_id agent library now paths i w) as (Hinv1 & Ht1 & Hs1 & Hc1 & Hm1 & Ha1 & Hk1); [done|intros; apply (Hlib i); [left|done]|].
  destruct (IH (sweep_absent agent now paths w i)) as (Hinv' & Ht & Hs & Hc & Hm & Ha & Hk); [done| |].
  { intros j r Hj Hr. destruct (tc_made _ _ _ Ht1 j r Hr) as [[r0 Hr0]|[Hl _]]; [|done].
    destruct (tc_kept _ _ _ Ht1 j r0 Hr0) as (r1 & Hr1 & Hkr & _). rewrite Hr in Hr1. injection Hr1 as <-.
    pose proof (kr_key _ _ Hkr) as [= -> _]. apply (Hlib j); [by right|done]. }
  split_and!; [done|by eapply touches_trans|congruence|congruence|congruence| |by auto].
  intros j r Hj Hact. destruct (Ha j r Hj Hact) as [Hj1 Hin]. destruct (Ha1 j r Hj1 Hact) as [Hj0 Hi]. split; [done|].
  intros [->|Hjd]%elem_of_cons; [by apply Hi|by apply Hin].
Qed.

(** *** The whole anti-join *)

Section anti_join.
Context (uni_lower : Z → list Z) (blake2b64 : list Z → string) (new_id : nat → Z) (tax : Taxonomy).
Context (row_order : list (Z * Item) → list (Z * Item)).
Context `{!Inj (=) (=) new_id}.

Record joined (m m' : rows) (library : Z) (staged : list ManifestRow) (n : Counts) : Prop := {
  jn_touches : touches (λ k, k.1 = library) m m';
  jn_rows : ∀ s, s ∈ staged → row_outcome m m' (library, mr_rel_path s) s;
  jn_active : ∀ i r, m' !! i = Some r → i_library_id r = library → i_status r = active → i_rel_path r ∈ map mr_rel_path staged;
  jn_trashed : ∀ i r, m !! i = Some r → i_status r = trashed → m' !! i = Some r;
  jn_counts : c_upserted n + c_reactivated n + c_updated n + c_trashed_conflicts n + c_unchanged n = Z.of_nat (length staged);
  jn_conflicts : c_trashed_conflicts n = Z.of_nat (length (filterb (λ s, trashed_at m (library, mr_rel_path s)) staged));
}.

Lemma library_index m library p :
  (∀ l, row_order l ≡ₚ l) → unique_paths m →
  (list_to_map (map (λ '(i, it), (i_rel_path it, i)) (library_rows row_order m library)) : gmap text Z) !! p =
    fst <$> row_at m (library, p).
Proof using Type.
  intros Hperm Hu. apply (list_to_map_graph _ (λ p, fst <$> row_at m (library, p))). clear p. intros p i.
  unfold library_rows. rewrite Hperm. rewrite list_elem_of_fmap, fmap_Some. split.
  - intros ([j r] & [= -> ->] & Hin). apply elem_of_filterb in Hin as [Hin Hl]. apply elem_of_map_to_list in Hin. bool_to_prop.
    exists (j, r). split; [|done]. apply row_at_some; [done|]. split; [done|]. unfold rkey. by rewrite Hl.
  - intros ([j r] & Hr & ->). apply row_at_some in Hr as [Hi [= Hl <-]]; [|done]. exists (j, r). split; [done|].
    apply elem_of_filterb. split; [by apply elem_of_map_to_list|by apply Z.eqb_eq].
Qed.

Lemma anti_join_ok c agent library now staged w :
  (∀ l, row_order l ≡ₚ l) → unique_paths (items c) → (∀ n, (items_made c ≤ n)%nat → items c !! new_id n = None) →
  NoDup (map mr_rel_path staged) → Forall (λ s, time_survives (mtime_us s) = true) staged →
  anti_join uni_lower blake2b64 new_id row_order tax c agent library now staged = Ok w →
  sweep_inv new_id w ∧ joined (items c) (w_items w) library staged (w_counts w).
Proof using Inj0.
  intros Hperm Hu Hf Hnd Ht. unfold anti_join.
  set (w0 := mkSweep (items c) (items_made c) (mkCounts 0 0 0 0 0 0) []).
  assert (sweep_inv new_id w0) as Hinv0 by done.
  destruct (sweep_rows _ _ _ _ _ _ _ _ w0 staged) as [w1|] eqn:Hsweep; [|done]. cbn [result_bind]. intros [= <-].
  apply sweep_rows_ok in Hsweep as (Hinv1 & Ht1 & Hn1 & _ & Ho1 & Hc1); [|done..|intros s _; by apply library_index].
  set (paths := list_to_set (map mr_rel_path staged)). set (ids := map fst _).
  assert (∀ i, i ∈ ids ↔ ∃ r, items c !! i = Some r ∧ i_library_id r = library) as Hids.
  { intros i. unfold ids, library_rows. rewrite list_elem_of_fmap. split.
    - intros ([j r] & -> & Hin). rewrite Hperm in Hin. apply elem_of_filterb in Hin as [Hin Hl]. bool_to_prop.
      exists r. split; [by apply elem_of_map_to_list|done].
    - intros (r & Hr & Hl). exists (i, r). split; [done|]. rewrite Hperm. apply elem_of_filterb.
      split; [by apply elem_of_map_to_list|by apply Z.eqb_eq]. }
  destruct (sweep_absent_ok new_id agent library now paths ids w1) as (Hinv2 & Ht2 & Hn2 & Hc2 & _ & Ha2 & Hk2); [done| |].
  { intros i r Hi Hr. apply Hids in Hi as (r0 & Hr0 & Hl). destruct (tc_kept _ _ _ Ht1 i r0 Hr0) as (r1 & Hr1 & Hk & _).
    rewrite Hr in Hr1. injection Hr1 as <-. by pose proof (kr_key _ _ Hk) as [= -> _]. }
  assert (∀ i r, items c !! i = Some r → i_status r = trashed → w_items w1 !! i = Some r) as Htr.
  { intros i r Hi Hst. destruct (decide (rkey r ∈ map (λ s, (library, mr_rel_path s)) staged)) as [Hin|Hno].
    - apply list_elem_of_fmap in Hin as (s & Hk & Hs). specialize (Ho1 s Hs). assert (row_at (items c) (rkey r) = Some (i, r)) as Hr by (by apply row_at_some).
      unfold row_outcome, trashed_at in Ho1. cbn [w0 w_items] in Ho1. rewrite <- Hk, Hr in Ho1.
      rewrite bool_decide_eq_true_2 in Ho1 by done. by apply row_at_some in Ho1 as [? _]; [|apply Hinv1].
    - destruct (tc_kept _ _ _ Ht1 i r Hi) as (r' & Hr' & _ & Hs). rewrite <- Hs; [done|].
      intros (s & Hin & Hk). apply Hno, list_elem_of_fmap. by exists s. }
  split; [done|]. constructor.
  - eapply touches_trans; (eapply touches_mono; [|done]); [by intros k (s & _ & <-)|by intros k [? _]].
  - intros s Hs. unfold row_outcome. rewrite (touches_row_at _ _ _ _ Ht2); [by apply Ho1|apply Hinv1|].
    cbn. intros [_ Hp]. apply Hp. unfold paths. rewrite elem_of_list_to_set. by apply list_elem_of_fmap_2.
  - intros i r Hr Hl Hact. destruct (Ha2 i r Hr Hact) as [Hr1 Hi].
    destruct (tc_made _ _ _ Ht1 i r Hr1) as [[r0 Hr0]|(s & Hs & [= _ <-])]; [|by apply list_elem_of_fmap_2].
    assert (i ∈ ids) as Hid.
    { apply Hids. exists r0. split; [done|]. destruct (tc_kept _ _ _ Ht1 i r0 Hr0) as (r1 & Hr1' & Hk & _).
      rewrite Hr1 in Hr1'. injection Hr1' as <-. pose proof (kr_key _ _ Hk) as [= <- _]. done. }
    specialize (Hi Hid). unfold paths in Hi. by rewrite elem_of_list_to_set in Hi.
  - intros i r Hi Hst. apply Hk2; [by apply Htr|congruence].
  - fold (swept (foldl (sweep_absent agent now paths) w1 ids)). rewrite Hn2, Hn1. done.
  - rewrite Hc2, Hc1. done.
Qed.
End anti_join.

(** ** Finishing a sweep *)

(** Sessions and staged rows are stored under their own keys. *)
Record sessions_ok (c : Central) : Prop := {
  so_staging : ∀ i p r, staging c !! (i, p) = Some r → mr_rel_path r = p;
  so_sessions : ∀ i s, sessions c !! i = Some s → rs_id s = i;
}.

Lemma elem_of_staged c sid s : sessions_ok c → s ∈ staged_of c sid ↔ staging c !! (sid, mr_rel_path s) = Some s.
Proof.
  intros Hok. unfold staged_of. rewrite list_elem_of_omap. split.
  - intros ([[i p] r] & Hin & Hs). apply elem_of_map_to_list in Hin. destruct (Z.eqb_spec i sid) as [->|]; [|done].
    injection Hs as ->. by rewrite (so_staging _ Hok _ _ _ Hin).
  - intros Hs. exists ((sid, mr_rel_path s), s). rewrite elem_of_map_to_list. split; [done|]. by rewrite Z.eqb_refl.
Qed.

Lemma NoDup_staged c sid : sessions_ok c → NoDup (map mr_rel_path (staged_of c sid)).
Proof.
  intros Hok. unfold staged_of. pose proof (NoDup_fst_map_to_list (staging c)) as Hnd.
  assert (∀ k r, (k, r) ∈ map_to_list (staging c) → mr_rel_path r = k.2) as Hk.
  { intros [i p] r Hin. apply elem_of_map_to_list in Hin. by eapply so_staging. }
  induction (map_to_list (staging c)) as [|[[i p] r] l IH]; [constructor|]. cbn in Hnd. apply NoDup_cons in Hnd as [Hp Hnd].
  assert (NoDup (map mr_rel_path (omap (λ '((i, _), r), if i =? sid then Some r else None) l))) as IHl.
  { apply IH; [done|]. intros k x Hx. apply Hk. by right. }
  cbn. destruct (Z.eqb_spec i sid) as [->|]; [|done]. cbn. constructor; [|done].
  intros Hin. apply list_elem_of_fmap in Hin as (x & Hx & Hin). apply list_elem_of_omap in Hin as ([[j q] y] & Hin & Hy).
  destruct (Z.eqb_spec j sid) as [->|]; [|done]. injection Hy as ->.
  pose proof (Hk _ _ (list_elem_of_here _ _)) as H1. pose proof (Hk _ _ (list_elem_of_further _ _ _ Hin)) as H2.
  cbn in H1, H2. apply Hp, list_elem_of_fmap. exists ((sid, q), x). split; [|done]. cbn. congruence.
Qed.

(** The active rows of a library are distinct paths. *)
Lemma NoDup_active m library : unique_paths m → NoDup (map i_rel_path (active_rows m library)).
Proof.
  intros Hu. unfold active_rows.
  assert (∀ l : list (Z * Item), NoDup l → (∀ i x, (i, x) ∈ l → m !! i = Some x) →
    NoDup (map i_rel_path (filterb (λ it, (i_library_id it =? library) && bool_decide (i_status it = active)) (map snd l)))) as H.
  { induction l as [|[i x] l IH]; intros Hnd Hin; [constructor|]. apply NoDup_cons in Hnd as [Hi Hnd].
    cbn [map snd List.filter].
    assert (NoDup (map i_rel_path (filterb (λ it, (i_library_id it =? library) && bool_decide (i_status it = active)) (map snd l)))) as IHl
      by (apply IH; [done|intros j y Hy; apply Hin; by right]).
    destruct (_ && _) eqn:Hb; [|done]. cbn [map]. constructor; [|done]. intros Hx.
    apply list_elem_of_fmap in Hx as (y & Hp & Hy). apply elem_of_filterb in Hy as [Hy Hb']. bool_to_prop.
    apply list_elem_of_fmap in Hy as ([j z] & -> & Hj). apply Hi.
    assert (i = j) as <-; [|assert (x = z) as <-; [|done]].
    - eapply Hu; [apply Hin; left|apply Hin; by right|]. unfold rkey. cbn in *. congruence.
    - assert (m !! i = Some x) as Hmx by (apply Hin; left). assert (m !! i = Some z) as Hmz by (apply Hin; by right).
      congruence. }
  apply H; [apply NoDup_map_to_list|]. intros i x. by rewrite elem_of_map_to_list.
Qed.

Lemma project_path it s : project it = Some s → mr_rel_path s = i_rel_path it.
Proof. unfold project. destruct (mtime_to_us _); [|done]. by intros [= <-]. Qed.

Lemma elem_of_active m library it :
  it ∈ active_rows m library ↔ ∃ i, m !! i = Some it ∧ i_library_id it = library ∧ i_status it = active.
Proof.
  unfold active_rows. rewrite elem_of_filterb, list_elem_of_fmap, andb_true_iff, Z.eqb_eq, bool_decide_eq_true. split.
  - intros [([i x] & -> & Hin) [? ?]]. apply elem_of_map_to_list in Hin. by exists i.
  - intros (i & Hi & ? & ?). split; [|done]. exists (i, it). split; [done|by apply elem_of_map_to_list].
Qed.

Section finished.
Context (sha256 : list Z → string) (new_id new_library : nat → Z) (settings : SyncSettings).
Local Abbreviation ok := (central_ok new_id new_library).

(** How a sweep that finished went *)
Record finished (c : Central) (agent : Agent) (sid : Z) (digest : string) (reset : bool) (now : Z) (c' : Central)
    (counts : Counts) (sess : ReconcileSession) (l : AgentLibrary) (staged : list ManifestRow) : Prop := {
  fn_session : sessions c !! sid = Some sess;
  fn_agent : rs_agent_id sess = ag_id agent;
  fn_live : now - agent_reconcile_session_ttl settings ≤ started_at sess;
  fn_staged : staged ≡ₚ staged_of c sid;
  fn_digest : manifest_digest sha256 staged = digest;
  fn_library : find_library (libraries c') (ag_id agent) (rs_library_ref sess) = Some l;
  fn_joined : joined (items c) (items c') (al_id l) staged counts;
  fn_unique : unique_paths (items c');
  fn_agents : agents c' = <[ag_id agent := stamp_reconciled agent reset now]> (agents c);
  fn_closed : sessions_ok c → sessions c' !! sid = None;
}.

Lemma finished_manifest c agent sid digest reset now c' counts sess l staged :
  ok c → sessions_ok c → finished c agent sid digest reset now c' counts sess l staged →
  c_trashed_conflicts counts = 0 →
  ∃ M, central_manifest c' (ag_id agent) (rs_library_ref sess) = Some M ∧ M ≡ₚ staged.
Proof using Type.
  intros Hok Hs Hf Hno. pose proof (fn_joined _ _ _ _ _ _ _ _ _ _ _ Hf) as Hj.
  pose proof (fn_unique _ _ _ _ _ _ _ _ _ _ _ Hf) as Hu. set (m := items c') in *. set (lib := al_id l).
  assert (NoDup (map mr_rel_path staged)) as Hnd.
  { rewrite (fn_staged _ _ _ _ _ _ _ _ _ _ _ Hf). by apply NoDup_staged. }
  assert (∀ s, s ∈ staged → ∃ i it, row_at m (lib, mr_rel_path s) = Some (i, it) ∧ shown it = Some s) as Hin.
  { intros s Hst. pose proof (jn_rows _ _ _ _ _ Hj s Hst) as Ho. unfold row_outcome in Ho.
    destruct (trashed_at (items c) (al_id l, mr_rel_path s)) eqn:Ht; [exfalso|done].
    rewrite (jn_conflicts _ _ _ _ _ Hj) in Hno.
    assert (s ∈ filterb (λ s, trashed_at (items c) (al_id l, mr_rel_path s)) staged) as Hsf by (by apply elem_of_filterb).
    destruct (filterb _ staged); [by apply not_elem_of_nil in Hsf|cbn in Hno; lia]. }
  assert (∀ it, it ∈ active_rows m lib → ∃ s, project it = Some s ∧ s ∈ staged) as Hout.
  { intros it Hit. apply elem_of_active in Hit as (i & Hi & Hl & Hact).
    pose proof (jn_active _ _ _ _ _ Hj i it Hi Hl Hact) as Hp. apply list_elem_of_fmap in Hp as (s & Hp & Hst).
    destruct (Hin s Hst) as (j & x & Hx & Hsh). apply row_at_some in Hx as [Hj' Hk]; [|done].
    assert (j = i) as -> by (eapply Hu; [done..|]; rewrite Hk; unfold rkey; by rewrite Hl, Hp).
    rewrite Hi in Hj'. injection Hj' as <-. unfold shown, is_active in Hsh. rewrite bool_decide_eq_true_2 in Hsh by done. eauto. }
  unfold central_manifest. rewrite (fn_library _ _ _ _ _ _ _ _ _ _ _ Hf). fold m lib.
  destruct (mapM project (active_rows m lib)) as [M|] eqn:HM.
  - exists M. split; [done|]. apply mapM_Some_1 in HM.
    assert (map mr_rel_path M = map i_rel_path (active_rows m lib)) as Hpaths.
    { clear - HM. induction HM as [|it s ? ? Hp _ IH]; [done|]. cbn. by rewrite IH, (project_path it s). }
    apply NoDup_Permutation.
    + apply (NoDup_fmap_1 mr_rel_path). change (NoDup (map mr_rel_path M)). rewrite Hpaths. by apply NoDup_active.
    + by apply (NoDup_fmap_1 mr_rel_path).
    + intros s. split.
      * intros Hsm. apply list_elem_of_lookup in Hsm as [j Hjs]. eapply Forall2_lookup_r in HM as (it & Hit & Hp); [|done].
        destruct (Hout it) as (s' & Hp' & Hs'); [by eapply list_elem_of_lookup_2|]. congruence.
      * intros Hst. destruct (Hin s Hst) as (i & it & Hr & Hsh). apply row_at_some in Hr as [Hi [= Hl Hp]]; [|done].
        unfold shown, is_active in Hsh. case_bool_decide as Hact; [|done].
        assert (it ∈ active_rows m lib) as Hia by (apply elem_of_active; eauto).
        apply list_elem_of_lookup in Hia as [j Hjs]. eapply Forall2_lookup_l in HM as (s' & Hs' & Hp'); [|done].
        assert (s = s') as -> by congruence. by eapply list_elem_of_lookup_2.
  - exfalso. apply eq_None_not_Some in HM. apply HM, mapM_is_Some, Forall_forall. intros it Hit.
    destruct (Hout it Hit) as (s & Hp & _). by exists s.
Qed.

(** Where a path of the library stands after the sweep *)
Lemma finished_shown c agent sid digest reset now c' counts sess l staged p :
  ok c → sessions_ok c → finished c agent sid digest reset now c' counts sess l staged →
  (row ← row_at (items c') (al_id l, p); shown row.2) =
    if trashed_at (items c) (al_id l, p) then None else staging c !! (sid, p).
Proof using Type.
  intros Hok Hs Hf. pose proof (fn_joined _ _ _ _ _ _ _ _ _ _ _ Hf) as Hj.
  assert (∀ s, s ∈ staged ↔ staging c !! (sid, mr_rel_path s) = Some s) as Hst.
  { intros s. rewrite (fn_staged _ _ _ _ _ _ _ _ _ _ _ Hf). by apply elem_of_staged. }
  destruct (trashed_at (items c) (al_id l, p)) eqn:Ht.
  - unfold trashed_at in Ht. destruct (row_at (items c) (al_id l, p)) as [[i r]|] eqn:Hr; [|done]. bool_to_prop.
    apply row_at_some in Hr as [Hi Hk]; [|apply Hok]. pose proof (jn_trashed _ _ _ _ _ Hj i r Hi Ht) as Hi'.
    rewrite (proj2 (row_at_some _ _ i r (fn_unique _ _ _ _ _ _ _ _ _ _ _ Hf)) (conj Hi' Hk)). cbn.
    unfold shown, is_active. by rewrite Ht.
  - destruct (staging c !! (sid, p)) as [s|] eqn:Hp.
    + pose proof (so_staging _ Hs _ _ _ Hp) as <-. apply Hst in Hp. pose proof (jn_rows _ _ _ _ _ Hj s Hp) as Ho.
      unfold row_outcome in Ho. rewrite Ht in Ho. by destruct Ho as (i & it & -> & ?).
    + destruct (row_at (items c') (al_id l, p)) as [[i r]|] eqn:Hr; [|done]. cbn.
      apply row_at_some in Hr as [Hi [= Hl Hpr]]; [|by eapply fn_unique].
      unfold shown, is_active. case_bool_decide as Hact; [|done]. exfalso.
      pose proof (jn_active _ _ _ _ _ Hj i r Hi Hl Hact) as Hin. rewrite Hpr in Hin.
      apply list_elem_of_fmap in Hin as (s & -> & Hin). apply Hst in Hin. congruence.
Qed.

End finished.

Section finish.
Context (uni_lower : Z → list Z) (sha256 blake2b64 : list Z → string) (new_id new_library new_session : nat → Z).
Context (staged_order : list ManifestRow → list ManifestRow) (row_order : list (Z * Item) → list (Z * Item)).
Context (tax : Taxonomy) (settings : SyncSettings) `{!Inj (=) (=) new_id, !Inj (=) (=) new_library}.
Hypothesis staged_perm : ∀ l, staged_order l ≡ₚ l.
Hypothesis row_perm : ∀ l, row_order l ≡ₚ l.
Local Abbreviation ok := (central_ok new_id new_library).
Local Abbreviation finish :=
  (reconcile_finish uni_lower sha256 blake2b64 new_id new_library staged_order row_order tax settings).
Local Abbreviation finished := (finished sha256 settings).
Local Abbreviation start := (reconcile_start sha256 new_session settings).

Lemma finish_ok c agent sid digest n reset now c' r :
  ok c → sessions_ok c → (∀ p s, staging c !! (sid, p) = Some s → time_survives (mtime_us s) = true) →
  finish c agent sid digest n reset now = (c', Ok r) →
  ∃ sess l staged, finished c agent sid digest reset now c' (rc_counts r) sess l staged ∧ length staged = n.
Proof using Inj0 Inj1 staged_perm row_perm.
  intros Hok Hs Htime. unfold reconcile_finish, _load_live_session.
  destruct (sessions c !! sid) as [sess|] eqn:Hsess; [|done].
  destruct (negb (rs_agent_id sess =? ag_id agent)) eqn:Ha; [done|].
  destruct (started_at sess <? _) eqn:Hlive; [done|]. set (staged := staged_order (staged_of c sid)).
  destruct (negb _ || _) eqn:Hd; [done|].
  destruct (_provision_agent_library _ _ _ _) as [[[c1 l] new]|] eqn:Hp; [|done]. cbn [result_bind].
  destruct (anti_join _ _ _ _ _ _ _ _ _ _) as [w|] eqn:Hj; [|done]. cbn [result_bind]. intros [= <- <-].
  apply (provision_ok new_id) in Hp as (Hok1 & Hpv & Hl); [|done..].
  apply anti_join_ok in Hj as (Hinv & Hj); [|done..|apply Hok1|apply Hok1| |].
  - bool_to_prop. exists sess, l, staged. split; [|done]. constructor; try done; cbn.
    + by apply staged_perm.
    + by rewrite <- (pv_items _ _ _ Hpv).
    + apply Hinv.
    + by rewrite (pv_agents _ _ _ Hpv).
    + intros _. rewrite (pv_sessions _ _ _ Hpv). apply map_lookup_filter_None. right. intros s Hsid.
      rewrite (so_sessions _ Hs _ _ Hsid), Z.eqb_refl. done.
  - unfold staged. rewrite staged_perm. by apply NoDup_staged.
  - apply Forall_forall. intros s Hin. unfold staged in Hin. rewrite staged_perm in Hin.
    apply elem_of_staged in Hin; [|done]. by eapply Htime.
Qed.

(** C6: a sweep that finishes makes central show exactly the manifest.  The session was the
    agent's own and live, and the staged rows had the digest and the count the agent
    asserted.  Afterwards each path of that root is active exactly when the manifest lists
    it, with its size, microsecond time and hashes, except that a row in the recycle bin
    stays as it is; no row is lost, rows keep their identity and the user's columns, rows
    of other libraries are untouched, every manifest row is counted once, and the session
    is gone. *)
Theorem reconcile_finish_exact c agent sid digest n reset now c' r :
  ok c → sessions_ok c → (∀ p s, staging c !! (sid, p) = Some s → time_survives (mtime_us s) = true) →
  finish c agent sid digest n reset now = (c', Ok r) →
  ∃ sess l staged,
    sessions c !! sid = Some sess ∧ rs_agent_id sess = ag_id agent ∧
    now - agent_reconcile_session_ttl settings ≤ started_at sess ∧
    staged ≡ₚ staged_of c sid ∧ manifest_digest sha256 staged = digest ∧ length staged = n ∧
    find_library (libraries c') (ag_id agent) (rs_library_ref sess) = Some l ∧
    (∀ p, (row ← row_at (items c') (al_id l, p); shown row.2) =
      if trashed_at (items c) (al_id l, p) then None else staging c !! (sid, p)) ∧
    (∀ i x, items c !! i = Some x → ∃ x', items c' !! i = Some x' ∧ keeps_row x x' ∧
      (i_library_id x ≠ al_id l ∨ i_status x = trashed → x' = x)) ∧
    (let k := rc_counts r in
      c_upserted k + c_reactivated k + c_updated k + c_trashed_conflicts k + c_unchanged k = Z.of_nat n) ∧
    watermark c' (ag_id agent) = Some (if reset then 0 else last_contiguous_seq_no agent) ∧
    sessions c' !! sid = None.
Proof using Inj0 Inj1 staged_perm row_perm.
  intros Hok Hs Htime Hfin. destruct (finish_ok _ _ _ _ _ _ _ _ _ Hok Hs Htime Hfin) as (sess & l & staged & Hf & Hn).
  exists sess, l, staged. pose proof (fn_joined _ _ _ _ _ _ _ _ _ _ _ _ _ Hf) as Hj.
  split_and!; [by eapply fn_session|by eapply fn_agent|by eapply fn_live|by eapply fn_staged|by eapply fn_digest|done|
    by eapply fn_library|intros p; by eapply finished_shown| | | |by eapply fn_closed].
  - intros i x Hx. destruct (tc_kept _ _ _ (jn_touches _ _ _ _ _ Hj) i x Hx) as (x' & Hx' & Hk & Hsame).
    exists x'. split_and!; [done|done|]. intros [Hl|Ht]; [by apply Hsame|].
    pose proof (jn_trashed _ _ _ _ _ Hj i x Hx Ht). congruence.
  - rewrite <- Hn. by apply (jn_counts _ _ _ _ _ Hj).
  - unfold watermark. rewrite (fn_agents _ _ _ _ _ _ _ _ _ _ _ _ _ Hf). by rewrite lookup_insert_eq.
Qed.

(** C5: the sweep converges.  After a sweep that finished without meeting the recycle bin,
    the next start of the same agent with the same manifest answers "match", at any later
    time: the agent is not asked for its manifest again. *)
Theorem reconcile_converges c agent sid digest n reset now c' r agent' rebuilt now' :
  ok c → sessions_ok c → (∀ p s, staging c !! (sid, p) = Some s → time_survives (mtime_us s) = true) →
  finish c agent sid digest n reset now = (c', Ok r) → c_trashed_conflicts (rc_counts r) = 0 →
  ag_id agent' = ag_id agent →
  ∃ sess c'', sessions c !! sid = Some sess ∧ start c' agent' (rs_library_ref sess) digest n rebuilt now' = Ok (c'', Match).
Proof using Inj0 Inj1 staged_perm row_perm.
  intros Hok Hs Htime Hfin Hno Hid. destruct (finish_ok _ _ _ _ _ _ _ _ _ Hok Hs Htime Hfin) as (sess & l & staged & Hf & Hn).
  exists sess. destruct (finished_manifest _ _ _ _ _ _ _ _ _ _ _ _ _ _ _ Hok Hs Hf Hno) as (M & HM & Hperm).
  assert (NoDup (map mr_rel_path M)) as Hnd.
  { rewrite Hperm, (fn_staged _ _ _ _ _ _ _ _ _ _ _ _ _ Hf). by apply NoDup_staged. }
  unfold reconcile_start. rewrite central_digest_manifest, Hid.
  change (central_manifest (_sweep_expired_sessions c' now' _) (ag_id agent) (rs_library_ref sess))
    with (central_manifest c' (ag_id agent) (rs_library_ref sess)). rewrite HM.
  cbn [fmap option_fmap option_map of_option result_bind].
  assert (manifest_digest sha256 M = digest) as ->.
  { rewrite <- (fn_digest _ _ _ _ _ _ _ _ _ _ _ _ _ Hf). unfold manifest_digest. by rewrite (blob_perm M staged). }
  assert (length M = n) as -> by (by rewrite Hperm).
  rewrite !bool_decide_eq_true_2 by done. eexists. split; [by eapply fn_session|done].
Qed.
End finish.

(** ** Examples *)

Definition example_row : ManifestRow := mkManifestRow (txt "a.txt") 10 1722334455123457 (Some "q") None.
(** A digest that tells the manifest of [example_row] from everything else *)
Definition example_sha (b : list Z) : string := if bool_decide (b = _manifest_blob [example_row]) then "row" else "other".
Definition example_staged : Central :=
  mkCentral ∅ [] {[7 := example_agent]} ∅ {[100 := mkSession 100 7 (txt "/data") 0 1]}
    {[(100, mr_rel_path example_row) := example_row]} 0 0 1.
Definition example_finish (c : Central) : Central * result reconcile_error ReconcileResult :=
  reconcile_finish (λ c, [c]) example_sha (λ _, "") example_id example_id (λ l, l) (λ l, l) (mkTaxonomy ∅ ∅)
    example_settings c example_agent 100 "row" 1 false 5000.

Lemma example_staged_ok : central_ok example_id example_id example_staged ∧ sessions_ok example_staged.
Proof.
  split; [destruct example_ok; by constructor|]. constructor; cbn.
  - intros i p r [[= <- <-] <-]%lookup_singleton_Some. done.
  - intros i s [<- <-]%lookup_singleton_Some. done.
Qed.

Lemma example_staging p s : staging example_staged !! (100, p) = Some s → p = txt "a.txt" ∧ s = example_row.
Proof. unfold example_staged. cbn [staging]. by intros [[= <-] <-]%lookup_singleton_Some. Qed.

Lemma example_session s : sessions example_staged !! 100 = Some s → s = mkSession 100 7 (txt "/data") 0 1.
Proof. unfold example_staged. cbn [sessions]. by intros [_ <-]%lookup_singleton_Some. Qed.

Lemma example_times p s : staging example_staged !! (100, p) = Some s → time_survives (mtime_us s) = true.
Proof. intros [_ ->]%example_staging. vm_compute. reflexivity. Qed.

Lemma example_finish_ok : ∃ c' r, example_finish example_staged = (c', Ok r) ∧ c_trashed_conflicts (rc_counts r) = 0 ∧ c_upserted (rc_counts r) = 1.
Proof.
  assert (match (example_finish example_staged).2 with
    | Ok r => (c_trashed_conflicts (rc_counts r) =? 0) && (c_upserted (rc_counts r) =? 1) | Err _ => false end = true)
    as H by (vm_compute; reflexivity).
  destruct (example_finish example_staged) as [c' [r|]]; [|done]. cbn [snd] in H. bool_to_prop. by exists c', r.
Qed.

Lemma reconcile_finish_exact_witness :
  ∃ c' r l, example_finish example_staged = (c', Ok r) ∧ find_library (libraries c') 7 (txt "/data") = Some l ∧
    (row ← row_at (items c') (al_id l, txt "a.txt"); shown row.2) = Some example_row ∧ sessions c' !! 100 = None.
Proof.
  destruct example_finish_ok as (c' & r & Hf & _). destruct example_staged_ok as [Hok Hs]. exists c', r.
  destruct (reconcile_finish_exact (λ c, [c]) example_sha (λ _, "") example_id example_id (λ l, l) (λ l, l)
    (mkTaxonomy ∅ ∅) example_settings (λ _, reflexivity _) (λ _, reflexivity _) _ _ _ _ _ _ _ _ _ Hok Hs example_times Hf)
    as (sess & l & staged & Hsess & _ & _ & _ & _ & _ & Hl & Hshown & _ & _ & _ & Hgone).
  exists l. split_and!; [done| | |done].
  - apply example_session in Hsess as ->. done.
  - rewrite Hshown. vm_compute. reflexivity.
Defined.

Lemma reconcile_converges_witness :
  ∃ c' r c'', example_finish example_staged = (c', Ok r) ∧
    reconcile_start example_sha example_id example_settings c' example_agent (txt "/data") "row" 1 false 9000 = Ok (c'', Match).
Proof.
  destruct example_finish_ok as (c' & r & Hf & Hno & _). destruct example_staged_ok as [Hok Hs]. exists c', r.
  destruct (reconcile_converges (λ c, [c]) example_sha (λ _, "") example_id example_id example_id (λ l, l) (λ l, l)
    (mkTaxonomy ∅ ∅) example_settings (λ _, reflexivity _) (λ _, reflexivity _) _ _ _ _ _ _ _ _ _ example_agent false 9000
    Hok Hs example_times Hf Hno eq_refl) as (sess & c'' & Hsess & Hstart).
  exists c''. split; [done|]. apply example_session in Hsess as ->. done.
Defined.

(** A catalogue that holds the file of [example_row] *)
Definition example_item : Item :=
  agent_row (λ c, [c]) (mkTaxonomy ∅ ∅) 100 3 7 (txt "a.txt") 10 1722334455123457 (Some "q") None "s" 0 None ∅.
Definition example_synced : Central :=
  mkCentral {[100 := example_item]} [mkAgentLibrary 3 (txt "data") (txt "/data") (Some 7) (Some (txt "/data"))]
    {[7 := example_agent]} ∅ ∅ ∅ 1 1 0.

Lemma reconcile_match_exact_witness :
  ∃ c', reconcile_start example_sha example_id example_settings example_synced example_agent (txt "/data")
      (manifest_digest example_sha [example_row]) 1 false 0 = Ok (c', Match) ∧ items c' = items example_synced ∧
    ∃ manifest, central_manifest example_synced 7 (txt "/data") = Some manifest ∧ manifest ≡ₚ [example_row].
Proof.
  assert (match reconcile_start example_sha example_id example_settings example_synced example_agent (txt "/data")
    (manifest_digest example_sha [example_row]) 1 false 0 with Ok (_, Match) => true | _ => false end = true) as H
    by (vm_compute; reflexivity).
  destruct (reconcile_start _ _ _ _ _ _ _ _ _ _) as [[c' [|?]]|?] eqn:Hstart; [|done..]. clear H.
  exists c'. split; [done|].
  destruct (reconcile_match_exact example_sha example_id example_settings example_synced example_agent (txt "/data")
    [example_row] false 0 c' Hstart) as (Hi & _ & manifest & Hm).
  - unfold example_sha. intros b. rewrite (bool_decide_eq_true_2 (_manifest_blob [example_row] = _)) by done.
    case_bool_decide; [done|discriminate].
  - intros r ->%list_elem_of_singleton. apply txt_scalars.
  - intros i r. unfold example_synced. cbn [items]. intros [_ <-]%lookup_singleton_Some.
    apply txt_scalars.
  - split; [done|]. by exists manifest.
Defined.
