(* ===== verification/Verify.v ===== *)
(** * Verification results ([verify.py], [transfers.py])

    What an agent reports of one file, compared with the catalogue row: the file is gone,
    its size, time or hashes drifted, or nothing changed. *)
From S2P Require Import Prelude PyStr Uuid Utf8 PathLabel Text Json Catalog Sidecar AgentMeta AgentSync.
From Stdlib Require Import SpecFloat.
From stdpp Require Import options.

Record CommandResult := mkResult {
  file_exists : bool;
  cr_size : option Z;
  cr_mtime : option spec_float;
  cr_quick_hash : option string;
  cr_content_hash : option string;
  content_skipped : bool;
}.

Inductive Mismatch := mm_deleted | mm_changed.

Record VerifyOutcome := mkOutcome {
  vo_item_id : Z;
  mismatch : option Mismatch;
  differed : list string;
  mutated_projection : bool;
  vo_tombstoned : bool;
}.

Definition MTIME_EPSILON : spec_float := float_of_int 1.

Definition _mtime_differs (stored : Z) (reported : spec_float) : bool :=
  SFleb MTIME_EPSILON (SFabs (SFsub prec emax (timestamp stored) reported)).

(** The columns a report writes *)
Definition verified_row (it : Item) (status : ItemStatus) (size mtime : Z) (q c : option string) : Item :=
  mkItem (i_id it) (i_library_id it) (i_file_category it) (i_file_group it) status
    (i_path it) (i_rel_path it) (i_filename it) (i_extension it) size mtime
    q c (i_mid_hash it) (i_nlink it) (i_inode it) (i_dev it) (i_symlink_target it) (i_last_seen it)
    (i_deleted_at it) (i_sidecar_of it) (i_path_scope it) (i_source_agent_id it) (i_share_hint it) (i_curated it).

(** A reported hash against the stored one: what is stored, and the field if it differed *)
Definition compare_hash (name : string) (reported stored : option string) : option string * list string :=
  match reported with
  | Some h => if bool_decide (stored = Some h) then (stored, []) else (Some h, [name])
  | None => (stored, [])
  end.

(** The branch [exists == True]; [None]: the [ValueError] or [OverflowError] of
    [datetime.fromtimestamp] *)
Definition reconcile_present (it : Item) (p : CommandResult) : option (Item * list string) :=
  let '(status, d0) := match i_status it with missing => (active, ["restored"]) | s => (s, []) end in
  let '(size, d1) := match cr_size p with
    | Some n => if n =? i_size it then (i_size it, []) else (n, ["size"])
    | None => (i_size it, [])
    end in
  time ← match cr_mtime p with
    | Some x => if _mtime_differs (i_mtime it) x then t ← fromtimestamp x; Some (t, ["mtime"]) else Some (i_mtime it, [])
    | None => Some (i_mtime it, [])
    end;
  let '(mtime, d2) := time : Z * list string in
  let '(q, d3) := compare_hash "quick_hash" (cr_quick_hash p) (i_quick_hash it) in
  let '(c, d4) := compare_hash "content_hash" (cr_content_hash p) (i_content_hash it) in
  Some (verified_row it status size mtime q c, d0 ++ d1 ++ d2 ++ d3 ++ d4).

(** The row, its [last_verified_at] stamp and the outcome, for the item of the command and
    its parsed result *)
Definition reconcile_completion (it : Item) (p : CommandResult) (now : Z) : option (Item * Z * VerifyOutcome) :=
  if negb (file_exists p) then
    match i_status it with
    | active => Some (verified_row it missing (i_size it) (i_mtime it) (i_quick_hash it) (i_content_hash it), now,
        mkOutcome (i_id it) (Some mm_deleted) ["exists"] true true)
    | _ => Some (it, now, mkOutcome (i_id it) None [] false false)
    end
  else
    r ← reconcile_present it p;
    Some (r.1, now, match r.2 with
      | [] => mkOutcome (i_id it) None [] false false
      | _ => mkOutcome (i_id it) (Some mm_changed) r.2 true false
      end).

(** ** Facts *)









(** *** Examples *)



(** A time that no [datetime] holds raises: the completion that carries it fails, although a
    malformed result must not fail one. *)
Lemma absurd_time_raises it now :
  i_mtime it = 0 → reconcile_completion it (mkResult true None (Some (float_of_int (10 ^ 18))) None None false) now = None.
Proof. intros H. unfold reconcile_completion, reconcile_present. cbn [file_exists negb cr_mtime cr_size]. rewrite H.
  destruct (i_status it); vm_compute; reflexivity. Qed.
