(* ===== verification/Commands.v ===== *)
(** * Agent commands ([agentsync.py], [api/agent_commands.py], [verify.py])

    The instructions central queues for its agents: the state machine of a command, the
    handlers that queue, cancel, deliver, acknowledge and complete one, the sweep that
    expires and redelivers, and the check of a verification result against the catalogue.
    Rows another transaction has locked ([SKIP LOCKED]) are a predicate on ids. *)
From S2P Require Import Prelude PyStr Uuid Utf8 PathLabel Text Json Catalog Rbac Access AgentMeta AgentSync Verify.
From Stdlib Require Import SpecFloat.
From stdpp Require Import options.

(** ** The state machine *)

Inductive CommandState := pending | picked_up | done | failed | expired | cancelled.
Global Instance command_state_eq_dec : EqDecision CommandState.
Proof. solve_decision. Defined.

Inductive CommandEvent := deliver | ack | complete | fail | redeliver | expire | cancel.

Definition COMMAND_TERMINAL : list CommandState := [done; failed; expired; cancelled].

(** [None]: no such key *)
Definition _COMMAND_TRANSITIONS (current : CommandState) (event : CommandEvent) : option CommandState :=
  match current, event with
  | pending, deliver => Some picked_up
  | pending, expire => Some expired
  | pending, cancel => Some cancelled
  | picked_up, ack => Some picked_up
  | picked_up, complete => Some done
  | picked_up, fail => Some failed
  | picked_up, redeliver => Some pending
  | picked_up, expire => Some expired
  | picked_up, cancel => Some cancelled
  | _, _ => None
  end.

Inductive command_error := ValueError | UnicodeEncodeError | BadTimestamp | BadData.

Definition command_state_machine (current : CommandState) (event : CommandEvent) : result command_error CommandState :=
  match _COMMAND_TRANSITIONS current event with Some s => Ok s | None => Err ValueError end.

Definition command_is_terminal (s : CommandState) : bool := bool_decide (s ∈ COMMAND_TERMINAL).

(** ** Rows *)

Inductive CommandKind :=
  | stat_check | rehash_check | stage_upload | inventory | self_update | suspend | agent_maintenance
  | reextract | rehash_sweep | reconcile.
Global Instance command_kind_eq_dec : EqDecision CommandKind.
Proof. solve_decision. Defined.

Definition _AGENT_SCOPED_KINDS : list CommandKind :=
  [inventory; self_update; suspend; agent_maintenance; reextract; rehash_sweep; reconcile].

(** Times in microseconds *)
Record AgentCommand := mkCommand {
  c_id : Z;
  c_agent_id : Z;
  c_kind : CommandKind;
  c_item_id : option Z;
  c_payload : json;
  c_status : CommandState;
  attempts : Z;
  c_created_at : Z;
  c_updated_at : Z;
  c_expires_at : Z;
  picked_up_at : option Z;
  completed_at : option Z;
  c_result : option json;
  requested_by : option string;
}.
Global Instance agent_command_eq_dec : EqDecision AgentCommand.
Proof. solve_decision. Defined.

(** The columns a transition writes *)
Definition set_command (c : AgentCommand) (s : CommandState) (n : Z) (updated : Z) (picked completed : option Z)
    (res : option json) : AgentCommand :=
  mkCommand (c_id c) (c_agent_id c) (c_kind c) (c_item_id c) (c_payload c) s n (c_created_at c) updated
    (c_expires_at c) picked completed res (requested_by c).

(** The columns of the agent row a poll reports into *)
Record Advert := mkAdvert {
  capabilities : option json;
  capabilities_at : option Z;
  health : option json;
  health_at : option Z;
  agent_version : option text;
}.

(** [verified] is the [last_verified_at] column of the items. *)
Record Fleet := mkFleet {
  central : Central;
  adverts : gmap Z Advert;
  commands : gmap Z AgentCommand;
  commands_made : nat;
  verified : gmap Z Z;
}.

Definition set_commands (f : Fleet) (m : gmap Z AgentCommand) : Fleet :=
  mkFleet (central f) (adverts f) m (commands_made f) (verified f).
Definition set_central (f : Fleet) (c : Central) : Fleet :=
  mkFleet c (adverts f) (commands f) (commands_made f) (verified f).

Record CommandSettings := mkCommandSettings {
  agent_command_ttl_seconds : Z;
  agent_command_ttl_max_seconds : Z;
  agent_command_lease_seconds : Z;
  agent_command_max_attempts : Z;
  agent_command_poll_max : nat;
  agent_command_payload_max_bytes : nat;
  agent_command_result_max_bytes : nat;
  agent_capabilities_max_bytes : nat;
}.

Definition SECOND : Z := 1000000.

(** ** The sweep *)

Inductive SweepAction := Expire | Exhaust | Redeliver.

Definition sweep_decision (status : CommandState) (expires_at : Z) (picked_up_at : option Z) (attempts now : Z)
    (lease_seconds max_attempts : Z) : option SweepAction :=
  if negb (bool_decide (status ∈ [pending; picked_up])) then None
  else if expires_at <=? now then Some Expire
  else match picked_up_at with
    | Some p =>
        if bool_decide (status = picked_up) && (p <=? now - lease_seconds * SECOND)
        then Some (if max_attempts <=? attempts then Exhaust else Redeliver) else None
    | None => None
    end.

Definition expires_le (a b : AgentCommand) : bool := c_expires_at a <=? c_expires_at b.
Definition created_le (a b : AgentCommand) : bool := c_created_at a <=? c_created_at b.

Record SweepCounts := mkSweepCounts { n_expired : Z; n_redelivered : Z; n_exhausted : Z }.

Definition sweep_one (now lease_seconds max_attempts : Z) (st : gmap Z AgentCommand * SweepCounts) (c : AgentCommand) :
    result command_error (gmap Z AgentCommand * SweepCounts) :=
  let '(m, n) := st in
  match sweep_decision (c_status c) (c_expires_at c) (picked_up_at c) (attempts c) now lease_seconds max_attempts with
  | None => Ok (m, n)
  | Some Expire =>
      s <-! command_state_machine (c_status c) expire;
      Ok (<[c_id c := set_command c s (attempts c) now (picked_up_at c) (Some now) (c_result c)]> m,
          mkSweepCounts (n_expired n + 1) (n_redelivered n) (n_exhausted n))
  | Some Exhaust =>
      s <-! command_state_machine (c_status c) fail;
      let error := JDict [(txt "error", JText (txt "max_delivery_attempts")); (txt "attempts", JInt (attempts c))] in
      Ok (<[c_id c := set_command c s (attempts c) now (picked_up_at c) (Some now) (Some error)]> m,
          mkSweepCounts (n_expired n) (n_redelivered n) (n_exhausted n + 1))
  | Some Redeliver =>
      s <-! command_state_machine (c_status c) redeliver;
      Ok (<[c_id c := set_command c s (attempts c) now None (completed_at c) (c_result c)]> m,
          mkSweepCounts (n_expired n) (n_redelivered n + 1) (n_exhausted n))
  end.

(** A loop over rows that may raise *)
Fixpoint result_fold {E A B} (step : A → B → result E A) (st : A) (l : list B) : result E A :=
  match l with [] => Ok st | x :: l' => st <-! step st x; result_fold step st l' end.

(** The rows the [WHERE] clause of the sweep admits *)
Definition actionable (now lease_seconds : Z) (c : AgentCommand) : bool :=
  bool_decide (c_status c ∈ [pending; picked_up]) &&
  ((c_expires_at c <=? now) ||
   bool_decide (c_status c = picked_up) &&
     match picked_up_at c with Some p => p <=? now - lease_seconds * SECOND | None => false end).

Section commands.
Context (uni_lower : Z → list Z) (float_repr : spec_float → text).
(** [hashlib.sha256(...).hexdigest()] of a token; [CommandResult.model_validate], [None] for
    a [ValidationError] *)
Context (sha256 : string → string) (model_validate : json → option CommandResult).
(** The ids the database assigns, the order an unordered query returns the commands in *)
Context (new_command : nat → Z) (row_order : list AgentCommand → list AgentCommand).
Context (settings : SyncSettings) (csettings : CommandSettings) (auth_enabled : bool) (_roles : gmap string Role).

(** The table as a query reads it *)
Definition all_commands (f : Fleet) : list AgentCommand := row_order (map snd (map_to_list (commands f))).

Definition run_agent_command_sweep (f : Fleet) (locked : Z → bool) (now lease_seconds max_attempts : Z) (limit : nat) :
    result command_error (Fleet * SweepCounts) :=
  let eligible := filterb (λ c, actionable now lease_seconds c && negb (locked (c_id c))) (all_commands f) in
  let rows := take limit (merge_sort expires_le eligible) in
  '(m, n) <-! result_fold (sweep_one now lease_seconds max_attempts) (commands f, mkSweepCounts 0 0 0) rows;
  Ok (set_commands f m, n).

(** ** Queueing a command *)

Inductive reply :=
  | CHttpError (status : Z)
  | CServerError (e : command_error)
  | CommandOut (c : AgentCommand)
  | Commands (l : list AgentCommand).

Definition _json_len (j : json) : option nat :=
  bs ← utf8_encode (json_dumps float_repr false j); Some (length bs).

Record CommandEnqueueIn := mkEnqueue {
  en_kind : CommandKind;
  en_item_id : option Z;
  en_payload : json;
  en_ttl_seconds : option Z;
}.

(** [session.add] and the commit *)
Definition add_command (f : Fleet) (agent_id : Z) (kind : CommandKind) (item : option Z) (payload : json)
    (ttl : Z) (by_ : option string) (now : Z) : Fleet * reply :=
  if jsonb_ok payload then
    let c := mkCommand (new_command (commands_made f)) agent_id kind item payload pending 0 now now
      (now + ttl * SECOND) None None None by_ in
    (mkFleet (central f) (adverts f) (<[c_id c := c]> (commands f)) (S (commands_made f)) (verified f), CommandOut c)
  else (f, CServerError BadData).

Definition _live_agent (f : Fleet) (agent_id : Z) : result Z Agent :=
  match agents (central f) !! agent_id with
  | None => Err 404
  | Some agent => if bool_decide (is_Some (revoked_at agent)) then Err 409 else Ok agent
  end.

(** The status of a refused target, if it is refused *)
Definition refuse_target (f : Fleet) (kind : CommandKind) (item : option Z) : option Z :=
  if bool_decide (kind ∈ _AGENT_SCOPED_KINDS) then match item with Some _ => Some 422 | None => None end
  else match item with
    | None => Some 422
    | Some i => match items (central f) !! i with None => Some 404 | Some _ => None end
    end.

Definition enqueue_command (f : Fleet) (agent_id : Z) (body : CommandEnqueueIn) (by_ : option string) (now : Z) :
    Fleet * reply :=
  match _json_len (en_payload body) with
  | None => (f, CServerError UnicodeEncodeError)
  | Some n =>
      if (agent_command_payload_max_bytes csettings <? n)%nat then (f, CHttpError 413)
      else match _live_agent f agent_id with
        | Err s => (f, CHttpError s)
        | Ok _ =>
            match refuse_target f (en_kind body) (en_item_id body) with
            | Some s => (f, CHttpError s)
            | None =>
                let ttl := match en_ttl_seconds body with
                  | Some t => if t =? 0 then agent_command_ttl_seconds csettings else t
                  | None => agent_command_ttl_seconds csettings
                  end in
                let ttl := Z.max 60 (Z.min ttl (agent_command_ttl_max_seconds csettings)) in
                add_command f agent_id (en_kind body) (en_item_id body) (en_payload body) ttl by_ now
            end
        end
  end.

Definition _enqueue_agent_scoped (f : Fleet) (agent_id : Z) (kind : CommandKind) (payload : json)
    (ttl_seconds : option Z) (by_ : option string) (now : Z) : Fleet * reply :=
  let ttl := agent_command_ttl_seconds csettings in
  let ttl := match ttl_seconds with
    | Some t => Z.min (Z.max t ttl) (agent_command_ttl_max_seconds csettings)
    | None => ttl
    end in
  add_command f agent_id kind None payload ttl by_ now.

Definition suspend_agent (f : Fleet) (locked : Z → bool) (agent_id : Z) (suspended : bool) (by_ : option string) (now : Z) :
    Fleet * reply :=
  match _live_agent f agent_id with
  | Err s => (f, CHttpError s)
  | Ok _ =>
      let payload := JDict [(txt "suspended", JBool suspended)] in
      match filterb (λ c, bool_decide (c_agent_id c = agent_id) && bool_decide (c_kind c = suspend) &&
                          bool_decide (c_status c = pending) && negb (locked (c_id c))) (all_commands f) with
      | c :: _ =>
          let c' := mkCommand (c_id c) (c_agent_id c) (c_kind c) (c_item_id c) payload (c_status c) (attempts c)
            (c_created_at c) now (c_expires_at c) (picked_up_at c) (completed_at c) (c_result c) (requested_by c) in
          (set_commands f (<[c_id c := c']> (commands f)), CommandOut c')
      | [] => _enqueue_agent_scoped f agent_id suspend payload None by_ now
      end
  end.

(** A command of the kind is queued or running on the agent *)
Definition in_flight (f : Fleet) (agent_id : Z) (kind : CommandKind) : bool :=
  existsb (λ c, bool_decide (c_agent_id c = agent_id) && bool_decide (c_kind c = kind) &&
                bool_decide (c_status c ∈ [pending; picked_up])) (all_commands f).

(** The shared shape of the four one-at-a-time actions *)
Definition queue_once (f : Fleet) (agent_id : Z) (kind : CommandKind) (payload : json) (ttl_seconds : option Z)
    (by_ : option string) (now : Z) : Fleet * reply :=
  match _live_agent f agent_id with
  | Err s => (f, CHttpError s)
  | Ok _ =>
      if in_flight f agent_id kind then (f, CHttpError 409)
      else _enqueue_agent_scoped f agent_id kind payload ttl_seconds by_ now
  end.

Definition REEXTRACT_TTL_SECONDS : Z := 86400.
Definition RECONCILE_TTL_SECONDS : Z := 21600.
Definition REHASH_TTL_SECONDS : Z := 86400.
Definition REHASH_DEFAULT_MIN_SIZE : Z := 65537.
Definition REHASH_DEFAULT_MAX_SIZE : Z := 131072.

Definition opt_int (n : option Z) : json := match n with Some n => JInt n | None => JNull end.

Definition run_agent_maintenance (f : Fleet) (agent_id : Z) (by_ : option string) (now : Z) : Fleet * reply :=
  queue_once f agent_id agent_maintenance (JDict []) None by_ now.

Definition reextract_agent (f : Fleet) (agent_id : Z) (force : bool) (max_items : option Z) (by_ : option string)
    (now : Z) : Fleet * reply :=
  queue_once f agent_id reextract (JDict [(txt "force", JBool force); (txt "max_items", opt_int max_items)])
    (Some REEXTRACT_TTL_SECONDS) by_ now.

Definition reconcile_agent (f : Fleet) (agent_id : Z) (force_reset : bool) (by_ : option string) (now : Z) :
    Fleet * reply :=
  queue_once f agent_id reconcile (JDict [(txt "force_reset", JBool force_reset)]) (Some RECONCILE_TTL_SECONDS) by_ now.

Record RehashSweepIn := mkRehash { rh_force : bool; rh_max_items : option Z; min_size : option Z; max_size : option Z }.

Definition rehash_sweep_agent (f : Fleet) (agent_id : Z) (body : RehashSweepIn) (by_ : option string) (now : Z) :
    Fleet * reply :=
  match _live_agent f agent_id with
  | Err s => (f, CHttpError s)
  | Ok _ =>
      let lo := default REHASH_DEFAULT_MIN_SIZE (min_size body) in
      let hi := default REHASH_DEFAULT_MAX_SIZE (max_size body) in
      if hi <? lo then (f, CHttpError 422)
      else queue_once f agent_id rehash_sweep
        (JDict [(txt "force", JBool (rh_force body)); (txt "max_items", opt_int (rh_max_items body));
          (txt "min_size", JInt lo); (txt "max_size", JInt hi)]) (Some REHASH_TTL_SECONDS) by_ now
  end.

Definition cancel_command (f : Fleet) (command_id now : Z) : Fleet * reply :=
  match commands f !! command_id with
  | None => (f, CHttpError 404)
  | Some c =>
      if command_is_terminal (c_status c) then (f, CHttpError 409)
      else match command_state_machine (c_status c) cancel with
        | Err e => (f, CServerError e)
        | Ok s =>
            let c' := set_command c s (attempts c) now (picked_up_at c) (Some now) (c_result c) in
            (set_commands f (<[command_id := c']> (commands f)), CommandOut c')
        end
  end.
(** ** The agent plane *)

(** An authenticated request of an agent: the state with what authentication commits *)
Definition authenticated (f : Fleet) (agent_id : Z) (request : AgentRequest) : result Z (Fleet * Agent) :=
  match _authenticate_agent uni_lower settings (central f) agent_id request with
  | Err status => Err status
  | Ok (c, agent) => Ok (set_central f c, agent)
  end.

Definition _owned_command (f : Fleet) (agent : Agent) (command_id : Z) : option AgentCommand :=
  c ← commands f !! command_id; if c_agent_id c =? ag_id agent then Some c else None.

Record PollIn := mkPoll {
  po_max : nat;
  po_capabilities : option json;
  po_health : option json;
  po_version : option text;
}.

Definition _accept_sized (body : option json) : result command_error bool :=
  match body with
  | None => Ok false
  | Some j =>
      match _json_len j with
      | None => Err UnicodeEncodeError
      | Some size => Ok (size <=? agent_capabilities_max_bytes csettings)%nat
      end
  end.

Definition no_advert : Advert := mkAdvert None None None None None.

(** What the columns of an advertisement accept *)
Definition advert_ok (a : Advert) : bool :=
  let ok (j : option json) := match j with Some j => jsonb_ok j | None => true end in
  ok (capabilities a) && ok (health a) && match agent_version a with Some t => column_ok t | None => true end.

(** [None]: the row raised *)
Definition deliver_one (now : Z) (st : gmap Z AgentCommand * list AgentCommand) (c : AgentCommand) :
    result command_error (gmap Z AgentCommand * list AgentCommand) :=
  s <-! command_state_machine (c_status c) deliver;
  let c' := set_command c s (attempts c + 1) now (Some now) (completed_at c) (c_result c) in
  Ok (<[c_id c := c']> st.1, st.2 ++ [c']).

(** The rows the query of a poll admits *)
Definition deliverable (agent_id now : Z) (c : AgentCommand) : bool :=
  bool_decide (c_agent_id c = agent_id) && bool_decide (c_status c = pending) && (now <? c_expires_at c).

Definition poll_body (f : Fleet) (locked : Z → bool) (agent : Agent) (body : PollIn) (now : Z) :
    result command_error (Fleet * list AgentCommand) :=
  let want := Nat.min (po_max body) (agent_command_poll_max csettings) in
  let old := default no_advert (adverts f !! ag_id agent) in
  caps <-! _accept_sized (po_capabilities body);
  hlth <-! _accept_sized (po_health body);
  let advert := mkAdvert
    (if caps then po_capabilities body else capabilities old) (if caps then Some now else capabilities_at old)
    (if hlth then po_health body else health old) (if hlth then Some now else health_at old)
    (match po_version body with Some (x :: v) => Some (x :: v) | _ => agent_version old end) in
  let eligible := filterb (λ c, deliverable (ag_id agent) now c && negb (locked (c_id c))) (all_commands f) in
  st <-! result_fold (deliver_one now) (commands f, []) (take want (merge_sort created_le eligible));
  if advert_ok advert then
    let a := touch_agent agent (last_contiguous_seq_no agent) now in
    Ok (mkFleet (set_agent (central f) a) (<[ag_id agent := advert]> (adverts f)) st.1 (commands_made f) (verified f), st.2)
  else Err BadData.

Definition poll_commands (f : Fleet) (locked : Z → bool) (agent_id : Z) (body : PollIn) (request : AgentRequest) (now : Z) :
    Fleet * reply :=
  match authenticated f agent_id request with
  | Err status => (f, CHttpError status)
  | Ok (f, agent) =>
      match poll_body f locked agent body now with
      | Ok (f', l) => (f', Commands l)
      | Err e => (f, CServerError e)
      end
  end.

Definition ack_command (f : Fleet) (agent_id command_id : Z) (request : AgentRequest) (now : Z) : Fleet * reply :=
  match authenticated f agent_id request with
  | Err status => (f, CHttpError status)
  | Ok (f, agent) =>
      match _owned_command f agent command_id with
      | None => (f, CHttpError 404)
      | Some c =>
          if negb (bool_decide (c_status c = picked_up)) then (f, CHttpError 409)
          else match command_state_machine (c_status c) ack with
            | Err e => (f, CServerError e)
            | Ok s =>
                let c' := set_command c s (attempts c) now (Some now) (completed_at c) (c_result c) in
                (set_commands (set_central f (set_agent (central f) agent)) (<[command_id := c']> (commands f)), CommandOut c')
            end
      end
  end.

Record CompleteIn := mkComplete { cp_ok : bool; cp_result : option (list (text * json)) }.

(** What follows the commit *)
Inductive effect :=
  | IngestPermissions (agent command : Z) (entries : list json)
  | VerifyMismatch (agent : Z) (o : VerifyOutcome)
  | IndexSync (item : Z).

Definition VERIFY_KINDS : list CommandKind := [stat_check; rehash_check].

(** The entries of an inventory that come with the completion *)
Definition inline_entries (c : AgentCommand) (body : CompleteIn) : list json :=
  match cp_result body with
  | Some d =>
      if cp_ok body && bool_decide (c_kind c = inventory) then
        match dict_get (txt "entries") d with Some (JList l) => l | _ => [] end
      else []
  | None => []
  end.

(** The item a verification reports on, the row it becomes with its stamp, and the outcome *)
Definition verify_step (f : Fleet) (c : AgentCommand) (body : CompleteIn) (now : Z) :
    result command_error (option (Item * Item * Z * VerifyOutcome)) :=
  match cp_result body with
  | Some d =>
      if cp_ok body && bool_decide (c_kind c ∈ VERIFY_KINDS) then
        match (parsed ← model_validate (JDict d); i ← c_item_id c; it ← items (central f) !! i; Some (it, parsed)) with
        | None => Ok None
        | Some (it, parsed) =>
            match reconcile_completion it parsed now with
            | None => Err BadTimestamp
            | Some (it', stamp, o) => Ok (Some (it, it', stamp, o))
            end
        end
      else Ok None
  | None => Ok None
  end.

Definition set_items (c : Central) (m : gmap Z Item) : Central :=
  mkCentral m (libraries c) (agents c) (ledger c) (sessions c) (staging c) (items_made c) (libraries_made c) (sessions_made c).

Definition follow_up (agent : Agent) (o : VerifyOutcome) : list effect :=
  (match mismatch o with Some _ => [VerifyMismatch (ag_id agent) o] | None => [] end) ++
  (if mutated_projection o then [IndexSync (vo_item_id o)] else []).

Definition complete_body (f : Fleet) (agent : Agent) (c : AgentCommand) (body : CompleteIn) (now : Z) :
    result command_error (Fleet * AgentCommand * list effect) :=
  s <-! command_state_machine (c_status c) (if cp_ok body then complete else fail);
  let c' := set_command c s (attempts c) now (picked_up_at c) (Some now) (JDict <$> cp_result body) in
  let ingest := match inline_entries c body with [] => [] | l => [IngestPermissions (ag_id agent) (c_id c) l] end in
  v <-! verify_step f c body now;
  if match cp_result body with Some d => jsonb_ok (JDict d) | None => true end then
    let f1 := set_commands (set_central f (set_agent (central f) agent)) (<[c_id c := c']> (commands f)) in
    match v with
    | None => Ok (f1, c', ingest)
    | Some (it, it', stamp, o) =>
        if row_ok it' then
          Ok (mkFleet (set_items (central f1) (<[i_id it := it']> (items (central f1)))) (adverts f1) (commands f1)
                (commands_made f1) (<[i_id it := stamp]> (verified f1)), c', ingest ++ follow_up agent o)
        else Err BadData
    end
  else Err BadData.

Definition complete_command (f : Fleet) (agent_id command_id : Z) (body : CompleteIn) (request : AgentRequest) (now : Z) :
    Fleet * reply * list effect :=
  match authenticated f agent_id request with
  | Err status => (f, CHttpError status, [])
  | Ok (f, agent) =>
      match _owned_command f agent command_id with
      | None => (f, CHttpError 404, [])
      | Some c =>
          if bool_decide (c_status c = done) then (f, CommandOut c, [])
          else if negb (bool_decide (c_status c = picked_up)) then (f, CHttpError 409, [])
          else
            match (match cp_result body with Some d => _json_len (JDict d) | None => Some 0%nat end) with
            | None => (f, CServerError UnicodeEncodeError, [])
            | Some n =>
                if (agent_command_result_max_bytes csettings <? n)%nat then (f, CHttpError 413, [])
                else match complete_body f agent c body now with
                  | Ok (f', c', effects) => (f', CommandOut c', effects)
                  | Err e => (f, CServerError e, [])
                  end
            end
      end
  end.

(** ** Requests *)

(** An operator's endpoint *)
Definition operator (scope : string) (call : OperatorCall) (now : Z) (handler : option string → Fleet * reply) (f : Fleet) :
    Fleet * reply :=
  if negb (agents_enabled settings) then (f, CHttpError 404)
  else scoped sha256 auth_enabled _roles CHttpError scope call now handler f.

Inductive request :=
  | REnqueue (call : OperatorCall) (agent_id : Z) (body : CommandEnqueueIn)
  | RSuspend (call : OperatorCall) (agent_id : Z) (suspended : bool)
  | RMaintenance (call : OperatorCall) (agent_id : Z)
  | RReextract (call : OperatorCall) (agent_id : Z) (force : bool) (max_items : option Z)
  | RReconcile (call : OperatorCall) (agent_id : Z) (force_reset : bool)
  | RRehash (call : OperatorCall) (agent_id : Z) (body : RehashSweepIn)
  | RCancel (call : OperatorCall) (command_id : Z)
  | RPoll (agent_id : Z) (body : PollIn) (r : AgentRequest)
  | RAck (agent_id command_id : Z) (r : AgentRequest)
  | RComplete (agent_id command_id : Z) (body : CompleteIn) (r : AgentRequest)
  | RSweep (limit : nat).

(** An agent's endpoint is a 404 with the agents switched off. *)
Definition agent_plane {A} (f : Fleet) (off : A) (handler : Fleet * A) : Fleet * A :=
  if negb (agents_enabled settings) then (f, off) else handler.

(** [expire_agent_commands] of [worker.py]; a sweep that raises leaves the state. *)
Definition expire_agent_commands (f : Fleet) (locked : Z → bool) (limit : nat) (now : Z) : Fleet :=
  if negb (agents_enabled settings) then f
  else match run_agent_command_sweep f locked now (agent_command_lease_seconds csettings)
               (agent_command_max_attempts csettings) limit with
    | Ok (f', _) => f'
    | Err _ => f
    end.

(** One request at a time, at its time and with the rows others have locked meanwhile *)
Definition serve (f : Fleet) (locked : Z → bool) (now : Z) (r : request) : Fleet * reply :=
  let off := CHttpError 404 in
  match r with
  | REnqueue call a b => operator "write" call now (λ by_, enqueue_command f a b by_ now) f
  | RSuspend call a s => operator "write" call now (λ by_, suspend_agent f locked a s by_ now) f
  | RMaintenance call a => operator "write" call now (λ by_, run_agent_maintenance f a by_ now) f
  | RReextract call a fo n => operator "write" call now (λ by_, reextract_agent f a fo n by_ now) f
  | RReconcile call a r => operator "write" call now (λ by_, reconcile_agent f a r by_ now) f
  | RRehash call a b => operator "admin" call now (λ by_, rehash_sweep_agent f a b by_ now) f
  | RCancel call i => operator "write" call now (λ _, cancel_command f i now) f
  | RPoll a b r => agent_plane f off (poll_commands f locked a b r now)
  | RAck a i r => agent_plane f off (ack_command f a i r now)
  | RComplete a i b r => agent_plane f off (complete_command f a i b r now).1
  | RSweep limit => (expire_agent_commands f locked limit now, Commands [])
  end.

Fixpoint run (f : Fleet) (trace : list (Z * (Z → bool) * request)) : Fleet :=
  match trace with [] => f | (now, locked, r) :: t => run (serve f locked now r).1 t end.
End commands.
