(* ===== verification/CommandsFacts.v ===== *)
(** * Agent commands: facts and properties *)
From S2P Require Import Prelude PyStr Uuid Utf8 PathLabel Text Json Catalog Rbac Access AgentMeta AgentSync AgentSyncFacts Verify Commands.
From Stdlib Require Import SpecFloat.
From stdpp Require Import options.

Definition live (s : CommandState) : bool := bool_decide (s ∈ [pending; picked_up]).

Lemma live_terminal s : live s = negb (command_is_terminal s).
Proof. by destruct s. Qed.

(** ** The life of one row *)

Section life.
Context (lease_seconds max_attempts now : Z).

(** What one request may do to one row *)
Inductive row_step : AgentCommand → AgentCommand → Prop :=
  | row_same c : row_step c c
  | row_deliver c :
      c_status c = pending → now < c_expires_at c →
      row_step c (set_command c picked_up (attempts c + 1) now (Some now) (completed_at c) (c_result c))
  | row_ack c :
      c_status c = picked_up →
      row_step c (set_command c picked_up (attempts c) now (Some now) (completed_at c) (c_result c))
  | row_complete c (ok : bool) res :
      c_status c = picked_up →
      row_step c (set_command c (if ok then done else failed) (attempts c) now (picked_up_at c) (Some now) res)
  | row_redeliver c p :
      c_status c = picked_up → now < c_expires_at c → picked_up_at c = Some p → p ≤ now - lease_seconds * SECOND →
      attempts c < max_attempts →
      row_step c (set_command c pending (attempts c) now None (completed_at c) (c_result c))
  | row_exhaust c p res :
      c_status c = picked_up → now < c_expires_at c → picked_up_at c = Some p → p ≤ now - lease_seconds * SECOND →
      max_attempts ≤ attempts c →
      row_step c (set_command c failed (attempts c) now (picked_up_at c) (Some now) res)
  | row_expire c :
      live (c_status c) = true → c_expires_at c ≤ now →
      row_step c (set_command c expired (attempts c) now (picked_up_at c) (Some now) (c_result c))
  | row_cancel c :
      live (c_status c) = true →
      row_step c (set_command c cancelled (attempts c) now (picked_up_at c) (Some now) (c_result c))
  | row_collapse c payload :
      c_status c = pending → c_kind c = suspend →
      row_step c (mkCommand (c_id c) (c_agent_id c) (c_kind c) (c_item_id c) payload (c_status c) (attempts c)
        (c_created_at c) now (c_expires_at c) (picked_up_at c) (completed_at c) (c_result c) (requested_by c)).

(** The row a request adds *)
Definition newborn (c : AgentCommand) : Prop :=
  c_status c = pending ∧ attempts c = 0 ∧ picked_up_at c = None ∧ completed_at c = None ∧ c_result c = None ∧
  c_created_at c = now ∧ now < c_expires_at c.
End life.

Lemma newborn_command id agent kind item payload ttl by_ now :
  0 < ttl →
  newborn now (mkCommand id agent kind item payload pending 0 now now (now + ttl * SECOND) None None None by_).
Proof. intros Httl. split_and!; try done. cbn. unfold SECOND. lia. Qed.

Lemma row_step_columns ls ma now c c' :
  row_step ls ma now c c' →
  c_id c' = c_id c ∧ c_agent_id c' = c_agent_id c ∧ c_kind c' = c_kind c ∧ c_item_id c' = c_item_id c ∧
  c_created_at c' = c_created_at c ∧ c_expires_at c' = c_expires_at c ∧ requested_by c' = requested_by c.
Proof. by destruct 1. Qed.

Lemma row_step_live ls ma now c c' : row_step ls ma now c c' → live (c_status c') = true → live (c_status c) = true.
Proof. destruct 1 as [|? H|? H|? ok ? H|?? H|??? H|? H|? H|? payload H]; cbn; intros Hl; try done; first [by rewrite H|by destruct ok]. Qed.

Lemma row_step_terminal ls ma now c c' : row_step ls ma now c c' → live (c_status c) = false → c' = c.
Proof.
  destruct 1 as [|? H|? H|??? H|?? H|??? H|? H|? H|? payload H]; intros Hl; try done; exfalso;
    first [by rewrite H in Hl|by destruct (c_status c)|congruence].
Qed.

(** Every step follows an edge of the transition table or keeps the status. *)
Lemma row_step_edge ls ma now c c' :
  row_step ls ma now c c' →
  c_status c' = c_status c ∨ ∃ event, command_state_machine (c_status c) event = Ok (c_status c').
Proof.
  destruct 1 as [|c H|c H|c ok res H|c p H|c p res H|c H|c H|c payload H]; cbn [set_command c_status]; try (by left);
    right; try rewrite H; try (unfold live in H; bool_to_prop; elem_cases H; rewrite H).
  - by exists deliver.
  - destruct ok; [by exists complete|by exists fail].
  - by exists redeliver.
  - by exists fail.
  - by exists expire.
  - by exists expire.
  - by exists cancel.
  - by exists cancel.
Qed.

Lemma row_step_attempts ls ma now c c' : row_step ls ma now c c' → attempts c ≤ attempts c'.
Proof. destruct 1; cbn; lia. Qed.

(** A pending command has a delivery left. *)
Definition attempts_ok (max_attempts : Z) (c : AgentCommand) : Prop :=
  attempts c ≤ Z.max 1 max_attempts ∧ (c_status c = pending → attempts c < Z.max 1 max_attempts).

Lemma zero_attempts_ok ma c : attempts c = 0 → attempts_ok ma c.
Proof. intros H. unfold attempts_ok. lia. Qed.

Lemma row_step_attempts_ok ls ma now c c' : row_step ls ma now c c' → attempts_ok ma c → attempts_ok ma c'.
Proof.
  unfold attempts_ok. destruct 1 as [|c H|c H|c ok res H|c p H|c p res H|c H|c H|c payload H]; cbn; intros [Hb Hp]; try lia;
    try (split; [lia|intros Hs; first [destruct ok; discriminate|discriminate|by apply Hp|lia]]).
Qed.

(** ** Loops over rows *)

(** A loop that writes [g c] over each row [c] of a list without repetitions *)
Lemma fold_rows_ok {S} (step : gmap Z AgentCommand * S → AgentCommand → result command_error (gmap Z AgentCommand * S))
    (g : AgentCommand → AgentCommand) (h : S → AgentCommand → S) rows m s :
  (∀ m s c, c ∈ rows → m !! c_id c = Some c → step (m, s) c = Ok (<[c_id c := g c]> m, h s c)) →
  NoDup (map c_id rows) → (∀ c, c ∈ rows → m !! c_id c = Some c) →
  ∃ m', result_fold step (m, s) rows = Ok (m', foldl h s rows) ∧
    (∀ c, c ∈ rows → m' !! c_id c = Some (g c)) ∧ (∀ i, i ∉ map c_id rows → m' !! i = m !! i).
Proof.
  revert m s. induction rows as [|c rows IH]; intros m s Hstep Hnd Hm.
  { exists m. split_and!; [done|by intros ? ?%not_elem_of_nil|done]. }
  cbn [map] in Hnd. apply NoDup_cons in Hnd as [Hc Hnd].
  cbn [result_fold foldl]. rewrite Hstep; [|left|by apply Hm; left]. cbn [result_bind].
  destruct (IH (<[c_id c := g c]> m) (h s c)) as (m' & Hf & Hin & Hout); [|done| |].
  { intros ?? d Hd. apply Hstep. by right. }
  { intros d Hd. rewrite lookup_insert_ne; [by apply Hm; right|].
    intros He. destruct Hc. rewrite He. by apply list_elem_of_fmap_2. }
  exists m'. split_and!; [done| |].
  - intros d [->|Hd]%elem_of_cons; [|by apply Hin]. rewrite Hout by done. apply lookup_insert_eq.
  - intros i Hi. cbn [map] in Hi. apply not_elem_of_cons in Hi as [Hne Hi].
    rewrite Hout by done. by apply lookup_insert_ne.
Qed.

(** ** The sweep *)

Section sweep.
Context (now lease_seconds max_attempts : Z).

(** What the sweep makes of a row *)
Definition swept (c : AgentCommand) : AgentCommand :=
  match sweep_decision (c_status c) (c_expires_at c) (picked_up_at c) (attempts c) now lease_seconds max_attempts with
  | None => c
  | Some Expire => set_command c expired (attempts c) now (picked_up_at c) (Some now) (c_result c)
  | Some Exhaust => set_command c failed (attempts c) now (picked_up_at c) (Some now)
      (Some (JDict [(txt "error", JText (txt "max_delivery_attempts")); (txt "attempts", JInt (attempts c))]))
  | Some Redeliver => set_command c pending (attempts c) now None (completed_at c) (c_result c)
  end.

Lemma decision_live c :
  sweep_decision (c_status c) (c_expires_at c) (picked_up_at c) (attempts c) now lease_seconds max_attempts ≠ None →
  live (c_status c) = true.
Proof. unfold sweep_decision, live. by destruct (bool_decide _). Qed.

Lemma swept_step c : row_step lease_seconds max_attempts now c (swept c).
Proof.
  pose proof (decision_live c) as Hl. unfold swept, sweep_decision in *.
  destruct (bool_decide (c_status c ∈ _)) eqn:Hs; cbn [negb] in *; [|constructor].
  destruct (c_expires_at c <=? now) eqn:He; [apply row_expire; [by apply Hl|by bool_to_prop]|].
  destruct (picked_up_at c) as [p|] eqn:Hp; [|constructor].
  destruct (bool_decide (c_status c = picked_up) && _) eqn:Hc; [|constructor].
  destruct (max_attempts <=? attempts c) eqn:Ha; bool_to_prop; [rewrite <- Hp; by eapply row_exhaust|by eapply row_redeliver].
Qed.

Definition counted (n : SweepCounts) (c : AgentCommand) : SweepCounts :=
  match sweep_decision (c_status c) (c_expires_at c) (picked_up_at c) (attempts c) now lease_seconds max_attempts with
  | None => n
  | Some Expire => mkSweepCounts (n_expired n + 1) (n_redelivered n) (n_exhausted n)
  | Some Exhaust => mkSweepCounts (n_expired n) (n_redelivered n) (n_exhausted n + 1)
  | Some Redeliver => mkSweepCounts (n_expired n) (n_redelivered n + 1) (n_exhausted n)
  end.

(** The state machine accepts what the sweep decides. *)
Lemma sweep_one_ok m n c :
  m !! c_id c = Some c →
  sweep_one now lease_seconds max_attempts (m, n) c = Ok (<[c_id c := swept c]> m, counted n c).
Proof.
  intros Hm. pose proof (decision_live c) as Hl. unfold swept, counted, sweep_one in *.
  destruct (sweep_decision _ _ _ _ _ _ _) as [d|] eqn:Hd; [|by rewrite insert_id].
  specialize (Hl ltac:(done)). unfold sweep_decision in Hd. destruct (negb _); [done|].
  destruct (c_expires_at c <=? now) eqn:He.
  { injection Hd as <-. by destruct (c_status c). }
  destruct (picked_up_at c) as [p|] eqn:Hp; [|done]. destruct (bool_decide (c_status c = picked_up)) eqn:Hs; [|done].
  bool_to_prop. rewrite Hs. cbn [andb] in Hd. destruct (_ <=? _); [|done].
  destruct (max_attempts <=? attempts c); by injection Hd as <-.
Qed.
End sweep.

(** ** The table of commands *)

Section table.
Context (new_command : nat → Z) `{!Inj (=) (=) new_command}.

(** Rows stand under their ids, and the database gave the ids out. *)
Record fleet_ok (f : Fleet) : Prop := mkFleetOk {
  fo_id i c : commands f !! i = Some c → c_id c = i;
  fo_made i c : commands f !! i = Some c → ∃ n, (n < commands_made f)%nat ∧ i = new_command n;
}.

Context (lease_seconds max_attempts : Z).

(** What a request does to the table: each row takes a step, at most one row is new. *)
Record evolves (now : Z) (f f' : Fleet) : Prop := mkEvolves {
  ev_old i c : commands f !! i = Some c → ∃ c', commands f' !! i = Some c' ∧ row_step lease_seconds max_attempts now c c';
  ev_new i c : commands f !! i = None → commands f' !! i = Some c →
    newborn now c ∧ c_id c = i ∧ i = new_command (commands_made f) ∧ commands_made f' = S (commands_made f);
  ev_made : (commands_made f ≤ commands_made f')%nat;
}.

Lemma evolves_ok now f f' : fleet_ok f → evolves now f f' → fleet_ok f'.
Proof using Type.
  intros Hok He. constructor.
  - intros i c' Hc'. destruct (commands f !! i) as [c|] eqn:Hc.
    + destruct (ev_old _ _ _ He i c Hc) as (c2 & Hc2 & Hs). assert (c2 = c') as -> by congruence.
      apply row_step_columns in Hs as [-> _]. by eapply fo_id.
    + by apply (ev_new _ _ _ He i c' Hc Hc').
  - intros i c' Hc'. pose proof (ev_made _ _ _ He). destruct (commands f !! i) as [c|] eqn:Hc.
    + destruct (fo_made _ Hok i c Hc) as (n & Hn & ->). exists n. split; [lia|done].
    + destruct (ev_new _ _ _ He i c' Hc Hc') as (_ & _ & -> & Hm). exists (commands_made f). split; [lia|done].
Qed.

Lemma evolves_same now f f' : commands f' = commands f → commands_made f' = commands_made f → evolves now f f'.
Proof using Type.
  intros Hc Hm. constructor; [|congruence|lia]. intros i c Hi. exists c. split; [congruence|constructor].
Qed.

Lemma evolves_trans_same now f f1 f' :
  commands f1 = commands f → commands_made f1 = commands_made f → evolves now f1 f' → evolves now f f'.
Proof using Type. intros Hc Hm [H1 H2 H3]. constructor; rewrite <- ?Hc, <- ?Hm; done. Qed.

Lemma evolves_put now f f' i c c' :
  commands f !! i = Some c → row_step lease_seconds max_attempts now c c' →
  commands f' = <[i := c']> (commands f) → commands_made f' = commands_made f → evolves now f f'.
Proof using Type.
  intros Hc Hs Hput Hm. constructor; [| |lia].
  - intros j d Hd. rewrite Hput. destruct (decide (i = j)) as [->|Hne].
    + exists c'. assert (d = c) as -> by congruence. by rewrite lookup_insert_eq.
    + exists d. rewrite lookup_insert_ne by done. split; [done|constructor].
  - intros j d Hj. rewrite Hput. intros Hd. destruct (decide (i = j)) as [->|Hne]; [congruence|].
    rewrite lookup_insert_ne in Hd by done. congruence.
Qed.

Lemma fresh_command f : fleet_ok f → commands f !! new_command (commands_made f) = None.
Proof using All.
  intros Hok. destruct (commands f !! _) as [c|] eqn:Hc; [|done].
  destruct (fo_made _ Hok _ c Hc) as (n & Hn & He). apply (inj new_command) in He. lia.
Qed.

Lemma evolves_add now f f' c :
  fleet_ok f → newborn now c → c_id c = new_command (commands_made f) →
  commands f' = <[c_id c := c]> (commands f) → commands_made f' = S (commands_made f) → evolves now f f'.
Proof using All.
  intros Hok Hb Hid Hput Hm. pose proof (fresh_command f Hok) as Hfresh. constructor; [| |lia].
  - intros i d Hd. exists d. rewrite Hput, lookup_insert_ne; [split; [done|constructor]|]. congruence.
  - intros i d Hi. rewrite Hput. intros Hd. destruct (decide (c_id c = i)) as [<-|Hne].
    + rewrite lookup_insert_eq in Hd. injection Hd as <-. by split_and!.
    + rewrite lookup_insert_ne in Hd by done. congruence.
Qed.

(** A loop that rewrites rows of the table *)
Lemma evolves_fold now f m' (g : AgentCommand → AgentCommand) rows :
  fleet_ok f → (∀ c, c ∈ rows → commands f !! c_id c = Some c) →
  (∀ c, c ∈ rows → row_step lease_seconds max_attempts now c (g c)) →
  (∀ c, c ∈ rows → m' !! c_id c = Some (g c)) → (∀ i, i ∉ map c_id rows → m' !! i = commands f !! i) →
  ∀ f', commands f' = m' → commands_made f' = commands_made f → evolves now f f'.
Proof using Type.
  intros Hok Hin Hs Hg Hout f' Hc Hm. constructor; [| |lia]; rewrite Hc.
  - intros i c Hi. destruct (decide (i ∈ map c_id rows)) as [Hrow|Hno].
    + apply list_elem_of_fmap in Hrow as (d & -> & Hd). assert (d = c) as -> by (pose proof (Hin d Hd); congruence).
      exists (g c). split; [by apply Hg|by apply Hs].
    + exists c. rewrite Hout by done. split; [done|constructor].
  - intros i c Hi Hi'. destruct (decide (i ∈ map c_id rows)) as [Hrow|Hno]; [|rewrite Hout in Hi' by done; congruence].
    apply list_elem_of_fmap in Hrow as (d & -> & Hd). pose proof (Hin d Hd). congruence.
Qed.
End table.

(** ** Requests *)

(** The time to live of a new command is positive. *)
Definition ttl_positive (csettings : CommandSettings) : Prop :=
  0 < agent_command_ttl_seconds csettings ∧ 0 < agent_command_ttl_max_seconds csettings.

Lemma scoped_ttl csettings (ttl : option Z) :
  ttl_positive csettings →
  0 < match ttl with
      | Some t => Z.min (Z.max t (agent_command_ttl_seconds csettings)) (agent_command_ttl_max_seconds csettings)
      | None => agent_command_ttl_seconds csettings
      end.
Proof. intros [H1 H2]. destruct ttl as [t|]; lia. Qed.

Section requests.
Context (uni_lower : Z → list Z) (float_repr : spec_float → text).
Context (sha256 : string → string) (model_validate : json → option CommandResult).
Context (new_command : nat → Z) (row_order : list AgentCommand → list AgentCommand).
Context (settings : SyncSettings) (csettings : CommandSettings) (auth_enabled : bool) (_roles : gmap string Role).
Context `{!Inj (=) (=) new_command} (row_order_perm : ∀ l, row_order l ≡ₚ l).
Local Abbreviation lease := (agent_command_lease_seconds csettings).
Local Abbreviation max_attempts := (agent_command_max_attempts csettings).
Local Abbreviation ok := (fleet_ok new_command).
Local Abbreviation evolves := (evolves new_command lease max_attempts).
Local Abbreviation serve := (serve uni_lower float_repr sha256 model_validate new_command row_order settings csettings auth_enabled _roles).
Local Abbreviation run := (run uni_lower float_repr sha256 model_validate new_command row_order settings csettings auth_enabled _roles).
Local Abbreviation rows_of := (all_commands row_order).

Lemma elem_of_commands f c : c ∈ rows_of f ↔ ∃ i, commands f !! i = Some c.
Proof using row_order_perm.
  unfold all_commands. rewrite row_order_perm. split.
  - intros ([i x] & -> & Hx)%list_elem_of_fmap. exists i. by apply elem_of_map_to_list.
  - intros [i Hi]. apply list_elem_of_fmap. exists (i, c). split; [done|]. by apply elem_of_map_to_list.
Qed.

Lemma commands_lookup f c : ok f → c ∈ rows_of f → commands f !! c_id c = Some c.
Proof using row_order_perm. intros Hok [i Hi]%elem_of_commands. by rewrite (fo_id _ _ Hok i c Hi). Qed.

Lemma commands_nodup f : ok f → NoDup (map c_id (rows_of f)).
Proof using row_order_perm.
  intros Hok. unfold all_commands. rewrite row_order_perm.
  change (map c_id (map snd ?l)) with (c_id <$> (snd <$> l)). rewrite <- list_fmap_compose.
  apply (NoDup_map_factor _ fst); [apply NoDup_fst_map_to_list|].
  intros [i c] [j d] Hc Hd. cbn. apply elem_of_map_to_list in Hc, Hd.
  rewrite (fo_id _ _ Hok i c Hc), (fo_id _ _ Hok j d Hd). done.
Qed.

Lemma query_rows f (p : AgentCommand → bool) (R : AgentCommand → AgentCommand → bool) n :
  ok f → let rows := take n (merge_sort R (filterb p (rows_of f))) in
  NoDup (map c_id rows) ∧ ∀ c, c ∈ rows → commands f !! c_id c = Some c ∧ p c = true.
Proof using row_order_perm.
  intros Hok rows. assert (∀ c, c ∈ rows → c ∈ rows_of f ∧ p c = true) as Hin.
  { intros c Hc. apply elem_of_list_take in Hc. rewrite merge_sort_Permutation in Hc. by apply elem_of_filterb in Hc. }
  split.
  - subst rows. rewrite <- firstn_map. eapply sublist_NoDup; [|apply sublist_take].
    rewrite merge_sort_Permutation. by apply nodup_map_filterb, commands_nodup.
  - intros c Hc. destruct (Hin c Hc). split; [by apply commands_lookup|done].
Qed.
(** *** Queueing *)

Lemma add_command_evolves f agent kind item payload ttl by_ now f' r :
  ok f → 0 < ttl → add_command new_command f agent kind item payload ttl by_ now = (f', r) → evolves now f f'.
Proof using Inj0.
  intros Hok Httl. unfold add_command. destruct (jsonb_ok payload); intros [= <- <-]; [|by apply evolves_same].
  match goal with |- context [<[_ := ?c]> _] => eapply (evolves_add _ _ _ _ _ _ c) end; [done| |done..].
  by apply newborn_command.
Qed.

Lemma scoped_evolves f agent kind payload ttl by_ now f' r :
  ok f → ttl_positive csettings → _enqueue_agent_scoped new_command csettings f agent kind payload ttl by_ now = (f', r) →
  evolves now f f'.
Proof using Inj0.
  intros Hok Httl. apply add_command_evolves; [done|by apply scoped_ttl].
Qed.

Lemma enqueue_evolves f agent body by_ now f' r :
  ok f → enqueue_command float_repr new_command csettings f agent body by_ now = (f', r) → evolves now f f'.
Proof using Inj0.
  intros Hok. unfold enqueue_command. repeat (case_match; [intros [= <- <-]; by apply evolves_same|]).
  repeat case_match; try (intros [= <- <-]; by apply evolves_same);
    (apply add_command_evolves; [exact Hok|apply Z.lt_le_trans with 60; [done|apply Z.le_max_l]]).
Qed.

Lemma queue_once_evolves f agent kind payload ttl by_ now f' r :
  ok f → ttl_positive csettings → queue_once new_command row_order csettings f agent kind payload ttl by_ now = (f', r) → evolves now f f'.
Proof using Inj0.
  intros Hok Httl. unfold queue_once. repeat case_match; try (intros [= <- <-]; by apply evolves_same).
  by apply scoped_evolves.
Qed.

Lemma suspend_evolves f locked agent suspended by_ now f' r :
  ok f → ttl_positive csettings → suspend_agent new_command row_order csettings f locked agent suspended by_ now = (f', r) → evolves now f f'.
Proof using Inj0 row_order_perm.
  intros Hok Httl. unfold suspend_agent. destruct (_live_agent f agent); [|intros [= <- <-]; by apply evolves_same].
  destruct (filterb _ _) as [|c l] eqn:Hc; [by apply scoped_evolves|]. intros [= <- <-].
  assert (c ∈ filterb (λ c, bool_decide (c_agent_id c = agent) && bool_decide (c_kind c = suspend) &&
    bool_decide (c_status c = pending) && negb (locked (c_id c))) (rows_of f)) as Hin by (rewrite Hc; left).
  apply elem_of_filterb in Hin as [Hin Hp]. bool_to_prop.
  eapply evolves_put; [by apply commands_lookup|by apply row_collapse|done|done].
Qed.

Lemma rehash_evolves f agent body by_ now f' r :
  ok f → ttl_positive csettings → rehash_sweep_agent new_command row_order csettings f agent body by_ now = (f', r) → evolves now f f'.
Proof using Inj0.
  intros Hok Httl. unfold rehash_sweep_agent. repeat case_match; try (intros [= <- <-]; by apply evolves_same).
  by apply queue_once_evolves.
Qed.

Lemma cancel_evolves f i now f' r : ok f → cancel_command f i now = (f', r) → evolves now f f'.
Proof using Type.
  intros Hok. unfold cancel_command. destruct (commands f !! i) as [c|] eqn:Hc; [|intros [= <- <-]; by apply evolves_same].
  destruct (command_is_terminal (c_status c)) eqn:Ht; [intros [= <- <-]; by apply evolves_same|].
  assert (live (c_status c) = true) as Hl by (by rewrite live_terminal, Ht).
  destruct (command_state_machine (c_status c) cancel) as [s|e] eqn:Hs; [|intros [= <- <-]; by apply evolves_same].
  intros [= <- <-]. eapply evolves_put; [done| |done|done]. assert (s = cancelled) as ->.
  { destruct (c_status c); cbn in Hs; congruence. }
  by apply row_cancel.
Qed.

(** *** The agent plane *)

Lemma authenticated_same f agent_id req f' agent :
  authenticated uni_lower settings f agent_id req = Ok (f', agent) → commands f' = commands f ∧ commands_made f' = commands_made f.
Proof using Type. unfold authenticated. destruct (_authenticate_agent _ _ _ _ _) as [[c a]|]; [|done]. by intros [= <- <-]. Qed.

(** What a poll makes of a row *)
Definition delivered (now : Z) (c : AgentCommand) : AgentCommand :=
  set_command c picked_up (attempts c + 1) now (Some now) (completed_at c) (c_result c).

Lemma poll_ok f locked agent body now f' l :
  ok f → poll_body float_repr row_order csettings f locked agent body now = Ok (f', l) →
  ∃ rows, NoDup (map c_id rows) ∧ l = map (delivered now) rows ∧ commands_made f' = commands_made f ∧
    rows = take (Nat.min (po_max body) (agent_command_poll_max csettings))
      (merge_sort created_le (filterb (λ c, deliverable (ag_id agent) now c && negb (locked (c_id c))) (rows_of f))) ∧
    (∀ c, c ∈ rows → commands f !! c_id c = Some c ∧ deliverable (ag_id agent) now c = true ∧ locked (c_id c) = false) ∧
    (∀ c, c ∈ rows → commands f' !! c_id c = Some (delivered now c)) ∧
    (∀ i, i ∉ map c_id rows → commands f' !! i = commands f !! i).
Proof using row_order_perm.
  intros Hok. unfold poll_body. destruct (_accept_sized _ _ (po_capabilities body)) as [caps|]; [|done].
  destruct (_accept_sized _ _ (po_health body)) as [hlth|]; [|done]. cbn [result_bind].
  set (want := Nat.min _ _). set (p := λ c, _ && negb _).
  destruct (query_rows f p created_le want Hok) as [Hnd Hin].
  set (rows := take want _) in *. assert (∀ m s c, c ∈ rows → m !! c_id c = Some c →
    deliver_one now (m, s) c = Ok (<[c_id c := delivered now c]> m, s ++ [delivered now c])) as Hstep.
  { intros m s c Hc _. destruct (Hin c Hc) as [_ Hp]. subst p. cbn beta in Hp. bool_to_prop.
    unfold deliverable in *. bool_to_prop. unfold deliver_one. by rewrite H2. }
  destruct (fold_rows_ok (deliver_one now) (delivered now) (λ s c, s ++ [delivered now c]) rows (commands f) [] Hstep Hnd)
    as (m' & Hf & Hg & Hout); [intros c Hc; by apply Hin|].
  rewrite Hf. cbn [result_bind]. destruct (advert_ok _); [|done]. intros [= <- <-].
  assert (∀ k l, foldl (λ s c, s ++ [delivered now c]) k l = k ++ map (delivered now) l) as Hmap.
  { intros k l. revert k. induction l as [|c l IH]; intros k; cbn; [by rewrite app_nil_r|]. by rewrite IH, <- app_assoc. }
  exists rows. split_and!; [done|apply Hmap|done|done| |done|done].
  intros c Hc. destruct (Hin c Hc) as [Hl Hp]. subst p. cbn beta in Hp. by bool_to_prop.
Qed.

Lemma poll_body_evolves f locked agent body now f' l :
  ok f → poll_body float_repr row_order csettings f locked agent body now = Ok (f', l) → evolves now f f'.
Proof using row_order_perm.
  intros Hok (rows & Hnd & _ & Hm & _ & Hin & Hg & Hout)%poll_ok; [|done].
  apply (evolves_fold _ _ _ _ _ (commands f') (delivered now) rows); [done|by apply Hin| |done..].
  intros c Hc. destruct (Hin c Hc) as (_ & Hd & _). unfold deliverable in Hd. bool_to_prop. by apply row_deliver.
Qed.

(** A handler of the agent plane starts from a table it has not touched. *)
Lemma evolves_after_auth now f f1 f' agent_id req agent :
  authenticated uni_lower settings f agent_id req = Ok (f1, agent) → evolves now f1 f' → evolves now f f'.
Proof using Type. intros [Hc Hm]%authenticated_same. by apply evolves_trans_same. Qed.

Lemma ok_after_auth f f1 agent_id req agent :
  ok f → authenticated uni_lower settings f agent_id req = Ok (f1, agent) → ok f1.
Proof using Type. intros [H1 H2] [Hc Hm]%authenticated_same. constructor; rewrite ?Hc, ?Hm; done. Qed.

Lemma poll_evolves f locked agent_id body req now f' r :
  ok f → poll_commands uni_lower float_repr row_order settings csettings f locked agent_id body req now = (f', r) → evolves now f f'.
Proof using row_order_perm.
  intros Hok. unfold poll_commands. destruct (authenticated _ _ _ _ _) as [[f1 agent]|] eqn:Ha;
    [|intros [= <- <-]; by apply evolves_same].
  destruct (poll_body _ _ _ _ _ _ _ _) as [[f2 l]|] eqn:Hp; intros [= <- <-]; eapply evolves_after_auth;
    [done| |done|by apply evolves_same].
  eapply poll_body_evolves; [by eapply ok_after_auth|done].
Qed.

Lemma owned_lookup f agent i c : _owned_command f agent i = Some c → commands f !! i = Some c ∧ c_agent_id c = ag_id agent.
Proof using Type.
  unfold _owned_command. destruct (commands f !! i) as [d|]; [|done]. cbn.
  destruct (c_agent_id d =? ag_id agent) eqn:H; [|done]. intros [= ->]. by bool_to_prop.
Qed.

Lemma ack_evolves f agent_id i req now f' r :
  ok f → ack_command uni_lower settings f agent_id i req now = (f', r) → evolves now f f'.
Proof using Type.
  intros Hok. unfold ack_command. destruct (authenticated _ _ _ _ _) as [[f1 agent]|] eqn:Ha;
    [|intros [= <- <-]; by apply evolves_same].
  intros He. eapply evolves_after_auth; [done|]. revert He.
  destruct (_owned_command f1 agent i) as [c|] eqn:Hc; [|intros [= <- <-]; by apply evolves_same].
  apply owned_lookup in Hc as [Hc _].
  destruct (bool_decide (c_status c = picked_up)) eqn:Hs; [|intros [= <- <-]; by apply evolves_same].
  bool_to_prop. rewrite Hs. cbn. intros [= <- <-]. eapply evolves_put; [done|by apply row_ack|done|done].
Qed.

Lemma complete_body_ok f agent c body now f' c' effects :
  complete_body model_validate f agent c body now = Ok (f', c', effects) → c_status c = picked_up →
  c' = set_command c (if cp_ok body then done else failed) (attempts c) now (picked_up_at c) (Some now) (JDict <$> cp_result body) ∧
  commands f' = <[c_id c := c']> (commands f) ∧ commands_made f' = commands_made f.
Proof using Type.
  unfold complete_body. intros H Hs. rewrite Hs in H.
  assert (command_state_machine picked_up (if cp_ok body then complete else fail) = Ok (if cp_ok body then done else failed)) as Hm
    by (by destruct (cp_ok body)).
  rewrite Hm in H. cbn [result_bind] in H. destruct (verify_step _ _ _ _ _) as [v|]; [|done]. cbn [result_bind] in H.
  destruct (match cp_result body with Some d => _ | None => _ end); [|done].
  destruct v as [[[[it it'] stamp] o]|]; [destruct (row_ok it'); [|done]|]; by injection H as <- <- <-.
Qed.

Lemma complete_evolves f agent_id i body req now f' r effects :
  ok f → complete_command uni_lower float_repr model_validate settings csettings f agent_id i body req now = (f', r, effects) →
  evolves now f f'.
Proof using Type.
  intros Hok. unfold complete_command. destruct (authenticated _ _ _ _ _) as [[f1 agent]|] eqn:Ha;
    [|intros [= <- <- <-]; by apply evolves_same].
  intros He. eapply evolves_after_auth; [done|]. revert He.
  destruct (_owned_command f1 agent i) as [c|] eqn:Hc; [|intros [= <- <- <-]; by apply evolves_same].
  apply owned_lookup in Hc as [Hc _]. pose proof (ok_after_auth _ _ _ _ _ Hok Ha) as Hok1.
  destruct (bool_decide (c_status c = done)); [intros [= <- <- <-]; by apply evolves_same|].
  destruct (bool_decide (c_status c = picked_up)) eqn:Hs; [|intros [= <- <- <-]; by apply evolves_same].
  cbn [negb]. destruct (match cp_result body with Some d => _ | None => _ end) as [n|]; [|intros [= <- <- <-]; by apply evolves_same].
  destruct (Nat.ltb _ _); [intros [= <- <- <-]; by apply evolves_same|].
  destruct (complete_body _ _ _ _ _ _) as [[[f2 c'] e]|] eqn:Hb; intros [= <- <- <-]; [|by apply evolves_same].
  bool_to_prop. apply complete_body_ok in Hb as (-> & Hput & Hm); [|done].
  rewrite (fo_id _ _ Hok1 _ _ Hc) in Hput. eapply evolves_put; [done|by apply row_complete|done|done].
Qed.

(** *** The sweep *)

Lemma sweep_ok f locked now limit :
  ok f → ∃ m, let rows := take limit (merge_sort expires_le
      (filterb (λ c, actionable now lease c && negb (locked (c_id c))) (rows_of f))) in
    run_agent_command_sweep row_order f locked now lease max_attempts limit =
      Ok (set_commands f m, foldl (counted now lease max_attempts) (mkSweepCounts 0 0 0) rows) ∧
    (∀ c, c ∈ rows → m !! c_id c = Some (swept now lease max_attempts c)) ∧
    (∀ i, i ∉ map c_id rows → m !! i = commands f !! i).
Proof using row_order_perm.
  intros Hok. set (p := λ c, actionable now lease c && negb (locked (c_id c))).
  destruct (query_rows f p expires_le limit Hok) as [Hnd Hin]. unfold run_agent_command_sweep. fold p. cbn zeta.
  set (rows := take limit _) in *.
  destruct (fold_rows_ok (sweep_one now lease max_attempts) (swept now lease max_attempts) (counted now lease max_attempts)
    rows (commands f) (mkSweepCounts 0 0 0)) as (m & Hf & Hg & Hout);
    [intros m s c _; apply sweep_one_ok|done|intros c Hc; by apply Hin|].
  exists m. rewrite Hf. by split_and!.
Qed.

Lemma sweep_evolves f locked limit now :
  ok f → evolves now f (expire_agent_commands row_order settings csettings f locked limit now).
Proof using row_order_perm.
  intros Hok. unfold expire_agent_commands. destruct (negb _); [by apply evolves_same|].
  destruct (sweep_ok f locked now limit Hok) as (m & Hrun & Hg & Hout). rewrite Hrun.
  destruct (query_rows f (λ c, actionable now lease c && negb (locked (c_id c))) expires_le limit Hok) as [_ Hin].
  eapply evolves_fold; [done|intros c Hc; by apply Hin| |exact Hg|exact Hout|done|done].
  intros c _. apply swept_step.
Qed.

(** *** Any request *)

Lemma operator_cases scope call now handler f f' r :
  operator sha256 settings auth_enabled _roles scope call now handler f = (f', r) →
  f' = f ∨ ∃ by_, handler by_ = (f', r).
Proof using Type.
  unfold operator. destruct (negb _); [intros [= <- <-]; by left|]. apply scoped_cases.
Qed.

Lemma operator_evolves scope call now handler f f' r :
  operator sha256 settings auth_enabled _roles scope call now handler f = (f', r) →
  (∀ by_, handler by_ = (f', r) → evolves now f f') → evolves now f f'.
Proof using Type. intros [->|[by_ H]]%operator_cases Hh; [by apply evolves_same|by eapply Hh]. Qed.

Lemma serve_evolves f locked now r :
  ok f → ttl_positive csettings → evolves now f (serve f locked now r).1.
Proof using Inj0 row_order_perm.
  intros Hok Httl. destruct (serve f locked now r) as [f' rep] eqn:Hs. cbn [fst].
  destruct r; cbn [Commands.serve] in Hs;
    try (eapply operator_evolves; [exact Hs|]; intros by_ Hh; cbn beta in Hh).
  - by eapply enqueue_evolves.
  - by eapply suspend_evolves.
  - by eapply queue_once_evolves.
  - by eapply queue_once_evolves.
  - by eapply queue_once_evolves.
  - by eapply rehash_evolves.
  - by eapply cancel_evolves.
  - unfold agent_plane in Hs. destruct (negb _); [injection Hs as <- <-; by apply evolves_same|by eapply poll_evolves].
  - unfold agent_plane in Hs. destruct (negb _); [injection Hs as <- <-; by apply evolves_same|by eapply ack_evolves].
  - unfold agent_plane in Hs. destruct (negb _); [injection Hs as <- <-; by apply evolves_same|].
    destruct (complete_command _ _ _ _ _ _ _ _ _ _ _) as [[f2 r2] e] eqn:Hc. injection Hs as <- <-. by eapply complete_evolves.
  - injection Hs as <- <-. by apply sweep_evolves.
Qed.

(** ** Runs *)

Lemma serve_ok f locked now r : ok f → ttl_positive csettings → ok (serve f locked now r).1.
Proof using Inj0 row_order_perm. intros Hok Httl. by eapply evolves_ok, serve_evolves. Qed.

Lemma run_ok f trace : ok f → ttl_positive csettings → ok (run f trace).
Proof using Inj0 row_order_perm.
  revert f. induction trace as [|[[now locked] r] t IH]; intros f Hok Httl; [done|]. cbn [Commands.run].
  apply IH; [by apply serve_ok|done].
Qed.

(** A property of a row that every step keeps holds at the end of a run. *)
Lemma run_row (P : AgentCommand → Prop) f trace i c :
  (∀ now c c', row_step lease max_attempts now c c' → P c → P c') →
  ok f → ttl_positive csettings → commands f !! i = Some c → P c → ∃ c', commands (run f trace) !! i = Some c' ∧ P c'.
Proof using Inj0 row_order_perm.
  intros HP Hok Httl. revert f c Hok. induction trace as [|[[now locked] r] t IH]; intros f c Hok Hc Hp; [by exists c|].
  cbn [Commands.run]. destruct (ev_old _ _ _ _ _ _ (serve_evolves f locked now r Hok Httl) i c Hc) as (c' & Hc' & Hs).
  eapply IH; [by apply serve_ok|done|by eapply HP].
Qed.

(** C11: the handlers implement the state machine.  Whatever the request and whatever rows
    are locked, each command of the table takes one step of [row_step]: its status stays or
    follows an edge of the transition table, and its identity, agent, kind, item, expiry and
    requester never change.  At most one command is new, under a fresh id, pending, never
    delivered, with its expiry ahead. *)
Theorem command_lifecycle f locked now r :
  ok f → ttl_positive csettings → let f' := (serve f locked now r).1 in
  (∀ i c, commands f !! i = Some c → ∃ c', commands f' !! i = Some c' ∧ row_step lease max_attempts now c c' ∧
    (c_status c' = c_status c ∨ ∃ event, command_state_machine (c_status c) event = Ok (c_status c')) ∧
    c_id c' = c_id c ∧ c_agent_id c' = c_agent_id c ∧ c_kind c' = c_kind c ∧ c_item_id c' = c_item_id c ∧
    c_expires_at c' = c_expires_at c ∧ requested_by c' = requested_by c) ∧
  (∀ i c, commands f !! i = None → commands f' !! i = Some c → newborn now c ∧ i = new_command (commands_made f)) ∧
  ok f'.
Proof using Inj0 row_order_perm.
  intros Hok Httl. pose proof (serve_evolves f locked now r Hok Httl) as He. split_and!.
  - intros i c Hc. destruct (ev_old _ _ _ _ _ _ He i c Hc) as (c' & Hc' & Hs). exists c'.
    pose proof (row_step_columns _ _ _ _ _ Hs) as Hcols. split_and!; try apply Hcols; [done|done|by eapply row_step_edge].
  - intros i c Hi Hc. destruct (ev_new _ _ _ _ _ _ He i c Hi Hc) as (Hb & _ & Hid & _). by split.
  - by eapply evolves_ok.
Qed.

(** A command that ended stays as it ended: no run of requests, late completions,
    sweeps or cancellations changes any column of it. *)
Theorem terminal_immutable f trace i c :
  ok f → ttl_positive csettings → commands f !! i = Some c → command_is_terminal (c_status c) = true →
  commands (run f trace) !! i = Some c.
Proof using Inj0 row_order_perm.
  intros Hok Httl Hc Ht. destruct (run_row (λ d, d = c) f trace i c) as (c' & Hc' & ->); try done.
  intros now d d' Hs ->. eapply row_step_terminal; [done|]. by rewrite live_terminal, Ht.
Qed.

(** *** Every command ends *)

Definition overdue (e : Z) (c : AgentCommand) : bool := live (c_status c) && (c_expires_at c <=? e).

(** The ids of the live commands that expire by [e] *)
Definition overdue_ids (f : Fleet) (e : Z) : gset Z := list_to_set (map c_id (filterb (overdue e) (rows_of f))).

Lemma elem_of_overdue f e i :
  ok f → i ∈ overdue_ids f e ↔ ∃ c, commands f !! i = Some c ∧ overdue e c = true.
Proof using row_order_perm.
  intros Hok. unfold overdue_ids. rewrite elem_of_list_to_set. split.
  - intros (c & -> & [Hc Ho]%elem_of_filterb)%list_elem_of_fmap. exists c. split; [by apply commands_lookup|done].
  - intros (c & Hc & Ho). rewrite <- (fo_id _ _ Hok i c Hc). apply list_elem_of_fmap_2, elem_of_filterb.
    split; [apply elem_of_commands; by exists i|done].
Qed.

Lemma overdue_shrinks f f' now e : ok f → evolves now f f' → e ≤ now → overdue_ids f' e ⊆ overdue_ids f e.
Proof using row_order_perm.
  intros Hok He Hnow i Hi. apply elem_of_overdue in Hi as (c' & Hc' & Ho); [|by eapply evolves_ok].
  unfold overdue in Ho. bool_to_prop. apply elem_of_overdue; [done|]. destruct (commands f !! i) as [c|] eqn:Hc.
  - exists c. split; [done|]. destruct (ev_old _ _ _ _ _ _ He i c Hc) as (c2 & Hc2 & Hs).
    assert (c2 = c') as -> by congruence. unfold overdue. apply andb_true_intro. split; [by eapply row_step_live|].
    apply row_step_columns in Hs as (_ & _ & _ & _ & _ & Hexp & _). rewrite <- Hexp. by apply Z.leb_le.
  - destruct (ev_new _ _ _ _ _ _ He i c' Hc Hc') as [(_ & _ & _ & _ & _ & _ & Hexp) _].
    exfalso. apply (Z.lt_irrefl now). eapply Z.lt_le_trans; [exact Hexp|]. by etrans.
Qed.

Lemma overdue_actionable now e c : e ≤ now → overdue e c = true → actionable now lease c = true.
Proof using Type.
  intros Hnow Ho. unfold overdue, live in Ho. bool_to_prop. unfold actionable.
  rewrite bool_decide_eq_true_2 by done. cbn [andb]. apply orb_true_intro. left. apply Z.leb_le. by etrans.
Qed.

(** The rows a sweep takes hold as many overdue ones as its limit allows. *)
Lemma swept_overdue f locked now limit e :
  ok f → e ≤ now → (∀ i, locked i = false) →
  let rows := take limit (merge_sort expires_le (filterb (λ c, actionable now lease c && negb (locked (c_id c))) (rows_of f))) in
  length (filterb (overdue e) rows) = Nat.min limit (length (filterb (overdue e) (rows_of f))).
Proof using Type.
  intros Hok Hnow Hlocked. cbn zeta. set (p := λ c, actionable now lease c && negb (locked (c_id c))).
  set (l := filterb p (rows_of f)). set (expiring := λ c, c_expires_at c <=? e).
  assert (∀ c, c ∈ l → overdue e c = expiring c) as Heq.
  { intros c Hc. subst l. apply elem_of_filterb in Hc as [_ Hp]. subst p. cbn beta in Hp. bool_to_prop.
    unfold actionable in *. bool_to_prop. unfold overdue, live. by rewrite bool_decide_eq_true_2. }
  rewrite (filterb_ext _ expiring); [|intros c Hc; apply Heq; apply elem_of_list_take in Hc; by rewrite merge_sort_Permutation in Hc].
  rewrite (filterb_take_sorted (λ a b, Is_true (expires_le a b))).
  - f_equal. transitivity (length (filterb expiring l)); [apply filterb_length_perm, merge_sort_Permutation|].
    rewrite <- (filterb_ext (overdue e)) by (intros c Hc; by apply Heq). subst l. f_equal. rewrite filterb_filterb.
    apply filterb_ext. intros c _. destruct (overdue e c) eqn:Ho; [|by rewrite andb_false_r].
    subst p. cbn beta. by rewrite Hlocked, (overdue_actionable now e c).
  - apply StronglySorted_merge_sort; [intros a b c; unfold expires_le; rewrite !Is_true_true, !Z.leb_le; apply Z.le_trans|].
    intros a b. unfold expires_le. rewrite !Is_true_true, !Z.leb_le. apply Z.le_ge_cases.
  - intros a b. unfold expires_le, expiring. rewrite Is_true_true, !Z.leb_le. apply Z.le_trans.
Qed.

(** A sweep takes as many commands off the overdue ones as its limit allows. *)
Lemma sweep_progress f locked now limit e :
  ok f → agents_enabled settings = true → e ≤ now → (∀ i, locked i = false) →
  (size (overdue_ids (expire_agent_commands row_order settings csettings f locked limit now) e) ≤
   size (overdue_ids f e) - limit)%nat.
Proof using row_order_perm.
  intros Hok Hen Hnow Hlocked. pose proof (sweep_evolves f locked limit now Hok) as Hev.
  set (f' := expire_agent_commands _ _ _ _ _ _ _) in *.
  pose proof (swept_overdue f locked now limit e Hok Hnow Hlocked) as Hlen. cbn zeta in Hlen.
  destruct (query_rows f (λ c, actionable now lease c && negb (locked (c_id c))) expires_le limit Hok) as [Hnd Hin].
  destruct (sweep_ok f locked now limit Hok) as (m & Hrun & Hg & _). set (rows := take limit _) in *.
  assert (commands f' = m) as Hm.
  { subst f'. unfold expire_agent_commands. rewrite Hen. cbn [negb]. by rewrite Hrun. }
  set (gone := list_to_set (map c_id (filterb (overdue e) rows)) : gset Z).
  assert (gone ⊆ overdue_ids f e) as Hsub.
  { intros i (c & -> & [Hc Ho]%elem_of_filterb)%elem_of_list_to_set%list_elem_of_fmap.
    apply elem_of_overdue; [done|]. exists c. split; [by apply Hin|done]. }
  assert (overdue_ids f' e ⊆ overdue_ids f e ∖ gone) as Hdiff.
  { intros i Hi. apply elem_of_difference. split; [by eapply overdue_shrinks|].
    intros (c & -> & [Hc Ho]%elem_of_filterb)%elem_of_list_to_set%list_elem_of_fmap.
    apply elem_of_overdue in Hi as (c' & Hc' & Ho'); [|by eapply evolves_ok].
    rewrite Hm, (Hg c Hc) in Hc'. injection Hc' as <-. unfold overdue in Ho. bool_to_prop.
    assert (swept now lease max_attempts c = set_command c expired (attempts c) now (picked_up_at c) (Some now) (c_result c)) as Hsw.
    { unfold swept, sweep_decision. unfold live in *. bool_to_prop. rewrite bool_decide_eq_true_2 by done. cbn [negb].
      rewrite (proj2 (Z.leb_le _ _)); [done|by etrans]. }
    rewrite Hsw in Ho'. done. }
  apply subseteq_size in Hdiff. rewrite size_difference in Hdiff by done.
  assert (size gone = length (filterb (overdue e) rows)) as Hsize.
  { subst gone. rewrite size_list_to_set, length_map; [done|]. by apply nodup_map_filterb. }
  assert (size (overdue_ids f e) = length (filterb (overdue e) (rows_of f))) as Hall.
  { unfold overdue_ids. rewrite size_list_to_set, length_map; [done|]. by apply nodup_map_filterb, commands_nodup. }
  etrans; [exact Hdiff|]. rewrite Hsize, Hlen, Hall. clear. lia.
Qed.

Definition sweeps (trace : list (Z * (Z → bool) * request)) : nat :=
  sum_list (map (λ '(_, _, r), match r with RSweep limit => limit | _ => 0%nat end) trace).

Lemma run_progress f trace e :
  ok f → ttl_positive csettings → agents_enabled settings = true →
  (∀ now locked r, (now, locked, r) ∈ trace → e ≤ now) →
  (∀ now locked limit, (now, locked, RSweep limit) ∈ trace → ∀ j, locked j = false) →
  (size (overdue_ids (run f trace) e) ≤ size (overdue_ids f e) - sweeps trace)%nat.
Proof using Inj0 row_order_perm.
  intros Hok Httl Hen. revert f Hok. induction trace as [|[[now locked] r] t IH]; intros f Hok Htime Hlock; [cbn; clear; lia|].
  cbn [Commands.run]. assert (e ≤ now) as Hnow by (eapply Htime; left).
  assert (size (overdue_ids (serve f locked now r).1 e) ≤
    size (overdue_ids f e) - match r with RSweep limit => limit | _ => 0 end)%nat as Hone.
  { pose proof (subseteq_size _ _ (overdue_shrinks _ _ now e Hok (serve_evolves f locked now r Hok Httl) Hnow)) as Hsub.
    destruct r; try (rewrite Nat.sub_0_r; exact Hsub). apply sweep_progress; [done..|].
    intros j. eapply Hlock. left. }
  etrans; [apply IH; [by apply serve_ok|..]|].
  - intros now' locked' r' Hin. eapply Htime. right. exact Hin.
  - intros now' locked' limit Hin. eapply Hlock. right. exact Hin.
  - change (sweeps ((now, locked, r) :: t)) with (match r with RSweep limit => limit | _ => 0 end + sweeps t)%nat.
    revert Hone. clear. lia.
Qed.

(** C10: every command ends, when the sweeps can work.  The agent feature is enabled, the
    configured times to live are positive, and the run's sweeps find no command row locked
    by another transaction ([SKIP LOCKED] would pass over it).  Take a command and any run
    of requests after its expiry whose sweeps have limits that add up to the number of
    commands overdue at the start: whatever the agents and operators request in between,
    the command is in a terminal state at the end. *)
Theorem commands_terminate f trace e i c :
  ok f → ttl_positive csettings → agents_enabled settings = true →
  commands f !! i = Some c → c_expires_at c ≤ e →
  (∀ now locked r, (now, locked, r) ∈ trace → e ≤ now) →
  (∀ now locked limit, (now, locked, RSweep limit) ∈ trace → ∀ j, locked j = false) →
  (size (overdue_ids f e) ≤ sweeps trace)%nat →
  ∃ c', commands (run f trace) !! i = Some c' ∧ command_is_terminal (c_status c') = true.
Proof using Inj0 row_order_perm.
  intros Hok Httl Hen Hc He Htime Hlock Hsize.
  destruct (run_row (λ d, c_expires_at d ≤ e) f trace i c) as (c' & Hc' & He'); try done.
  { intros now d d' (_ & _ & _ & _ & _ & Hexp & _)%row_step_columns. by rewrite Hexp. }
  exists c'. split; [done|]. pose proof (run_progress f trace e Hok Httl Hen Htime Hlock) as Hp.
  assert (overdue_ids (run f trace) e = ∅) as Hempty.
  { apply leibniz_equiv, size_empty_iff. revert Hp Hsize. clear. lia. }
  destruct (command_is_terminal (c_status c')) eqn:Ht; [done|]. exfalso.
  assert (i ∈ overdue_ids (run f trace) e) as Hi; [|rewrite Hempty in Hi; by apply elem_of_empty in Hi].
  apply elem_of_overdue; [by apply run_ok|]. exists c'. split; [done|]. unfold overdue. rewrite live_terminal, Ht.
  by apply Z.leb_le.
Qed.

(** *** Deliveries *)

(** The ids a poll hands out *)
Definition handed_out (r : request) (rep : reply) : list Z :=
  match r, rep with RPoll _ _ _, Commands l => map c_id l | _, _ => [] end.

(** How often a run hands out a command *)
Fixpoint deliveries (i : Z) (f : Fleet) (trace : list (Z * (Z → bool) * request)) : nat :=
  match trace with
  | [] => 0
  | (now, locked, r) :: t =>
      let '(f', rep) := serve f locked now r in
      length (filterb (Z.eqb i) (handed_out r rep)) + deliveries i f' t
  end.

Lemma poll_attempts f locked agent_id body req now f' l i c :
  ok f → poll_commands uni_lower float_repr row_order settings csettings f locked agent_id body req now = (f', Commands l) →
  commands f !! i = Some c →
  ∃ c', commands f' !! i = Some c' ∧ attempts c' = attempts c + Z.of_nat (length (filterb (Z.eqb i) (map c_id l))).
Proof using row_order_perm.
  intros Hok. unfold poll_commands. destruct (authenticated _ _ _ _ _) as [[f1 agent]|] eqn:Ha; [|done].
  destruct (poll_body _ _ _ _ _ _ _ _) as [[f2 l2]|] eqn:Hp; [|done]. intros [= <- <-] Hc.
  apply poll_ok in Hp as (rows & Hnd & -> & _ & _ & Hin & Hg & Hout); [|by eapply ok_after_auth].
  apply authenticated_same in Ha as [Hcs _].
  assert (map c_id (map (delivered now) rows) = map c_id rows) as -> by (rewrite map_map; done).
  destruct (decide (i ∈ map c_id rows)) as [Hrow|Hno].
  - rewrite count_nodup by done. apply list_elem_of_fmap in Hrow as (d & -> & Hd). exists (delivered now d).
    split; [by apply Hg|]. destruct (Hin d Hd) as [Hld _]. assert (d = c) as -> by congruence. done.
  - exists c. rewrite Hout, Hcs by done. split; [done|].
    replace (filterb (Z.eqb i) (map c_id rows)) with (@nil Z); [by rewrite Z.add_0_r|].
    symmetry. apply filterb_nil. intros j Hj. apply Z.eqb_neq. by intros <-.
Qed.

Lemma serve_attempts f locked now r i c :
  ok f → ttl_positive csettings → commands f !! i = Some c →
  ∃ c', commands (serve f locked now r).1 !! i = Some c' ∧
    attempts c + Z.of_nat (length (filterb (Z.eqb i) (handed_out r (serve f locked now r).2))) ≤ attempts c'.
Proof using Inj0 row_order_perm.
  intros Hok Httl Hc. destruct (ev_old _ _ _ _ _ _ (serve_evolves f locked now r Hok Httl) i c Hc) as (c' & Hc' & Hs).
  exists c'. split; [done|]. apply row_step_attempts in Hs.
  destruct (handed_out r (serve f locked now r).2) as [|j js] eqn:Hh; [by rewrite Z.add_0_r|].
  destruct r; try done. cbn [Commands.serve] in *. unfold agent_plane in *. destruct (negb _); [done|].
  destruct (poll_commands _ _ _ _ _ _ _ _ _ _ _) as [f2 rep] eqn:Hp. cbn [fst snd] in *. destruct rep as [| | |l]; try done.
  cbn [handed_out] in Hh. rewrite <- Hh.
  destruct (poll_attempts _ _ _ _ _ _ _ _ i c Hok Hp Hc) as (c2 & Hc2 & Ha). assert (c2 = c') as -> by congruence.
  by rewrite Ha.
Qed.

Lemma run_attempts f trace i c :
  ok f → ttl_positive csettings → commands f !! i = Some c →
  ∃ ce, commands (run f trace) !! i = Some ce ∧ attempts c + Z.of_nat (deliveries i f trace) ≤ attempts ce.
Proof using Inj0 row_order_perm.
  intros Hok Httl. revert f c Hok. induction trace as [|[[now locked] r] t IH]; intros f c Hok Hc.
  { exists c. split; [done|]. cbn. by rewrite Z.add_0_r. }
  destruct (serve_attempts f locked now r i c Hok Httl Hc) as (c1 & Hc1 & H1).
  destruct (IH _ c1 (serve_ok f locked now r Hok Httl) Hc1) as (ce & Hce & H2).
  exists ce. split; [exact Hce|]. cbn [deliveries Commands.run]. destruct (serve f locked now r) as [f' rep].
  cbn [fst snd] in *. rewrite Nat2Z.inj_add. revert H1 H2. clear. lia.
Qed.

(** C12: a command is handed out a bounded number of times.  Over any run, the polls return a
    command that was never delivered at most [max_attempts] times in all (at least once is
    always allowed), however its agent crashes and the sweep re-queues it. *)
Theorem deliveries_bounded f trace i c :
  ok f → ttl_positive csettings → commands f !! i = Some c → attempts c = 0 →
  Z.of_nat (deliveries i f trace) ≤ Z.max 1 max_attempts.
Proof using Inj0 row_order_perm.
  intros Hok Httl Hc Ha. destruct (run_row (attempts_ok max_attempts) f trace i c) as (ce & Hce & Hb); try done.
  { intros. by eapply row_step_attempts_ok. }
  { by apply zero_attempts_ok. }
  destruct (run_attempts f trace i c Hok Httl Hc) as (ce2 & Hce2 & Hle). assert (ce2 = ce) as -> by congruence.
  destruct Hb as [Hb _]. rewrite Ha in Hle. etrans; [exact Hle|exact Hb].
Qed.

(** *** Who gets what *)

(** Agents stand under their ids. *)
Definition agents_keyed (f : Fleet) : Prop := ∀ a ag, agents (central f) !! a = Some ag → ag_id ag = a.

Lemma authenticated_id f agent_id req f' agent :
  agents_keyed f → authenticated uni_lower settings f agent_id req = Ok (f', agent) →
  ag_id agent = agent_id ∧
  ∃ old, agents (central f) !! agent_id = Some old ∧ revoked_at old = None ∧ credentials uni_lower settings agent_id old req.
Proof using Type.
  intros Hkey. unfold authenticated. destruct (_authenticate_agent _ _ _ _ _) as [[c a]|] eqn:Ha; [|done]. intros [= <- <-].
  pose proof (authenticate_credentials _ _ _ _ _ _ _ Ha) as (old & Ho & Hrev & Hcred). split; [|by exists old].
  specialize (Hkey _ _ Ho). unfold _authenticate_agent, _authenticate_agent_bearer, _authenticate_agent_mtls in Ha.
  rewrite Ho in Ha. repeat case_match; simplify_eq; done.
Qed.

Lemma sorted_by_creation l : StronglySorted (λ a b, c_created_at a ≤ c_created_at b) (merge_sort created_le l).
Proof using Type.
  assert (StronglySorted (λ a b, Is_true (created_le a b)) (merge_sort created_le l)) as H.
  - apply StronglySorted_merge_sort; [intros a b c; unfold created_le; rewrite !Is_true_true, !Z.leb_le; apply Z.le_trans|].
    intros a b. unfold created_le. rewrite !Is_true_true, !Z.leb_le. apply Z.le_ge_cases.
  - induction H as [|x k _ IH Hx]; constructor; [done|]. eapply Forall_impl; [exact Hx|].
    intros y. unfold created_le. by rewrite Is_true_true, Z.leb_le.
Qed.

(** A poll is an authenticated, first-in first-out drain.  It returns, oldest first, the
    commands of that agent that are pending, not expired and not locked by another
    transaction, as many as the request and the server allow, each now in flight with one
    more attempt; whatever it leaves is untouched and not older than what it returned. *)
Theorem poll_fifo f locked agent_id body req now f' l :
  ok f → agents_keyed f →
  poll_commands uni_lower float_repr row_order settings csettings f locked agent_id body req now = (f', Commands l) →
  (∃ old, agents (central f) !! agent_id = Some old ∧ revoked_at old = None ∧ credentials uni_lower settings agent_id old req) ∧
  length l = Nat.min (Nat.min (po_max body) (agent_command_poll_max csettings))
    (length (filterb (λ c, deliverable agent_id now c && negb (locked (c_id c))) (rows_of f))) ∧
  StronglySorted (λ a b, c_created_at a ≤ c_created_at b) l ∧
  (∀ c', c' ∈ l → ∃ c, commands f !! c_id c = Some c ∧ c_agent_id c = agent_id ∧ c_status c = pending ∧ now < c_expires_at c ∧
    c' = delivered now c ∧ commands f' !! c_id c = Some c') ∧
  (∀ i c, commands f !! i = Some c → i ∉ map c_id l → commands f' !! i = Some c ∧
    (deliverable agent_id now c = true → locked i = false → ∀ c', c' ∈ l → c_created_at c' ≤ c_created_at c)).
Proof using row_order_perm.
  intros Hok Hkey. unfold poll_commands. destruct (authenticated _ _ _ _ _) as [[f1 agent]|] eqn:Ha; [|done].
  destruct (poll_body _ _ _ _ _ _ _ _) as [[f2 l2]|] eqn:Hp; [|done]. intros [= <- <-].
  pose proof (ok_after_auth _ _ _ _ _ Hok Ha) as Hok1. pose proof (authenticated_id _ _ _ _ _ Hkey Ha) as [Hid Hcred].
  pose proof (poll_ok _ _ _ _ _ _ _ Hok1 Hp) as (rows & Hnd & -> & _ & Hrows & Hin & Hg & Hout).
  pose proof (authenticated_same _ _ _ _ _ Ha) as [Hcs _]. rewrite Hid in Hrows, Hin.
  assert (rows_of f1 = rows_of f) as Hrf by (unfold all_commands; by rewrite Hcs).
  rewrite Hrf in Hrows. set (q := filterb _ (rows_of f)) in *.
  assert (map c_id (map (delivered now) rows) = map c_id rows) as Hids by (by rewrite map_map).
  pose proof (sorted_by_creation q) as Hsorted.
  set (n := Nat.min (po_max body) _) in *. rewrite <- (take_drop n (merge_sort created_le q)), <- Hrows in Hsorted.
  split_and!; [done| | | |].
  - by rewrite length_map, Hrows, length_take, (Permutation_length (merge_sort_Permutation created_le q)).
  - apply StronglySorted_app_1_l in Hsorted. eapply StronglySorted_fmap, Hsorted. intros a b Hab. exact Hab.
  - intros c' (c & -> & Hc)%list_elem_of_fmap. destruct (Hin c Hc) as (Hlook & Hd & _). unfold deliverable in Hd.
    bool_to_prop. exists c. rewrite Hcs in Hlook. split_and!; try done. by apply Hg.
  - intros i c Hi Hno. rewrite Hids in Hno. rewrite Hout, Hcs by done. split; [done|].
    intros Hd Hl c' (d & -> & Hrow)%list_elem_of_fmap. cbn [delivered set_command c_created_at].
    assert (c ∈ q) as Hq.
    { apply elem_of_filterb. split; [apply elem_of_commands; by exists i|].
      by rewrite Hd, (fo_id _ _ Hok i c Hi), Hl. }
    rewrite <- (merge_sort_Permutation created_le q), <- (take_drop n (merge_sort created_le q)), <- Hrows in Hq.
    apply elem_of_app in Hq as [Hq|Hq]; [|by apply (StronglySorted_app_1_elem_of _ _ _ d c Hsorted)].
    destruct Hno. rewrite <- (fo_id _ _ Hok i c Hi). by apply list_elem_of_fmap_2.
Qed.

Definition agent_request (r : request) : option (Z * AgentRequest) :=
  match r with
  | RPoll a _ q | RAck a _ q | RComplete a _ _ q => Some (a, q)
  | _ => None
  end.

Lemma authenticated_items f agent_id req f' agent :
  authenticated uni_lower settings f agent_id req = Ok (f', agent) →
  items (central f') = items (central f).
Proof using Type.
  unfold authenticated. destruct (_authenticate_agent _ _ _ _ _) as [[c a]|] eqn:Ha; [|done]. intros [= <- <-]. cbn.
  unfold _authenticate_agent, _authenticate_agent_bearer, _authenticate_agent_mtls in Ha.
  repeat case_match; simplify_eq; done.
Qed.

Lemma poll_items f locked agent body now f' l :
  poll_body float_repr row_order csettings f locked agent body now = Ok (f', l) → items (central f') = items (central f).
Proof using Type.
  unfold poll_body. destruct (_accept_sized _ _ (po_capabilities body)); [|done].
  destruct (_accept_sized _ _ (po_health body)); [|done]. cbn [result_bind].
  destruct (result_fold _ _ _); [|done]. cbn [result_bind]. destruct (advert_ok _); [|done]. by intros [= <- <-].
Qed.

(** What the agent plane leaves alone *)
Definition untouched (a : Z) (f f' : Fleet) : Prop :=
  (∀ i c, commands f !! i = Some c → c_agent_id c ≠ a → commands f' !! i = Some c) ∧
  (∀ i, items (central f') !! i ≠ items (central f) !! i →
    ∃ j c, commands f !! j = Some c ∧ c_agent_id c = a ∧ c_status c = picked_up ∧ c_kind c ∈ VERIFY_KINDS ∧ c_item_id c = Some i).

Lemma untouched_same a f f' : commands f' = commands f → items (central f') = items (central f) → untouched a f f'.
Proof using Type. intros Hc Hi. split; [by rewrite Hc|by rewrite Hi]. Qed.

Lemma untouched_after a f f1 f' :
  commands f1 = commands f → items (central f1) = items (central f) → untouched a f1 f' → untouched a f f'.
Proof using Type. intros Hc Hi [H1 H2]. split; [by rewrite <- Hc|by rewrite <- Hi, <- Hc]. Qed.

Lemma verify_step_item f c body now it it' stamp o :
  verify_step model_validate f c body now = Ok (Some (it, it', stamp, o)) →
  c_kind c ∈ VERIFY_KINDS ∧ ∃ i parsed, c_item_id c = Some i ∧ items (central f) !! i = Some it ∧
    reconcile_completion it parsed now = Some (it', stamp, o).
Proof using Type.
  unfold verify_step. destruct (cp_result body) as [d|]; [|done].
  destruct (cp_ok body && bool_decide _) eqn:Hk; [|done]. destruct (model_validate _) as [parsed|]; [|done]. cbn.
  destruct (c_item_id c) as [i|] eqn:Hi; [|done]. cbn. destruct (items (central f) !! i) as [x|] eqn:Hx; [|done]. cbn.
  destruct (reconcile_completion x parsed now) as [[[x' stamp'] o']|] eqn:Hr; [|done]. intros [= <- <- <- <-]. bool_to_prop.
  split; [done|]. by exists i, parsed.
Qed.

Lemma complete_untouched f agent c body now f' c' effects :
  (∀ i it, items (central f) !! i = Some it → i_id it = i) →
  complete_body model_validate f agent c body now = Ok (f', c', effects) → c_status c = picked_up → commands f !! c_id c = Some c →
  untouched (c_agent_id c) f f'.
Proof using Type.
  intros Hkey H Hs Hc. pose proof (complete_body_ok _ _ _ _ _ _ _ _ H Hs) as (_ & Hput & _). split.
  - intros i d Hd Hne. rewrite Hput, lookup_insert_ne; [done|]. intros <-. rewrite Hc in Hd. by injection Hd as <-.
  - intros i Hi. unfold complete_body in H. destruct (command_state_machine _ _); [|done]. cbn [result_bind] in H.
    destruct (verify_step model_validate f c body now) as [v|] eqn:Hv; [|done]. cbn [result_bind] in H.
    destruct (match cp_result body with Some d => _ | None => _ end); [|done].
    destruct v as [[[[it it'] stamp] o]|]; [|by injection H as <- <- <-].
    destruct (row_ok it'); [|done]. injection H as <- <- <-.
    apply verify_step_item in Hv as (Hk & j & parsed & Hj & Hit & _). exists (c_id c), c.
    cbn [central set_items items set_commands set_central] in Hi. rewrite (Hkey j it Hit) in Hi.
    destruct (decide (j = i)) as [->|Hne]; [by split_and!|]. by rewrite lookup_insert_ne in Hi.
Qed.

(** C13: agents are kept apart.  A request on the agent plane that changes the commands or
    the catalogue presented the credentials of a registered, unrevoked agent; it leaves the
    commands of every other agent as they are, and the only catalogue row it may change is
    the item of one of that agent's in-flight verification commands. *)
Theorem agent_plane_isolated f locked now r a q :
  ok f → agents_keyed f → (∀ i it, items (central f) !! i = Some it → i_id it = i) →
  agent_request r = Some (a, q) → let f' := (serve f locked now r).1 in
  untouched a f f' ∧
  (commands f' ≠ commands f ∨ items (central f') ≠ items (central f) →
    agents_enabled settings = true ∧
    ∃ old, agents (central f) !! a = Some old ∧ revoked_at old = None ∧ credentials uni_lower settings a old q).
Proof using row_order_perm.
  intros Hok Hkey Hitems Hr. cbn zeta.
  destruct (agents_enabled settings) eqn:Hen; [|destruct r; try done; injection Hr as -> ->; cbn [Commands.serve];
    unfold agent_plane; rewrite Hen; (split; [by apply untouched_same|by intros [[]|[]]])].
  destruct (authenticated uni_lower settings f a q) as [[f1 agent]|s] eqn:Ha; [|destruct r; try done; injection Hr as -> ->;
    cbn [Commands.serve]; unfold agent_plane, poll_commands, ack_command, complete_command; rewrite Hen, Ha;
    (split; [by apply untouched_same|by intros [[]|[]]])].
  pose proof (authenticated_same _ _ _ _ _ Ha) as [Hc1 _]. pose proof (authenticated_items _ _ _ _ _ Ha) as Hi1.
  pose proof (authenticated_id _ _ _ _ _ Hkey Ha) as [Hid Hcred]. pose proof (ok_after_auth _ _ _ _ _ Hok Ha) as Hok1.
  split; [|done]. destruct r; try done; injection Hr as -> ->; cbn [Commands.serve]; unfold agent_plane; rewrite Hen; cbn [negb].
  - unfold poll_commands. rewrite Ha. destruct (poll_body _ _ _ _ _ _ _ _) as [[f2 l]|] eqn:Hp; cbn [fst]; [|by apply untouched_same].
    eapply untouched_after; [done|done|]. pose proof (poll_ok _ _ _ _ _ _ _ Hok1 Hp) as (rows & _ & _ & _ & _ & Hin & _ & Hout).
    split; [|intros i Hi; destruct Hi; by erewrite (poll_items f1)].
    intros i c Hc Hne. rewrite Hout; [done|]. intros (d & -> & Hd)%list_elem_of_fmap.
    destruct (Hin d Hd) as (Hd' & Hdel & _). unfold deliverable in Hdel. bool_to_prop. congruence.
  - unfold ack_command. rewrite Ha. destruct (_owned_command f1 agent command_id) as [c|] eqn:Hc; [|by apply untouched_same].
    apply owned_lookup in Hc as [Hc Hag]. destruct (negb _); [by apply untouched_same|].
    destruct (command_state_machine _ _); [|by apply untouched_same]. eapply untouched_after; [done|done|].
    split; [|done]. intros i d Hd Hne. cbn [commands set_commands fst]. rewrite lookup_insert_ne; [done|]. congruence.
  - unfold complete_command. rewrite Ha. destruct (_owned_command f1 agent command_id) as [c|] eqn:Hc; [|by apply untouched_same].
    apply owned_lookup in Hc as [Hc Hag]. destruct (bool_decide (c_status c = done)); [by apply untouched_same|].
    destruct (bool_decide (c_status c = picked_up)) eqn:Hs; [|by apply untouched_same]. cbn [negb].
    destruct (match cp_result body with Some d => _ | None => _ end) as [n|]; [|by apply untouched_same].
    destruct (Nat.ltb _ _); [by apply untouched_same|].
    destruct (complete_body _ _ _ _ _ _) as [[[f2 c'] e]|] eqn:Hb; cbn [fst]; [|by apply untouched_same].
    bool_to_prop. eapply untouched_after; [done|done|]. rewrite <- Hid, <- Hag. eapply complete_untouched; [|exact Hb|done|].
    + intros i it. rewrite Hi1. apply Hitems.
    + by rewrite (fo_id _ _ Hok1 _ _ Hc).
Qed.

(** *** One sweep at a time *)

(** The kinds whose endpoints refuse a second command *)
Definition ONCE_KINDS : list CommandKind := [agent_maintenance; reextract; reconcile; rehash_sweep].

Definition single (f : Fleet) (a : Z) (k : CommandKind) : Prop :=
  ∀ i j c d, commands f !! i = Some c → commands f !! j = Some d → c_agent_id c = a → c_agent_id d = a →
    c_kind c = k → c_kind d = k → live (c_status c) = true → live (c_status d) = true → i = j.

(** The rows a handler adds are of a kind that was not in flight, or not of a guarded kind. *)
Definition adds_single (f f' : Fleet) (a : Z) (k : CommandKind) : Prop :=
  ∀ i c, commands f !! i = None → commands f' !! i = Some c → c_agent_id c = a → c_kind c = k →
    in_flight row_order f a k = false.

Lemma add_command_kind f agent kind item payload ttl by_ now f' r a k :
  add_command new_command f agent kind item payload ttl by_ now = (f', r) →
  (kind = k → agent = a → in_flight row_order f a k = false) → adds_single f f' a k.
Proof using Type.
  unfold add_command. destruct (jsonb_ok payload); intros [= <- <-] Hk i c Hi Hc; [|congruence].
  cbn [commands c_id] in Hc. destruct (decide (new_command (commands_made f) = i)) as [He|Hne].
  - rewrite He, lookup_insert_eq in Hc. injection Hc as <-. cbn. auto.
  - rewrite lookup_insert_ne in Hc by done. congruence.
Qed.

Lemma adds_single_same f f' a k : commands f' = commands f → adds_single f f' a k.
Proof using Type. intros H i c Hi. rewrite H. congruence. Qed.

Lemma queue_once_single f agent kind payload ttl by_ now f' r a k :
  queue_once new_command row_order csettings f agent kind payload ttl by_ now = (f', r) → adds_single f f' a k.
Proof using Type.
  unfold queue_once. destruct (_live_agent f agent); [|intros [= <- <-]; by apply adds_single_same].
  destruct (in_flight row_order f agent kind) eqn:Hf; [intros [= <- <-]; by apply adds_single_same|].
  intros H. eapply add_command_kind; [exact H|]. by intros <- <-.
Qed.

Lemma in_flight_false f a k i c :
  in_flight row_order f a k = false → commands f !! i = Some c → c_agent_id c = a → c_kind c = k → live (c_status c) = false.
Proof using row_order_perm.
  intros Hf Hc Ha Hk. destruct (live (c_status c)) eqn:Hl; [|done]. exfalso.
  enough (in_flight row_order f a k = true) by congruence. apply existsb_elem. exists c.
  split; [apply elem_of_commands; by exists i|]. unfold live in Hl. bool_to_prop. by rewrite !bool_decide_eq_true_2.
Qed.

Lemma serve_made f locked now r :
  match r with RCancel _ _ | RPoll _ _ _ | RAck _ _ _ | RComplete _ _ _ _ | RSweep _ => True | _ => False end →
  ok f → ttl_positive csettings → ∀ a k, adds_single f (serve f locked now r).1 a k.
Proof using Inj0 row_order_perm.
  intros Hr Hok Httl a k i c Hi Hc. exfalso.
  destruct (ev_new _ _ _ _ _ _ (serve_evolves f locked now r Hok Httl) i c Hi Hc) as (_ & _ & _ & Hm).
  assert (commands_made (serve f locked now r).1 = commands_made f) as He; [|rewrite He in Hm; by apply (Nat.neq_succ_diag_r (commands_made f))].
  clear - Hr Hok row_order_perm. destruct r; try done; cbn [Commands.serve].
  - destruct (operator _ _ _ _ _ _ _ _ _) as [f' rep] eqn:H. apply operator_cases in H as [->|[by_ H]]; [done|].
    unfold cancel_command in H. repeat case_match; by simplify_eq.
  - unfold agent_plane. destruct (negb _); [done|]. unfold poll_commands.
    destruct (authenticated _ _ _ _ _) as [[f1 agent]|] eqn:Ha; [|done].
    pose proof (authenticated_same _ _ _ _ _ Ha) as [_ Hm].
    destruct (poll_body _ _ _ _ _ _ _ _) as [[f2 l]|] eqn:Hp; cbn [fst]; [|done].
    apply poll_ok in Hp as (_ & _ & _ & Hm2 & _); [congruence|]. by eapply ok_after_auth.
  - unfold agent_plane. destruct (negb _); [done|]. unfold ack_command.
    destruct (authenticated _ _ _ _ _) as [[f1 agent]|] eqn:Ha; [|done].
    pose proof (authenticated_same _ _ _ _ _ Ha) as [_ Hm]. by repeat case_match.
  - unfold agent_plane. destruct (negb _); [done|]. unfold complete_command.
    destruct (authenticated _ _ _ _ _) as [[f1 agent]|] eqn:Ha; [|done].
    pose proof (authenticated_same _ _ _ _ _ Ha) as [_ Hm].
    destruct (_owned_command f1 agent command_id) as [c|]; [|done]. destruct (bool_decide (c_status c = done)); [done|].
    destruct (bool_decide (c_status c = picked_up)) eqn:Hs; [|done]. cbn [negb].
    destruct (match cp_result body with Some d => _ | None => _ end) as [n|]; [|done].
    destruct (Nat.ltb _ _); [done|]. destruct (complete_body _ _ _ _ _ _) as [[[f2 c'] e]|] eqn:Hb; cbn [fst]; [|done].
    bool_to_prop. apply complete_body_ok in Hb as (_ & _ & ->); done.
  - unfold expire_agent_commands. cbn [fst]. destruct (negb _); [done|].
    destruct (sweep_ok f locked now limit Hok) as (m & -> & _). done.
Qed.

(** One sweep at a time.  The maintenance, re-extraction, reconcile and rehash endpoints
    never put a second live command of their kind on an agent; only the generic enqueue
    endpoint, asked for that very kind, can. *)
Theorem one_in_flight f locked now r a k :
  ok f → ttl_positive csettings → k ∈ ONCE_KINDS → single f a k →
  (∀ call body, r = REnqueue call a body → en_kind body ≠ k) →
  single (serve f locked now r).1 a k.
Proof using Inj0 row_order_perm.
  intros Hok Httl Hk Hsingle Henq. pose proof (serve_evolves f locked now r Hok Httl) as He.
  assert (adds_single f (serve f locked now r).1 a k) as Hadd.
  { destruct r; try (by apply serve_made); cbn [Commands.serve];
      destruct (operator _ _ _ _ _ _ _ _ _) as [f' rep] eqn:H; cbn [fst]; apply operator_cases in H as [->|[by_ H]];
      try (by apply adds_single_same); cbn beta in H.
    - unfold enqueue_command in H. repeat case_match; simplify_eq; try (by apply adds_single_same);
        (eapply add_command_kind; [exact H|]; intros Hkind <-; exfalso; by eapply Henq).
    - unfold suspend_agent in H. destruct (_live_agent f agent_id); [|simplify_eq; by apply adds_single_same].
      destruct (filterb _ _) as [|c l] eqn:Hl.
      + eapply add_command_kind; [exact H|]. intros <- _. exfalso. by elem_cases Hk.
      + injection H as <- <-. intros i d Hi Hd. cbn [commands set_commands] in Hd.
        assert (c ∈ rows_of f) as Hc by (eapply elem_of_filterb; rewrite Hl; left).
        pose proof (commands_lookup f c Hok Hc). destruct (decide (c_id c = i)) as [<-|Hne]; [congruence|].
        rewrite lookup_insert_ne in Hd by done. congruence.
    - by eapply queue_once_single.
    - by eapply queue_once_single.
    - by eapply queue_once_single.
    - unfold rehash_sweep_agent in H. repeat case_match; simplify_eq; try (by apply adds_single_same).
      by eapply queue_once_single. }
  intros i j c d Hc Hd Hca Hda Hck Hdk Hcl Hdl.
  destruct (commands f !! i) as [c0|] eqn:Hc0, (commands f !! j) as [d0|] eqn:Hd0.
  - destruct (ev_old _ _ _ _ _ _ He i c0 Hc0) as (c1 & Hc1 & Hcs). destruct (ev_old _ _ _ _ _ _ He j d0 Hd0) as (d1 & Hd1 & Hds).
    assert (c1 = c) as -> by congruence. assert (d1 = d) as -> by congruence.
    pose proof (row_step_columns _ _ _ _ _ Hcs) as (_ & Ha1 & Hk1 & _). pose proof (row_step_columns _ _ _ _ _ Hds) as (_ & Ha2 & Hk2 & _).
    apply (Hsingle i j c0 d0); try congruence; by eapply row_step_live.
  - pose proof (Hadd j d Hd0 Hd Hda Hdk) as Hf. destruct (ev_old _ _ _ _ _ _ He i c0 Hc0) as (c1 & Hc1 & Hcs).
    assert (c1 = c) as -> by congruence. pose proof (row_step_columns _ _ _ _ _ Hcs) as (_ & Ha1 & Hk1 & _).
    exfalso. assert (live (c_status c0) = true) as Hl by (by eapply row_step_live).
    rewrite (in_flight_false f a k i c0 Hf Hc0) in Hl; congruence.
  - pose proof (Hadd i c Hc0 Hc Hca Hck) as Hf. destruct (ev_old _ _ _ _ _ _ He j d0 Hd0) as (d1 & Hd1 & Hds).
    assert (d1 = d) as -> by congruence. pose proof (row_step_columns _ _ _ _ _ Hds) as (_ & Ha2 & Hk2 & _).
    exfalso. assert (live (c_status d0) = true) as Hl by (by eapply row_step_live).
    rewrite (in_flight_false f a k j d0 Hf Hd0) in Hl; congruence.
  - destruct (ev_new _ _ _ _ _ _ He i c Hc0 Hc) as (_ & _ & -> & _). by destruct (ev_new _ _ _ _ _ _ He j d Hd0 Hd) as (_ & _ & -> & _).
Qed.
End requests.

(** ** Examples *)

(** Two delivery attempts, an hour to live, a lease of five minutes *)
Definition example_csettings : CommandSettings := mkCommandSettings 3600 86400 300 2 50 16384 65536 16384.
Definition example_command (s : CommandState) : AgentCommand :=
  mkCommand 100 7 reextract None (JDict []) s 0 0 0 (3600 * SECOND) None None None None.
Definition example_fleet (s : CommandState) : Fleet := mkFleet example_central ∅ {[100 := example_command s]} 1 ∅.
Definition example_request : AgentRequest := mkAgentRequest (Some (txt "Bearer fp")) None None None.
Definition unlocked (i : Z) : bool := false.
Definition example_poll : request := RPoll 7 (mkPoll 10 None None None) example_request.
Definition example_serve : Fleet → (Z → bool) → Z → request → Fleet * reply :=
  serve (λ c, [c]) (λ _, []) id (λ _, None) example_id (λ l, l) example_settings example_csettings false ∅.
Definition example_serving : Fleet → list (Z * (Z → bool) * request) → Fleet :=
  run (λ c, [c]) (λ _, []) id (λ _, None) example_id (λ l, l) example_settings example_csettings false ∅.

Lemma example_row_order (l : list AgentCommand) : l ≡ₚ l.
Proof. done. Qed.

Lemma example_fleet_ok s : fleet_ok example_id (example_fleet s).
Proof.
  constructor; unfold example_fleet; cbn [commands commands_made].
  - by intros i c [<- <-]%lookup_singleton_Some.
  - intros i c [<- <-]%lookup_singleton_Some. exists 0%nat. split; [lia|done].
Qed.

Lemma example_keyed s : agents_keyed (example_fleet s).
Proof. intros a ag. unfold example_fleet, example_central. cbn [central agents]. by intros [<- <-]%lookup_singleton_Some. Qed.

Lemma example_ttl : ttl_positive example_csettings.
Proof. done. Qed.

Lemma example_lookup s : commands (example_fleet s) !! 100 = Some (example_command s).
Proof. apply lookup_singleton_eq. Qed.

Lemma command_lifecycle_witness :
  ∃ c', commands (example_serve (example_fleet pending) unlocked 5 example_poll).1 !! 100 = Some c' ∧
    row_step 300 2 5 (example_command pending) c'.
Proof.
  destruct (command_lifecycle (λ c, [c]) (λ _, []) id (λ _, None) example_id (λ l, l) example_settings example_csettings
    false ∅ example_row_order (example_fleet pending) unlocked 5 example_poll (example_fleet_ok _) example_ttl) as (H & _).
  destruct (H 100 _ (example_lookup _)) as (c' & Hc' & Hs & _). by exists c'.
Defined.

Lemma terminal_immutable_witness :
  commands (example_serving (example_fleet cancelled) [(5, unlocked, example_poll); (3600 * SECOND, unlocked, RSweep 500)]) !! 100 =
    Some (example_command cancelled).
Proof.
  by apply (terminal_immutable (λ c, [c]) (λ _, []) id (λ _, None) example_id (λ l, l) example_settings example_csettings
    false ∅ example_row_order (example_fleet cancelled) _ 100 _ (example_fleet_ok _) example_ttl (example_lookup _)).
Defined.

Lemma commands_terminate_witness :
  ∃ c', commands (example_serving (example_fleet pending) [(3600 * SECOND, unlocked, RSweep 500)]) !! 100 = Some c' ∧
    command_is_terminal (c_status c') = true.
Proof.
  apply (commands_terminate (λ c, [c]) (λ _, []) id (λ _, None) example_id (λ l, l) example_settings example_csettings
    false ∅ example_row_order (example_fleet pending) _ (3600 * SECOND) 100 _ (example_fleet_ok _) example_ttl eq_refl
    (example_lookup _)); [done| | |].
  - by intros now locked r [= -> _ _]%list_elem_of_singleton.
  - by intros now locked limit [= _ -> _]%list_elem_of_singleton.
  - assert (size (overdue_ids (λ l, l) (example_fleet pending) (3600 * SECOND)) = 1%nat) as -> by (vm_compute; reflexivity).
    cbn. lia.
Defined.

(** The agent picks the command up twice and dies each time; it is not offered a third time. *)
Definition example_crashes : list (Z * (Z → bool) * request) :=
  [(5, unlocked, example_poll); (400 * SECOND, unlocked, RSweep 500); (401 * SECOND, unlocked, example_poll);
   (800 * SECOND, unlocked, RSweep 500); (801 * SECOND, unlocked, example_poll)].
Definition example_deliveries : nat :=
  deliveries (λ c, [c]) (λ _, []) id (λ _, None) example_id (λ l, l) example_settings example_csettings false ∅ 100
    (example_fleet pending) example_crashes.

Lemma deliveries_bounded_witness : example_deliveries = 2%nat ∧ Z.of_nat example_deliveries ≤ 2.
Proof.
  split; [vm_compute; reflexivity|].
  by apply (deliveries_bounded (λ c, [c]) (λ _, []) id (λ _, None) example_id (λ l, l) example_settings example_csettings
    false ∅ example_row_order (example_fleet pending) example_crashes 100 _ (example_fleet_ok _) example_ttl (example_lookup _)).
Defined.

Lemma poll_fifo_witness :
  ∃ f' l, poll_commands (λ c, [c]) (λ _, []) (λ l, l) example_settings example_csettings (example_fleet pending) unlocked 7
      (mkPoll 10 None None None) example_request 5 = (f', Commands l) ∧ length l = 1%nat ∧
    ∀ c', c' ∈ l → ∃ c, c' = delivered 5 c ∧ c_agent_id c = 7.
Proof.
  destruct (poll_commands (λ c, [c]) (λ _, []) (λ l, l) example_settings example_csettings (example_fleet pending) unlocked 7
    (mkPoll 10 None None None) example_request 5) as [f' rep] eqn:H.
  assert (match (poll_commands (λ c, [c]) (λ _, []) (λ l, l) example_settings example_csettings (example_fleet pending) unlocked 7
    (mkPoll 10 None None None) example_request 5).2 with Commands _ => true | _ => false end = true) as Hrep by (vm_compute; reflexivity).
  rewrite H in Hrep. cbn [snd] in Hrep. destruct rep as [| | |l]; [discriminate..|]. exists f', l. split; [done|].
  destruct (poll_fifo (λ c, [c]) (λ _, []) example_id (λ l, l) example_settings example_csettings example_row_order
    (example_fleet pending) unlocked 7 (mkPoll 10 None None None) example_request 5 f' l (example_fleet_ok _) (example_keyed _) H)
    as (_ & Hlen & _ & Hl & _).
  split.
  - rewrite Hlen. vm_compute. reflexivity.
  - intros c' Hc'. destruct (Hl c' Hc') as (c & _ & Ha & _ & _ & -> & _). by exists c.
Defined.

Lemma agent_plane_isolated_witness :
  commands (example_serve (example_fleet pending) unlocked 5 example_poll).1 !! 100 ≠ Some (example_command pending) ∧
  ∃ old, agents example_central !! 7 = Some old ∧ revoked_at old = None ∧
    credentials (λ c, [c]) example_settings 7 old example_request.
Proof.
  assert (commands (example_serve (example_fleet pending) unlocked 5 example_poll).1 !! 100 ≠ Some (example_command pending)) as Hne.
  { assert (commands (example_serve (example_fleet pending) unlocked 5 example_poll).1 !! 100 =
      Some (delivered 5 (example_command pending))) as -> by (vm_compute; reflexivity). discriminate. }
  split; [done|].
  apply (agent_plane_isolated (λ c, [c]) (λ _, []) id (λ _, None) example_id (λ l, l) example_settings example_csettings
    false ∅ example_row_order (example_fleet pending) unlocked 5 example_poll 7 example_request (example_fleet_ok _) (example_keyed _)).
  - intros i it. unfold example_fleet, example_central. cbn [central items]. by rewrite lookup_empty.
  - done.
  - left. intros He. destruct Hne. unfold example_serve. rewrite He. apply example_lookup.
Defined.

Definition example_caller : OperatorCall := mkCall None None (mkRequest ∅ ∅ None).

Lemma one_in_flight_witness :
  (example_serve (example_fleet pending) unlocked 5 (RReextract example_caller 7 false None)).2 = CHttpError 409 ∧
  single (example_serve (example_fleet pending) unlocked 5 (RReextract example_caller 7 false None)).1 7 reextract.
Proof.
  split; [vm_compute; reflexivity|].
  apply (one_in_flight (λ c, [c]) (λ _, []) id (λ _, None) example_id (λ l, l) example_settings example_csettings
    false ∅ example_row_order (example_fleet pending) unlocked 5 _ 7 reextract (example_fleet_ok _) example_ttl); [| |by intros].
  - right. left.
  - intros i j c d. unfold example_fleet. cbn [commands]. by intros [<- _]%lookup_singleton_Some [<- _]%lookup_singleton_Some.
Defined.

(** The generic enqueue endpoint takes any kind: a caller with write scope, whom the rehash
    endpoint refuses, queues a rehash of the whole library, past its size ceiling and beside
    the one in flight. *)
Definition example_user : OperatorCall := mkCall None (Some (mkPrincipal "u" "user" None)) (mkRequest ∅ ∅ None).
Definition as_user (r : request) (f : Fleet) : Fleet * reply :=
  serve (λ c, [c]) (λ _, []) id (λ _, None) example_id (λ l, l) example_settings example_csettings true ∅ f unlocked 5 r.
Definition whole_library : json := JDict [(txt "min_size", JInt 1); (txt "max_size", JInt (10 ^ 18))].
Definition enqueue_rehash : request := REnqueue example_user 7 (mkEnqueue rehash_sweep None whole_library None).

Lemma enqueue_skips_rehash_checks :
  (as_user (RRehash example_user 7 (mkRehash false None None None)) (example_fleet pending)).2 = CHttpError 403 ∧
  let f1 := (as_user enqueue_rehash (example_fleet pending)).1 in
  let f2 := (as_user enqueue_rehash f1).1 in
  (c_payload <$> commands f2 !! 101) = Some whole_library ∧ (c_status <$> commands f2 !! 101) = Some pending ∧
  (c_kind <$> commands f2 !! 102) = Some rehash_sweep ∧ (c_status <$> commands f2 !! 102) = Some pending.
Proof. vm_compute. by split_and!. Qed.
