(* ===== verification/AgentCert.v ===== *)
(** * Agent certificates ([agentcert.py], the CA part of [agentsync.py])

    The proof of possession by which an agent rotates its certificate, the pinned root it
    is checked against, and the one-time tokens central mints for the CA. *)
From S2P Require Import Prelude PyStr Uuid Utf8 PathLabel Text Json AgentSync.
From Stdlib Require Import SpecFloat.
From stdpp Require Import options.

(** The settings of enrollment; lifetimes in seconds unless they say otherwise *)
Record EnrollSettings := mkEnrollSettings {
  ca_url : text;
  ca_fingerprint : text;
  ca_provisioner : text;
  ca_provisioner_jwk : option text;
  ca_ott_ttl_seconds : Z;
  agent_cert_ttl_hours : Z;
  agent_plane_url : text;
  agent_rebind_max_skew_seconds : Z;
  enrollment_token_ttl_minutes : Z;
  agent_online_threshold_seconds : Z;
}.

Inductive rebind_reason :=
  BadChain | ExpiredCert | BadSignature | StaleTimestamp | SanMismatch | CaRootUnavailable | BadRequest.
(** What [verify_rebind] and [get_ca_root] raise; the others are not caught. *)
Inductive rebind_error := RebindError (reason : rebind_reason) | OverflowError | TypeError | EncodeError.
Global Instance rebind_reason_eq_dec : EqDecision rebind_reason.
Proof. solve_decision. Defined.

Definition NEWLINE : Z := 10.
Definition REBIND_CONTEXT : text := txt "filearr-agent-rebind-v1".
Definition MAX_CHAIN_CERTS : nat := 4.

(** The bytes both sides sign *)
Definition canonical_payload (agent_id : text) (timestamp : Z) (fingerprint : text) : option (list Z) :=
  a ← utf8_encode agent_id;
  f ← utf8_encode fingerprint;
  Some (join_text NEWLINE [REBIND_CONTEXT; a; int_text timestamp; f]).

Section agentcert.
Context (uni_lower : Z → list Z).
(** [hashlib.sha256(data).hexdigest()] *)
Context (sha256_hex : list Z → string).
(** The [cryptography] package: certificates, their DER encoding, validity window, DNS
    names and elliptic-curve key, the parsers of one and of several PEM blocks, the client
    verifier at a time and the check of an ECDSA signature.  [None] and [false]: it raises. *)
Context {Cert PublicKey : Type} (der : Cert → list Z) (not_valid_before not_valid_after : Cert → Z).
Context (dns_names : Cert → list text) (ec_key : Cert → option PublicKey).
Context (load_pem : text → option Cert) (load_pem_chain : text → option (list Cert)).
Context (client_verifies : Cert → Z → Cert → list Cert → bool) (ecdsa_verifies : PublicKey → list Z → list Z → bool).
Context (settings : EnrollSettings).

Definition _norm_fp (fp : text) : text :=
  tlower uni_lower (strip_space (filterb (λ c, negb (c =? COLON)) fp)).

(** ** The pinned root *)

Definition fingerprint_of (c : Cert) : text := txt (sha256_hex (der c)).

(** [len(pem)] *)
Definition json_len (j : json) : option nat :=
  match j with JText t => Some (length t) | JList l => Some (length l) | JDict l => Some (length l) | _ => None end.

Definition PEM_MAX : nat := 65536.

(** The certificate in the answer of the CA, [None] when the request fails *)
Definition root_of (answer : option json) : result rebind_error Cert :=
  let unavailable := Err (RebindError CaRootUnavailable) in
  match answer with
  | Some (JDict l) =>
      let pem := default (JText []) (dict_get (txt "ca") l) in
      if negb (truthy pem) then unavailable
      else match json_len pem with
        | None => Err TypeError
        | Some n =>
            if (PEM_MAX <? n)%nat then unavailable
            else match pem with
              | JText t => match load_pem t with Some c => Ok c | None => unavailable end
              | _ => unavailable
              end
        end
  | _ => unavailable
  end.

(** [fetch] is what a GET of a URL answers now. *)
Definition get_ca_root (cache : gmap (text * text) Cert) (fetch : text → option json) :
    gmap (text * text) Cert * result rebind_error Cert :=
  if bool_decide (ca_url settings = []) || bool_decide (ca_fingerprint settings = [])
  then (cache, Err (RebindError CaRootUnavailable))
  else
    let key := (ca_url settings, _norm_fp (ca_fingerprint settings)) in
    match cache !! key with
    | Some root => (cache, Ok root)
    | None =>
        match root_of (fetch (rstrip SLASH (ca_url settings) ++ txt "/root/" ++ key.2)) with
        | Err e => (cache, Err e)
        | Ok root =>
            if bool_decide (fingerprint_of root = key.2) then (<[key := root]> cache, Ok root)
            else (cache, Err (RebindError CaRootUnavailable))
        end
    end.

(** ** Proof of possession *)

(** [abs(now.timestamp() - timestamp) > max_skew_s]; an [int] beyond the floats raises. *)
Definition stale_by (now timestamp : Z) : option bool :=
  match float_of_int timestamp with
  | S754_infinity _ => None
  | x => Some (SFltb (float_of_int (agent_rebind_max_skew_seconds settings))
                (SFabs (SFsub prec emax (AgentSync.timestamp now) x)))
  end.

Definition verify_rebind (chain_pem : text) (agent_id : text) (timestamp : Z) (signature : list Z) (root : Cert) (now : Z) :
    result rebind_error text :=
  match stale_by now timestamp with
  | None => Err OverflowError
  | Some true => Err (RebindError StaleTimestamp)
  | Some false =>
      match load_pem_chain chain_pem with
      | None | Some [] => Err (RebindError BadChain)
      | Some (leaf :: intermediates) =>
          if (MAX_CHAIN_CERTS <? length (leaf :: intermediates))%nat then Err (RebindError BadChain)
          else if negb (client_verifies root now leaf intermediates) then
            if (not_valid_after leaf <? now) || (now <? not_valid_before leaf)
            then Err (RebindError ExpiredCert) else Err (RebindError BadChain)
          else if negb (mem agent_id (dns_names leaf)) then Err (RebindError SanMismatch)
          else
            let fingerprint := fingerprint_of leaf in
            match canonical_payload agent_id timestamp fingerprint with
            | None => Err EncodeError
            | Some payload =>
                match ec_key leaf with
                | None => Err (RebindError BadSignature)
                | Some key => if ecdsa_verifies key signature payload then Ok fingerprint else Err (RebindError BadSignature)
                end
            end
      end
  end.
End agentcert.

(** ** One-time tokens for the CA *)

Definition CA_OTT_SIGN_PATH : text := txt "/1.0/sign".

(** Why central cannot mint a token *)
Inductive ott_unavailable := JwkUnset | JwkMalformed | CaUrlUnset.

Section ott.
(** [json.loads], [None] when it raises; the key type, its thumbprint and the signer of
    [joserfc], [None] when they raise *)
Context (json_loads : text → option json).
Context {ECKey : Type} (import_key : json → option ECKey) (thumbprint : ECKey → text) (jwt_encode : json → json → ECKey → option text).
Context (settings : EnrollSettings).

Definition is_text (s : string) (j : option json) : bool := bool_decide (j = Some (JText (txt s))).
Definition member (key : string) (l : list (text * json)) : bool :=
  match dict_get (txt key) l with Some j => truthy j | None => false end.

Definition load_provisioner_jwk (raw_jwk : option text) : option (list (text * json)) :=
  raw ← raw_jwk;
  if bool_decide (strip_space raw = []) then None
  else match json_loads raw with
    | Some (JDict data) =>
        if negb (is_text "EC" (dict_get (txt "kty") data)) || negb (is_text "P-256" (dict_get (txt "crv") data)) then None
        else if forallb (λ k, member k data) ["x"; "y"; "d"] then Some data else None
    | _ => None
    end.

Definition ott_claims (agent_id : Z) (now : Z) (jti : text) : json :=
  let sub := JText (txt (uuid_str agent_id)) in
  let issued := now / 1000000 in
  JDict [(txt "iss", JText (ca_provisioner settings));
    (txt "aud", JText (rstrip SLASH (ca_url settings) ++ CA_OTT_SIGN_PATH));
    (txt "sub", sub); (txt "sans", JList [sub]);
    (txt "iat", JInt issued); (txt "nbf", JInt issued); (txt "exp", JInt (issued + ca_ott_ttl_seconds settings));
    (txt "jti", JText jti)].

(** [jwk.get("kid") or key.thumbprint()] *)
Definition key_id (jwk : list (text * json)) (key : ECKey) : json :=
  match dict_get (txt "kid") jwk with
  | Some j => if truthy j then j else JText (thumbprint key)
  | None => JText (thumbprint key)
  end.

(** [None]: [CaOttError] *)
Definition mint_ca_ott (agent_id : Z) (jwk : list (text * json)) (now : Z) (jti : text) : option (text * text) :=
  key ← import_key (JDict jwk);
  let header := JDict [(txt "alg", JText (txt "ES256")); (txt "typ", JText (txt "JWT")); (txt "kid", key_id jwk key)] in
  token ← jwt_encode header (ott_claims agent_id now jti) key;
  Some (token, jti).

Definition ca_ott_unavailable_reason : option ott_unavailable :=
  match load_provisioner_jwk (ca_provisioner_jwk settings) with
  | None =>
      if bool_decide (strip_space (default [] (ca_provisioner_jwk settings)) = []) then Some JwkUnset else Some JwkMalformed
  | Some _ => if bool_decide (ca_url settings = []) then Some CaUrlUnset else None
  end.

Definition try_mint_ca_ott (agent_id : Z) (now : Z) (jti : text) : option (text * text) :=
  jwk ← load_provisioner_jwk (ca_provisioner_jwk settings);
  if bool_decide (ca_url settings = []) then None else mint_ca_ott agent_id jwk now jti.
End ott.
