(* ===== verification/Enrollment.v ===== *)
(** * Agent enrollment ([agentsync.py], [api/agents.py])

    Enrollment tokens, the register-first handshake, the binding and rotation of an
    agent's certificate, renaming, revocation and purge.  The state extends [Fleet] with
    the columns and tables only this surface uses. *)
From S2P Require Import Prelude PyStr Uuid Utf8 PathLabel Text Json Catalog Rbac Access Move AgentMeta AgentSync Reconcile Commands AgentCert.
From stdpp Require Import options.

(** ** The state *)

Record EnrollmentToken := mkToken {
  token_hash : text;
  config_group_names : option (list text);
  t_expires_at : Z;
  consumed_at : option Z;
  consumed_by : option Z;
  t_created_at : Z;
}.

Record ConfigGroup := mkConfigGroup { cg_id : Z; cg_name : text; is_system : bool }.

(** [platforms] and [enroll_secrets] are columns of the agents table (no entry: [NULL]);
    [roots] is the process's cache of CA roots; [draws] counts the tokens drawn from
    [secrets]. *)
Record Registry (Cert : Type) := mkRegistry {
  fleet : Fleet;
  platforms : gmap Z text;
  enroll_secrets : gmap Z text;
  tokens : gmap text EnrollmentToken;
  config_groups : list ConfigGroup;
  members : gset (Z * Z);
  roots : gmap (text * text) Cert;
  agents_made : nat;
  draws : nat;
}.
Arguments mkRegistry {Cert}.
Arguments fleet {Cert}. Arguments platforms {Cert}. Arguments enroll_secrets {Cert}. Arguments tokens {Cert}.
Arguments config_groups {Cert}. Arguments members {Cert}. Arguments roots {Cert}. Arguments agents_made {Cert}.
Arguments draws {Cert}.

Definition PLATFORMS : list text := map txt ["windows"; "macos"; "linux"].
Definition ENROLL_TOKEN_PREFIX : text := txt "fae".

Inductive reason := UnknownToken | Consumed | Expired | BadPlatform | AlreadyBound | BadSecret | Revoked | UnknownAgent | NotActive.
Inductive enroll_error :=
  | EnrollmentError (r : reason)
  | IntegrityError
  | BadColumn
  | NotEncodable.

(** [_enrollment_http]; what is not an [EnrollmentError] answers 500. *)
Definition _enrollment_http (e : enroll_error) : Z :=
  match e with
  | EnrollmentError (UnknownToken | Consumed | Expired | BadSecret) => 401
  | EnrollmentError AlreadyBound => 409
  | EnrollmentError (Revoked | NotActive) => 403
  | EnrollmentError UnknownAgent => 404
  | EnrollmentError BadPlatform => 400
  | _ => 500
  end.

Definition classify_token (row : EnrollmentToken) (now : Z) : option reason :=
  match consumed_at row with
  | Some _ => Some Consumed
  | None => if t_expires_at row <=? now then Some Expired else None
  end.

Definition token_status (row : EnrollmentToken) (now : Z) : string :=
  match consumed_at row with
  | Some _ => "consumed"
  | None => if t_expires_at row <=? now then "expired" else "active"
  end.

Definition agent_status (a : Agent) : string :=
  match revoked_at a with
  | Some _ => "revoked"
  | None => match cert_fingerprint a with Some _ => "active" | None => "pending" end
  end.

(** ** Bodies of requests *)

Definition sized (lo hi : nat) (t : text) : bool :=
  bool_decide (is_Some (utf8_encode t)) && (lo <=? length t)%nat && (length t <=? hi)%nat.
Definition opt_sized (lo hi : nat) (t : option text) : bool := match t with Some t => sized lo hi t | None => true end.
Definition nonempty (t : text) : bool := bool_decide (is_Some (utf8_encode t)) && negb (bool_decide (t = [])).

Record TokenMintIn := mkTokenMint { group_names : list text; ttl_minutes : option Z }.
Definition mint_valid (b : TokenMintIn) : bool :=
  (length (group_names b) <=? 32)%nat && match ttl_minutes b with Some n => (1 <=? n) && (n <=? 1440) | None => true end.

Record RegisterIn := mkRegister {
  r_token : text;
  r_hostname : text;
  r_platform : text;
  r_name : option text;
  r_agent_version : option text;
}.
Definition register_valid (b : RegisterIn) : bool :=
  nonempty (r_token b) && sized 1 255 (r_hostname b) && opt_sized 0 255 (r_name b) && opt_sized 0 64 (r_agent_version b).

Record CertBindIn := mkCertBind { enroll_secret : text; b_fingerprint : text }.
Definition bind_valid (b : CertBindIn) : bool := nonempty (enroll_secret b) && sized 1 256 (b_fingerprint b).

Record RebindIn := mkRebind { cert_chain_pem : text; rb_timestamp : Z; signature : text }.
Definition rebind_valid (b : RebindIn) : bool := sized 1 32768 (cert_chain_pem b) && sized 1 2048 (signature b).

(** The validator of [AgentPatchIn]: the stripped name, [None] for a 422 *)
Definition patch_name (name : option text) : option text :=
  t ← name;
  if sized 1 255 t then or_none (strip_space t) else None.

(** ** Replies *)

Inductive enroll_reply :=
  | EHttpError (status : Z)
  | EServerError (e : enroll_error)
  | Minted (token hash : text) (expires : Z)
  | TokenDeleted
  | Registered (agent : Z) (secret : text) (ca_ott : option text) (agent_plane_url : option text) (warning : option text)
  | AgentOut (a : Agent) (status : string)
  | OttIssued (ca_ott : text)
  | Summary (total connected disconnected pending revoked : nat).

Definition agent_out (a : Agent) : enroll_reply := AgentOut a (agent_status a).

(** The search documents removed after the commit *)
Inductive enroll_effect := DeleteDocs (ids : list Z).

(** ** Foreign keys *)

(** Rows of [m] whose [sidecar_of] is in [gone], transitively; one round per row is enough. *)
Fixpoint cascade (fuel : nat) (m : rows) (gone : gset Z) : gset Z :=
  match fuel with
  | O => gone
  | S k =>
      cascade k m (gone ∪ dom (filter (λ '(_, it), match i_sidecar_of it with Some p => bool_decide (p ∈ gone) | None => false end = true) m))
  end.
Definition items_of (m : rows) (libs : list Z) : gset Z :=
  dom (filter (λ '(_, it), i_library_id it ∈ libs) m).

(** [DELETE FROM libraries]: items cascade, and with them the commands on them; the ledger
    keeps its rows. *)
Definition drop_libraries (f : Fleet) (libs : list Z) : Fleet :=
  let c := central f in
  let gone := cascade (size (items c)) (items c) (items_of (items c) libs) in
  mkFleet
    (mkCentral (filter (λ '(i, _), i ∉ gone) (items c)) (filterb (λ l, negb (bool_decide (al_id l ∈ libs))) (libraries c))
       (agents c)
       ((λ r, mkLedger (match lr_item_id r with Some i => if bool_decide (i ∈ gone) then None else Some i | None => None end)
                (op r) (applied_at r)) <$> ledger c)
       (sessions c) (staging c) (items_made c) (libraries_made c) (sessions_made c))
    (adverts f)
    (filter (λ '(_, k), match c_item_id k with Some i => bool_decide (i ∉ gone) | None => true end = true) (commands f))
    (commands_made f)
    (filter (λ '(i, _), i ∉ gone) (verified f)).

(** [DELETE FROM agents] where no library has the agent any more *)
Definition drop_agent_row (f : Fleet) (agent_id : Z) : Fleet :=
  let c := keep_sessions (λ s, negb (rs_agent_id s =? agent_id)) (central f) in
  mkFleet
    (mkCentral (items c)
       (map (λ l, mkAgentLibrary (al_id l) (al_name l) (al_root_path l)
                    (if bool_decide (source_agent_id l = Some agent_id) then None else source_agent_id l) (agent_library_ref l))
          (libraries c))
       (delete agent_id (agents c)) (filter (λ '((a, _), _), a ≠ agent_id) (ledger c))
       (sessions c) (staging c) (items_made c) (libraries_made c) (sessions_made c))
    (delete agent_id (adverts f)) (filter (λ '(_, k), c_agent_id k ≠ agent_id) (commands f)) (commands_made f) (verified f).

Definition unlink_token (agent_id : Z) (row : EnrollmentToken) : EnrollmentToken :=
  mkToken (token_hash row) (config_group_names row) (t_expires_at row) (consumed_at row)
    (if bool_decide (consumed_by row = Some agent_id) then None else consumed_by row) (t_created_at row).

(** Resolves the names of a token: the groups to join and the names no group has *)
Definition resolve_group (groups : list ConfigGroup) (st : list ConfigGroup * list text) (want : text) :
    list ConfigGroup * list text :=
  match List.find (λ g, bool_decide (cg_name g = want)) groups with
  | None => (st.1, st.2 ++ [want])
  | Some g => if is_system g then st else (st.1 ++ [g], st.2)
  end.
Definition resolve_groups (groups : list ConfigGroup) (wanted : list text) : list ConfigGroup * list text :=
  foldl (resolve_group groups) ([], []) wanted.

(** What a request finds outside the tables it locks: the clock, the libraries with a scan
    that runs or stops, and what a GET of a URL answers *)
Record Moment := mkMoment { now : Z; scanning : Z → bool; fetch : text → option json }.

Inductive enroll_request :=
  | QMint (call : OperatorCall) (body : TokenMintIn)
  | QRevokeToken (call : OperatorCall) (hash : text) (force : bool)
  | QRegister (body : RegisterIn)
  | QBind (agent_id : Z) (body : CertBindIn)
  | QRebind (agent_id : Z) (body : RebindIn)
  | QReissue (call : OperatorCall) (agent_id : Z)
  | QUpdate (call : OperatorCall) (agent_id : Z) (name : option text)
  | QRevoke (call : OperatorCall) (agent_id : Z) (purge delete_libraries : bool)
  | QSummary (call : OperatorCall).

Section enrollment.
Context (uni_lower : Z → list Z) (uni_printable : Z → bool).
(** SHA-256 of the bytes of a credential, in hexadecimal; of an API key *)
Context (sha256_hex : list Z → string) (sha256 : string → string).
(** [secrets.token_urlsafe(n)], the k-th draw; the ids of new agents *)
Context (token_urlsafe : Z → nat → text) (new_agent : nat → Z).
(** The order an unordered query returns ids in *)
Context (id_order : list Z → list Z).
(** [base64.b64decode(validate=True)] and [json.loads], [None] when they raise *)
Context (b64decode : text → option (list Z)) (json_loads : text → option json).
(** The [cryptography] and [joserfc] packages, as in [AgentCert] *)
Context {Cert PublicKey : Type} (der : Cert → list Z) (not_valid_before not_valid_after : Cert → Z).
Context (dns_names : Cert → list text) (ec_key : Cert → option PublicKey).
Context (load_pem : text → option Cert) (load_pem_chain : text → option (list Cert)).
Context (client_verifies : Cert → Z → Cert → list Cert → bool) (ecdsa_verifies : PublicKey → list Z → list Z → bool).
Context {ECKey : Type} (import_key : json → option ECKey) (thumbprint : ECKey → text) (jwt_encode : json → json → ECKey → option text).
Context (settings : SyncSettings) (esettings : EnrollSettings) (auth_enabled : bool) (_roles : gmap string Role).

Implicit Type r : Registry Cert.

Definition set_fleet r (f : Fleet) : Registry Cert :=
  mkRegistry f (platforms r) (enroll_secrets r) (tokens r) (config_groups r) (members r) (roots r) (agents_made r) (draws r).
Definition set_agent_row r (a : Agent) : Registry Cert :=
  set_fleet r (set_central (fleet r) (set_agent (central (fleet r)) a)).
Definition set_tokens r (t : gmap text EnrollmentToken) : Registry Cert :=
  mkRegistry (fleet r) (platforms r) (enroll_secrets r) t (config_groups r) (members r) (roots r) (agents_made r) (draws r).
Definition set_roots r (m : gmap (text * text) Cert) : Registry Cert :=
  mkRegistry (fleet r) (platforms r) (enroll_secrets r) (tokens r) (config_groups r) (members r) m (agents_made r) (draws r).
Definition drew r : Registry Cert :=
  mkRegistry (fleet r) (platforms r) (enroll_secrets r) (tokens r) (config_groups r) (members r) (roots r) (agents_made r) (S (draws r)).
Definition agents_of r : gmap Z Agent := agents (central (fleet r)).

(** ** Tokens and secrets *)

Definition _sha256_hex (raw : text) : option text := bs ← utf8_encode raw; Some (txt (sha256_hex bs)).

Definition generate_enrollment_token (k : nat) : option (text * text) :=
  let raw := ENROLL_TOKEN_PREFIX ++ txt "_" ++ token_urlsafe 32 k in
  h ← _sha256_hex raw; Some (raw, h).
Definition generate_enroll_secret (k : nat) : option (text * text) :=
  let raw := token_urlsafe 24 k in
  h ← _sha256_hex raw; Some (raw, h).

Definition mint_enrollment_token r (names : list text) (ttl_seconds now : Z) : result enroll_error (Registry Cert * text * EnrollmentToken) :=
  match generate_enrollment_token (draws r) with
  | None => Err NotEncodable
  | Some (raw, h) =>
      let row := mkToken h (match names with [] => None | _ => Some names end) (now + ttl_seconds * SECOND) None None now in
      if negb (jsonb_ok (JList (map JText names))) then Err BadColumn
      else match tokens r !! h with
        | Some _ => Err IntegrityError
        | None => Ok (set_tokens (drew r) (<[h := row]> (tokens r)), raw, row)
        end
  end.

(** ** Registration *)

Definition group_warning (unknown : list text) : option text :=
  match unknown with
  | [] => None
  | _ => Some (txt "unknown config group(s) " ++ join_comma (map (repr_text uni_printable) unknown) ++
               txt "; the agent enrolled without them")
  end.

Definition display_name (name : option text) (host : text) : text :=
  match name with Some (x :: n) => x :: n | _ => host end.

(** [session.add] of the agent and of its memberships, and the consumption of the token *)
Definition enroll_row r (h : text) (row : EnrollmentToken) (body : RegisterIn) (secret_hash : text) (groups : list ConfigGroup) (now : Z) :
    result enroll_error (Registry Cert * Z) :=
  let id := new_agent (agents_made r) in
  let agent := mkAgent id (display_name (r_name body) (r_hostname body)) (r_hostname body) None None None 0 None None in
  let f := fleet r in
  if negb (column_ok (ag_name agent) && column_ok (hostname agent) &&
           match r_agent_version body with Some v => column_ok v | None => true end) then Err BadColumn
  else match agents_of r !! id with
    | Some _ => Err IntegrityError
    | None =>
        if negb (bool_decide (NoDup (map cg_id groups))) then Err IntegrityError
        else
          let f' := mkFleet (set_agent (central f) agent) (<[id := mkAdvert None None None None (r_agent_version body)]> (adverts f))
            (commands f) (commands_made f) (verified f) in
          let row' := mkToken (token_hash row) (config_group_names row) (t_expires_at row) (Some now) (Some id) (t_created_at row) in
          Ok (mkRegistry f' (<[id := r_platform body]> (platforms r)) (<[id := secret_hash]> (enroll_secrets r))
                (<[h := row']> (tokens r)) (config_groups r) (members r ∪ list_to_set (map (λ g, (id, cg_id g)) groups))
                (roots r) (S (agents_made r)) (S (draws r)), id)
    end.

Definition register_agent r (body : RegisterIn) (now : Z) : result enroll_error (Registry Cert * Z * text * option text) :=
  if negb (mem (r_platform body) PLATFORMS) then Err (EnrollmentError BadPlatform)
  else match _sha256_hex (r_token body) with
    | None => Err NotEncodable
    | Some h =>
        match tokens r !! h with
        | None => Err (EnrollmentError UnknownToken)
        | Some row =>
            match classify_token row now with
            | Some verdict => Err (EnrollmentError verdict)
            | None =>
                let wanted := filterb (λ n, negb (bool_decide (n = []))) (default [] (config_group_names row)) in
                let '(resolved, unknown) := resolve_groups (config_groups r) wanted in
                match generate_enroll_secret (draws r) with
                | None => Err NotEncodable
                | Some (raw_secret, secret_hash) =>
                    '(r', id) <-! enroll_row r h row body secret_hash resolved now;
                    Ok (r', id, raw_secret, group_warning unknown)
                end
            end
        end
    end.

(** ** Certificates *)

(** The flush of a new fingerprint *)
Definition store_fingerprint r (a : Agent) (fp : text) : result enroll_error (Registry Cert * Agent) :=
  if negb (column_ok fp) then Err BadColumn
  else if fingerprint_taken (central (fleet r)) (ag_id a) fp then Err IntegrityError
  else let a' := set_credentials a (Some fp) (last_auth_mode a) in Ok (set_agent_row r a', a').

Definition bind_agent_certificate r (agent_id : Z) (raw_secret cert_fp : text) : result enroll_error (Registry Cert * Agent) :=
  match agents_of r !! agent_id with
  | None => Err (EnrollmentError UnknownAgent)
  | Some agent =>
      if bool_decide (is_Some (revoked_at agent)) then Err (EnrollmentError Revoked)
      else match cert_fingerprint agent with
        | Some fp => if bool_decide (fp = cert_fp) then Ok (r, agent) else Err (EnrollmentError AlreadyBound)
        | None =>
            match enroll_secrets r !! agent_id with
            | None | Some [] => Err (EnrollmentError BadSecret)
            | Some h =>
                match _sha256_hex raw_secret with
                | None => Err NotEncodable
                | Some h' =>
                    if negb (bool_decide (h = h')) then Err (EnrollmentError BadSecret)
                    else
                      '(r', a') <-! store_fingerprint r agent cert_fp;
                      Ok (mkRegistry (fleet r') (platforms r') (delete agent_id (enroll_secrets r')) (tokens r')
                            (config_groups r') (members r') (roots r') (agents_made r') (draws r'), a')
                end
            end
        end
  end.

Definition rebind_agent_certificate r (agent_id : Z) (cert_fp : text) : result enroll_error (Registry Cert * Agent) :=
  match agents_of r !! agent_id with
  | None => Err (EnrollmentError UnknownAgent)
  | Some agent =>
      if bool_decide (is_Some (revoked_at agent)) then Err (EnrollmentError Revoked)
      else match cert_fingerprint agent with
        | None => Err (EnrollmentError NotActive)
        | Some fp => if bool_decide (fp = cert_fp) then Ok (r, agent) else store_fingerprint r agent cert_fp
        end
  end.

(** ** The endpoints *)

(** An operation that commits, or rolls back and answers the error *)
Definition committed {A} r (x : result enroll_error A) (k : A → Registry Cert * enroll_reply) : Registry Cert * enroll_reply :=
  match x with
  | Ok a => k a
  | Err (EnrollmentError e) => (r, EHttpError (_enrollment_http (EnrollmentError e)))
  | Err e => (r, EServerError e)
  end.

Definition or_default (n : option Z) (d : Z) : Z := match n with Some n => if n =? 0 then d else n | None => d end.

Definition mint_token r (body : TokenMintIn) (now : Z) : Registry Cert * enroll_reply :=
  if negb (mint_valid body) then (r, EHttpError 422)
  else
    let minutes := or_default (ttl_minutes body) (enrollment_token_ttl_minutes esettings) in
    committed r (mint_enrollment_token r (group_names body) (minutes * 60) now)
      (λ '(r', raw, row), (r', Minted raw (token_hash row) (t_expires_at row))).

Definition revoke_token r (h : text) (force : bool) : Registry Cert * enroll_reply :=
  if negb (column_ok h) then (r, EServerError BadColumn)
  else match tokens r !! h with
    | None => (r, EHttpError 404)
    | Some row =>
        if bool_decide (is_Some (consumed_at row)) && negb force then (r, EHttpError 409)
        else (set_tokens r (delete h (tokens r)), TokenDeleted)
    end.

(** [secrets.token_urlsafe(16)] of a token for the CA *)
Definition minted_ott r (agent_id now : Z) : option (text * text) :=
  try_mint_ca_ott json_loads import_key thumbprint jwt_encode esettings agent_id now (token_urlsafe 16 (draws r)).

Definition register r (body : RegisterIn) (now : Z) : Registry Cert * enroll_reply :=
  if negb (register_valid body) then (r, EHttpError 422)
  else match ca_ott_unavailable_reason json_loads esettings with
    | Some _ => (r, EHttpError 503)
    | None =>
        committed r (register_agent r body now) (λ '(r', id, secret, warning),
          (drew r', Registered id secret (fst <$> minted_ott r' id now)
                      (or_none (rstrip SLASH (strip_space (agent_plane_url esettings)))) warning))
    end.

Definition bind_certificate r (agent_id : Z) (body : CertBindIn) : Registry Cert * enroll_reply :=
  if negb (bind_valid body) then (r, EHttpError 422)
  else committed r (bind_agent_certificate r agent_id (enroll_secret body) (b_fingerprint body)) (λ '(r', a), (r', agent_out a)).

Definition rebind_status (e : rebind_error) : Z :=
  match e with
  | RebindError CaRootUnavailable => 503
  | RebindError SanMismatch => 403
  | RebindError BadRequest => 400
  | RebindError _ => 401
  | _ => 500
  end.

Definition verified_fingerprint (agent_id : Z) (body : RebindIn) (sig : list Z) (root : Cert) (now : Z) : result rebind_error text :=
  verify_rebind sha256_hex der not_valid_before not_valid_after dns_names ec_key load_pem_chain client_verifies
    ecdsa_verifies esettings (cert_chain_pem body) (txt (uuid_str agent_id)) (rb_timestamp body) sig root now.

Definition rebind_certificate r (agent_id : Z) (body : RebindIn) (w : Moment) : Registry Cert * enroll_reply :=
  if negb (rebind_valid body) then (r, EHttpError 422)
  else match b64decode (signature body) with
    | None => (r, EHttpError 400)
    | Some sig =>
        let '(cache, root) := get_ca_root uni_lower sha256_hex der load_pem esettings (roots r) (fetch w) in
        let r := set_roots r cache in
        match (root <-! root; verified_fingerprint agent_id body sig root (now w)) with
        | Err e => (r, EHttpError (rebind_status e))
        | Ok fp => committed r (rebind_agent_certificate r agent_id fp) (λ '(r', a), (r', agent_out a))
        end
    end.

Definition reissue_ca_ott r (agent_id : Z) (now : Z) : Registry Cert * enroll_reply :=
  match agents_of r !! agent_id with
  | None => (r, EHttpError 404)
  | Some a =>
      if bool_decide (is_Some (revoked_at a)) then (r, EHttpError 409)
      else match minted_ott r agent_id now with
        | None => (r, EHttpError 503)
        | Some (ott, _) => (drew r, OttIssued ott)
        end
  end.

Definition set_name (a : Agent) (name : text) : Agent :=
  mkAgent (ag_id a) name (hostname a) (revoked_at a) (cert_fingerprint a) (last_auth_mode a) (last_contiguous_seq_no a)
    (last_seen_at a) (last_reconcile_at a).
Definition set_revoked (a : Agent) (at_ : Z) : Agent :=
  mkAgent (ag_id a) (ag_name a) (hostname a) (Some at_) (cert_fingerprint a) (last_auth_mode a) (last_contiguous_seq_no a)
    (last_seen_at a) (last_reconcile_at a).

Definition update_agent r (agent_id : Z) (name : option text) : Registry Cert * enroll_reply :=
  match patch_name name with
  | None => (r, EHttpError 422)
  | Some name =>
      match agents_of r !! agent_id with
      | None => (r, EHttpError 404)
      | Some a =>
          if bool_decide (is_Some (revoked_at a)) then (r, EHttpError 409)
          else if bool_decide (name = ag_name a) then (r, agent_out a)
          else if negb (column_ok name) then (r, EServerError BadColumn)
          else let a' := set_name a name in (set_agent_row r a', agent_out a')
      end
  end.

(** ** Revocation and purge *)

Definition owned_libraries (f : Fleet) (agent_id : Z) : list Z :=
  map al_id (filterb (λ l, bool_decide (source_agent_id l = Some agent_id)) (libraries (central f))).
Definition library_items (f : Fleet) (libs : list Z) : list Z :=
  id_order (elements (items_of (items (central f)) libs)).
Definition owned_items (f : Fleet) (agent_id : Z) : list (Z * Item) :=
  filterb (λ '(_, it), bool_decide (i_source_agent_id it = Some agent_id)) (map_to_list (items (central f))).

Definition delete_agent_row r (agent_id : Z) : Registry Cert :=
  mkRegistry (drop_agent_row (fleet r) agent_id) (delete agent_id (platforms r)) (delete agent_id (enroll_secrets r))
    (unlink_token agent_id <$> tokens r) (config_groups r) (filter (λ '(a, _), a ≠ agent_id) (members r)) (roots r)
    (agents_made r) (draws r).

Definition DELETE_DOCS_BATCH : nat := Z.to_nat 10000.

Definition purge_agent r (a : Agent) (agent_id : Z) (delete_libraries : bool) (w : Moment) :
    Registry Cert * enroll_reply * list enroll_effect :=
  let libs := if delete_libraries then owned_libraries (fleet r) agent_id else [] in
  if existsb (scanning w) libs then (r, EHttpError 409, [])
  else
    let removed := match libs with [] => [] | _ => library_items (fleet r) libs end in
    let r' := match libs with [] => r | _ => set_fleet r (drop_libraries (fleet r) libs) end in
    match owned_libraries (fleet r') agent_id, owned_items (fleet r') agent_id with
    | [], [] => (delete_agent_row r' agent_id, agent_out a, map DeleteDocs (chunked DELETE_DOCS_BATCH removed))
    | _, _ => (r, EHttpError 409, [])
    end.

Definition revoke_agent r (agent_id : Z) (purge delete_libraries : bool) (w : Moment) :
    Registry Cert * enroll_reply * list enroll_effect :=
  match agents_of r !! agent_id with
  | None => (r, EHttpError 404, [])
  | Some a =>
      if purge then purge_agent r a agent_id delete_libraries w
      else if bool_decide (is_Some (revoked_at a)) then (r, agent_out a, [])
      else let a' := set_revoked a (now w) in (set_agent_row r a', agent_out a', [])
  end.

(** ** The fleet console *)

Definition count (p : Agent → bool) (m : gmap Z Agent) : nat := length (filterb (λ '(_, a), p a) (map_to_list m)).
Definition is_revoked (a : Agent) : bool := bool_decide (is_Some (revoked_at a)).
Definition is_bound (a : Agent) : bool := bool_decide (is_Some (cert_fingerprint a)).
Definition is_pending (a : Agent) : bool := negb (is_revoked a) && negb (is_bound a).
Definition is_active (a : Agent) : bool := negb (is_revoked a) && is_bound a.
Definition is_fresh (cutoff : Z) (a : Agent) : bool :=
  match last_seen_at a with Some t => cutoff <=? t | None => false end.
Definition is_old (cutoff : Z) (a : Agent) : bool :=
  match last_seen_at a with Some t => t <? cutoff | None => true end.

Definition agent_fleet_summary r (now : Z) : enroll_reply :=
  let cutoff := now - agent_online_threshold_seconds esettings * SECOND in
  let m := agents_of r in
  Summary (count (λ _, true) m) (count (λ a, is_active a && is_fresh cutoff a) m)
    (count (λ a, is_active a && is_old cutoff a) m) (count is_pending m) (count is_revoked m).

(** ** One request at a time *)

Definition console (scope : string) (call : OperatorCall) (now : Z) (handler : Registry Cert * enroll_reply) r :
    Registry Cert * enroll_reply :=
  scoped sha256 auth_enabled _roles EHttpError scope call now (λ _, handler) r.

Definition serve_enrollment r (w : Moment) (q : enroll_request) : Registry Cert * enroll_reply :=
  if negb (agents_enabled settings) then (r, EHttpError 404)
  else match q with
  | QMint call b => console "admin" call (now w) (mint_token r b (now w)) r
  | QRevokeToken call h force => console "admin" call (now w) (revoke_token r h force) r
  | QRegister b => register r b (now w)
  | QBind a b => bind_certificate r a b
  | QRebind a b => rebind_certificate r a b w
  | QReissue call a => console "admin" call (now w) (reissue_ca_ott r a (now w)) r
  | QUpdate call a name => console "admin" call (now w) (update_agent r a name) r
  | QRevoke call a purge del => console "admin" call (now w) (revoke_agent r a purge del w).1 r
  | QSummary call => console "read" call (now w) (r, agent_fleet_summary r (now w)) r
  end.
End enrollment.
