(* ===== verification/EnrollmentFacts.v ===== *)
(** * What enrollment guarantees *)
From S2P Require Import Prelude PyStr Uuid Utf8 PathLabel Text Json Catalog Rbac Access Move AgentMeta AgentSync AgentSyncFacts Reconcile ReconcileFacts Commands AgentCert Enrollment.
From stdpp Require Import options.

(** ** Certificates *)

Section certificates.
Context (sha256_hex : list Z → string) {Cert PublicKey : Type} (der : Cert → list Z).
Context (not_valid_before not_valid_after : Cert → Z) (dns_names : Cert → list text) (ec_key : Cert → option PublicKey).
Context (load_pem_chain : text → option (list Cert)).
Context (client_verifies : Cert → Z → Cert → list Cert → bool) (ecdsa_verifies : PublicKey → list Z → list Z → bool).
Context (settings : EnrollSettings).

(** Every cached root has the fingerprint it is cached under. *)
Definition roots_pinned (cache : gmap (text * text) Cert) : Prop :=
  ∀ url fp root, cache !! (url, fp) = Some root → fingerprint_of sha256_hex der root = fp.

Lemma get_ca_root_pinned uni_lower load_pem cache fetch cache' root :
  roots_pinned cache → get_ca_root uni_lower sha256_hex der load_pem settings cache fetch = (cache', root) →
  roots_pinned cache' ∧
  ∀ c, root = Ok c → fingerprint_of sha256_hex der c = _norm_fp uni_lower (ca_fingerprint settings).
Proof using Type.
  intros Hp. unfold get_ca_root. destruct (_ || _); [by intros [= <- <-]|].
  destruct (cache !! _) as [c0|] eqn:Hc; [intros [= <- <-]; split; [done|]; intros ? [= <-]; by eapply Hp|].
  destruct (root_of _ _) as [c1|e]; [|by intros [= <- <-]].
  destruct (bool_decide _) eqn:Hf; [|by intros [= <- <-]]. intros [= <- <-]. bool_to_prop. split; [|by intros ? [= <-]].
  intros url fp c [[[= <- <-] <-]|[_ H]]%lookup_insert_Some; [done|]. by eapply Hp.
Qed.

(** What a verified rebind shows *)
Record possession (chain_pem agent_id : text) (timestamp : Z) (signature : list Z) (root : Cert) (now : Z) (fp : text) : Prop := {
  ps_fresh : stale_by settings now timestamp = Some false;
  ps_leaf : ∃ leaf rest key payload,
    load_pem_chain chain_pem = Some (leaf :: rest) ∧ (length rest < MAX_CHAIN_CERTS)%nat ∧
    client_verifies root now leaf rest = true ∧ agent_id ∈ dns_names leaf ∧ ec_key leaf = Some key ∧
    canonical_payload agent_id timestamp fp = Some payload ∧ ecdsa_verifies key signature payload = true ∧
    fp = fingerprint_of sha256_hex der leaf;
}.

Lemma verify_rebind_possession chain_pem agent_id timestamp signature root now fp :
  verify_rebind sha256_hex der not_valid_before not_valid_after dns_names ec_key load_pem_chain client_verifies
    ecdsa_verifies settings chain_pem agent_id timestamp signature root now = Ok fp →
  possession chain_pem agent_id timestamp signature root now fp.
Proof using Type.
  unfold verify_rebind. destruct (stale_by _ _ _) as [[]|] eqn:Hs; [done| |done].
  destruct (load_pem_chain chain_pem) as [[|leaf rest]|] eqn:Hl; [done| |done].
  destruct (Nat.ltb _ _) eqn:Hn; [done|]. destruct (client_verifies root now leaf rest) eqn:Hv; [|cbn; by destruct (_ || _)].
  cbn [negb]. destruct (mem agent_id (dns_names leaf)) eqn:Hm; [|done]. cbn [negb].
  destruct (canonical_payload _ _ _) as [payload|] eqn:Hp; [|done]. destruct (ec_key leaf) as [key|] eqn:Hk; [|done].
  destruct (ecdsa_verifies key signature payload) eqn:He; [|done]. intros [= <-]. constructor; [done|].
  exists leaf, rest, key, payload. apply Nat.ltb_ge in Hn. cbn in Hn. unfold mem in Hm. bool_to_prop.
  split_and!; [done| |done..]. lia.
Qed.
End certificates.

(** A signature over one payload is a signature for one agent, time and certificate. *)
Lemma join_line_inj a b l r : NEWLINE ∉ a → NEWLINE ∉ b → a ++ NEWLINE :: l = b ++ NEWLINE :: r → a = b ∧ l = r.
Proof.
  revert b. induction a as [|x a IH]; intros [|y b]; cbn; intros Ha Hb; [by intros [= ->]|..].
  - intros [= <- _]. destruct Hb. left.
  - intros [= -> _]. destruct Ha. left.
  - intros [= -> H]. apply not_elem_of_cons in Ha as [_ Ha], Hb as [_ Hb]. by destruct (IH b Ha Hb H) as [-> ->].
Qed.

Lemma utf8_line_free s bs : utf8_encode s = Some bs → NEWLINE ∉ s → NEWLINE ∉ bs.
Proof.
  revert bs. induction s as [|c s IH]; intros bs; cbn [utf8_encode]; [intros [= <-] _; apply not_elem_of_nil|].
  destruct (utf8_char c) as [b|] eqn:Hc; [|done]. destruct (utf8_encode s) as [bs'|]; [|done]. intros [= <-] Hs.
  apply not_elem_of_cons in Hs as [Hne Hs]. rewrite elem_of_app. intros [Hin|Hin]; [|by apply (IH bs')].
  destruct (decide (c < 128)) as [Hlt|Hge].
  - pose proof (utf8_char_scalar _ _ Hc) as H0. unfold is_scalar in H0. rewrite utf8_char_ascii in Hc.
    + injection Hc as <-. by apply list_elem_of_singleton in Hin.
    + split; [|done]. apply orb_true_iff in H0 as [H0|H0]; bool_to_prop; lia.
  - apply utf8_char_high in Hc; [|lia]. rewrite Forall_forall in Hc. apply Hc in Hin. unfold NEWLINE in Hin. lia.
Qed.

(** The payload of a certificate rotation names one agent, one time and one
    certificate: two requests whose payloads are the same bytes agree on all three, so a
    signature over one of them is a signature over no other. *)
Theorem payload_injective a1 t1 f1 a2 t2 f2 bs :
  NEWLINE ∉ a1 → NEWLINE ∉ a2 →
  canonical_payload a1 t1 f1 = Some bs → canonical_payload a2 t2 f2 = Some bs → a1 = a2 ∧ t1 = t2 ∧ f1 = f2.
Proof.
  intros Ha1 Ha2. unfold canonical_payload.
  destruct (utf8_encode a1) as [x1|] eqn:Hx1; [|done]. destruct (utf8_encode f1) as [y1|] eqn:Hy1; [|done].
  destruct (utf8_encode a2) as [x2|] eqn:Hx2; [|done]. destruct (utf8_encode f2) as [y2|] eqn:Hy2; [|done].
  cbn [mbind option_bind join_text]. intros [= <-] [= H]. symmetry in H.
  apply join_line_inj in H as [-> H]; [|by eapply utf8_line_free..].
  apply int_text_prefix in H as [-> [= ->]]; [|done..].
  apply utf8_roundtrip in Hx1, Hx2, Hy1, Hy2. split_and!; congruence.
Qed.

Lemma payload_injective_witness :
  let payload := canonical_payload (txt (uuid_str 7)) 1700000000 (txt "ab") in
  NEWLINE ∉ txt (uuid_str 7) ∧ ∃ bs, payload = Some bs ∧ txt (uuid_str 7) = txt (uuid_str 7) ∧ 1700000000 = 1700000000 ∧ txt "ab" = txt "ab".
Proof.
  assert (NEWLINE ∉ txt (uuid_str 7)) as H by (apply (bool_decide_unpack _); vm_compute; exact I).
  split; [exact H|]. eexists. split; [vm_compute; reflexivity|].
  eapply (payload_injective _ _ _ _ _ _ _ H H); vm_compute; reflexivity.
Defined.

(** ** The cascade of a deletion *)

(** A row goes with a library, or with the row it is a sidecar of. *)
Inductive hangs (m : rows) (libs : list Z) : Z → Prop :=
  | hangs_library i it : m !! i = Some it → i_library_id it ∈ libs → hangs m libs i
  | hangs_sidecar i it p : m !! i = Some it → i_sidecar_of it = Some p → hangs m libs p → hangs m libs i.

Section cascade.
Context (m : rows).

Local Abbreviation step gone :=
  (gone ∪ dom (filter (λ '(_, it), match i_sidecar_of it with Some p => bool_decide (p ∈ gone) | None => false end = true) m)).

Lemma elem_of_step (gone : gset Z) i :
  i ∈ step gone ↔ i ∈ gone ∨ ∃ it p, m !! i = Some it ∧ i_sidecar_of it = Some p ∧ p ∈ gone.
Proof using Type.
  rewrite elem_of_union, elem_of_dom. apply or_iff_compat_l. unfold is_Some. setoid_rewrite map_lookup_filter_Some. split.
  - intros (it & Hit & Hp). destruct (i_sidecar_of it) as [p|] eqn:Hs; [|done]. bool_to_prop. by exists it, p.
  - intros (it & p & Hit & Hs & Hp). exists it. rewrite Hs. split; [done|by apply bool_decide_eq_true].
Qed.

Lemma step_dom (gone : gset Z) : gone ⊆ dom m → step gone ⊆ dom m.
Proof using Type. intros Hg i [Hi|(it & p & Hi & _)]%elem_of_step; [by apply Hg|apply elem_of_dom; by exists it]. Qed.

Lemma cascade_fixed n (gone : gset Z) : step gone = gone → cascade n m gone = gone.
Proof using Type. intros Hf. induction n as [|n IH]; [done|]. cbn [cascade]. by rewrite Hf. Qed.

Lemma cascade_closed n (gone : gset Z) :
  gone ⊆ dom m → (size m ≤ n + size gone)%nat → step (cascade n m gone) = cascade n m gone.
Proof using Type.
  revert gone. induction n as [|n IH]; intros gone Hg Hn; cbn [cascade].
  - assert (gone = dom m) as Heq by (apply leibniz_equiv, set_subseteq_size_equiv; [done|rewrite size_dom; cbn in Hn; lia]).
    apply leibniz_equiv, set_subseteq_antisymm; [|apply union_subseteq_l]. rewrite Heq at 2. by apply step_dom.
  - destruct (decide (step gone = gone)) as [Hf|Hf]; [by rewrite Hf, cascade_fixed|].
    apply IH; [by apply step_dom|]. assert (size gone < size (step gone))%nat; [|lia].
    apply subset_size. split; [apply union_subseteq_l|]. intros Hsub. apply Hf, leibniz_equiv, set_subseteq_antisymm; [done|apply union_subseteq_l].
Qed.

Lemma cascade_contains n (gone : gset Z) : gone ⊆ cascade n m gone.
Proof using Type.
  revert gone. induction n as [|n IH]; intros gone; [done|]. cbn [cascade]. etrans; [apply union_subseteq_l|apply IH].
Qed.

Lemma cascade_hangs libs n (gone : gset Z) :
  (∀ i, i ∈ gone → hangs m libs i) → ∀ i, i ∈ cascade n m gone → hangs m libs i.
Proof using Type.
  revert gone. induction n as [|n IH]; intros gone Hg; [done|]. cbn [cascade]. apply IH.
  intros i [Hi|(it & p & Hi & Hs & Hp)]%elem_of_step; [by apply Hg|]. eapply hangs_sidecar; [done..|by apply Hg].
Qed.

(** As many rounds as there are rows reach every row that hangs on a library. *)
Lemma cascade_exact libs i : i ∈ cascade (size m) m (items_of m libs) ↔ hangs m libs i.
Proof using Type.
  assert (∀ j, j ∈ items_of m libs ↔ ∃ it, m !! j = Some it ∧ i_library_id it ∈ libs) as Hof.
  { intros j. unfold items_of. rewrite elem_of_dom. unfold is_Some. by setoid_rewrite map_lookup_filter_Some. }
  split.
  - apply cascade_hangs. intros j (it & Hj & Hl)%Hof. by eapply hangs_library.
  - assert (step (cascade (size m) m (items_of m libs)) = cascade (size m) m (items_of m libs)) as Hc.
    { apply cascade_closed; [|lia]. intros j (it & Hj & _)%Hof. apply elem_of_dom. by exists it. }
    induction 1 as [j it Hj Hl|j it p Hj Hs _ IH].
    + apply cascade_contains, Hof. by exists it.
    + rewrite <- Hc. apply elem_of_step. right. by exists it, p.
Qed.
End cascade.

(** ** The outcomes of a request *)

Section enrollment.
Context (uni_lower : Z → list Z) (uni_printable : Z → bool) (sha256_hex : list Z → string) (sha256 : string → string).
Context (token_urlsafe : Z → nat → text) (new_agent : nat → Z) (id_order : list Z → list Z).
Context (b64decode : text → option (list Z)) (json_loads : text → option json).
Context {Cert PublicKey : Type} (der : Cert → list Z) (not_valid_before not_valid_after : Cert → Z).
Context (dns_names : Cert → list text) (ec_key : Cert → option PublicKey).
Context (load_pem : text → option Cert) (load_pem_chain : text → option (list Cert)).
Context (client_verifies : Cert → Z → Cert → list Cert → bool) (ecdsa_verifies : PublicKey → list Z → list Z → bool).
Context {ECKey : Type} (import_key : json → option ECKey) (thumbprint : ECKey → text) (jwt_encode : json → json → ECKey → option text).
Context (settings : SyncSettings) (esettings : EnrollSettings) (auth_enabled : bool) (_roles : gmap string Role).

Local Abbreviation serve := (serve_enrollment uni_lower uni_printable sha256_hex sha256 token_urlsafe new_agent id_order b64decode
  json_loads der not_valid_before not_valid_after dns_names ec_key load_pem load_pem_chain client_verifies ecdsa_verifies
  import_key thumbprint jwt_encode settings esettings auth_enabled _roles).
Local Abbreviation token_of := (generate_enrollment_token sha256_hex token_urlsafe).
Local Abbreviation hash := (_sha256_hex sha256_hex).
Implicit Type r : Registry Cert.

(** The operator gate lets the call through. *)
Definition admitted (scope : string) (call : OperatorCall) (now : Z) : Prop :=
  ∃ x, require_scope sha256 auth_enabled _roles scope (creds call) (caller call) (tables call) now = Ok x.

Definition quiet (rep : enroll_reply) : bool :=
  match rep with Registered _ _ _ _ _ | Minted _ _ _ => false | _ => true end.

(** The certificate of a rotation chains to the pinned root, names the agent and signed
    the request. *)
Definition possesses (a : Z) (b : RebindIn) (now : Z) (fp : text) : Prop :=
  ∃ root sig, b64decode (signature b) = Some sig ∧
    fingerprint_of sha256_hex der root = _norm_fp uni_lower (ca_fingerprint esettings) ∧
    possession sha256_hex der dns_names ec_key load_pem_chain client_verifies ecdsa_verifies esettings
      (cert_chain_pem b) (txt (uuid_str a)) (rb_timestamp b) sig root now fp.

Inductive outcome r (w : Moment) : enroll_request → Registry Cert → enroll_reply → Prop :=
  | o_same q rep : quiet rep = true → outcome r w q r rep
  | o_drew q rep : quiet rep = true → outcome r w q (drew r) rep
  | o_mint call b raw h names expires :
      admitted "admin" call (now w) → token_of (draws r) = Some (raw, h) → tokens r !! h = None →
      outcome r w (QMint call b)
        (set_tokens (drew r) (<[h := mkToken h names expires None None (now w)]> (tokens r))) (Minted raw h expires)
  | o_delete call h force :
      admitted "admin" call (now w) → outcome r w (QRevokeToken call h force) (set_tokens r (delete h (tokens r))) TokenDeleted
  | o_register b h row secret secret_hash groups r' id ott url warning :
      hash (r_token b) = Some h → tokens r !! h = Some row → classify_token row (now w) = None →
      enroll_row new_agent r h row b secret_hash groups (now w) = Ok (r', id) →
      outcome r w (QRegister b) (drew r') (Registered id secret ott url warning)
  | o_bind a b ag h r' ag' :
      agents_of r !! a = Some ag → revoked_at ag = None → cert_fingerprint ag = None →
      enroll_secrets r !! a = Some h → hash (enroll_secret b) = Some h →
      store_fingerprint r ag (b_fingerprint b) = Ok (r', ag') →
      outcome r w (QBind a b)
        (mkRegistry (fleet r') (platforms r') (delete a (enroll_secrets r')) (tokens r') (config_groups r') (members r')
           (roots r') (agents_made r') (draws r')) (agent_out ag')
  | o_rebind a b cache rep : roots_pinned sha256_hex der cache → quiet rep = true → outcome r w (QRebind a b) (set_roots r cache) rep
  | o_rebound a b cache ag old fp r' ag' :
      roots_pinned sha256_hex der cache → possesses a b (now w) fp →
      agents_of r !! a = Some ag → revoked_at ag = None → cert_fingerprint ag = Some old →
      store_fingerprint (set_roots r cache) ag fp = Ok (r', ag') →
      outcome r w (QRebind a b) r' (agent_out ag')
  | o_rename call a name ag text :
      agents_of r !! a = Some ag → revoked_at ag = None →
      outcome r w (QUpdate call a name) (set_agent_row r (set_name ag text)) (agent_out (set_name ag text))
  | o_revoke call a delete_libraries ag :
      admitted "admin" call (now w) → agents_of r !! a = Some ag → revoked_at ag = None →
      outcome r w (QRevoke call a false delete_libraries) (set_agent_row r (set_revoked ag (now w))) (agent_out (set_revoked ag (now w)))
  | o_purge call a delete_libraries ag r' :
      admitted "admin" call (now w) → agents_of r !! a = Some ag →
      (r' = r ∨ ∃ libs, delete_libraries = true ∧ libs = owned_libraries (fleet r) a ∧ r' = set_fleet r (drop_libraries (fleet r) libs)) →
      owned_libraries (fleet r') a = [] → owned_items (fleet r') a = [] →
      outcome r w (QRevoke call a true delete_libraries) (delete_agent_row r' a) (agent_out ag).

Lemma console_cases scope call now handler r r' rep :
  console sha256 auth_enabled _roles scope call now handler r = (r', rep) →
  (r' = r ∧ quiet rep = true) ∨ admitted scope call now ∧ handler = (r', rep).
Proof using Type.
  unfold console, scoped, admitted. destruct (require_scope _ _ _ _ _ _ _ _) as [x|[]]; [|by intros [= <- <-]; left..].
  intros H. right. split; [by eexists|done].
Qed.

Lemma committed_cases {A} r (x : result enroll_error A) k r' rep :
  committed r x k = (r', rep) → (r' = r ∧ quiet rep = true) ∨ ∃ a, x = Ok a ∧ k a = (r', rep).
Proof using Type.
  unfold committed. destruct x as [a|[]]; intros H; [right; by eexists|injection H as <- <-; by left..].
Qed.

Lemma mint_outcome r w call b r' rep :
  admitted "admin" call (now w) → mint_token sha256_hex token_urlsafe esettings r b (now w) = (r', rep) →
  outcome r w (QMint call b) r' rep.
Proof using Type.
  intros Ha. unfold mint_token. destruct (mint_valid b); [|intros [= <- <-]; by constructor]. cbn [negb].
  intros [[-> ?]|([[r1 raw] row] & Hm & Heq)]%committed_cases; [by constructor|]. injection Heq as <- <-.
  unfold mint_enrollment_token in Hm. destruct (token_of (draws r)) as [[raw' h]|] eqn:Ht; [|done].
  destruct (negb _); [done|]. destruct (tokens r !! h) eqn:Hl; [done|]. injection Hm as <- <- <-.
  by apply o_mint.
Qed.

Lemma delete_outcome r w call h force r' rep :
  admitted "admin" call (now w) → revoke_token r h force = (r', rep) → outcome r w (QRevokeToken call h force) r' rep.
Proof using Type.
  intros Ha. unfold revoke_token. destruct (negb _); [intros [= <- <-]; by constructor|].
  destruct (tokens r !! h) as [row|]; [|intros [= <- <-]; by constructor].
  destruct (_ && _); intros [= <- <-]; [by constructor|by apply o_delete].
Qed.

Lemma register_outcome r w b r' rep :
  register uni_printable sha256_hex token_urlsafe new_agent json_loads import_key thumbprint jwt_encode esettings r b (now w) = (r', rep) →
  outcome r w (QRegister b) r' rep.
Proof using Type.
  unfold register. destruct (negb _); [intros [= <- <-]; by constructor|].
  destruct (ca_ott_unavailable_reason _ _); [intros [= <- <-]; by constructor|].
  intros [[-> ?]|([[[r1 id] secret] warning] & Hr & Heq)]%committed_cases; [by constructor|]. injection Heq as <- <-.
  unfold register_agent in Hr. destruct (negb _); [done|]. destruct (hash (r_token b)) as [h|] eqn:Hh; [|done].
  destruct (tokens r !! h) as [row|] eqn:Hrow; [|done]. destruct (classify_token row (now w)) eqn:Hc; [done|].
  destruct (resolve_groups _ _) as [groups unknown]. destruct (generate_enroll_secret _ _ _) as [[raw secret_hash]|]; [|done].
  apply result_bind_ok in Hr as ([r2 id2] & He & [= -> -> -> _]). by eapply o_register.
Qed.

Lemma bind_outcome r w a b r' rep : bind_certificate sha256_hex r a b = (r', rep) → outcome r w (QBind a b) r' rep.
Proof using Type.
  unfold bind_certificate. destruct (negb _); [intros [= <- <-]; by constructor|].
  intros [[-> ?]|([r1 ag'] & Hb & [= <- <-])]%committed_cases; [by constructor|].
  unfold bind_agent_certificate in Hb. destruct (agents_of r !! a) as [ag|] eqn:Ha; [|done].
  destruct (bool_decide (is_Some _)) eqn:Hrev; [done|]. bool_to_prop. apply eq_None_not_Some in Hrev.
  destruct (cert_fingerprint ag) as [fp|] eqn:Hfp.
  { destruct (bool_decide _); [|done]. injection Hb as <- <-. by apply o_same. }
  destruct (enroll_secrets r !! a) as [[|x h]|] eqn:Hs; [done| |done]. destruct (hash (enroll_secret b)) as [h'|] eqn:Hh; [|done].
  destruct (bool_decide _) eqn:He; [|done]. bool_to_prop. subst h'. cbn [negb] in Hb.
  apply result_bind_ok in Hb as ([r2 ag2] & Hf & [= <- <-]). by eapply o_bind.
Qed.

Lemma rebind_outcome r w a b r' rep :
  roots_pinned sha256_hex der (roots r) →
  rebind_certificate uni_lower sha256_hex b64decode der not_valid_before not_valid_after dns_names ec_key load_pem load_pem_chain
    client_verifies ecdsa_verifies esettings r a b w = (r', rep) →
  outcome r w (QRebind a b) r' rep.
Proof using Type.
  intros Hp. unfold rebind_certificate. destruct (negb _); [intros [= <- <-]; by constructor|].
  destruct (b64decode (signature b)) as [sig|] eqn:Hsig; [|intros [= <- <-]; by constructor].
  destruct (get_ca_root _ _ _ _ _ _ _) as [cache root] eqn:Hroot. apply get_ca_root_pinned in Hroot as [Hc Hroot]; [|done].
  destruct root as [root|e]; cbn [result_bind]; [|intros [= <- <-]; by apply o_rebind].
  destruct (verified_fingerprint _ _ _ _ _ _ _ _ _ _ _ _ _ _ _) as [fp|e] eqn:Hv; [|intros [= <- <-]; by apply o_rebind].
  intros [[-> ?]|([r1 ag'] & Hb & [= <- <-])]%committed_cases; [by apply o_rebind|].
  unfold rebind_agent_certificate in Hb. cbn [set_roots agents_of fleet] in Hb.
  destruct (agents_of (set_roots r cache) !! a) as [ag|] eqn:Ha; [|done].
  destruct (bool_decide (is_Some _)) eqn:Hrev; [done|]. bool_to_prop. apply eq_None_not_Some in Hrev.
  destruct (cert_fingerprint ag) as [old|] eqn:Hfp; [|done].
  destruct (bool_decide _); [injection Hb as <- <-; by apply o_rebind|].
  eapply o_rebound; [done| |exact Ha|done..]. exists root, sig. split_and!; [done|by apply Hroot|].
  by apply verify_rebind_possession in Hv.
Qed.

Lemma revoke_outcome r w call a purge del r' rep :
  admitted "admin" call (now w) → (revoke_agent id_order r a purge del w).1 = (r', rep) → outcome r w (QRevoke call a purge del) r' rep.
Proof using Type.
  intros Had. unfold revoke_agent. destruct (agents_of r !! a) as [ag|] eqn:Ha; [|intros [= <- <-]; by constructor].
  destruct purge.
  - unfold purge_agent. set (libs := if del then _ else _). destruct (existsb _ libs); [intros [= <- <-]; by constructor|].
    set (r1 := match libs with [] => r | _ => _ end).
    destruct (owned_libraries (fleet r1) a) eqn:Hl; [|intros [= <- <-]; by constructor].
    destruct (owned_items (fleet r1) a) eqn:Hi; [|intros [= <- <-]; by constructor]. intros [= <- <-].
    apply o_purge; [done|done| |done|done]. subst r1 libs. destruct del; [|by left].
    destruct (owned_libraries (fleet r) a) as [|l ls] eqn:Ho; [by left|right]. exists (l :: ls). auto.
  - destruct (bool_decide (is_Some _)) eqn:Hrev; [intros [= <- <-]; by constructor|]. bool_to_prop. apply eq_None_not_Some in Hrev.
    intros [= <- <-]. by apply o_revoke.
Qed.

(** Every request has one of the outcomes. *)
Lemma serve_outcome r w q r' rep : roots_pinned sha256_hex der (roots r) → serve r w q = (r', rep) → outcome r w q r' rep.
Proof using Type.
  intros Hp. unfold serve_enrollment. destruct (negb _); [intros [= <- <-]; by constructor|]. destruct q.
  - intros [[-> ?]|[? ?]]%console_cases; [by constructor|by apply mint_outcome].
  - intros [[-> ?]|[? ?]]%console_cases; [by constructor|by apply delete_outcome].
  - apply register_outcome.
  - apply bind_outcome.
  - by apply rebind_outcome.
  - intros [[-> ?]|[_ H]]%console_cases; [by constructor|]. unfold reissue_ca_ott in H.
    repeat case_match; injection H as <- <-; by constructor.
  - intros [[-> ?]|[_ H]]%console_cases; [by constructor|]. unfold update_agent in H.
    destruct (patch_name name) as [t|]; [|injection H as <- <-; by constructor].
    destruct (agents_of r !! agent_id) as [ag|] eqn:Ha; [|injection H as <- <-; by constructor].
    destruct (bool_decide (is_Some _)) eqn:Hrev; [injection H as <- <-; by constructor|].
    bool_to_prop. apply eq_None_not_Some in Hrev.
    repeat case_match; injection H as <- <-; by constructor.
  - intros [[-> ?]|[? ?]]%console_cases; [by constructor|by apply revoke_outcome].
  - intros [[-> ?]|[_ [= <- <-]]]%console_cases; by constructor.
Qed.

(** *** What every outcome keeps *)

Lemma store_fingerprint_ok r ag fp r' ag' :
  store_fingerprint r ag fp = Ok (r', ag') →
  ag' = set_credentials ag (Some fp) (last_auth_mode ag) ∧ r' = set_agent_row r ag' ∧
  fingerprint_taken (central (fleet r)) (ag_id ag) fp = false.
Proof using Type.
  unfold store_fingerprint. destruct (negb _); [done|]. destruct (fingerprint_taken _ _ _); [done|]. by intros [= <- <-].
Qed.

Lemma enroll_row_ok r h row b secret groups now r' id :
  enroll_row new_agent r h row b secret groups now = Ok (r', id) →
  id = new_agent (agents_made r) ∧ agents_of r !! id = None ∧ agents_made r' = S (agents_made r) ∧ draws r' = S (draws r) ∧
  (∃ ag, ag_id ag = id ∧ revoked_at ag = None ∧ cert_fingerprint ag = None ∧ agents_of r' = <[id := ag]> (agents_of r)) ∧
  enroll_secrets r' = <[id := secret]> (enroll_secrets r) ∧
  tokens r' = <[h := mkToken (token_hash row) (config_group_names row) (t_expires_at row) (Some now) (Some id) (t_created_at row)]> (tokens r) ∧
  roots r' = roots r ∧ commands (fleet r') = commands (fleet r) ∧ items (central (fleet r')) = items (central (fleet r)).
Proof using Type.
  unfold enroll_row. destruct (negb _); [done|]. destruct (agents_of r !! _) eqn:Hn; [done|]. destruct (negb _); [done|].
  intros [= <- <-]. split_and!; try done. eexists. split_and!; [..|reflexivity]; done.
Qed.

Lemma outcome_roots r w q r' rep : roots_pinned sha256_hex der (roots r) → outcome r w q r' rep → roots_pinned sha256_hex der (roots r').
Proof using Type.
  intros Hp []; cbn [roots drew set_tokens set_roots set_agent_row set_fleet delete_agent_row]; try done.
  - match goal with H : enroll_row _ _ _ _ _ _ _ _ = _ |- _ => apply enroll_row_ok in H end.
    destruct_and?. by match goal with H : roots _ = _ |- _ => rewrite H end.
  - match goal with H : store_fingerprint _ _ _ = _ |- _ => apply store_fingerprint_ok in H as (_ & -> & _) end. done.
  - match goal with H : store_fingerprint _ _ _ = _ |- _ => apply store_fingerprint_ok in H as (_ & -> & _) end. done.
  - match goal with H : _ ∨ _ |- _ => destruct H as [->|(? & _ & _ & ->)] end; done.
Qed.

(** ** Tokens *)

Definition drawn r : Prop := ∀ h row, tokens r !! h = Some row → ∃ k raw, (k < draws r)%nat ∧ token_of k = Some (raw, h).

(** What a request does to the token table *)
Record token_step r (w : Moment) (rep : enroll_reply) r' : Prop := {
  ts_draws : (draws r ≤ draws r')%nat;
  ts_from : ∀ h row', tokens r' !! h = Some row' →
    (∃ row, tokens r !! h = Some row ∧ t_expires_at row' = t_expires_at row ∧ (consumed_at row' = None → consumed_at row = None)) ∨
    (∃ raw, rep = Minted raw h (t_expires_at row') ∧ token_of (draws r) = Some (raw, h) ∧ draws r' = S (draws r));
}.

Lemma token_step_same r w rep r' : draws r' = draws r → tokens r' = tokens r → token_step r w rep r'.
Proof using Type. intros Hd Ht. constructor; [by rewrite Hd|]. intros h row. rewrite Ht. left. by exists row. Qed.

Lemma outcome_tokens r w q r' rep : outcome r w q r' rep → token_step r w rep r'.
Proof using Type.
  intros [ | | | | |a b ag h r1 ag' ? ? ? ? ? Hf| |a b cache ag old fp r1 ag' ? ? ? ? ? Hf| | |call a del ag r1 ? ? Hr ? ?];
    try (by apply token_step_same).
  - constructor; [cbn; rewrite ?Hd; repeat constructor|]. intros h row. left. by exists row.
  - constructor; [cbn; rewrite ?Hd; repeat constructor|]. intros h' row'. cbn [tokens set_tokens].
    intros [[<- <-]|[_ H']]%lookup_insert_Some; [right; by exists raw|left; by exists row'].
  - constructor; [cbn; rewrite ?Hd; repeat constructor|]. intros h' row'. cbn [tokens set_tokens]. intros [_ H']%lookup_delete_Some. left. by exists row'.
  - match goal with H : enroll_row _ _ _ _ _ _ _ _ = _ |- _ => apply enroll_row_ok in H as (_ & _ & _ & Hd & _ & _ & Ht & _) end.
    constructor; [cbn; rewrite ?Hd; repeat constructor|]. intros h' row'. cbn [tokens drew]. rewrite Ht.
    intros [[<- <-]|[_ H']]%lookup_insert_Some; left; [by exists row|by exists row'].
  - apply store_fingerprint_ok in Hf as (_ & -> & _). by apply token_step_same.
  - apply store_fingerprint_ok in Hf as (_ & -> & _). by apply token_step_same.
  - assert (tokens r1 = tokens r ∧ draws r1 = draws r) as [Ht Hd] by (by destruct Hr as [->|(? & _ & _ & ->)]).
    constructor; [cbn; rewrite ?Hd; repeat constructor|]. intros h row'. cbn [tokens delete_agent_row]. rewrite lookup_fmap, Ht.
    intros (row & Hrow & ->)%fmap_Some. left. by exists row.
Qed.

Lemma token_step_drawn r w rep r' : token_step r w rep r' → drawn r → drawn r'.
Proof using Type.
  intros [Hd Hf] Hr h row' Hrow. destruct (Hf h row' Hrow) as [(row & Hold & _)|(raw & _ & Ht & Hd')].
  - destruct (Hr h row Hold) as (k & raw & Hk & Ht). exists k, raw. split; [by eapply Nat.lt_le_trans|done].
  - exists (draws r), raw. rewrite Hd'. auto.
Qed.

(** A token that can no longer enroll anybody *)
Definition spent r (h : text) : Prop :=
  (∃ k raw, (k < draws r)%nat ∧ token_of k = Some (raw, h)) ∧ ∀ row, tokens r !! h = Some row → consumed_at row ≠ None.

Section trace.
(** No two draws give tokens with one hash. *)
Context (distinct : ∀ j k rj rk h, token_of j = Some (rj, h) → token_of k = Some (rk, h) → j = k).

Lemma spent_step r w rep r' h : token_step r w rep r' → spent r h → spent r' h.
Proof using distinct.
  intros [Hd Hf] [(k & raw & Hk & Ht) Hs]. split; [exists k, raw; split; [by eapply Nat.lt_le_trans|done]|].
  intros row' Hrow. destruct (Hf h row' Hrow) as [(row & Hold & _ & Hc)|(raw' & _ & Ht' & _)].
  - intros Hn. by apply (Hs row Hold), Hc.
  - rewrite (distinct _ _ _ _ _ Ht Ht') in Hk. by apply Nat.lt_irrefl in Hk.
Qed.

(** The registration a reply reports: the hash of the token, the agent, the time *)
Definition redemption (w : Moment) (q : enroll_request) (rep : enroll_reply) : option (text * Z * Z) :=
  match q, rep with
  | QRegister b, Registered id _ _ _ _ => h ← hash (r_token b); Some (h, id, now w)
  | _, _ => None
  end.
Fixpoint redemptions r (trace : list (Moment * enroll_request)) : list (text * Z * Z) :=
  match trace with
  | [] => []
  | (w, q) :: t => let '(r', rep) := serve r w q in (match redemption w q rep with Some x => [x] | None => [] end) ++ redemptions r' t
  end.
Fixpoint minted r (trace : list (Moment * enroll_request)) : list (text * Z) :=
  match trace with
  | [] => []
  | (w, q) :: t =>
      let '(r', rep) := serve r w q in (match rep with Minted _ h e => [(h, e)] | _ => [] end) ++ minted r' t
  end.

Lemma outcome_redemption r w q r' rep x :
  outcome r w q r' rep → drawn r → redemption w q rep = Some x →
  x.2 = now w ∧ (∃ row, tokens r !! x.1.1 = Some row ∧ consumed_at row = None ∧ now w < t_expires_at row) ∧ spent r' x.1.1.
Proof using Type.
  intros Ho Hd Hx. destruct q; try done. destruct rep as [| | | |id secret ott url warning| | |]; try done. cbn [redemption] in Hx.
  inversion Ho as [? ? Hq|? ? Hq| | |b h row secret' sh groups r1 id' ott' url' w' Hh Hrow Hc He| | | | | |]; subst; [done..|].
  rewrite Hh in Hx. injection Hx as <-. cbn [fst snd]. split; [done|]. unfold classify_token in Hc.
  destruct (consumed_at row) eqn:Hcon; [done|]. destruct (Z.leb_spec (t_expires_at row) (now w)) as [|Hlt]; [done|].
  split; [by exists row|]. apply enroll_row_ok in He as (_ & _ & _ & Hdr & _ & _ & Ht & _). split.
  - destruct (Hd h row Hrow) as (k & raw & Hk & Htk). exists k, raw. cbn [drew draws]. rewrite Hdr. auto.
  - intros row'. cbn [drew tokens]. rewrite Ht, lookup_insert_eq. by intros [= <-].
Qed.

Lemma redemptions_unspent r trace x :
  roots_pinned sha256_hex der (roots r) → drawn r → x ∈ redemptions r trace →
  ¬ spent r x.1.1 ∧
  ((∃ row, tokens r !! x.1.1 = Some row ∧ consumed_at row = None ∧ x.2 < t_expires_at row) ∨
   ∃ e v call b, (x.1.1, e) ∈ minted r trace ∧ x.2 < e ∧ (v, QMint call b) ∈ trace ∧ admitted "admin" call (now v)).
Proof using distinct.
  revert r. induction trace as [|[w q] t IH]; intros r Hp Hd; [by intros ?%elem_of_nil|]. cbn [redemptions minted].
  destruct (serve r w q) as [r' rep] eqn:Hs. apply serve_outcome in Hs; [|done].
  pose proof (outcome_tokens _ _ _ _ _ Hs) as Hstep. pose proof (outcome_roots _ _ _ _ _ Hp Hs) as Hp'.
  pose proof (token_step_drawn _ _ _ _ Hstep Hd) as Hd'. rewrite elem_of_app. intros [Hx|Hx].
  - destruct (redemption w q rep) as [y|] eqn:Hy; [|by apply elem_of_nil in Hx]. apply list_elem_of_singleton in Hx as ->.
    apply (outcome_redemption _ _ _ _ _ _ Hs Hd) in Hy as (-> & (row & Hrow & Hc & Hlt) & _).
    split; [intros [_ Hno]; by apply (Hno row)|left; by exists row].
  - destruct (IH r' Hp' Hd' Hx) as [Hno Hor]. split; [intros Hspent; by eapply Hno, spent_step|].
    destruct Hor as [(row' & Hrow' & Hc' & Hlt)|(e & v & call & b & He & Hlt & Hv & Ha)];
      [|right; exists e, v, call, b; split_and!; [set_solver|done|by right|done]].
    destruct (ts_from _ _ _ _ Hstep _ _ Hrow') as [(row & Hrow & He & Hc)|(raw & -> & _)].
    + left. exists row. rewrite <- He. auto.
    + inversion Hs as [? ? Hq|? ? Hq|call b raw' h names e Ha| | | |? ? ? ? ? Hq| | | |]; subst; [done|done| |done].
      right. exists (t_expires_at row'), w, call, b. split_and!; [left|done|left|done].
Qed.

(** C22: an enrollment token enrolls at most one agent.  Whatever requests arrive, in whatever
    order, the registrations that succeed used tokens with pairwise different hashes; each
    came before the expiry of its token, and that token was either stored and unconsumed at
    the start or minted by an administrator on the way. *)
Theorem token_single_use r trace :
  roots_pinned sha256_hex der (roots r) → drawn r →
  NoDup (map (λ x, x.1.1) (redemptions r trace)) ∧
  ∀ h a t, (h, a, t) ∈ redemptions r trace →
    (∃ row, tokens r !! h = Some row ∧ consumed_at row = None ∧ t < t_expires_at row) ∨
    ∃ e v call b, (h, e) ∈ minted r trace ∧ t < e ∧ (v, QMint call b) ∈ trace ∧ admitted "admin" call (now v).
Proof using distinct.
  intros Hp Hd. split; [|intros h a t Hx; by apply (redemptions_unspent r trace (h, a, t) Hp Hd) in Hx as [_ Hx]].
  revert r Hp Hd. induction trace as [|[w q] t IH]; intros r Hp Hd; [constructor|]. cbn [redemptions].
  destruct (serve r w q) as [r' rep] eqn:Hs. apply serve_outcome in Hs; [|done].
  pose proof (outcome_tokens _ _ _ _ _ Hs) as Hstep. pose proof (outcome_roots _ _ _ _ _ Hp Hs) as Hp'.
  pose proof (token_step_drawn _ _ _ _ Hstep Hd) as Hd'. specialize (IH r' Hp' Hd').
  destruct (redemption w q rep) as [x|] eqn:Hx; [|done]. cbn [app map]. constructor; [|done].
  apply (outcome_redemption _ _ _ _ _ _ Hs Hd) in Hx as (_ & _ & Hspent).
  intros (y & Hy & Hin)%list_elem_of_fmap. apply (redemptions_unspent _ _ _ Hp' Hd') in Hin as [Hno _].
  apply Hno. by rewrite <- Hy.
Qed.
End trace.

(** ** The life of an agent *)

Definition keyed (c : Central) : Prop := ∀ a ag, agents c !! a = Some ag → ag_id ag = a.

Inductive Life := LAbsent | LPending (secret_hash : option text) | LActive (fingerprint : text) | LRevoked.

Definition life_of (ag : option Agent) (secret : option text) : Life :=
  match ag with
  | None => LAbsent
  | Some ag =>
      match revoked_at ag, cert_fingerprint ag with
      | Some _, _ => LRevoked
      | None, Some fp => LActive fp
      | None, None => LPending secret
      end
  end.
Definition life r (a : Z) : Life := life_of (agents_of r !! a) (enroll_secrets r !! a).

(** What may move an agent from one stage to another *)
Inductive life_step r (w : Moment) (a : Z) : enroll_request → Life → Life → Prop :=
  | registers b h row secret :
      a = new_agent (agents_made r) → hash (r_token b) = Some h → tokens r !! h = Some row → consumed_at row = None → now w < t_expires_at row →
      life_step r w a (QRegister b) LAbsent (LPending (Some secret))
  | binds b h :
      hash (enroll_secret b) = Some h → life_step r w a (QBind a b) (LPending (Some h)) (LActive (b_fingerprint b))
  | rebinds b fp fp' :
      possesses a b (now w) fp' → life_step r w a (QRebind a b) (LActive fp) (LActive fp')
  | revokes call del s :
      admitted "admin" call (now w) → s ≠ LAbsent → s ≠ LRevoked → life_step r w a (QRevoke call a false del) s LRevoked
  | purges call del s :
      admitted "admin" call (now w) → s ≠ LAbsent → life_step r w a (QRevoke call a true del) s LAbsent.

Lemma life_same r r' a : agents_of r' !! a = agents_of r !! a → enroll_secrets r' !! a = enroll_secrets r !! a → life r' a = life r a.
Proof using Type. unfold life. by intros -> ->. Qed.

Lemma life_put r ag b :
  life (set_agent_row r ag) b = if decide (ag_id ag = b) then life_of (Some ag) (enroll_secrets r !! b) else life r b.
Proof using Type.
  unfold life, agents_of. cbn [set_agent_row set_fleet set_central set_agent fleet central agents enroll_secrets].
  destruct (decide _) as [<-|Hne]; [by rewrite lookup_insert_eq|by rewrite lookup_insert_ne].
Qed.

Lemma stored_life r ag fp r' ag' b :
  revoked_at ag = None → store_fingerprint r ag fp = Ok (r', ag') →
  life r' b = (if decide (ag_id ag = b) then LActive fp else life r b) ∧ enroll_secrets r' = enroll_secrets r.
Proof using Type.
  intros Hrev (-> & -> & _)%store_fingerprint_ok. split; [|done]. rewrite life_put. cbn [ag_id set_credentials].
  destruct (decide _); [|done]. cbn [life_of revoked_at cert_fingerprint set_credentials]. by rewrite Hrev.
Qed.

(** An outcome moves an agent as its life allows. *)
Lemma outcome_life r w q r' rep a :
  keyed (central (fleet r)) → outcome r w q r' rep → life r' a = life r a ∨ life_step r w a q (life r a) (life r' a).
Proof using Type.
  intros Hk Ho. destruct Ho as [ | | | |b h row secret sh groups r1 id ott url wn Hh Hrow Hc He
    |x b ag h r1 ag' Hag Hrev Hfp Hsec Hh Hf| |x b cache ag old fp r1 ag' _ Hposs Hag Hrev Hfp Hf|call x name ag t Hag Hrev
    |call x del ag Hadm Hag Hrev|call x del ag r1 Hadm Hag Hr _ _]; try by left.
  - apply enroll_row_ok in He as (Hnew & Hnone & _ & _ & (ag & Hid & Hr & Hf & Hags) & Hs & _). change (life (drew r1) a) with (life r1 a).
    destruct (decide (id = a)) as [<-|Hne]; [right|left; apply life_same; rewrite ?Hags, ?Hs; by apply lookup_insert_ne].
    unfold life. rewrite Hnone, Hags, Hs, !lookup_insert_eq. cbn [life_of]. rewrite Hr, Hf.
    unfold classify_token in Hc. destruct (consumed_at row) eqn:Hcon; [done|].
    destruct (Z.leb_spec (t_expires_at row) (now w)); [done|]. by eapply registers.
  - pose proof (Hk _ _ Hag) as Hid. pose proof (stored_life _ _ _ _ _ a Hrev Hf) as [Hl Hs]. rewrite Hid in Hl.
    destruct (decide (x = a)) as [<-|Hne]; [right|left].
    + assert (life r x = LPending (Some h)) as -> by (unfold life; rewrite Hag, Hsec; cbn; by rewrite Hrev, Hfp).
      assert (life r1 x = LActive (b_fingerprint b)) as Hl' by done. unfold life in *. cbn [enroll_secrets agents_of fleet].
      change (agents_of (mkRegistry (fleet r1) (platforms r1) _ _ _ _ _ _ _)) with (agents_of r1).
      destruct (agents_of r1 !! x) as [ag1|]; [|done]. cbn in Hl' |- *.
      destruct (revoked_at ag1), (cert_fingerprint ag1); try done. injection Hl' as ->. by apply binds.
    + rewrite <- Hl. apply life_same; [done|]. cbn [enroll_secrets]. by apply lookup_delete_ne.
  - pose proof (Hk _ _ Hag) as Hid. pose proof (stored_life _ _ _ _ _ a Hrev Hf) as [Hl _]. rewrite Hid in Hl.
    rewrite Hl. destruct (decide (x = a)) as [<-|Hne]; [right|by left].
    assert (life r x = LActive old) as -> by (unfold life; rewrite Hag; cbn; by rewrite Hrev, Hfp). by apply rebinds.
  - pose proof (Hk _ _ Hag) as Hid. left. rewrite life_put. cbn [ag_id set_name]. rewrite Hid. destruct (decide (x = a)) as [<-|]; [|done].
    unfold life. by rewrite Hag.
  - pose proof (Hk _ _ Hag) as Hid. rewrite life_put. cbn [ag_id set_revoked]. rewrite Hid. destruct (decide (x = a)) as [<-|]; [right|by left].
    cbn [life_of revoked_at set_revoked]. unfold life. rewrite Hag. cbn [life_of]. rewrite Hrev.
    apply revokes; [done|by destruct (cert_fingerprint ag)..].
  - assert (agents_of r1 = agents_of r ∧ enroll_secrets r1 = enroll_secrets r) as [Hags Hs] by (by destruct Hr as [->|(? & _ & _ & ->)]).
    destruct (decide (x = a)) as [<-|Hne]; [right|left].
    + unfold life at 2. change (agents_of (delete_agent_row r1 x)) with (delete x (agents_of r1)). rewrite lookup_delete_eq.
      apply purges; [done|]. unfold life. rewrite Hag. cbn. by destruct (revoked_at ag), (cert_fingerprint ag).
    + apply life_same; [change (agents_of (delete_agent_row r1 x)) with (delete x (agents_of r1)); rewrite Hags|cbn [delete_agent_row enroll_secrets]; rewrite Hs];
        by apply lookup_delete_ne.
Qed.

Lemma put_keyed r ag : keyed (central (fleet r)) → keyed (central (fleet (set_agent_row r ag))).
Proof using Type. intros Hk b x. cbn. intros [[<- <-]|[_ H]]%lookup_insert_Some; [done|by apply Hk]. Qed.

Lemma outcome_keyed r w q r' rep : keyed (central (fleet r)) → outcome r w q r' rep → keyed (central (fleet r')).
Proof using Type.
  intros Hk Ho. destruct Ho as [ | | | |b h row secret sh groups r1 id ott url wn Hh Hrow Hc He
    |x b ag h r1 ag' Hag Hrev Hfp Hsec Hh Hf| |x b cache ag old fp r1 ag' _ Hposs Hag Hrev Hfp Hf|call x name ag t Hag Hrev
    |call x del ag Hadm Hag Hrev|call x del ag r1 Hadm Hag Hr _ _]; try done.
  - apply enroll_row_ok in He as (_ & _ & _ & _ & (ag & Hid & _ & _ & Hags) & _). intros b' y.
    change (agents (central (fleet (drew r1)))) with (agents_of r1). rewrite Hags.
    intros [[<- <-]|[_ H]]%lookup_insert_Some; [done|by apply Hk].
  - apply store_fingerprint_ok in Hf as (_ & -> & _). by apply put_keyed.
  - apply store_fingerprint_ok in Hf as (_ & -> & _). by apply put_keyed.
  - by apply put_keyed.
  - by apply put_keyed.
  - assert (agents_of r1 = agents_of r) as Hags by (by destruct Hr as [->|(? & _ & _ & ->)]).
    intros b y. change (agents (central (fleet (delete_agent_row r1 x)))) with (delete x (agents_of r1)).
    rewrite Hags. intros [_ H]%lookup_delete_Some. by apply Hk.
Qed.

Lemma outcome_made r w q r' rep : outcome r w q r' rep → agents_made r' = agents_made r ∨ agents_made r' = S (agents_made r).
Proof using Type.
  intros Ho. destruct Ho as [ | | | |b h row secret sh groups r1 id ott url wn Hh Hrow Hc He
    |x b ag h r1 ag' Hag Hrev Hfp Hsec Hh Hf| |x b cache ag old fp r1 ag' _ Hposs Hag Hrev Hfp Hf|call x name ag t Hag Hrev
    |call x del ag Hadm Hag Hrev|call x del ag r1 Hadm Hag Hr _ _]; try by left.
  - right. by apply enroll_row_ok in He as (_ & _ & ? & _).
  - left. by apply store_fingerprint_ok in Hf as (_ & -> & _).
  - left. by apply store_fingerprint_ok in Hf as (_ & -> & _).
  - left. by destruct Hr as [->|(? & _ & _ & ->)].
Qed.

(** ** Purge *)

(** The rows a purge takes with it *)
Definition taken r (a : Z) (del : bool) (i : Z) : Prop :=
  del = true ∧ hangs (items (central (fleet r))) (owned_libraries (fleet r) a) i.

Lemma no_libraries_hang m i : ¬ hangs m [] i.
Proof using Type. induction 1 as [i it _ H|]; [by apply elem_of_nil in H|done]. Qed.

(** What is left of an agent: nothing *)
Record forgotten r (a : Z) : Prop := {
  fg_row : agents_of r !! a = None ∧ adverts (fleet r) !! a = None ∧ platforms r !! a = None ∧ enroll_secrets r !! a = None;
  fg_commands : ∀ i c, commands (fleet r) !! i = Some c → c_agent_id c ≠ a;
  fg_ledger : ∀ n, ledger (central (fleet r)) !! (a, n) = None;
  fg_sessions : ∀ i s, sessions (central (fleet r)) !! i = Some s → rs_agent_id s ≠ a;
  fg_staging : ∀ i p, sessions (central (fleet r)) !! i = None → staging (central (fleet r)) !! (i, p) = None;
  fg_members : ∀ g, (a, g) ∉ members r;
  fg_tokens : ∀ h row, tokens r !! h = Some row → consumed_by row ≠ Some a;
  fg_libraries : ∀ l, l ∈ libraries (central (fleet r)) → source_agent_id l ≠ Some a;
  fg_items : ∀ i it, items (central (fleet r)) !! i = Some it → i_source_agent_id it ≠ Some a;
}.

Lemma delete_forgets r a : owned_items (fleet r) a = [] → forgotten (delete_agent_row r a) a.
Proof using Type.
  intros Hi. constructor.
  - split_and!; cbn; apply lookup_delete_eq.
  - intros i c. cbn. by intros [_ ?]%map_lookup_filter_Some.
  - intros n. cbn. apply map_lookup_filter_None. right. intros x _ Hn. by apply Hn.
  - intros i s. cbn. intros [_ H]%map_lookup_filter_Some. by apply negb_true_iff, Z.eqb_neq in H.
  - intros i p. cbn. intros Hn. apply map_lookup_filter_None. right. intros x _ [y Hy]. by rewrite Hn in Hy.
  - intros g. cbn. rewrite elem_of_filter. intros [Hne _]. by apply Hne.
  - intros h row. cbn. rewrite lookup_fmap. intros (row' & _ & ->)%fmap_Some. cbn.
    by destruct (bool_decide_reflect (consumed_by row' = Some a)).
  - intros l. cbn. intros (l' & -> & _)%list_elem_of_fmap. cbn.
    by destruct (bool_decide_reflect (source_agent_id l' = Some a)).
  - intros i it. cbn. intros Hit Hs. apply filterb_nil with (x := (i, it)) in Hi; [|by apply elem_of_map_to_list].
    by apply bool_decide_eq_false in Hi.
Qed.

(** C23: a purge that succeeds removes the agent from every table, its credentials, commands,
    ledger, sweeps and memberships with it, and leaves no library, item or token that
    refers to it.  Asked to delete libraries it takes exactly the items of the agent's
    libraries and the sidecars that hang on them; otherwise it takes no item.  The other
    agents, and their commands on the items that stay, are as before. *)
Theorem purge_complete r w a ag st del r' eff :
  revoke_agent id_order r a true del w = (r', AgentOut ag st, eff) →
  forgotten r' a ∧
  (∀ i, (taken r a del i → items (central (fleet r')) !! i = None) ∧
        (¬ taken r a del i → items (central (fleet r')) !! i = items (central (fleet r)) !! i)) ∧
  (∀ b, b ≠ a → agents_of r' !! b = agents_of r !! b) ∧
  (∀ i c, commands (fleet r) !! i = Some c → c_agent_id c ≠ a → (∀ j, c_item_id c = Some j → ¬ taken r a del j) →
     commands (fleet r') !! i = Some c).
Proof using Type.
  unfold revoke_agent. destruct (agents_of r !! a) as [x|]; [|done]. unfold purge_agent.
  set (libs := if del then _ else _). destruct (existsb _ libs); [done|]. set (r1 := match libs with [] => r | _ => _ end).
  destruct (owned_libraries (fleet r1) a) eqn:Hl; [|done]. destruct (owned_items (fleet r1) a) eqn:Hi; [|done].
  intros [= <- _ _ _]. split; [by apply delete_forgets|].
  assert (∀ i, taken r a del i ↔ hangs (items (central (fleet r))) libs i) as Ht.
  { intros i. unfold taken. subst libs. destruct del; [split; [by intros [_ ?]|by split]|]. split; [by intros [? _]|by intros ?%no_libraries_hang]. }
  set (gone := cascade (size (items (central (fleet r)))) (items (central (fleet r))) (items_of (items (central (fleet r))) libs)).
  assert (∀ i, i ∈ gone ↔ taken r a del i) as Hgone by (intros i; rewrite Ht; apply cascade_exact).
  assert (items (central (fleet r1)) = filter (λ '(i, _), i ∉ gone) (items (central (fleet r)))) as Hitems.
  { subst r1. destruct libs as [|l ls] eqn:Hlibs; [|done]. symmetry. apply map_filter_id. intros i it _ Hin.
    apply Hgone, Ht in Hin. by apply no_libraries_hang in Hin. }
  assert (commands (fleet r1) = filter (λ '(_, k), match c_item_id k with Some i => bool_decide (i ∉ gone) | None => true end = true)
            (commands (fleet r))) as Hcommands.
  { subst r1. destruct libs as [|l ls] eqn:Hlibs; [|done]. symmetry. apply map_filter_id. intros i c _.
    destruct (c_item_id c) as [j|]; [|done]. apply bool_decide_eq_true. intros Hin. apply Hgone, Ht in Hin.
    by apply no_libraries_hang in Hin. }
  assert (agents_of r1 = agents_of r) as Hagents by (subst r1; by destruct libs).
  split_and!.
  - intros i. change (items (central (fleet (delete_agent_row r1 a)))) with (items (central (fleet r1))). rewrite Hitems, <- Hgone. split.
    + intros Hin. apply map_lookup_filter_None. right. intros it _ Hn. by apply Hn.
    + intros Hin. rewrite map_lookup_filter. destruct (items (central (fleet r)) !! i); [|done]. cbn. by rewrite option_guard_True.
  - intros b Hb. change (agents_of (delete_agent_row r1 a)) with (delete a (agents_of r1)). by rewrite lookup_delete_ne, Hagents.
  - intros i c Hc Hne Hj. change (commands (fleet (delete_agent_row r1 a))) with (filter (λ '(_, k), c_agent_id k ≠ a) (commands (fleet r1))).
    apply map_lookup_filter_Some. split; [|done]. rewrite Hcommands. apply map_lookup_filter_Some. split; [done|].
    destruct (c_item_id c) as [j|] eqn:Hjc; [|done]. apply bool_decide_eq_true. rewrite Hgone. by apply Hj.
Qed.

(** ** The fleet console *)

Lemma count_split (p q1 q2 : Agent → bool) m :
  (∀ a, p a = q1 a || q2 a) → (∀ a, q1 a && q2 a = false) → count p m = (count q1 m + count q2 m)%nat.
Proof using Type.
  intros Hp Hq. unfold count. induction (map_to_list m) as [|[i a] l IH]; [done|]. cbn. rewrite Hp. specialize (Hq a).
  destruct (q1 a), (q2 a); cbn in *; rewrite ?IH, ?Nat.add_succ_r; done.
Qed.

(** The tallies of the console partition the fleet: each agent is in exactly one. *)
Lemma summary_partition r now total connected disconnected pending revoked :
  agent_fleet_summary esettings r now = Summary total connected disconnected pending revoked →
  total = size (agents_of r) ∧ total = (connected + disconnected + pending + revoked)%nat.
Proof using Type.
  unfold agent_fleet_summary. set (cutoff := now - _). set (m := agents_of r). intros [= <- <- <- <- <-].
  assert (count (λ _, true) m = size m) as Hs.
  { unfold count. rewrite <- length_map_to_list. f_equal.
    induction (map_to_list m) as [|[i a] l IH]; [done|]. cbn. f_equal. exact IH. }
  split; [exact Hs|].
  rewrite <- (count_split is_active). 2, 3: intros a; unfold is_fresh, is_old; destruct (is_active a), (last_seen_at a) as [t|]; cbn; try done; rewrite ?Z.leb_antisym; by destruct (Z.ltb _ _).
  rewrite <- (count_split (λ a, is_active a || is_pending a)) by (intros a; unfold is_active, is_pending; by destruct (is_revoked a), (is_bound a)).
  apply count_split; intros a; unfold is_active, is_pending; by destruct (is_revoked a), (is_bound a).
Qed.
End enrollment.

(** ** Examples *)

(** An injective digest, draws and ids in sequence, a key that imports and signs *)
Definition example_digest (bs : list Z) : string := dec (Npos (encode bs)).
Definition example_draw (n : Z) (k : nat) : text := txt (dec (N.of_nat k)).
Definition example_agent_id (k : nat) : Z := 50 + Z.of_nat k.
Definition example_jwk (raw : text) : option json :=
  Some (JDict [(txt "kty", JText (txt "EC")); (txt "crv", JText (txt "P-256")); (txt "x", JText (txt "1"));
    (txt "y", JText (txt "2")); (txt "d", JText (txt "3"))]).
Definition example_esettings : EnrollSettings :=
  mkEnrollSettings (txt "https://ca") (txt "root") (txt "agents") (Some (txt "jwk")) 300 48 [] 300 60 300.
Definition example_serve (r : Registry Z) (w : Moment) (q : enroll_request) : Registry Z * enroll_reply :=
  serve_enrollment (λ c, [c]) (λ _, true) example_digest id example_draw example_agent_id (λ l, l) Some example_jwk
    (λ c, [c]) (λ _, 0) (λ _, 0) (λ _, []) (λ c, Some c) (λ _, None) (λ _, None) (λ _ _ _ _, true) (λ _ _ _, true)
    (λ _, Some ()) (λ _, []) (λ _ _ _, Some (txt "jwt")) example_settings example_esettings false ∅ r w q.
Definition example_redemptions (r : Registry Z) (t : list (Moment * enroll_request)) : list (text * Z * Z) :=
  redemptions (λ c, [c]) (λ _, true) example_digest id example_draw example_agent_id (λ l, l) Some example_jwk
    (λ c, [c]) (λ _, 0) (λ _, 0) (λ _, []) (λ c, Some c) (λ _, None) (λ _, None) (λ _ _ _ _, true) (λ _ _ _, true)
    (λ _, Some ()) (λ _, []) (λ _ _ _, Some (txt "jwt")) example_settings example_esettings false ∅ r t.
Definition example_registry (f : Fleet) : Registry Z := mkRegistry f ∅ ∅ ∅ [] ∅ ∅ 0 0.
Definition at_ (t : Z) : Moment := mkMoment t (λ _, false) (λ _, None).
Definition example_operator : OperatorCall := mkCall None None (mkRequest ∅ ∅ None).
Definition example_register (token : text) : enroll_request :=
  QRegister (mkRegister token (txt "host") (txt "linux") None None).
Definition example_token : text := ENROLL_TOKEN_PREFIX ++ txt "_" ++ txt "0".

(** A token is minted, used, and replayed. *)
Definition example_enrollment : list (Moment * enroll_request) :=
  [(at_ 1, QMint example_operator (mkTokenMint [] None)); (at_ 2, example_register example_token);
   (at_ 3, example_register example_token)].
Definition empty_fleet : Fleet := mkFleet (mkCentral ∅ [] ∅ ∅ ∅ ∅ 0 0 0) ∅ ∅ 0 ∅.

Lemma example_distinct j k rj rk h :
  generate_enrollment_token example_digest example_draw j = Some (rj, h) →
  generate_enrollment_token example_digest example_draw k = Some (rk, h) → j = k.
Proof.
  unfold generate_enrollment_token, _sha256_hex.
  destruct (utf8_encode (_ ++ _ ++ example_draw 32 j)) as [bj|] eqn:Hj; [|done].
  destruct (utf8_encode (_ ++ _ ++ example_draw 32 k)) as [bk|] eqn:Hk; [|done].
  cbn [mbind option_bind]. intros [= _ <-] [= _ Hh]. apply txt_inj, dec_inj in Hh. injection Hh as Hh. apply (inj encode) in Hh as <-.
  apply utf8_roundtrip in Hj, Hk. rewrite Hj in Hk. injection Hk as Hk. apply txt_inj, dec_inj in Hk. lia.
Qed.

Lemma token_single_use_witness :
  map snd (map fst (example_redemptions (example_registry empty_fleet) example_enrollment)) = [50] ∧
  NoDup (map (λ x, x.1.1) (example_redemptions (example_registry empty_fleet) example_enrollment)).
Proof.
  split; [vm_compute; reflexivity|].
  eapply token_single_use; [exact example_distinct|by intros ? ? ?|by intros ? ?].
Defined.

(** An agent with a library of two items, one the sidecar of the other *)
Definition purge_row (i : Z) (owner : option Z) : Item :=
  mkItem i 1 None None active (txt "/data/a") (txt "a") (txt "a") None 1 0 None None None None None None None 0 None owner None
    (Some 7) None (mkCurated None None [] ∅ ∅ ∅ 0).
Definition purge_central : Central :=
  mkCentral {[10 := purge_row 10 None; 11 := purge_row 11 (Some 10)]}
    [mkAgentLibrary 1 (txt "data") (txt "/data") (Some 7) (Some (txt "/data"))] {[7 := example_agent]}
    {[(7, 1) := mkLedger (Some 10) Created 0]} ∅ ∅ 2 1 0.
Definition purge_registry : Registry Z := example_registry (mkFleet purge_central ∅ ∅ 0 ∅).

Lemma purge_complete_witness :
  let out := revoke_agent (λ l, l) purge_registry 7 true true (at_ 5) in
  out.2 = [DeleteDocs [11; 10]] ∧ forgotten out.1.1 7 ∧ items (central (fleet out.1.1)) = ∅.
Proof.
  cbn zeta.
  assert (∃ r', revoke_agent (λ l, l) purge_registry 7 true true (at_ 5) = (r', AgentOut example_agent "active", [DeleteDocs [11; 10]]) ∧
    items (central (fleet r')) = ∅) as (r' & Hp & Hi) by (eexists; split; vm_compute; reflexivity).
  rewrite Hp. split; [reflexivity|]. split; [|exact Hi].
  apply (purge_complete (λ l, l) purge_registry (at_ 5) 7 example_agent "active" true r' [DeleteDocs [11; 10]] Hp).
Defined.

(** A token that names a group twice enrolls nobody: the second membership row collides with
    the first, and every registration with the token fails until it expires. *)
Definition twice_named : Registry Z :=
  mkRegistry empty_fleet ∅ ∅ {[txt (example_digest example_token) :=
    mkToken (txt (example_digest example_token)) (Some [txt "lab"; txt "lab"]) 100 None None 0]} [mkConfigGroup 1 (txt "lab") false] ∅ ∅ 0 1.
Example twice_named_refused :
  (example_serve twice_named (at_ 5) (example_register example_token)).2 = EServerError IntegrityError.
Proof. vm_compute. reflexivity. Qed.

(** Bound once, an agent may bind the same fingerprint again with any secret. *)
Example rebinding_ignores_secret :
  (example_serve purge_registry (at_ 5) (QBind 7 (mkCertBind (txt "wrong") (txt "fp")))).2 = AgentOut example_agent "active".
Proof. vm_compute. reflexivity. Qed.

(** Without a provisioner key registration is refused, and the token stays open. *)
Example register_needs_key :
  serve_enrollment (λ c, [c]) (λ _, true) example_digest id example_draw example_agent_id (λ l, l) Some (λ _, None)
    (λ c, [c]) (λ _, 0) (λ _, 0) (λ _, []) (λ c, Some c) (λ _, None) (λ _, None) (λ _ _ _ _, true) (λ _ _ _, true)
    (λ _, Some ()) (λ _, []) (λ _ _ _, Some (txt "jwt")) example_settings example_esettings false ∅
    twice_named (at_ 5) (example_register example_token) = (twice_named, EHttpError 503).
Proof. vm_compute. reflexivity. Qed.
