(* ===== verification/AgentServer.v ===== *)
(** * The agent surface as one server

    Enrollment, replication, reconciliation and commands share the agents table; here they
    are served from one state, so that what one of them promises can be stated against all
    the others. *)
From S2P Require Import Prelude PyStr Uuid Utf8 PathLabel Text Json Catalog Sidecar Rbac Access Move AgentMeta AgentSync AgentSyncFacts Reconcile Verify Commands CommandsFacts AgentCert Enrollment EnrollmentFacts.
From Stdlib Require Import SpecFloat.
From stdpp Require Import options.

(** ** The server *)

Inductive server_request :=
  | AEnroll (q : enroll_request)
  | ACommand (q : Commands.request)
  | AReplicate (agent_id : Z) (body : ReplicationBatch) (maintenance : bool) (request : AgentRequest)
  | AReconcileStart (agent_id : Z) (library_ref : text) (digest : string) (row_count : nat) (rebuilt : bool) (request : AgentRequest)
  | AReconcileRows (agent_id session_id : Z) (rows : list ReconcileRow) (request : AgentRequest)
  | AReconcileFinish (agent_id session_id : Z) (digest : string) (row_count : nat) (reset_seq : bool) (request : AgentRequest).

Inductive server_reply :=
  | OfEnroll (r : enroll_reply)
  | OfCommand (r : reply)
  | OfReplication (r : response)
  | OfReconcile (r : reconcile_response).

(** The agent in whose name a request of the agent plane comes, and its headers *)
Definition plane_request (q : server_request) : option (Z * AgentRequest) :=
  match q with
  | AEnroll _ => None
  | ACommand q => agent_request q
  | AReplicate a _ _ h | AReconcileStart a _ _ _ _ h | AReconcileRows a _ _ h | AReconcileFinish a _ _ _ _ h => Some (a, h)
  end.

(** An enrollment request has no agent's headers; a command request does when its agent
    calls. *)
Section server.
Context (uni_lower : Z → list Z) (float_repr : spec_float → text) (uni_printable : Z → bool).
Context (blake2b64 : list Z → string) (sha256_hex : list Z → string) (sha256 : string → string).
Context (model_validate : json → option CommandResult) (tax : Taxonomy).
Context (new_id new_library new_session new_command new_agent : nat → Z) (ref_order : list text → list text).
Context (staged_order : list ManifestRow → list ManifestRow) (item_order : list (Z * Item) → list (Z * Item)).
Context (row_order : list AgentCommand → list AgentCommand) (id_order : list Z → list Z).
Context (token_urlsafe : Z → nat → text) (b64decode : text → option (list Z)) (json_loads : text → option json).
Context {Cert PublicKey : Type} (der : Cert → list Z) (not_valid_before not_valid_after : Cert → Z).
Context (dns_names : Cert → list text) (ec_key : Cert → option PublicKey).
Context (load_pem : text → option Cert) (load_pem_chain : text → option (list Cert)).
Context (client_verifies : Cert → Z → Cert → list Cert → bool) (ecdsa_verifies : PublicKey → list Z → list Z → bool).
Context {ECKey : Type} (import_key : json → option ECKey) (thumbprint : ECKey → text) (jwt_encode : json → json → ECKey → option text).
Context (settings : SyncSettings) (csettings : CommandSettings) (esettings : EnrollSettings).
Context (auth_enabled : bool) (_roles : gmap string Role).
Implicit Type r : Registry Cert.

Definition set_catalogue r (c : Central) : Registry Cert := set_fleet r (set_central (fleet r) c).
Definition catalogue r : Central := central (fleet r).

(** One request of any of the routers, at its moment, with the rows others have locked *)
Definition serve r (w : Moment) (locked : Z → bool) (q : server_request) : Registry Cert * server_reply :=
  match q with
  | AEnroll q =>
      let '(r', x) := serve_enrollment uni_lower uni_printable sha256_hex sha256 token_urlsafe new_agent id_order b64decode
        json_loads der not_valid_before not_valid_after dns_names ec_key load_pem load_pem_chain client_verifies ecdsa_verifies
        import_key thumbprint jwt_encode settings esettings auth_enabled _roles r w q in
      (r', OfEnroll x)
  | ACommand q =>
      let '(f, x) := Commands.serve uni_lower float_repr sha256 model_validate new_command row_order settings csettings
        auth_enabled _roles (fleet r) locked (now w) q in
      (set_fleet r f, OfCommand x)
  | AReplicate a body maintenance h =>
      let '(c, x, _) := apply_replication_batch uni_lower float_repr uni_printable blake2b64 new_id new_library ref_order tax
        settings (catalogue r) a body h maintenance (now w) in
      (set_catalogue r c, OfReplication x)
  | AReconcileStart a ref digest n rebuilt h =>
      let '(c, x) := reconcile_start_endpoint uni_lower sha256_hex new_session settings (catalogue r) a ref digest n rebuilt h (now w) in
      (set_catalogue r c, OfReconcile x)
  | AReconcileRows a sid rows h =>
      let '(c, x) := reconcile_rows_endpoint uni_lower settings (catalogue r) a sid rows h (now w) in
      (set_catalogue r c, OfReconcile x)
  | AReconcileFinish a sid digest n reset h =>
      let '(c, x, _) := reconcile_finish_endpoint uni_lower sha256_hex blake2b64 new_id new_library staged_order item_order tax
        settings (catalogue r) a sid digest n reset h (now w) in
      (set_catalogue r c, OfReconcile x)
  end.

Fixpoint run r (trace : list (Moment * (Z → bool) * server_request)) : Registry Cert :=
  match trace with [] => r | (w, locked, q) :: t => run (serve r w locked q).1 t end.

(** ** What a request of the agent plane does to the agents table *)

(** Bookkeeping columns only *)
Definition same_identity (a a' : Agent) : Prop :=
  ag_id a' = ag_id a ∧ revoked_at a' = revoked_at a ∧ cert_fingerprint a' = cert_fingerprint a.

Lemma same_identity_trans a b c : same_identity a b → same_identity b c → same_identity a c.
Proof using Type. unfold same_identity. intuition congruence. Qed.

(** The table after a handler that holds the row [ag] *)
Definition bookkept (ag : Agent) (m m' : gmap Z Agent) : Prop :=
  m' = m ∨ ∃ ag', same_identity ag ag' ∧ m' = <[ag_id ag := ag']> m.

Ltac kept := right; eexists; split; [|reflexivity]; done.

Lemma bookkept_refl ag m : bookkept ag m m.
Proof using Type. by left. Qed.

Lemma provision_agents c agent ref c' l b : _provision_agent_library new_library c agent ref = Ok (c', l, b) → agents c' = agents c.
Proof using Type.
  unfold _provision_agent_library. destruct (find_library _ _ _); [by intros [= <- _ _]|]. destruct (free_name _ _ _ _ _); [|done].
  destruct (_ && _); [|done]. by intros [= <- _ _].
Qed.

Lemma provision_all_agents c agent refs cache n c' cache' n' :
  provision_all new_library c agent refs cache n = Ok (c', cache', n') → agents c' = agents c.
Proof using Type.
  revert c cache n. induction refs as [|ref refs IH]; intros c cache n; cbn [provision_all]; [by intros [= <- _ _]|].
  intros ([[c1 l] new] & Hp & H)%result_bind_ok. apply IH in H. rewrite H. by eapply provision_agents.
Qed.

Lemma apply_batch_agents c agent batch now c' res :
  apply_batch uni_lower float_repr uni_printable blake2b64 new_id new_library ref_order tax settings c agent batch now = Ok (c', res) →
  bookkept agent (agents c) (agents c').
Proof using Type.
  unfold apply_batch. intros ([[c1 cache] n] & Hp & H)%result_bind_ok. apply result_bind_ok in H as (st & _ & H).
  apply result_bind_ok in H as (led & _ & [= <- _]). apply provision_all_agents in Hp. cbn. rewrite Hp. kept.
Qed.

Lemma load_session_agents c agent sid now ttl :
  bookkept agent (agents c) (agents (_load_live_session c agent sid now ttl).1).
Proof using Type.
  unfold _load_live_session. destruct (sessions c !! sid) as [s|]; [|by left]. destruct (negb _); [by left|].
  destruct (Z.ltb _ _); [|by left]. kept.
Qed.

Lemma reconcile_start_agents c agent ref digest n rebuilt now c' res :
  reconcile_start sha256_hex new_session settings c agent ref digest n rebuilt now = Ok (c', res) → bookkept agent (agents c) (agents c').
Proof using Type.
  unfold reconcile_start. intros ([d k] & _ & H)%result_bind_ok. destruct (_ && _).
  - injection H as <- _. kept.
  - destruct (column_ok ref); [|done]. injection H as <- _. kept.
Qed.

(** A session that is still live left the state as it is. *)
Lemma live_session_same c agent sid now ttl c' s : _load_live_session c agent sid now ttl = (c', Some s) → c' = c.
Proof using Type. unfold _load_live_session. repeat case_match; intros [= <- _]; done. Qed.

Lemma reconcile_rows_agents c agent sid rows now :
  bookkept agent (agents c) (agents (reconcile_stage_rows settings c agent sid rows now).1).
Proof using Type.
  unfold reconcile_stage_rows. destruct (_load_live_session _ _ _ _ _) as [c1 [s|]] eqn:Hl.
  - apply live_session_same in Hl as ->. destruct (stage_all _ _ _); [|by left]. kept.
  - pose proof (load_session_agents c agent sid now (agent_reconcile_session_ttl settings)) as H. by rewrite Hl in H.
Qed.

Lemma reconcile_finish_agents c agent sid digest n reset now :
  bookkept agent (agents c)
    (agents (reconcile_finish uni_lower sha256_hex blake2b64 new_id new_library staged_order item_order tax settings c agent sid digest n reset now).1).
Proof using Type.
  unfold reconcile_finish. destruct (_load_live_session _ _ _ _ _) as [c1 [s|]] eqn:Hl.
  - apply live_session_same in Hl as ->. destruct (_ || _); [kept|].
    match goal with |- bookkept _ _ (agents (fst (match ?x with Ok _ => _ | Err _ => _ end))) => destruct x as [[c2 res]|] eqn:Hf end; [|by left].
    apply result_bind_ok in Hf as ([[c1 l] b] & Hp & Hf). apply result_bind_ok in Hf as (w & _ & [= <- _]).
    apply provision_agents in Hp. cbn. rewrite Hp. kept.
  - pose proof (load_session_agents c agent sid now (agent_reconcile_session_ttl settings)) as H. by rewrite Hl in H.
Qed.

(** The row [x] of the agent [a] where [old] was: its identity, but for a fingerprint that
    the proxy has verified *)
Definition stands (a : Z) (h : AgentRequest) (old x : Agent) : Prop :=
  ag_id x = a ∧ revoked_at x = None ∧
  (cert_fingerprint x = cert_fingerprint old ∨
   ∃ g f, cert_fingerprint old = Some g ∧ cert_fingerprint x = Some f ∧ mtls_request settings h = true ∧ x_agent_fp h = Some f).

Lemma stands_same a h old x y : stands a h old x → same_identity x y → stands a h old y.
Proof using Type. intros (Hid & Hr & Hf) (Hid' & Hr' & Hf'). unfold stands. by rewrite Hid', Hr', Hf'. Qed.

(** The table [m'] after a request with the headers [h] in the name of [a], on the table [m] *)
Record plane_step (a : Z) (h : AgentRequest) (m m' : gmap Z Agent) : Prop := {
  pl_others : ∀ b, b ≠ a → m' !! b = m !! b;
  pl_own : m' !! a = m !! a ∨ ∃ old new,
    m !! a = Some old ∧ revoked_at old = None ∧ credentials uni_lower settings a old h ∧
    m' !! a = Some new ∧ stands a h old new;
}.

Lemma plane_step_refl a h m : plane_step a h m m.
Proof using Type. constructor; [done|by left]. Qed.

(** What authentication hands to the handler *)
Lemma authenticate_row c a h c0 ag :
  keyed c → _authenticate_agent uni_lower settings c a h = Ok (c0, ag) →
  ∃ old, agents c !! a = Some old ∧ revoked_at old = None ∧ credentials uni_lower settings a old h ∧ stands a h old ag ∧
    (agents c0 = agents c ∨ ∃ x, agents c0 = <[a := x]> (agents c) ∧ stands a h old x).
Proof using Type.
  intros Hk Ha. pose proof (authenticate_credentials _ _ _ _ _ _ _ Ha) as (old & Ho & Hrev & Hcred).
  pose proof (Hk _ _ Ho) as Hid. exists old. split; [done|]. split; [done|]. split; [done|].
  assert (∀ fp mode, fp = cert_fingerprint old → stands a h old (set_credentials old fp mode)) as Hstand by (intros fp mode ->; split_and!; auto).
  unfold _authenticate_agent in Ha. destruct (_ || _) eqn:Hm in Ha.
  - unfold _authenticate_agent_mtls in Ha. destruct (bool_decide _ || _ || _) in Ha; [done|]. destruct (_ || _) in Ha; [done|]. rewrite Ho in Ha.
    destruct (bool_decide (is_Some _)) in Ha; [done|].
    destruct (cert_fingerprint old) as [[|x bound]|] eqn:Hfp; [injection Ha as <- <-; auto| |injection Ha as <- <-; auto].
    destruct (_ || _) eqn:Hsame in Ha; [injection Ha as <- <-; auto|].
    destruct (fingerprint_taken _ _ _) in Ha; [done|]. injection Ha as <- <-. bool_to_prop.
    assert (∀ mode, stands a h old (set_credentials old (Some (default [] (x_agent_fp h))) mode)) as Hheal.
    { intros mode. split_and!; [done|done|]. right. exists (x :: bound), (default [] (x_agent_fp h)).
      split_and!; [done|done|exact Hm|by apply default_some]. }
    split; [by apply Hheal|]. right. eexists. split; [cbn; by rewrite Hid|apply Hheal].
  - unfold _authenticate_agent_bearer in Ha. destruct (bool_decide (_ = [])) in Ha; [done|]. rewrite Ho in Ha.
    destruct (bool_decide (is_Some _)) in Ha; [done|]. destruct (cert_fingerprint old) as [[|x fp]|] eqn:Hfp; [done| |done].
    destruct (bool_decide _) in Ha; [|done]. injection Ha as <- <-. auto.
Qed.

Lemma bookkept_plane c a h c0 ag m :
  keyed c → _authenticate_agent uni_lower settings c a h = Ok (c0, ag) → bookkept ag (agents c0) m → plane_step a h (agents c) m.
Proof using Type.
  intros Hk Ha. apply authenticate_row in Ha as (old & Ho & Hrev & Hcred & Hag & H0); [|done].
  assert (∀ x m, m = <[a := x]> (agents c) ∨ (∃ y, m = <[a := x]> (<[a := y]> (agents c))) → stands a h old x → plane_step a h (agents c) m) as Hput.
  { intros x m' Hm Hx. constructor; [intros b Hb; destruct Hm as [->|[y ->]]; by rewrite !lookup_insert_ne|].
    right. exists old, x. destruct Hm as [->|[y ->]]; by rewrite lookup_insert_eq. }
  intros [->|(ag' & Hs & ->)].
  - destruct H0 as [->|(x & -> & Hx)]; [apply plane_step_refl|]. apply (Hput x); [by left|done].
  - destruct Hag as [Hid Hag]. rewrite Hid. apply (Hput ag'); [|by eapply stands_same].
    destruct H0 as [->|(x & -> & Hx)]; [by left|right; by exists x].
Qed.

(** *** Commands *)

Lemma add_command_central f agent kind item payload ttl by_ now f' x :
  add_command new_command f agent kind item payload ttl by_ now = (f', x) → central f' = central f.
Proof using Type. unfold add_command. destruct (jsonb_ok payload); by intros [= <- _]. Qed.

Lemma queue_once_central f agent kind payload ttl by_ now f' x :
  queue_once new_command row_order csettings f agent kind payload ttl by_ now = (f', x) → central f' = central f.
Proof using Type.
  unfold queue_once. destruct (_live_agent f agent); [|by intros [= <- _]]. destruct (in_flight _ _ _ _); [by intros [= <- _]|].
  apply add_command_central.
Qed.

(** An operator's request on commands, and the sweep, leave the catalogue alone. *)
Lemma operator_central f locked now q :
  agent_request q = None →
  central (Commands.serve uni_lower float_repr sha256 model_validate new_command row_order settings csettings auth_enabled _roles
    f locked now q).1 = central f.
Proof using Type.
  intros Hq. destruct (Commands.serve _ _ _ _ _ _ _ _ _ _ _ _ _ _) as [f' x] eqn:Hs. cbn [fst].
  destruct q; try done; cbn [Commands.serve] in Hs;
    try (apply operator_cases in Hs as [->|[by_ Hs]]; [done|cbn beta in Hs]).
  - unfold enqueue_command in Hs. destruct (_json_len _ _); [|by injection Hs as <- _]. destruct (Nat.ltb _ _); [by injection Hs as <- _|].
    destruct (_live_agent _ _); [|by injection Hs as <- _]. destruct (refuse_target _ _ _); [by injection Hs as <- _|].
    by apply add_command_central in Hs.
  - unfold suspend_agent in Hs. destruct (_live_agent _ _); [|by injection Hs as <- _].
    destruct (filterb _ _); [by apply add_command_central in Hs|by injection Hs as <- _].
  - by apply queue_once_central in Hs.
  - by apply queue_once_central in Hs.
  - by apply queue_once_central in Hs.
  - unfold rehash_sweep_agent in Hs. destruct (_live_agent _ _); [|by injection Hs as <- _].
    destruct (Z.ltb _ _); [by injection Hs as <- _|]. by apply queue_once_central in Hs.
  - unfold cancel_command in Hs. repeat case_match; by injection Hs as <- _.
  - injection Hs as <- _. unfold expire_agent_commands. destruct (negb _); [done|].
    destruct (run_agent_command_sweep _ _ _ _ _ _ _) as [[f1 n]|] eqn:Hr; [|done]. unfold run_agent_command_sweep in Hr.
    apply result_bind_ok in Hr as ([m k] & _ & [= <- _]). done.
Qed.

Lemma complete_body_agents f agent c body now f' c' e :
  complete_body model_validate f agent c body now = Ok (f', c', e) → agents (central f') = <[ag_id agent := agent]> (agents (central f)).
Proof using Type.
  unfold complete_body. intros (s & _ & H)%result_bind_ok. apply result_bind_ok in H as (v & _ & H).
  destruct (match cp_result body with Some d => _ | None => _ end); [|done].
  destruct v as [[[[it it'] stamp] o]|]; [|by injection H as <- _ _]. destruct (row_ok it'); [|done]. by injection H as <- _ _.
Qed.

Lemma command_plane f locked now q a h :
  keyed (central f) → agent_request q = Some (a, h) →
  plane_step a h (agents (central f)) (agents (central (Commands.serve uni_lower float_repr sha256 model_validate new_command
    row_order settings csettings auth_enabled _roles f locked now q).1)).
Proof using Type.
  intros Hk Hq.
  assert (∀ f1 ag m, authenticated uni_lower settings f a h = Ok (f1, ag) → bookkept ag (agents (central f1)) m →
    plane_step a h (agents (central f)) m) as Hplane.
  { intros f1 ag m. unfold authenticated. destruct (_authenticate_agent _ _ _ _ _) as [[c0 ag0]|] eqn:Ha; [|done].
    intros [= <- <-]. by eapply bookkept_plane. }
  destruct q; try done; injection Hq as -> ->; cbn [Commands.serve]; unfold agent_plane; destruct (negb _); try apply plane_step_refl.
  - unfold poll_commands. destruct (authenticated _ _ _ _ _) as [[f1 ag]|] eqn:Ha; [|apply plane_step_refl].
    destruct (poll_body _ _ _ _ _ _ _ _) as [[f2 l]|] eqn:Hp; [|by eapply Hplane, bookkept_refl]. eapply Hplane; [done|].
    unfold poll_body in Hp. apply result_bind_ok in Hp as (x & _ & Hp). apply result_bind_ok in Hp as (y & _ & Hp).
    apply result_bind_ok in Hp as (st & _ & Hp). destruct (advert_ok _); [|done]. injection Hp as <- _. kept.
  - unfold ack_command. destruct (authenticated _ _ _ _ _) as [[f1 ag]|] eqn:Ha; [|apply plane_step_refl].
    destruct (_owned_command _ _ _) as [c|]; [|by eapply Hplane, bookkept_refl]. destruct (negb _); [by eapply Hplane, bookkept_refl|].
    destruct (command_state_machine _ _); [|by eapply Hplane, bookkept_refl]. eapply Hplane; [done|]. kept.
  - unfold complete_command. destruct (authenticated _ _ _ _ _) as [[f1 ag]|] eqn:Ha; [|apply plane_step_refl].
    destruct (_owned_command _ _ _) as [c|]; [|by eapply Hplane, bookkept_refl].
    destruct (bool_decide _); [by eapply Hplane, bookkept_refl|]. destruct (negb _); [by eapply Hplane, bookkept_refl|].
    destruct (match cp_result body with Some d => _ | None => _ end); [|by eapply Hplane, bookkept_refl].
    destruct (Nat.ltb _ _); [by eapply Hplane, bookkept_refl|].
    destruct (complete_body _ _ _ _ _ _) as [[[f2 c'] e]|] eqn:Hc; [|by eapply Hplane, bookkept_refl].
    apply complete_body_agents in Hc. cbn [fst]. rewrite Hc. eapply Hplane; [done|]. kept.
Qed.

(** *** The whole agent plane *)

(** Apart from the tables of the fleet a request of the agent plane leaves the registry. *)
Lemma serve_frame r w locked q a h :
  plane_request q = Some (a, h) → ∃ f, (serve r w locked q).1 = set_fleet r f.
Proof using Type. intros Hq. destruct q; try done; cbn [serve]; repeat case_match; eexists; reflexivity. Qed.

Lemma serve_plane r w locked q a h :
  keyed (catalogue r) → plane_request q = Some (a, h) →
  plane_step a h (agents_of r) (agents_of (serve r w locked q).1).
Proof using Type.
  intros Hk Hq. destruct q as [q|q|x body m x_h|x ref d n b x_h|x sid rows x_h|x sid d n b x_h]; try done; cbn [plane_request] in Hq;
    [|injection Hq as -> ->..]; cbn [serve].
  - pose proof (command_plane (fleet r) locked (now w) q a h Hk Hq) as H. by destruct (Commands.serve _ _ _ _ _ _ _ _ _ _ _ _ _ _).
  - unfold apply_replication_batch. destruct (negb _); [apply plane_step_refl|].
    destruct (_authenticate_agent _ _ _ _ _) as [[c ag]|] eqn:Ha; [|apply plane_step_refl].
    assert (∀ m', bookkept ag (agents c) m' → plane_step a h (agents_of r) m') as Hplane by (intros; by eapply bookkept_plane).
    destruct (negb _); [by eapply Hplane, bookkept_refl|]. destruct m; [eapply Hplane; kept|].
    destruct (Nat.ltb _ _); [by eapply Hplane, bookkept_refl|]. destruct (check_batch _ _); [|eapply Hplane; kept].
    destruct (apply_batch _ _ _ _ _ _ _ _ _ _ _ _ _) as [[c' res]|] eqn:Hb; [|by eapply Hplane, bookkept_refl].
    eapply Hplane. by eapply apply_batch_agents.
  - unfold reconcile_start_endpoint. destruct (negb _); [apply plane_step_refl|].
    destruct (_authenticate_agent _ _ _ _ _) as [[c ag]|] eqn:Ha; [|apply plane_step_refl].
    destruct (reconcile_start _ _ _ _ _ _ _ _ _ _) as [[c' res]|] eqn:Hr; [|by eapply bookkept_plane, bookkept_refl].
    eapply bookkept_plane; [done..|]. by eapply reconcile_start_agents.
  - unfold reconcile_rows_endpoint. destruct (negb _); [apply plane_step_refl|].
    destruct (_authenticate_agent _ _ _ _ _) as [[c ag]|] eqn:Ha; [|apply plane_step_refl].
    destruct (Nat.ltb _ _); [by eapply bookkept_plane, bookkept_refl|].
    pose proof (reconcile_rows_agents c ag sid rows (now w)) as H. destruct (reconcile_stage_rows _ _ _ _ _ _) as [c' res]. cbn [fst] in H.
    assert (plane_step a h (agents_of r) (agents c')) as Hp by (by eapply bookkept_plane). by destruct res as [|[]].
  - unfold reconcile_finish_endpoint. destruct (negb _); [apply plane_step_refl|].
    destruct (_authenticate_agent _ _ _ _ _) as [[c ag]|] eqn:Ha; [|apply plane_step_refl].
    pose proof (reconcile_finish_agents c ag sid d n b (now w)) as H.
    destruct (reconcile_finish _ _ _ _ _ _ _ _ _ _ _ _ _ _ _ _) as [c' res]. cbn [fst] in H.
    assert (plane_step a h (agents_of r) (agents c')) as Hp by (by eapply bookkept_plane). by destruct res as [|[]].
Qed.

(** ** The life of an agent on the server *)

Local Abbreviation enrolls := (life_step uni_lower sha256_hex sha256 new_agent b64decode der dns_names ec_key load_pem_chain client_verifies
  ecdsa_verifies esettings auth_enabled _roles).

Inductive server_step r (w : Moment) (a : Z) : server_request → Life → Life → Prop :=
  | by_enrollment q s s' : enrolls r w a q s s' → server_step r w a (AEnroll q) s s'
  | by_proxy q h g f :
      plane_request q = Some (a, h) → mtls_request settings h = true →
      proxy_shared_secret settings ≠ [] → x_proxy_auth h = Some (proxy_shared_secret settings) →
      x_agent_san h = Some (txt (uuid_str a)) → x_agent_fp h = Some f →
      server_step r w a q (LActive g) (LActive f).

Definition server_ok r : Prop := keyed (catalogue r) ∧ roots_pinned sha256_hex der (roots r).

Lemma plane_life r r' a h b :
  plane_step a h (agents_of r) (agents_of r') → enroll_secrets r' = enroll_secrets r →
  life r' b = life r b ∨
  b = a ∧ ∃ g f, life r b = LActive g ∧ life r' b = LActive f ∧ mtls_request settings h = true ∧ x_agent_fp h = Some f ∧
    proxy_shared_secret settings ≠ [] ∧ x_proxy_auth h = Some (proxy_shared_secret settings) ∧ x_agent_san h = Some (txt (uuid_str a)).
Proof using Type.
  intros [Hother Hown] Hs. destruct (decide (b = a)) as [->|Hne]; [|left; apply life_same; [by apply Hother|by rewrite Hs]].
  destruct Hown as [Heq|(old & new & Ho & Hrev & Hcred & Hn & _ & Hrev' & Hfp)]; [left; apply life_same; [done|by rewrite Hs]|].
  destruct Hfp as [Hfp|(g & f & Hg & Hf & Hm & Hx)].
  - left. unfold life, life_of. by rewrite Ho, Hn, Hrev, Hrev', Hfp, Hs.
  - right. split; [done|]. exists g, f. unfold credentials in Hcred. rewrite Hm in Hcred. destruct Hcred as (? & ? & ?).
    unfold life, life_of. rewrite Ho, Hn, Hrev, Hrev', Hg, Hf. by split_and!.
Qed.

Lemma plane_keyed a h m m' :
  plane_step a h m m' → (∀ b ag, m !! b = Some ag → ag_id ag = b) → ∀ b ag, m' !! b = Some ag → ag_id ag = b.
Proof using Type.
  intros [Hother Hown] Hk b ag. destruct (decide (b = a)) as [->|Hne]; [|rewrite Hother by done; apply Hk].
  destruct Hown as [->|(old & new & _ & _ & _ & Hn & Hid & _)]; [apply Hk|]. rewrite Hn. by intros [= <-].
Qed.

(** Every request keeps the invariant. *)
Lemma serve_server_ok r w locked q : server_ok r → server_ok (serve r w locked q).1.
Proof using Type.
  intros [Hk Hp]. destruct (plane_request q) as [[a h]|] eqn:Hq.
  - pose proof (serve_plane r w locked q a h Hk Hq) as Hstep. destruct (serve_frame r w locked q a h Hq) as [f Hf]. rewrite Hf in *.
    split; [exact (plane_keyed _ _ _ _ Hstep Hk)|done].
  - destruct q as [q|q|? ? ? ?|? ? ? ? ? ?|? ? ? ?|? ? ? ? ? ?]; try done; cbn [serve].
    + destruct (serve_enrollment _ _ _ _ _ _ _ _ _ _ _ _ _ _ _ _ _ _ _ _ _ _ _ _ _ _ _ _) as [r' x] eqn:Hs.
      apply serve_outcome in Hs; [|done]. split; [by eapply outcome_keyed|by eapply outcome_roots].
    + pose proof (operator_central (fleet r) locked (now w) q Hq) as Hc.
      destruct (Commands.serve _ _ _ _ _ _ _ _ _ _ _ _ _ _) as [f x]. cbn [fst] in Hc |- *.
      split; [|done]. unfold catalogue. cbn [fleet set_fleet]. by rewrite Hc.
Qed.

Lemma serve_life r w locked q a :
  server_ok r → life (serve r w locked q).1 a = life r a ∨ server_step r w a q (life r a) (life (serve r w locked q).1 a).
Proof using Type.
  intros [Hk Hp]. destruct (plane_request q) as [[x h]|] eqn:Hq.
  - pose proof (serve_plane r w locked q x h Hk Hq) as Hstep. destruct (serve_frame r w locked q x h Hq) as [f Hf]. rewrite Hf in *.
    destruct (plane_life r (set_fleet r f) x h a Hstep) as [?|(-> & g & y & Hg & Hy & ? & ? & ? & ? & ?)]; [done|by left|right].
    rewrite Hg, Hy. by eapply by_proxy.
  - destruct q as [q|q|? ? ? ?|? ? ? ? ? ?|? ? ? ?|? ? ? ? ? ?]; try done; cbn [serve].
    + destruct (serve_enrollment _ _ _ _ _ _ _ _ _ _ _ _ _ _ _ _ _ _ _ _ _ _ _ _ _ _ _ _) as [r' y] eqn:Hs. cbn [fst].
      apply serve_outcome in Hs; [|done].
      destruct (outcome_life _ _ _ _ _ _ _ _ _ _ _ _ _ _ _ _ _ _ _ _ a Hk Hs) as [?|?]; [by left|right; by apply by_enrollment].
    + pose proof (operator_central (fleet r) locked (now w) q Hq) as Hc.
      destruct (Commands.serve _ _ _ _ _ _ _ _ _ _ _ _ _ _) as [f y]. cbn [fst] in Hc |- *.
      left. apply life_same; [|done]. unfold agents_of. cbn [fleet set_fleet]. by rewrite Hc.
Qed.

(** C20: the whole server moves an agent only along its life.  Whatever the request, each
    agent stays where it is, or: registers with an open token, under an id the database
    hands out; becomes active with its one-time secret; rotates its fingerprint with a
    certificate that chains to the pinned root, names it and signed the request, or through
    the proxy that verified its identity; or is revoked or purged by an administrator. *)
Theorem agent_lifecycle r w locked q :
  server_ok r → let r' := (serve r w locked q).1 in
  server_ok r' ∧ ∀ a, life r' a = life r a ∨ server_step r w a q (life r a) (life r' a).
Proof using Type. intros Hok. split; [by apply serve_server_ok|]. intros a. by apply serve_life. Qed.

(** ** Revocation *)

Ltac listed := repeat first [apply list_elem_of_here|apply list_elem_of_further].

Definition refused_with (l : list Z) (x : server_reply) : Prop :=
  match x with
  | OfCommand (CHttpError n) | OfReplication (HttpError n) | OfReconcile (RHttpError n) => n ∈ l
  | _ => False
  end.

Definition gone (s : Life) : Prop := s = LRevoked ∨ s = LAbsent.

Lemma gone_row r a : gone (life r a) → ∀ ag, agents_of r !! a = Some ag → revoked_at ag ≠ None.
Proof using Type.
  intros Hg ag Ha Hn. unfold life, life_of in Hg. rewrite Ha, Hn in Hg. by destruct Hg, (cert_fingerprint ag).
Qed.

Lemma gone_refused c a h :
  (∀ ag, agents c !! a = Some ag → revoked_at ag ≠ None) →
  ∃ n, n ∈ [401; 403; 404] ∧ _authenticate_agent uni_lower settings c a h = Err n.
Proof using Type.
  intros Hg. assert (∀ ag, agents c !! a = Some ag → bool_decide (is_Some (revoked_at ag)) = true) as Hrev.
  { intros ag Ha. apply bool_decide_eq_true, not_eq_None_Some. by apply Hg. }
  unfold _authenticate_agent, _authenticate_agent_mtls, _authenticate_agent_bearer.
  repeat match goal with
  | |- context [if bool_decide (is_Some (revoked_at ?x)) then _ else _] => rewrite (Hrev x) by done
  | |- context [match agents c !! a with _ => _ end] => destruct (agents c !! a) as [ag|] eqn:?
  | |- context [if ?b then _ else _] => destruct b
  end; eexists; (split; [|reflexivity]); listed.
Qed.

(** A request in the name of an agent that is gone changes nothing and is refused. *)
Lemma gone_request r w locked q a h :
  gone (life r a) → plane_request q = Some (a, h) →
  (serve r w locked q).1 = r ∧ refused_with [401; 403; 404] (serve r w locked q).2.
Proof using Type.
  intros Hg Hq. destruct (gone_refused (catalogue r) a h (gone_row r a Hg)) as (n & Hn & Ha).
  assert (set_catalogue r (catalogue r) = r) as Hc by (by destruct r as [[] ? ? ? ? ? ? ? ?]).
  assert (set_fleet r (fleet r) = r) as Hf by (by destruct r).
  destruct q as [q|q|x body m x_h|x ref d k b x_h|x sid rows x_h|x sid d k b x_h]; try done; cbn [plane_request] in Hq;
    [|injection Hq as -> ->..]; cbn [serve].
  - unfold catalogue in Ha. destruct q; try done; injection Hq as -> ->; cbn [Commands.serve]; unfold agent_plane;
      (destruct (negb _); [cbn; split; [done|listed]|]);
      unfold poll_commands, ack_command, complete_command, authenticated; rewrite Ha; done.
  - unfold apply_replication_batch. destruct (negb _); [cbn; split; [done|listed]|]. rewrite Ha. done.
  - unfold reconcile_start_endpoint. destruct (negb _); [cbn; split; [done|listed]|]. rewrite Ha. done.
  - unfold reconcile_rows_endpoint. destruct (negb _); [cbn; split; [done|listed]|]. rewrite Ha. done.
  - unfold reconcile_finish_endpoint. destruct (negb _); [cbn; split; [done|listed]|]. rewrite Ha. done.
Qed.

Lemma server_made r w locked q :
  server_ok r → agents_made (serve r w locked q).1 = agents_made r ∨ agents_made (serve r w locked q).1 = S (agents_made r).
Proof using Type.
  intros [_ Hp]. destruct (plane_request q) as [[a h]|] eqn:Hq.
  - destruct (serve_frame r w locked q a h Hq) as [f ->]. by left.
  - destruct q as [q|q|? ? ? ?|? ? ? ? ? ?|? ? ? ?|? ? ? ? ? ?]; try done; cbn [serve].
    + destruct (serve_enrollment _ _ _ _ _ _ _ _ _ _ _ _ _ _ _ _ _ _ _ _ _ _ _ _ _ _ _ _) as [r' x] eqn:Hs.
      apply serve_outcome in Hs; [|done]. by eapply outcome_made.
    + destruct (Commands.serve _ _ _ _ _ _ _ _ _ _ _ _ _ _) as [f x]. by left.
Qed.

Lemma server_step_gone r w a q s s' :
  server_step r w a q s s' → gone s → gone s' ∨ a = new_agent (agents_made r).
Proof using Type.
  intros [q' ? ? Hs|? ? ? ? _ _ _ _ _ _] Hg; [|by destruct Hg].
  destruct Hs; [by right|by destruct Hg..|by left; left|by left; right].
Qed.

Lemma run_gone r trace a :
  server_ok r → gone (life r a) → (∀ k, (agents_made r ≤ k)%nat → new_agent k ≠ a) →
  server_ok (run r trace) ∧ gone (life (run r trace) a).
Proof using Type.
  revert r. induction trace as [|[[w locked] q] t IH]; intros r Hok Hg Hnew; [done|]. cbn [run].
  apply IH; [by apply serve_server_ok| |].
  - destruct (serve_life r w locked q a Hok) as [->|Hs]; [done|]. apply server_step_gone in Hs as [?|Ha]; [done| |done].
    by destruct (Hnew (agents_made r)).
  - intros k Hk. apply Hnew. destruct (server_made r w locked q Hok) as [Hm|Hm]; rewrite Hm in Hk; [done|].
    by apply Nat.lt_le_incl.
Qed.

(** C21: revocation is final and complete.  Once an agent is revoked or purged, no sequence of
    requests brings it back, and from then on every request in its name, to poll, acknowledge
    or complete commands, to replicate or to reconcile, is refused and changes nothing. *)
Theorem revoked_locked_out r trace a w locked q h :
  server_ok r → gone (life r a) → (∀ k, (agents_made r ≤ k)%nat → new_agent k ≠ a) →
  plane_request q = Some (a, h) → let r' := run r trace in
  gone (life r' a) ∧ (serve r' w locked q).1 = r' ∧ refused_with [401; 403; 404] (serve r' w locked q).2.
Proof using Type.
  intros Hok Hg Hnew Hq. cbn zeta. destruct (run_gone r trace a Hok Hg Hnew) as [_ Hg']. split; [done|].
  by eapply gone_request.
Qed.
End server.

(** ** Examples *)

Definition example_server (r : Registry Z) (w : Moment) (q : server_request) : Registry Z * server_reply :=
  serve (λ c, [c]) (λ _, []) (λ _, true) (λ _, "") example_digest id (λ _, None) (mkTaxonomy ∅ ∅)
    example_id example_id example_id example_id example_agent_id (λ l, l) (λ l, l) (λ l, l) (λ l, l) (λ l, l) example_draw Some example_jwk
    (λ c, [c]) (λ _, 0) (λ _, 0) (λ _, []) (λ c, Some c) (λ _, None) (λ _, None) (λ _ _ _ _, true) (λ _ _ _, true)
    (λ _, Some ()) (λ _, []) (λ _ _ _, Some (txt "jwt")) example_settings example_csettings example_esettings false ∅ r w unlocked q.
Definition example_run (r : Registry Z) (t : list (Moment * (Z → bool) * server_request)) : Registry Z :=
  run (λ c, [c]) (λ _, []) (λ _, true) (λ _, "") example_digest id (λ _, None) (mkTaxonomy ∅ ∅)
    example_id example_id example_id example_id example_agent_id (λ l, l) (λ l, l) (λ l, l) (λ l, l) (λ l, l) example_draw Some example_jwk
    (λ c, [c]) (λ _, 0) (λ _, 0) (λ _, []) (λ c, Some c) (λ _, None) (λ _, None) (λ _ _ _ _, true) (λ _ _ _, true)
    (λ _, Some ()) (λ _, []) (λ _ _ _, Some (txt "jwt")) example_settings example_csettings example_esettings false ∅ r t.

(** An agent that waits for its certificate, with the secret of its registration *)
Definition waiting_agent : Agent := mkAgent 7 (txt "nas") (txt "nas") None None None 0 None None.
Definition waiting : Registry Z :=
  mkRegistry (mkFleet (mkCentral ∅ [] {[7 := waiting_agent]} ∅ ∅ ∅ 0 0 0) ∅ ∅ 0 ∅) ∅ {[7 := txt (example_digest (txt "s"))]} ∅ [] ∅ ∅ 0 0.
Definition binding (secret : string) : server_request := AEnroll (QBind 7 (mkCertBind (txt secret) (txt "fp"))).

Lemma waiting_ok : server_ok example_digest (λ c, [c]) waiting.
Proof. split; [|by intros ? ? ?]. intros a ag. cbn. by intros [<- <-]%lookup_singleton_Some. Qed.

Lemma agent_lifecycle_witness :
  life waiting 7 = LPending (Some (txt (example_digest (txt "s")))) ∧
  (example_server waiting (at_ 5) (binding "guess")).1 = waiting ∧
  server_ok example_digest (λ c, [c]) (example_server waiting (at_ 5) (binding "s")).1 ∧
  life (example_server waiting (at_ 5) (binding "s")).1 7 = LActive (txt "fp").
Proof.
  split; [vm_compute; reflexivity|]. split; [vm_compute; reflexivity|].
  split; [|vm_compute; reflexivity]. eapply agent_lifecycle, waiting_ok.
Defined.

Definition example_kill : list (Moment * (Z → bool) * server_request) :=
  [(at_ 5, unlocked, AEnroll (QRevoke example_operator 7 false false)); (at_ 6, unlocked, binding "s")].
Definition bound : Registry Z := mkRegistry (example_fleet pending) ∅ ∅ ∅ [] ∅ ∅ 0 0.
Definition revoked_registry : Registry Z := example_run bound example_kill.

Lemma revoked_ok : server_ok example_digest (λ c, [c]) revoked_registry.
Proof.
  assert (∃ ag, agents_of revoked_registry = {[7 := ag]} ∧ ag_id ag = 7 ∧ roots revoked_registry = ∅) as (ag & Ha & Hid & Hr)
    by (eexists; split_and!; vm_compute; reflexivity).
  split; [|rewrite Hr; by intros ? ? ?]. intros a x. unfold catalogue, agents_of in *. rewrite Ha.
  by intros [<- <-]%lookup_singleton_Some.
Qed.

Lemma revoked_locked_out_witness :
  (example_server bound (at_ 9) (ACommand example_poll)).2 = OfCommand (Commands [delivered 9 (example_command pending)]) ∧
  life revoked_registry 7 = LRevoked ∧
  (example_server revoked_registry (at_ 9) (ACommand example_poll)).1 = revoked_registry ∧
  refused_with [401; 403; 404] (example_server revoked_registry (at_ 9) (ACommand example_poll)).2.
Proof.
  split; [vm_compute; reflexivity|]. assert (life revoked_registry 7 = LRevoked) as Hl by (vm_compute; reflexivity).
  split; [exact Hl|]. eapply (revoked_locked_out _ _ _ _ _ _ _ _ _ _ _ _ example_agent_id _ _ _ _ _ _ _ _ _ _ _ _ _ _ _ _ _ _ _ _ _ _ _ _ _
    revoked_registry [] 7); [exact revoked_ok|by left| |reflexivity].
  intros k _. unfold example_agent_id. lia.
Defined.
