(* ===== verification/Transfers.v ===== *)
(** * File transfers ([transfers.py], [api/agent_staging.py], [api/transfers.py], [staging_sweep.py])

    An operator retrieves the bytes of a file that an agent hosts: a command for the agent and
    a transfer row, the resumable upload into the staging directory, the check of the staged
    bytes against the catalogue, the download, the sweep that reclaims the disk. The disk is a
    map from paths to bytes; a [PATCH] body is a list of chunks, each with what the operating
    system took of it. *)
From S2P Require Import Prelude PyStr Uuid Utf8 PathLabel Text Json PyNum Catalog Rbac Access AgentMeta AgentSync Verify Commands.
From Stdlib Require Import SpecFloat.
From stdpp Require Import options.

(** ** The state machine *)

Inductive TransferState := t_pending | t_uploading | t_staged | t_downloaded | t_expired | t_failed.
Global Instance transfer_state_eq_dec : EqDecision TransferState.
Proof. solve_decision. Defined.

Inductive TransferEvent := start_upload | staged | download | t_expire | t_fail.

(** [None]: no such key *)
Definition _TRANSITIONS (current : TransferState) (event : TransferEvent) : option TransferState :=
  match current, event with
  | t_pending, start_upload => Some t_uploading
  | t_pending, t_expire => Some t_expired
  | t_pending, t_fail => Some t_failed
  | t_uploading, staged => Some t_staged
  | t_uploading, t_expire => Some t_expired
  | t_uploading, t_fail => Some t_failed
  | t_staged, download => Some t_downloaded
  | t_staged, t_expire => Some t_expired
  | t_staged, t_fail => Some t_failed
  | _, _ => None
  end.

Inductive transfer_error := InvalidTransition | OSError | NotAMapping | BadRow | CommandError (e : command_error).

Definition transfer_state_machine (current : TransferState) (event : TransferEvent) : result transfer_error TransferState :=
  match _TRANSITIONS current event with Some s => Ok s | None => Err InvalidTransition end.

Definition state_name (s : TransferState) : string :=
  match s with
  | t_pending => "pending" | t_uploading => "uploading" | t_staged => "staged"
  | t_downloaded => "downloaded" | t_expired => "expired" | t_failed => "failed"
  end.

(** ** Where a transfer's bytes are staged *)

Definition STAGING_ROOT : text := txt "/config/staging".

Definition staging_path_for (uni_decimal : Z → option Z) (transfer_id : text) : option text :=
  canonical ← parse_uuid uni_decimal transfer_id;
  Some (join_path STAGING_ROOT (txt (uuid_str canonical) ++ txt ".bin")).

(** ** Rows *)

(** Times in microseconds *)
Record StagingTransfer := mkTransfer {
  t_id : Z;
  t_item_id : Z;
  t_agent_id : Z;
  t_command_id : Z;
  t_state : TransferState;
  bytes_transferred : Z;
  total_bytes : option Z;
  staged_file : option text;
  verified_hash : option string;
  t_verified : bool;
  t_expires_at : Z;
  last_range_request_at : option Z;
  t_created_at : Z;
  t_updated_at : Z;
}.
Global Instance staging_transfer_eq_dec : EqDecision StagingTransfer.
Proof. solve_decision. Defined.

(** The columns of a row that a handler writes *)
Definition set_transfer (t : StagingTransfer) (s : TransferState) (n : Z) (hash : option string) (ok : bool) (watermark : option Z) :
    StagingTransfer :=
  mkTransfer (t_id t) (t_item_id t) (t_agent_id t) (t_command_id t) s n (total_bytes t) (staged_file t) hash ok
    (t_expires_at t) watermark (t_created_at t) (t_updated_at t).
Definition set_state (t : StagingTransfer) (s : TransferState) : StagingTransfer :=
  set_transfer t s (bytes_transferred t) (verified_hash t) (t_verified t) (last_range_request_at t).
Definition set_total (t : StagingTransfer) (total : option Z) : StagingTransfer :=
  mkTransfer (t_id t) (t_item_id t) (t_agent_id t) (t_command_id t) (t_state t) (bytes_transferred t) total (staged_file t)
    (verified_hash t) (t_verified t) (t_expires_at t) (last_range_request_at t) (t_created_at t) (t_updated_at t).

(** The [UPDATE] of a row, which stamps [updated_at] when a column changes *)
Definition updated (old new : StagingTransfer) (now : Z) : StagingTransfer :=
  if bool_decide (old = new) then old
  else mkTransfer (t_id new) (t_item_id new) (t_agent_id new) (t_command_id new) (t_state new) (bytes_transferred new)
    (total_bytes new) (staged_file new) (verified_hash new) (t_verified new) (t_expires_at new) (last_range_request_at new)
    (t_created_at new) now.

Definition _ACTIVE_STATES : list TransferState := [t_pending; t_uploading; t_staged].
Definition _LIVE_STATES : list TransferState := [t_pending; t_uploading; t_staged].
Definition _PARTIAL_STATES : list TransferState := [t_pending; t_uploading].
Definition _APPENDABLE : list TransferState := [t_pending; t_uploading].

Definition active_transfer (t : StagingTransfer) : bool := bool_decide (t_state t ∈ _ACTIVE_STATES).

(** The constraints on the table an [INSERT] runs into: the primary key, one transfer per
    command, one active transfer per item, the sign of the sizes. *)
Definition insertable (m : gmap Z StagingTransfer) (t : StagingTransfer) : bool :=
  bool_decide (m !! t_id t = None) &&
  forallb (λ '(_, u), negb (t_command_id u =? t_command_id t) &&
                      negb (active_transfer u && active_transfer t && (t_item_id u =? t_item_id t))) (map_to_list m) &&
  (0 <=? bytes_transferred t) && match total_bytes t with Some n => 0 <=? n | None => true end.

(** A [BIGINT] column *)
Definition int8_ok (n : option Z) : bool := match n with Some n => (- 2 ^ 63 <=? n) && (n <? 2 ^ 63) | None => true end.

(** The calls of [audit.emit] *)
Inductive audit_event :=
  | AGENT_TRANSFER_INITIATED (transfer command item agent : Z) (verify : bool) (by_ : option string)
  | AGENT_TRANSFER_VERIFY_FAILED (transfer item agent : Z) (reason : string) (expected computed : option text) (size : Z) (rehash : bool)
  | AGENT_TRANSFER_DOWNLOADED (transfer item agent : Z) (range : option text) (s : TransferState) (by_ : option string)
  | AGENT_TRANSFER_CANCELLED (transfer command item : Z) (by_ : option string).

Record Store := mkStore {
  fleet : Fleet;
  transfers : gmap Z StagingTransfer;
  disk : gmap text (list Z);
  transfers_made : nat;
  emitted : list audit_event;
}.

Definition set_fleet (s : Store) (f : Fleet) : Store := mkStore f (transfers s) (disk s) (transfers_made s) (emitted s).
Definition set_transfers (s : Store) (m : gmap Z StagingTransfer) : Store :=
  mkStore (fleet s) m (disk s) (transfers_made s) (emitted s).
Definition set_disk (s : Store) (d : gmap text (list Z)) : Store := mkStore (fleet s) (transfers s) d (transfers_made s) (emitted s).
Definition emit (s : Store) (e : audit_event) : Store :=
  mkStore (fleet s) (transfers s) (disk s) (transfers_made s) (emitted s ++ [e]).
Definition put_transfer (s : Store) (t : StagingTransfer) : Store := set_transfers s (<[t_id t := t]> (transfers s)).

Record TransferSettings := mkTransferSettings {
  (** [str(Path(staging_dir or config_dir/staging))] *)
  staging_dir : text;
  staging_transfer_ttl_seconds : Z;
  staging_max_chunk_bytes : Z;
  transfer_ttl_seconds : Z;
  staging_download_grace_seconds : Z;
  staging_abandoned_upload_seconds : Z;
}.

(** ** What an append does to the file *)

(** [os.write] takes the whole chunk, a part of it, or raises ([None]). *)
Record chunk := mkChunk { c_data : list Z; c_taken : option nat }.

(** How a [PATCH] ends: in full, with the connection lost, with an error of [fsync], or with
    the database gone before the commit *)
Inductive ending := Sent | Disconnected | SyncFailed | CommitLost.
Global Instance ending_eq_dec : EqDecision ending.
Proof. solve_decision. Defined.

Record patch := mkPatch { upload_offset : option text; p_chunks : list chunk; p_end : ending }.

(** [os.ftruncate] also extends, with zeros. *)
Definition ftruncate (n : Z) (data : list Z) : list Z :=
  let n := Z.to_nat n in take n data ++ replicate (n - length data) 0.

(** The loop over the chunks: what the file holds at the end, and the bytes counted, the
    status of a refusal or [None] for an exception of the system *)
Fixpoint write_chunks (max_chunk : Z) (limit : option Z) (offset written : Z) (file : list Z) (l : list chunk) :
    list Z * result (option Z) Z :=
  match l with
  | [] => (file, Ok written)
  | c :: l' =>
      if bool_decide (c_data c = []) then write_chunks max_chunk limit offset written file l'
      else
        let written := written + Z.of_nat (length (c_data c)) in
        if max_chunk <? written then (file, Err (Some 413))
        else if match limit with Some n => n <? offset + written | None => false end then (file, Err (Some 409))
        else match c_taken c with
          | None => (file, Err None)
          | Some n => write_chunks max_chunk limit offset written (file ++ take n (c_data c)) l'
          end
  end.

(** ** Verification *)

Record HashReport := mkReport { hr_ok : bool; hr_reason : string; hr_expected : option text; hr_computed : option text }.

Definition _verify_against_catalog (item : Item) (content_hash content_hash_legacy quick_hash : string) (size_on_disk : Z) :
    HashReport :=
  if negb (size_on_disk =? i_size item) then
    mkReport false "size_mismatch" (Some (int_text (i_size item))) (Some (int_text size_on_disk))
  else match i_content_hash item with
  | Some h =>
      let computed := if (String.length h =? 32)%nat then content_hash else content_hash_legacy in
      let ok := bool_decide (computed = h) in
      mkReport ok (if ok then "" else "content_hash_mismatch") (Some (txt h)) (Some (txt computed))
  | None =>
      match i_quick_hash item with
      | Some h =>
          let ok := bool_decide (quick_hash = h) in
          mkReport ok (if ok then "" else "quick_hash_mismatch") (Some (txt h)) (Some (txt quick_hash))
      | None => mkReport false "no_catalog_hash" None (Some (txt content_hash))
      end
  end.

(** [(cmd.payload or {}).get("verify")]; [None]: the payload has no [get] *)
Definition verify_requested (payload : json) : option bool :=
  match payload with
  | JDict l => Some (match dict_get (txt "verify") l with Some j => truthy j | None => false end)
  | j => if truthy j then None else Some false
  end.

(** What a client reads of a row *)
Definition opt_json {A} (f : A → json) (x : option A) : json := match x with Some a => f a | None => JNull end.
Definition uuid_json (u : Z) : json := JText (txt (uuid_str u)).

Definition _status_dict (t : StagingTransfer) : json :=
  JDict [(txt "id", uuid_json (t_id t)); (txt "item_id", uuid_json (t_item_id t)); (txt "agent_id", uuid_json (t_agent_id t));
         (txt "command_id", uuid_json (t_command_id t)); (txt "state", JText (txt (state_name (t_state t))));
         (txt "bytes_transferred", JInt (bytes_transferred t)); (txt "total_bytes", opt_json JInt (total_bytes t));
         (txt "verified", JBool (t_verified t))].

Definition _status_headers (t : StagingTransfer) : list (text * text) :=
  [(txt "Upload-Offset", int_text (bytes_transferred t)); (txt "Upload-State", txt (state_name (t_state t)))] ++
  match total_bytes t with Some n => [(txt "Upload-Total", int_text n)] | None => [] end.

(** ** Ranges *)

(** [text.partition(sep)] *)
Definition partition (sep : Z) (t : text) : text * text :=
  let a := take_while (λ c, negb (c =? sep)) t in (a, drop (S (length a)) t).

(** The members of a range set, in order; [ValueError] ends the loop with [False]. *)
Fixpoint covers_any (uni_decimal : Z → option Z) (size : Z) (parts : list text) : bool :=
  match parts with
  | [] => false
  | part :: parts' =>
      let part := strip_space part in
      if bool_decide (part = []) then covers_any uni_decimal size parts'
      else
        let '(start_s, end_s) := partition 45 part in
        if bool_decide (start_s = []) || bool_decide (end_s = []) then true
        else match py_int uni_decimal end_s with
          | None => false
          | Some e => if size - 1 <=? e then true else covers_any uni_decimal size parts'
          end
  end.

Definition _range_covers_final_byte (uni_lower : Z → list Z) (uni_decimal : Z → option Z) (range_header : option text) (size : Z) :
    bool :=
  match range_header with
  | None | Some [] => true
  | Some h =>
      if size =? 0 then true
      else
        let '(units, spec) := partition 61 h in
        if negb (bool_decide (tlower uni_lower (strip_space units) = txt "bytes")) || bool_decide (spec = []) then false
        else covers_any uni_decimal size (split_text COMMA spec)
  end.

(** ** Replies *)

Record CleanupCounts := mkCleanup { reaped : Z; ttl_expired : Z; abandoned : Z; skipped_active : Z; commands_expired : Z }.

Inductive transfer_reply :=
  | THttpError (status : Z)
  | TConflict (transfer : option Z)
  | TServerError (e : transfer_error)
  | TNoReply
  | Status (code : Z) (t : StagingTransfer)
  | OffsetMismatch (offset : Z)
  | Initiated (transfer : Z) (s : TransferState)
  | Payload (t : StagingTransfer)
  | FileOut (data : list Z) (filename : text)
  | Cancelled (transfer : Z) (s : TransferState)
  | Swept (n : CleanupCounts)
  | OfCommands (r : reply).

(** What a request finds around it: the time, the rows others have locked, the files the
    system refuses to remove *)
Record Env := mkEnv { now : Z; locked : Z → bool; undeletable : text → bool }.

(** [os.remove], its errors dropped *)
Definition remove_file (e : Env) (s : Store) (path : option text) : Store :=
  match path with
  | Some (c :: p) => if undeletable e (c :: p) then s else set_disk s (delete (c :: p) (disk s))
  | _ => s
  end.

Section transfers.
Context (uni_lower : Z → list Z) (float_repr : spec_float → text) (uni_printable : Z → bool) (uni_decimal : Z → option Z).
(** [hashlib.sha256(...).hexdigest()] of a token; [CommandResult.model_validate]; the two
    digests of xxhash, in hexadecimal *)
Context (sha256 : string → string) (model_validate : json → option CommandResult) (xxh3_64 xxh3_128 : list Z → string).
(** The ids of the rows inserted and the orders of unordered queries *)
Context (new_command new_transfer : nat → Z) (row_order : list AgentCommand → list AgentCommand).
Context (transfer_order : list StagingTransfer → list StagingTransfer).
Context (load_grants : Principal → Role * list PathGrant) (uses_ltree : bool).
Context (settings : SyncSettings) (csettings : CommandSettings) (tsettings : TransferSettings) (auth_enabled : bool)
  (_roles : gmap string Role).

Definition all_transfers (s : Store) : list StagingTransfer := transfer_order (map snd (map_to_list (transfers s))).
Definition by_command (s : Store) (command : Z) : option StagingTransfer :=
  List.find (λ t, t_command_id t =? command) (all_transfers s).

(** [staging_root(settings) / PurePosixPath(staging_path_for(transfer_id)).name] *)
Definition staging_root : text := staging_dir tsettings.
Definition staged_path (transfer_id : Z) : text :=
  let name := basename (default [] (staging_path_for uni_decimal (txt (uuid_str transfer_id)))) in
  if bool_decide (staging_root = txt ".") then name else join_path staging_root name.

Definition path_of (t : StagingTransfer) : text :=
  match staged_file t with Some (c :: p) => c :: p | _ => staged_path (t_id t) end.

(** [full_hashes_migration]: both whole-file digests of one read *)
Definition full_hashes_migration (fs : text → option (list Z)) (path : text) : option (string * string) :=
  data ← fs path; Some (xxh3_128 data, xxh3_64 data).

(** [None]: [OSError] *)
Definition _compute_staged_hashes (fs : text → option (list Z)) (path : text) : option (string * string * string * Z) :=
  data ← fs path;
  let size := Z.of_nat (length data) in
  full ← full_hashes_migration fs path;
  q ← quick_hash xxh3_64 fs path size;
  Some (full.1, full.2, q, size).

(** ** Rehash on a mismatch *)

Definition _pending_rehash_exists (f : Fleet) (item : Z) : bool :=
  existsb (λ c, bool_decide (c_item_id c = Some item) && bool_decide (c_kind c = rehash_check) &&
                bool_decide (c_status c ∈ [pending; picked_up])) (all_commands row_order f).

Definition library_of (f : Fleet) (item : Item) : option AgentLibrary :=
  List.find (λ l, al_id l =? i_library_id item) (libraries (central f)).

(** [session.add] of a command; the row's JSON is checked when it is written. *)
Definition new_row (f : Fleet) (agent : Z) (kind : CommandKind) (item : Z) (payload : json) (expires now : Z) (by_ : option string) :
    result transfer_error (Fleet * Z) :=
  if jsonb_ok payload then
    let c := mkCommand (new_command (commands_made f)) agent kind (Some item) payload pending 0 now now expires None None None by_ in
    Ok (mkFleet (central f) (adverts f) (<[c_id c := c]> (commands f)) (S (commands_made f)) (verified f), c_id c)
  else Err BadRow.

Definition _enqueue_rehash_check (f : Fleet) (item : Item) (agent : Z) (now : Z) : result transfer_error (Fleet * bool) :=
  if _pending_rehash_exists f (i_id item) then Ok (f, false)
  else
    let library_ref := match library_of f item with Some l => al_root_path l | None => [] end in
    let payload := JDict [(txt "library_ref", JText library_ref); (txt "rel_path", JText (i_rel_path item)); (txt "content", JBool true)] in
    '(f', _) <-! new_row f agent rehash_check (i_id item) payload (now + agent_command_ttl_seconds csettings * SECOND) now None;
    Ok (f', true).

(** ** The last byte *)

Definition reject (s : Store) (e : Env) (t : StagingTransfer) (item : option Item) (r : HashReport) (size : Z) :
    Store * result transfer_error StagingTransfer :=
  match transfer_state_machine (t_state t) t_fail with
  | Err x => (s, Err x)
  | Ok st =>
      let t' := set_transfer t st (bytes_transferred t) (verified_hash t) false (last_range_request_at t) in
      let s := remove_file e s (Some (path_of t)) in
      let queued := match item with
        | Some it => _enqueue_rehash_check (fleet s) it (t_agent_id t) (now e)
        | None => Ok (fleet s, false)
        end in
      let event (rehash : bool) := AGENT_TRANSFER_VERIFY_FAILED (t_id t) (t_item_id t) (t_agent_id t) (hr_reason r)
        (hr_expected r) (hr_computed r) size rehash in
      match queued with
      | Ok (f, rehash) => (emit (set_fleet s f) (event rehash), Ok t')
      | Err x => (emit s (event true), Err x)
      end
  end.

(** The row as the handler leaves it, and the state with its other effects *)
Definition _finalize_staged (s : Store) (e : Env) (t : StagingTransfer) : Store * result transfer_error StagingTransfer :=
  match (match commands (fleet s) !! t_command_id t with Some c => verify_requested (c_payload c) | None => Some false end) with
  | None => (s, Err NotAMapping)
  | Some false => (s, (st <-! transfer_state_machine (t_state t) staged; Ok (set_state t st)))
  | Some true =>
      let item := items (central (fleet s)) !! t_item_id t in
      match _compute_staged_hashes (λ p, disk s !! p) (path_of t) with
      | None => (s, Err OSError)
      | Some (content_hash, content_hash_legacy, quick, size) =>
          let r := match item with
            | Some it => _verify_against_catalog it content_hash content_hash_legacy quick size
            | None => mkReport false "no_item" None (Some (txt content_hash))
            end in
          if hr_ok r then
            (s, (st <-! transfer_state_machine (t_state t) staged;
                 Ok (set_transfer t st (bytes_transferred t) (Some content_hash) true (last_range_request_at t))))
          else reject s e t item r size
      end
  end.

(** The row after [new_offset] bytes *)
Definition advance (s : Store) (e : Env) (t : StagingTransfer) (new_offset : Z) : Store * result transfer_error StagingTransfer :=
  let t := set_transfer t (t_state t) new_offset (verified_hash t) (t_verified t) (last_range_request_at t) in
  match (if bool_decide (t_state t = t_pending) then transfer_state_machine (t_state t) start_upload else Ok (t_state t)) with
  | Err x => (s, Err x)
  | Ok st =>
      let t := set_state t st in
      if match total_bytes t with Some n => n <=? new_offset | None => false end then _finalize_staged s e t else (s, Ok t)
  end.

(** ** The agent's endpoints *)

Definition as_agent (s : Store) (agent_id : Z) (r : AgentRequest) (handler : Store → Agent → Store * transfer_reply) :
    Store * transfer_reply :=
  if negb (agents_enabled settings) then (s, THttpError 404)
  else match authenticated uni_lower settings (fleet s) agent_id r with
  | Err status => (s, THttpError status)
  | Ok (f, agent) => handler (set_fleet s f) agent
  end.

(** The commit, with the columns authentication left to it *)
Definition commit (s : Store) (agent : Agent) : Store :=
  set_fleet s (set_central (fleet s) (set_agent (central (fleet s)) agent)).

(** [_load_transfer] of the agent's endpoints *)
Definition own_transfer (s : Store) (agent : Agent) (transfer_id : Z) : option StagingTransfer :=
  t ← transfers s !! transfer_id; if t_agent_id t =? ag_id agent then Some t else None.

(** The two fields of the body; the status of a refusal otherwise *)
Definition attach_fields (body : option json) : result transfer_reply (Z * option Z) :=
  match body with
  | None => Err (TServerError BadRow)
  | Some (JDict l) =>
      match (j ← dict_get (txt "command_id") l; parse_uuid uni_decimal (py_str float_repr uni_printable j)) with
      | None => Err (THttpError 422)
      | Some command_id =>
          match default JNull (dict_get (txt "total_bytes") l) with
          | JNull => Ok (command_id, None)
          | JInt n => if n <? 0 then Err (THttpError 422) else Ok (command_id, Some n)
          | JBool b => Ok (command_id, Some (if b then 1 else 0))
          | _ => Err (THttpError 422)
          end
      end
  | Some _ => Err (THttpError 422)
  end.

(** The 200 of an existing row *)
Definition reattach (s : Store) (agent : Agent) (t : StagingTransfer) (total : option Z) (now : Z) : Store * transfer_reply :=
  match total with
  | None => (s, Status 200 t)
  | Some n =>
      if match total_bytes t with Some m => negb (n =? m) && (0 <? bytes_transferred t) | None => false end
      then (s, THttpError 409)
      else if bytes_transferred t =? 0 then
        if int8_ok total then
          let t' := updated t (set_total t total) now in
          (put_transfer (commit s agent) t', Status 200 t')
        else (s, TServerError BadRow)
      else (s, Status 200 t)
  end.

(** A row that is inserted: [None] for an [IntegrityError] *)
Definition insert_transfer (s : Store) (t : StagingTransfer) : option Store :=
  if insertable (transfers s) t then
    Some (mkStore (fleet s) (<[t_id t := t]> (transfers s)) (disk s) (S (transfers_made s)) (emitted s))
  else None.

Definition fresh_transfer (s : Store) (item agent command : Z) (total : option Z) (expires now : Z) : StagingTransfer :=
  let tid := new_transfer (transfers_made s) in
  mkTransfer tid item agent command t_pending 0 total (Some (staged_path tid)) None false expires None now now.

Definition attach_transfer (s : Store) (e : Env) (agent_id : Z) (body : option json) (r : AgentRequest) : Store * transfer_reply :=
  as_agent s agent_id r (λ s agent,
    match attach_fields body with
    | Err x => (s, x)
    | Ok (command_id, total) =>
        match by_command s command_id with
        | Some existing => reattach s agent existing total (now e)
        | None =>
            match commands (fleet s) !! command_id with
            | None => (s, THttpError 404)
            | Some cmd =>
                if negb (c_agent_id cmd =? ag_id agent) then (s, THttpError 404)
                else if negb (bool_decide (c_kind cmd = stage_upload)) then (s, THttpError 409)
                else if negb (bool_decide (c_status cmd = picked_up)) then (s, THttpError 409)
                else if negb (int8_ok total) then (s, TServerError BadRow)
                else
                  let refused := (s, match by_command s command_id with Some winner => Status 200 winner | None => THttpError 409 end) in
                  match c_item_id cmd with
                  | None => refused
                  | Some item =>
                      let t := fresh_transfer s item (ag_id agent) command_id total
                        (now e + staging_transfer_ttl_seconds tsettings * SECOND) (now e) in
                      match insert_transfer s t with
                      | Some s' => (commit s' agent, Status 201 t)
                      | None => refused
                      end
                  end
            end
        end
    end).

Definition head_transfer (s : Store) (agent_id transfer_id : Z) (r : AgentRequest) : Store * transfer_reply :=
  as_agent s agent_id r (λ s agent,
    match own_transfer s agent transfer_id with None => (s, THttpError 404) | Some t => (s, Status 200 t) end).

(** What a failed transaction keeps: the files and the audit log *)
Definition rolled_back (before after : Store) : Store :=
  mkStore (fleet before) (transfers before) (disk after) (transfers_made before) (emitted after).

(** The append proper, at an offset that is the committed one *)
Definition append_at (s : Store) (e : Env) (agent : Agent) (t : StagingTransfer) (offset : Z) (p : patch) : Store * transfer_reply :=
  let path := path_of t in
  let '(file, outcome) := write_chunks (staging_max_chunk_bytes tsettings) (total_bytes t) offset 0
    (ftruncate offset (default [] (disk s !! path))) (p_chunks p) in
  let s1 := set_disk s (<[path := file]> (disk s)) in
  match outcome with
  | Err (Some status) => (s1, THttpError status)
  | Err None => (s1, TServerError OSError)
  | Ok written =>
      match p_end p with
      | Disconnected => (s1, TNoReply)
      | SyncFailed => (s1, TServerError OSError)
      | Sent | CommitLost =>
          match advance s1 e t (offset + written) with
          | (s2, Err x) => (rolled_back s1 s2, TServerError x)
          | (s2, Ok t2) =>
              let t2 := updated t t2 (now e) in
              if bool_decide (p_end p = CommitLost) then (rolled_back s1 s2, TServerError OSError)
              else (put_transfer (commit s2 agent) t2, Status 200 t2)
          end
      end
  end.

Definition append_transfer (s : Store) (e : Env) (agent_id transfer_id : Z) (p : patch) (r : AgentRequest) : Store * transfer_reply :=
  as_agent s agent_id r (λ s agent,
    match own_transfer s agent transfer_id with
    | None => (s, THttpError 404)
    | Some t =>
        if bool_decide (t_state t ∈ [t_staged; t_downloaded]) then (s, Status 200 t)
        else if negb (bool_decide (t_state t ∈ _APPENDABLE)) then (s, THttpError 409)
        else match upload_offset p with
        | None => (s, THttpError 400)
        | Some h =>
            match py_int uni_decimal h with
            | None => (s, THttpError 400)
            | Some offset =>
                if negb (offset =? bytes_transferred t) then (s, OffsetMismatch (bytes_transferred t))
                else append_at s e agent t offset p
            end
        end
    end).

(** ** The operator's endpoints *)

(** An endpoint behind [require_permission("download", coarse="write")] *)
Definition permitted (call : OperatorCall) (now : Z) (handler : PermissionContext → option string → Store * transfer_reply) (s : Store) :
    Store * transfer_reply :=
  match require_permission sha256 auth_enabled _roles load_grants uses_ltree "download" (Some "write") (creds call) (caller call)
          (tables call) now with
  | Err (Http status) => (s, THttpError status)
  | Err Access.AttributeError => (s, THttpError 500)
  | Ok (r, ctx) => handler ctx (actor r ≫= principal_of_actor)
  end.

(** [ctx.authorize_item(item, action="download")] before the rest *)
Definition authorized (ctx : PermissionContext) (item : Item) (s : Store) (rest : Store * transfer_reply) : Store * transfer_reply :=
  match authorize_item ctx (i_path_scope item) (Some "download") with
  | Err (Http status) => (s, THttpError status)
  | Err Access.AttributeError => (s, THttpError 500)
  | Ok () => rest
  end.

(** The active transfer of an item that has not expired, the last one created *)
Definition created_last (a b : StagingTransfer) : bool := t_created_at b <=? t_created_at a.
Definition active_for (s : Store) (item now : Z) : option StagingTransfer :=
  head (merge_sort created_last
    (filterb (λ t, (t_item_id t =? item) && bool_decide (t_state t ∈ _ACTIVE_STATES) && (now <? t_expires_at t)) (all_transfers s))).

Definition initiate_body (s : Store) (item : Item) (library : AgentLibrary) (agent : Z) (verify_hash : bool) (by_ : option string)
    (now : Z) : Store * transfer_reply :=
  match active_for s (i_id item) now with
  | Some existing => (s, TConflict (Some (t_id existing)))
  | None =>
      let expires := now + transfer_ttl_seconds tsettings * SECOND in
      let payload := JDict [(txt "library_ref", JText (al_root_path library)); (txt "rel_path", JText (i_rel_path item));
                            (txt "verify", JBool verify_hash)] in
      match new_row (fleet s) agent stage_upload (i_id item) payload expires now by_ with
      | Err x => (s, TServerError x)
      | Ok (f, command) =>
          let s1 := set_fleet s f in
          let t := fresh_transfer s1 (i_id item) agent command (Some (i_size item)) expires now in
          match insert_transfer s1 t with
          | Some s2 =>
              (emit s2 (AGENT_TRANSFER_INITIATED (t_id t) command (i_id item) agent verify_hash by_), Initiated (t_id t) (t_state t))
          | None => (s, TConflict (t_id <$> active_for s (i_id item) now))
          end
      end
  end.

Definition initiate_transfer (s : Store) (ctx : PermissionContext) (item_id : Z) (verify_hash : bool) (by_ : option string) (now : Z) :
    Store * transfer_reply :=
  match items (central (fleet s)) !! item_id with
  | None => (s, THttpError 404)
  | Some item =>
      authorized ctx item s
        match (l ← library_of (fleet s) item; a ← source_agent_id l; Some (l, a)) with
        | None => (s, THttpError 422)
        | Some (library, agent_id) =>
            match agents (central (fleet s)) !! agent_id with
            | None => (s, THttpError 409)
            | Some agent =>
                if bool_decide (is_Some (revoked_at agent)) then (s, THttpError 409)
                else initiate_body s item library agent_id verify_hash by_ now
            end
        end
  end.

Definition get_transfer (s : Store) (transfer_id : Z) : Store * transfer_reply :=
  match transfers s !! transfer_id with None => (s, THttpError 404) | Some t => (s, Payload t) end.

(** [_staged_stat], with the bytes; the null path is no file. *)
Definition _staged_stat (s : Store) (path : option text) : option (list Z) :=
  match path with Some (c :: p) => disk s !! (c :: p) | _ => None end.

Definition download_transfer (s : Store) (ctx : PermissionContext) (transfer_id : Z) (range_header : option text) (by_ : option string)
    (now : Z) : Store * transfer_reply :=
  match transfers s !! transfer_id with
  | None => (s, THttpError 404)
  | Some t =>
      match items (central (fleet s)) !! t_item_id t with
      | None => (s, THttpError 404)
      | Some item =>
          authorized ctx item s
            (if negb (t_verified t && bool_decide (t_state t ∈ [t_staged; t_downloaded])) then (s, THttpError 409)
             else match _staged_stat s (staged_file t) with
             | None => (s, THttpError 409)
             | Some data =>
                 let last := bool_decide (t_state t = t_staged) &&
                   _range_covers_final_byte uni_lower uni_decimal range_header (Z.of_nat (length data)) in
                 match (if last then transfer_state_machine (t_state t) download else Ok (t_state t)) with
                 | Err x => (s, TServerError x)
                 | Ok st =>
                     let t' := updated t (set_transfer t st (bytes_transferred t) (verified_hash t) (t_verified t) (Some now)) now in
                     (emit (put_transfer s t') (AGENT_TRANSFER_DOWNLOADED (t_id t) (t_item_id t) (t_agent_id t) range_header st by_),
                      FileOut data (i_filename item))
                 end
             end)
      end
  end.

(** The command of a transfer that ends early *)
Definition end_command (f : Fleet) (command : Z) (event : CommandEvent) (now : Z) : result transfer_error (Fleet * bool) :=
  match commands f !! command with
  | Some c =>
      if command_is_terminal (c_status c) then Ok (f, false)
      else match command_state_machine (c_status c) event with
        | Ok st => Ok (set_commands f (<[command := set_command c st (attempts c) now (picked_up_at c) (Some now) (c_result c)]> (commands f)), true)
        | Err x => Err (CommandError x)
        end
  | None => Ok (f, false)
  end.

Definition cancel_transfer (s : Store) (e : Env) (transfer_id : Z) (by_ : option string) : Store * transfer_reply :=
  match transfers s !! transfer_id with
  | None => (s, THttpError 404)
  | Some t =>
      if bool_decide (t_state t ∈ [t_downloaded; t_expired; t_failed]) then (s, THttpError 409)
      else match ('(f, _) <-! end_command (fleet s) (t_command_id t) cancel (now e);
                  st <-! transfer_state_machine (t_state t) t_expire; Ok (f, st)) with
        | Err x => (s, TServerError x)
        | Ok (f, st) =>
            let s := remove_file e (set_fleet s f) (staged_file t) in
            (emit (put_transfer s (updated t (set_state t st) (now e))) (AGENT_TRANSFER_CANCELLED (t_id t) (t_command_id t) (t_item_id t) by_),
             Cancelled (t_id t) st)
        end
  end.

(** ** The sweep *)

Definition _SWEEP_BATCH : nat := 1000.

Definition is_abandoned (now abandoned_upload_seconds : Z) (t : StagingTransfer) : bool :=
  bool_decide (t_state t ∈ _PARTIAL_STATES) && (t_updated_at t <=? now - abandoned_upload_seconds * SECOND).
Definition is_ttl (now : Z) (t : StagingTransfer) : bool := t_expires_at t <=? now.

(** The rows of the query *)
Definition sweepable (now abandoned_upload_seconds : Z) (t : StagingTransfer) : bool :=
  bool_decide (t_state t ∈ _LIVE_STATES) && (is_ttl now t || is_abandoned now abandoned_upload_seconds t).

(** A download that is under way *)
Definition draining (now grace abandoned_upload_seconds : Z) (t : StagingTransfer) : bool :=
  is_ttl now t && negb (is_abandoned now abandoned_upload_seconds t) &&
  match last_range_request_at t with Some w => now - grace * SECOND <? w | None => false end.

Definition reap (e : Env) (grace abandoned_seconds : Z) (st : Store * CleanupCounts) (t : StagingTransfer) :
    result transfer_error (Store * CleanupCounts) :=
  let '(s, n) := st in
  if draining (now e) grace abandoned_seconds t then
    Ok (s, mkCleanup (reaped n) (ttl_expired n) (abandoned n) (skipped_active n + 1) (commands_expired n))
  else
    state <-! transfer_state_machine (t_state t) t_expire;
    let s := remove_file e s (staged_file t) in
    '(f, ended) <-! end_command (fleet s) (t_command_id t) expire (now e);
    let s := put_transfer (set_fleet s f) (updated t (set_state t state) (now e)) in
    let short := is_abandoned (now e) abandoned_seconds t && negb (is_ttl (now e) t) in
    Ok (s, mkCleanup (reaped n + 1) (if short then ttl_expired n else ttl_expired n + 1) (if short then abandoned n + 1 else abandoned n)
             (skipped_active n) (if ended then commands_expired n + 1 else commands_expired n)).

Definition expires_first (a b : StagingTransfer) : bool := t_expires_at a <=? t_expires_at b.

Definition run_staging_cleanup_sweep (s : Store) (e : Env) (download_grace_seconds abandoned_upload_seconds : Z) :
    result transfer_error (Store * CleanupCounts) :=
  let candidates := take _SWEEP_BATCH
    (merge_sort expires_first (filterb (sweepable (now e) abandoned_upload_seconds) (all_transfers s))) in
  result_fold (reap e download_grace_seconds abandoned_upload_seconds) (s, mkCleanup 0 0 0 0 0) candidates.

(** [worker.cleanup_staging_transfers] *)
Definition cleanup_staging_transfers (s : Store) (e : Env) : Store * transfer_reply :=
  match run_staging_cleanup_sweep s e (staging_download_grace_seconds tsettings) (staging_abandoned_upload_seconds tsettings) with
  | Ok (s', n) => (s', Swept n)
  | Err x => (s, TServerError x)
  end.

(** ** The progress stream *)

Definition _TERMINAL_STATES : list TransferState := [t_downloaded; t_expired; t_failed].

Definition _waiting_for_agent (t : StagingTransfer) (cmd : option AgentCommand) : bool :=
  bool_decide (t_state t = t_pending) && match cmd with Some c => bool_decide (picked_up_at c = None) | None => false end.

Definition _terminal_reason (t : StagingTransfer) (cmd : option AgentCommand) : string :=
  match t_state t with
  | t_downloaded => "downloaded"
  | t_failed => "failed"
  | _ =>
      match cmd with
      | Some c =>
          if bool_decide (c_status c = cancelled) then "cancelled"
          else if bool_decide (picked_up_at c = None) then "offline_timeout" else "expired"
      | None => "offline_timeout"
      end
  end.

Inductive sse_event :=
  | progress (t : StagingTransfer) (waiting : bool)
  | offline_timeout (t : StagingTransfer) (waiting : bool) (reason : string)
  | error (t : option StagingTransfer)
  | sse_done (t : StagingTransfer) (waiting : bool) (reason : string).

(** What change detection compares *)
Definition event_key (t : StagingTransfer) (waiting : bool) : TransferState * Z * option Z * bool * bool :=
  (t_state t, bytes_transferred t, total_bytes t, t_verified t, waiting).

(** One turn of the loop: the events, and the key to go on with unless the stream closes *)
Definition transfer_events (s : Store) (transfer_id : Z) (last_key : option (TransferState * Z * option Z * bool * bool)) :
    list sse_event * option (option (TransferState * Z * option Z * bool * bool)) :=
  match transfers s !! transfer_id with
  | None => ([error None], None)
  | Some t =>
      let cmd := commands (fleet s) !! t_command_id t in
      let waiting := _waiting_for_agent t cmd in
      if bool_decide (t_state t ∈ _TERMINAL_STATES) then
        let reason := _terminal_reason t cmd in
        let first := if bool_decide (reason = "offline_timeout") then [offline_timeout t waiting reason]
          else if bool_decide (t_state t = t_failed) then [error (Some t)] else [] in
        (first ++ [sse_done t waiting reason], None)
      else
        let key := event_key t waiting in
        if bool_decide (last_key = Some key) then ([], Some last_key) else ([progress t waiting], Some (Some key))
  end.

(** ** Requests *)

(** The catalogue as another part of the system leaves it, with what the foreign keys
    delete along; files stay. *)
Definition cascaded (s : Store) (c : Central) : Store :=
  let known (item agent : Z) := bool_decide (is_Some (items c !! item)) && bool_decide (is_Some (agents c !! agent)) in
  let f := fleet s in
  let cmds := filter (λ '(_, k), bool_decide (is_Some (agents c !! c_agent_id k)) &&
                match c_item_id k with Some i => bool_decide (is_Some (items c !! i)) | None => true end = true) (commands f) in
  mkStore (mkFleet c (adverts f) cmds (commands_made f) (verified f))
    (filter (λ '(_, t), known (t_item_id t) (t_agent_id t) && bool_decide (is_Some (cmds !! t_command_id t)) = true) (transfers s))
    (disk s) (transfers_made s) (emitted s).

Inductive transfer_request :=
  | TAttach (agent_id : Z) (body : option json) (r : AgentRequest)
  | THead (agent_id transfer_id : Z) (r : AgentRequest)
  | TPatch (agent_id transfer_id : Z) (p : patch) (r : AgentRequest)
  | TInitiate (call : OperatorCall) (item_id : Z) (verify_hash : bool)
  | TGet (call : OperatorCall) (transfer_id : Z)
  | TDownload (call : OperatorCall) (transfer_id : Z) (range : option text)
  | TCancel (call : OperatorCall) (transfer_id : Z)
  | TCleanup
  | TCommand (q : Commands.request)
  | TElsewhere (c : Central).

Definition gate (scope : string) (call : OperatorCall) (now : Z) (handler : option string → Store * transfer_reply) (s : Store) :
    Store * transfer_reply :=
  scoped sha256 auth_enabled _roles THttpError scope call now handler s.

Definition serve (s : Store) (e : Env) (q : transfer_request) : Store * transfer_reply :=
  match q with
  | TAttach a b r => attach_transfer s e a b r
  | THead a i r => head_transfer s a i r
  | TPatch a i p r => append_transfer s e a i p r
  | TInitiate call i v => permitted call (now e) (λ ctx by_, initiate_transfer s ctx i v by_ (now e)) s
  | TGet call i => gate "read" call (now e) (λ _, get_transfer s i) s
  | TDownload call i range => permitted call (now e) (λ ctx by_, download_transfer s ctx i range by_ (now e)) s
  | TCancel call i => gate "write" call (now e) (λ by_, cancel_transfer s e i by_) s
  | TCleanup => cleanup_staging_transfers s e
  | TCommand q =>
      let '(f, r) := Commands.serve uni_lower float_repr sha256 model_validate new_command row_order settings csettings
        auth_enabled _roles (fleet s) (locked e) (now e) q in
      (set_fleet s f, OfCommands r)
  | TElsewhere c => (cascaded s c, TNoReply)
  end.

Fixpoint run (s : Store) (trace : list (Env * transfer_request)) : Store :=
  match trace with [] => s | (e, q) :: t => run (serve s e q).1 t end.
End transfers.
