(* ===== verification/TransfersFacts.v ===== *)
(** * File transfers: facts and properties *)
From S2P Require Import Prelude PyStr Uuid Utf8 PathLabel Text Json PyNum Catalog Rbac Access AgentMeta AgentSync AgentSyncFacts Verify Commands CommandsFacts Transfers.
From Stdlib Require Import SpecFloat.
From stdpp Require Import options.

(** ** Bytes *)

Lemma ftruncate_prefix n (file src : list Z) :
  take n file = take n src → (n ≤ length file)%nat → ftruncate (Z.of_nat n) file = take n src.
Proof.
  intros Ht Hl. unfold ftruncate. rewrite Nat2Z.id, (proj2 (Nat.sub_0_le n (length file))) by done. cbn [replicate].
  by rewrite app_nil_r.
Qed.

(** The next part of a file *)
Lemma next_part (src : list Z) n k :
  (n ≤ length src)%nat → let body := take k (drop n src) in let m := Nat.min (n + k) (length src) in
  (n + length body)%nat = m ∧ take n src ++ body = take m src ∧ (length body ≤ k)%nat ∧ (m ≤ length src)%nat ∧ (n ≤ m)%nat.
Proof.
  intros Hn body m. subst body m. rewrite length_take, length_drop. split_and!; [lia| |lia|lia|lia].
  rewrite take_take_drop. destruct (decide (n + k ≤ length src)%nat) as [Hk|Hk].
  - f_equal. lia.
  - rewrite !take_ge by lia. done.
Qed.

Lemma rounds_enough len n fuel b : (0 < n)%nat → (len / n < fuel)%nat → (len < b + fuel * n)%nat.
Proof. intros Hn Hf. pose proof (Nat.div_mod_eq len n). pose proof (Nat.mod_upper_bound len n ltac:(lia)). nia. Qed.



Lemma uuid_str_no_slash u : SLASH ∉ txt (uuid_str u) ++ txt ".bin".
Proof.
  intros H. apply elem_of_app in H as [H|H].
  - pose proof (uuid_str_plain u) as Hp. eapply Forall_forall in Hp; [|exact H]. unfold plain, SLASH in Hp. lia.
  - by vm_compute in H; repeat (apply elem_of_cons in H as [H|H]; [done|]); apply elem_of_nil in H.
Qed.

(** The files of different transfers are different. *)
Section paths.
Context (uni_decimal : Z → option Z) (tsettings : TransferSettings).
Local Abbreviation staged_path := (staged_path uni_decimal tsettings).

Lemma staging_path_canonical u :
  is_uuid u → staging_path_for uni_decimal (txt (uuid_str u)) = Some (STAGING_ROOT ++ SLASH :: txt (uuid_str u) ++ txt ".bin").
Proof using Type.
  intros Hu. unfold staging_path_for. rewrite parse_uuid_str by done. cbn [mbind option_bind]. unfold join_path.
  destruct (starts_with _ [SLASH]) eqn:Hs; [|done]. exfalso. destruct (txt (uuid_str u) ++ txt ".bin") as [ |c t] eqn:He; [done|].
  apply (uuid_str_no_slash u). rewrite He. cbn in Hs. apply andb_true_iff in Hs as [Hs%Z.eqb_eq _]. rewrite Hs. left.
Qed.

Lemma staged_path_name u :
  is_uuid u → let name := txt (uuid_str u) ++ txt ".bin" in
  staged_path u = if bool_decide (staging_root tsettings = txt ".") then name
    else if bool_decide (staging_root tsettings = []) || ends_with (staging_root tsettings) [SLASH]
    then staging_root tsettings ++ name else staging_root tsettings ++ SLASH :: name.
Proof using Type.
  intros Hu name. unfold Transfers.staged_path. rewrite staging_path_canonical by done. cbn [default id].
  unfold basename. rewrite rsplit_app by apply uuid_str_no_slash. fold name. unfold join_path.
  destruct (starts_with name [SLASH]) eqn:Hs; [|done]. exfalso. destruct name as [ |c t] eqn:He; [done|].
  apply (uuid_str_no_slash u). subst name. rewrite He. cbn in Hs. apply andb_true_iff in Hs as [Hs%Z.eqb_eq _]. rewrite Hs. left.
Qed.

Lemma staged_path_inj u v : is_uuid u → is_uuid v → staged_path u = staged_path v → u = v.
Proof using Type.
  intros Hu Hv. rewrite !staged_path_name by done. cbn zeta. intros H.
  enough (txt (uuid_str u) = txt (uuid_str v)) as He.
  { apply (f_equal (parse_uuid uni_decimal)) in He. rewrite !parse_uuid_str in He by done. by injection He. }
  destruct (bool_decide _) in H; [by apply app_inv_tail in H|].
  destruct (_ || _) in H; apply app_inv_head in H; [|apply (f_equal (@tl Z)) in H; cbn [tl] in H]; by apply app_inv_tail in H.
Qed.

Lemma staged_path_nonempty u : is_uuid u → staged_path u ≠ [].
Proof using Type.
  intros Hu. rewrite staged_path_name by done. cbn zeta. intros H.
  assert (∀ a, a ++ txt (uuid_str u) ++ txt ".bin" ≠ []) as Hn by (intros a Ha; apply app_eq_nil in Ha as [_ Ha]; apply app_eq_nil in Ha as [_ Ha]; done).
  destruct (bool_decide _) in H; [by apply (Hn [])|]. destruct (_ || _) in H; [by apply Hn in H|].
  apply app_eq_nil in H as [_ H]. done.
Qed.
End paths.

(** ** What a request does to the rows and the files *)

Definition same_row (t t' : StagingTransfer) : Prop :=
  t_id t' = t_id t ∧ t_item_id t' = t_item_id t ∧ t_agent_id t' = t_agent_id t ∧ t_command_id t' = t_command_id t ∧
  staged_file t' = staged_file t ∧ t_expires_at t' = t_expires_at t ∧ t_created_at t' = t_created_at t.

Definition same_check (t t' : StagingTransfer) : Prop := t_verified t' = t_verified t ∧ verified_hash t' = verified_hash t.

(** Bookkeeping; the declared size may change before the first byte *)
Definition quiet (t t' : StagingTransfer) : Prop :=
  same_row t t' ∧ t_state t' = t_state t ∧ bytes_transferred t' = bytes_transferred t ∧ same_check t t' ∧
  (total_bytes t' = total_bytes t ∨ bytes_transferred t = 0 ∧ ∃ n, 0 ≤ n ∧ total_bytes t' = Some n).

Definition moved (t t' : StagingTransfer) (s : TransferState) : Prop :=
  same_row t t' ∧ t_state t' = s ∧ bytes_transferred t' = bytes_transferred t ∧ total_bytes t' = total_bytes t ∧ same_check t t'.

Definition partial (t : StagingTransfer) : bool := bool_decide (t_state t ∈ _PARTIAL_STATES).

Section requests.
Context (uni_lower : Z → list Z) (float_repr : spec_float → text) (uni_printable : Z → bool) (uni_decimal : Z → option Z).
Context (sha256 : string → string) (model_validate : json → option CommandResult) (xxh3_64 xxh3_128 : list Z → string).
Context (new_command new_transfer : nat → Z) (row_order : list AgentCommand → list AgentCommand).
Context (transfer_order : list StagingTransfer → list StagingTransfer).
Context (load_grants : Principal → Role * list PathGrant) (uses_ltree : bool).
Context (settings : SyncSettings) (csettings : CommandSettings) (tsettings : TransferSettings) (auth_enabled : bool)
  (_roles : gmap string Role).
Context (new_transfer_uuid : ∀ n, is_uuid (new_transfer n)).
Context (transfer_order_perm : ∀ l, transfer_order l ≡ₚ l).
Local Abbreviation staged_path := (staged_path uni_decimal tsettings).
Local Abbreviation path_of := (path_of uni_decimal tsettings).
Local Abbreviation all_transfers := (all_transfers transfer_order).
Local Abbreviation serve := (serve uni_lower float_repr uni_printable uni_decimal sha256 model_validate xxh3_64 xxh3_128 new_command
  new_transfer row_order transfer_order load_grants uses_ltree settings csettings tsettings auth_enabled _roles).
Local Abbreviation run := (run uni_lower float_repr uni_printable uni_decimal sha256 model_validate xxh3_64 xxh3_128 new_command
  new_transfer row_order transfer_order load_grants uses_ltree settings csettings tsettings auth_enabled _roles).

(** The catalogue row [it] vouches for the bytes [data]: the size and the strongest hash *)
Definition vouches (it : Item) (data : list Z) : Prop :=
  i_size it = Z.of_nat (length data) ∧
  match i_content_hash it with
  | Some h => h = if (String.length h =? 32)%nat then xxh3_128 data else xxh3_64 data
  | None => ∃ h, i_quick_hash it = Some h ∧ quick_hash xxh3_64 (λ _, Some data) [] (Z.of_nat (length data)) = Some h
  end.

Record store_ok (s : Store) : Prop := {
  so_id i t : transfers s !! i = Some t → t_id t = i;
  so_uuid i t : transfers s !! i = Some t → is_uuid i;
  so_file i t : transfers s !! i = Some t → staged_file t = Some (staged_path i);
  so_command i j t u : transfers s !! i = Some t → transfers s !! j = Some u → t_command_id t = t_command_id u → i = j;
  so_active i j t u : transfers s !! i = Some t → transfers s !! j = Some u → active_transfer t = true → active_transfer u = true →
    t_item_id t = t_item_id u → i = j;
  so_checked i t : transfers s !! i = Some t → t_verified t = true → partial t = false;
  so_bytes i t : transfers s !! i = Some t → 0 ≤ bytes_transferred t;
}.

(** What an append makes of its row, the files being [d] afterwards and the items [m] *)
Definition appended (m : gmap Z Item) (d : gmap text (list Z)) (t t' : StagingTransfer) : Prop :=
  same_row t t' ∧ total_bytes t' = total_bytes t ∧ bytes_transferred t ≤ bytes_transferred t' ∧
  (t_state t' = t_uploading ∧ same_check t t' ∨
   t_state t' = t_staged ∧ same_check t t' ∨
   t_state t' = t_failed ∧ t_verified t' = false ∧ verified_hash t' = verified_hash t ∨
   t_state t' = t_staged ∧ t_verified t' = true ∧ ∃ data it,
     d !! path_of t = Some data ∧ m !! t_item_id t = Some it ∧ vouches it data ∧ verified_hash t' = Some (xxh3_128 data)).

Inductive move (w : option Z) (s s' : Store) : Prop :=
  | mv_frame : transfers s' = transfers s → disk s' = disk s → transfers_made s' = transfers_made s → move w s s'
  | mv_row t t' :
      transfers s !! t_id t = Some t → quiet t t' ∨ t_state t = t_staged ∧ t_verified t = true ∧ moved t t' t_downloaded →
      transfers s' = <[t_id t := t']> (transfers s) → disk s' = disk s → transfers_made s' = transfers_made s → move w s s'
  | mv_insert t :
      insertable (transfers s) t = true → t_id t = new_transfer (transfers_made s) → staged_file t = Some (staged_path (t_id t)) →
      t_state t = t_pending → bytes_transferred t = 0 → t_verified t = false →
      transfers s' = <[t_id t := t]> (transfers s) → disk s' = disk s → transfers_made s' = S (transfers_made s) → move w s s'
  | mv_close t t' :
      transfers s !! t_id t = Some t → active_transfer t = true → moved t t' t_expired →
      transfers s' = <[t_id t := t']> (transfers s) → disk s' = disk s ∨ disk s' = delete (path_of t) (disk s) →
      transfers_made s' = transfers_made s → move w s s'
  | mv_append t :
      transfers s !! t_id t = Some t → w = Some (t_id t) → partial t = true →
      transfers s' = transfers s ∨
        (∃ t', appended (items (central (fleet s))) (disk s') t t' ∧ transfers s' = <[t_id t := t']> (transfers s)) →
      (∀ p, p ≠ path_of t → disk s' !! p = disk s !! p) → transfers_made s' = transfers_made s → move w s s'.

(** The transfer whose file a request writes *)
Definition patched (q : transfer_request) : option Z := match q with TPatch _ i _ _ => Some i | _ => None end.

Lemma same_row_refl t : same_row t t.
Proof using Type. done. Qed.

Lemma updated_row t t' now : same_row t t' → same_row t (updated t t' now).
Proof using Type. unfold updated. case_bool_decide; [done|]. done. Qed.

Lemma ok_path s i t : store_ok s → transfers s !! i = Some t → path_of t = staged_path i.
Proof using Type.
  intros Hok Ht. pose proof (so_file _ Hok i t Ht) as Hf. pose proof (so_uuid _ Hok i t Ht) as Hu.
  unfold Transfers.path_of. rewrite Hf. destruct (staged_path i) eqn:He; [|done].
  by apply staged_path_nonempty in He.
Qed.

Lemma paths_differ s i j t u :
  store_ok s → transfers s !! i = Some t → transfers s !! j = Some u → i ≠ j → path_of t ≠ path_of u.
Proof using Type.
  intros Hok Ht Hu Hne He. rewrite (ok_path s i), (ok_path s j) in He by done.
  apply Hne. by apply (staged_path_inj uni_decimal tsettings); [eapply so_uuid..|].
Qed.

(** *** The invariant *)

Lemma put_ok s s' t t' :
  store_ok s → transfers s !! t_id t = Some t → same_row t t' → (active_transfer t' = true → active_transfer t = true) →
  (t_verified t' = true → partial t' = false) → 0 ≤ bytes_transferred t' →
  transfers s' = <[t_id t := t']> (transfers s) → transfers_made s' = transfers_made s → store_ok s'.
Proof using Type.
  intros Hok Ht Hrow Hact Hver Hb Hs Hm. destruct Hrow as (Hid & Hitem & _ & Hcmd & Hfile & _).
  assert (∀ i u, transfers s' !! i = Some u → ∃ u0, transfers s !! i = Some u0 ∧ t_id u = t_id u0 ∧ t_item_id u = t_item_id u0 ∧
    t_command_id u = t_command_id u0 ∧ staged_file u = staged_file u0 ∧ (active_transfer u = true → active_transfer u0 = true)) as Hold.
  { intros i u. rewrite Hs. destruct (decide (t_id t = i)) as [<-|Hne].
    - rewrite lookup_insert_eq. intros [= <-]. exists t. by split_and!.
    - rewrite lookup_insert_ne by done. intros Hu. exists u. by split_and!. }
  constructor.
  - intros i u Hu. destruct (Hold i u Hu) as (u0 & Hu0 & -> & _). by eapply so_id.
  - intros i u Hu. destruct (Hold i u Hu) as (u0 & Hu0 & _). by eapply so_uuid.
  - intros i u Hu. destruct (Hold i u Hu) as (u0 & Hu0 & _ & _ & _ & -> & _). by eapply so_file.
  - intros i j u v Hu Hv He. destruct (Hold i u Hu) as (u0 & Hu0 & _ & _ & Hcu & _). destruct (Hold j v Hv) as (v0 & Hv0 & _ & _ & Hcv & _).
    eapply (so_command s); [done|exact Hu0|exact Hv0|congruence].
  - intros i j u v Hu Hv Hau Hav He. destruct (Hold i u Hu) as (u0 & Hu0 & _ & Hiu & _ & _ & Ha). destruct (Hold j v Hv) as (v0 & Hv0 & _ & Hiv & _ & _ & Ha').
    eapply (so_active s); [done|exact Hu0|exact Hv0|auto..|congruence].
  - intros i u. rewrite Hs. destruct (decide (t_id t = i)) as [<-|Hne].
    + rewrite lookup_insert_eq. by intros [= <-].
    + rewrite lookup_insert_ne by done. by eapply so_checked.
  - intros i u. rewrite Hs. destruct (decide (t_id t = i)) as [<-|Hne].
    + rewrite lookup_insert_eq. by intros [= <-].
    + rewrite lookup_insert_ne by done. by eapply so_bytes.
Qed.

Lemma insertable_spec m t :
  insertable m t = true → m !! t_id t = None ∧
  ∀ i u, m !! i = Some u → t_command_id u ≠ t_command_id t ∧
    (active_transfer u = true → active_transfer t = true → t_item_id u ≠ t_item_id t).
Proof using Type.
  unfold insertable. intros H. apply andb_true_iff in H as [H _]. apply andb_true_iff in H as [H _]. apply andb_true_iff in H as [Hnone Hall].
  apply bool_decide_eq_true in Hnone. split; [done|]. intros i u Hu. rewrite forallb_elem in Hall.
  specialize (Hall (i, u) (proj2 (elem_of_map_to_list _ _ _) Hu)). cbn in Hall. apply andb_true_iff in Hall as [Hc Hi].
  apply negb_true_iff, Z.eqb_neq in Hc. split; [done|]. intros Ha Hb He. rewrite Ha, Hb, (proj2 (Z.eqb_eq _ _) He) in Hi. done.
Qed.

Lemma insert_ok s s' t :
  store_ok s → insertable (transfers s) t = true → t_id t = new_transfer (transfers_made s) →
  staged_file t = Some (staged_path (t_id t)) → t_state t = t_pending → bytes_transferred t = 0 → t_verified t = false →
  transfers s' = <[t_id t := t]> (transfers s) → transfers_made s' = S (transfers_made s) → store_ok s'.
Proof using new_transfer_uuid.
  intros Hok Hins Hid Hfile Hst Hb Hv Hs Hm. apply insertable_spec in Hins as [Hnone Hins].
  assert (∀ i u, transfers s' !! i = Some u → i = t_id t ∧ u = t ∨ i ≠ t_id t ∧ transfers s !! i = Some u) as Hcase.
  { intros i u. rewrite Hs. destruct (decide (t_id t = i)) as [<-|Hne].
    - rewrite lookup_insert_eq. intros [= <-]. by left.
    - rewrite lookup_insert_ne by done. by right. }
  constructor.
  - intros i u [[-> ->]|[_ Hu]]%Hcase; [done|by eapply so_id].
  - intros i u [[-> ->]|[_ Hu]]%Hcase; [by rewrite Hid|by eapply so_uuid].
  - intros i u [[-> ->]|[_ Hu]]%Hcase; [done|by eapply so_file].
  - intros i j u v [[-> ->]|[_ Hu]]%Hcase [[-> ->]|[_ Hv']]%Hcase He; [done|..].
    + symmetry in He. by apply (proj1 (Hins j v Hv')) in He.
    + by apply (proj1 (Hins i u Hu)) in He.
    + by eapply (so_command s).
  - intros i j u v [[-> ->]|[_ Hu]]%Hcase [[-> ->]|[_ Hv']]%Hcase Hau Hav He; [done|..].
    + symmetry in He. by apply (proj2 (Hins j v Hv')) in He.
    + by apply (proj2 (Hins i u Hu)) in He.
    + by eapply (so_active s).
  - intros i u [[-> ->]|[_ Hu]]%Hcase; [congruence|by eapply so_checked].
  - intros i u [[-> ->]|[_ Hu]]%Hcase; [by rewrite Hb|by eapply so_bytes].
Qed.

Lemma drop_ok s s' :
  store_ok s → transfers s' ⊆ transfers s → transfers_made s' = transfers_made s → store_ok s'.
Proof using Type.
  intros Hok Hsub Hm. assert (∀ i u, transfers s' !! i = Some u → transfers s !! i = Some u) as H by (intros i u Hu; by eapply lookup_weaken).
  constructor; [..|by intros i t Ht%H; eapply so_checked|by intros i t Ht%H; eapply so_bytes].
  - intros i t Ht%H. by eapply so_id.
  - intros i t Ht%H. by eapply so_uuid.
  - intros i t Ht%H. by eapply so_file.
  - intros i j t u Ht%H Hu%H. by apply (so_command s).
  - intros i j t u Ht%H Hu%H. by apply (so_active s).
Qed.

Lemma move_ok w s s' : store_ok s → move w s s' → store_ok s'.
Proof using new_transfer_uuid.
  intros Hok [Ht Hd Hm|t t' Ht Hrow Hs Hd Hm|t Hins Hid Hf Hst Hb Hv Hs Hd Hm|t t' Ht Ha Hmv Hs Hd Hm|t Ht _ Hp Hs Hd Hm].
  - apply (drop_ok s); [done|by rewrite Ht|done].
  - pose proof (so_bytes _ Hok _ _ Ht) as Hb. pose proof (so_checked _ Hok _ _ Ht) as Hc. unfold partial, active_transfer in *.
    destruct Hrow as [(Hr & He & Hbb & [Hv _] & _)|(He & _ & Hr & He' & Hbb & _ & Hv & _)]; eapply (put_ok s); try done;
      unfold active_transfer, partial; try (by rewrite Hbb); rewrite ?He, ?He', ?Hv; done.
  - by eapply insert_ok.
  - pose proof (so_bytes _ Hok _ _ Ht) as Hb. destruct Hmv as (Hr & He & Hbb & _ & Hv & _).
    eapply (put_ok s); try done; unfold partial; by rewrite ?He, ?Hbb.
  - pose proof (so_bytes _ Hok _ _ Ht) as Hb. destruct Hs as [Hs|(t' & Happ & Hs)]; [apply (drop_ok s); [done|by rewrite Hs|done]|].
    destruct Happ as (Hr & _ & Hle & Hcase). pose proof (so_checked _ Hok _ _ Ht) as Hc. rewrite Hp in Hc.
    eapply (put_ok s); try done.
    + intros _. unfold partial, active_transfer in *. apply bool_decide_eq_true in Hp. apply bool_decide_eq_true. unfold _PARTIAL_STATES in Hp.
      elem_cases Hp; rewrite Hp; repeat constructor.
    + unfold same_check in Hcase. unfold partial. destruct Hcase as [(He & Hv & _)|[(He & Hv & _)|[(He & Hv & _)|(He & _)]]]; rewrite He; try done.
      rewrite Hv. intros Hv'. by apply Hc in Hv'.
    + by etransitivity.
Qed.

(** *** The handlers *)

Lemma elem_of_transfers s t : store_ok s → t ∈ all_transfers s → transfers s !! t_id t = Some t.
Proof using transfer_order_perm.
  intros Hok. unfold Transfers.all_transfers. rewrite transfer_order_perm. intros ([i u] & -> & Hu)%list_elem_of_fmap.
  apply elem_of_map_to_list in Hu. cbn. by rewrite (so_id _ Hok i u Hu).
Qed.

Lemma by_command_lookup s command t :
  store_ok s → by_command transfer_order s command = Some t → transfers s !! t_id t = Some t ∧ t_command_id t = command.
Proof using transfer_order_perm.
  intros Hok (H & He)%List.find_some. split; [apply elem_of_transfers; [done|by apply list_elem_of_In]|by apply Z.eqb_eq].
Qed.

Lemma frame_fleet w s f : move w s (set_fleet s f).
Proof using Type. by apply mv_frame. Qed.

Lemma frame_refl w s : move w s s.
Proof using Type. by apply mv_frame. Qed.

(** A handler of the agents that leaves the rest as authentication left it *)
Lemma as_agent_cases s a r handler :
  (as_agent uni_lower settings s a r handler).1 = s ∨
  ∃ f agent, authenticated uni_lower settings (fleet s) a r = Ok (f, agent) ∧
    as_agent uni_lower settings s a r handler = handler (set_fleet s f) agent.
Proof using Type.
  unfold as_agent. destruct (negb _); [by left|]. destruct (authenticated _ _ _ _ _) as [[f agent]|] eqn:Ha; [|by left].
  right. by exists f, agent.
Qed.

Lemma move_after_fleet w s f s' : (∀ it, items (central f) !! it = items (central (fleet s)) !! it) → move w (set_fleet s f) s' → move w s s'.
Proof using Type.
  intros Hi [Ht Hd Hm|t t' Ht Hrow Hs Hd Hm|t Hins Hid Hf Hst Hb Hv Hs Hd Hm|t t' Ht Ha Hmv Hs Hd Hm|t Ht Hw Hp Hs Hd Hm].
  - by apply mv_frame.
  - by eapply mv_row.
  - by eapply mv_insert.
  - by eapply mv_close.
  - eapply mv_append; [exact Ht|done..| |done|done]. destruct Hs as [Hs|(t' & (Hr & Htot & Hle & Hcase) & Hs)]; [by left|right].
    exists t'. split; [|done]. split_and!; [exact Hr|done|done|].
    destruct Hcase as [H|[H|[H|(He & Hv & data & it & Hdata & Hit & H)]]]; [by left|by right; left|by right; right; left|].
    right; right; right. split; [done|]. split; [done|]. exists data, it. cbn [fleet set_fleet] in Hit. rewrite Hi in Hit. by split.
Qed.

Lemma reattach_move w s agent t total now :
  transfers s !! t_id t = Some t → (∀ n, total = Some n → 0 ≤ n) → move w s (reattach s agent t total now).1.
Proof using Type.
  intros Ht Hn. unfold reattach. destruct total as [n|]; [|apply frame_refl]. destruct (match total_bytes t with Some m => _ | None => _ end); [apply frame_refl|].
  destruct (bytes_transferred t =? 0) eqn:Hb; [|apply frame_refl]. apply Z.eqb_eq in Hb. destruct (int8_ok _); [|apply frame_refl].
  assert (quiet t (updated t (set_total t (Some n)) now)) as Hq.
  { specialize (Hn n eq_refl). unfold updated. case_bool_decide as He.
    - split_and!; try done. by left.
    - split_and!; try done. right. split; [done|]. by exists n. }
  cbn [fst]. assert (t_id (updated t (set_total t (Some n)) now) = t_id t) as Hid by (by destruct Hq as [[-> _] _]).
  eapply (mv_row w _ _ t); [exact Ht|left; exact Hq| |done|done]. cbn. by rewrite Hid.
Qed.

Lemma insert_move w s s1 f item agent command total expires now :
  insert_transfer (set_fleet s f) (fresh_transfer uni_decimal new_transfer tsettings (set_fleet s f) item agent command total expires now) = Some s1 →
  ∀ s', transfers s' = transfers s1 → disk s' = disk s1 → transfers_made s' = transfers_made s1 → move w s s'.
Proof using Type.
  unfold insert_transfer. destruct (insertable _ _) eqn:Hi; [|done]. intros [= <-] s' Ht Hd Hm. cbn in Ht, Hd, Hm, Hi.
  by eapply mv_insert.
Qed.

Lemma attach_fields_sign body command total n : attach_fields float_repr uni_printable uni_decimal body = Ok (command, total) → total = Some n → 0 ≤ n.
Proof using Type.
  unfold attach_fields. destruct body as [j|]; [|done]. destruct j as [ |b|m|x|t|l|l]; try done. destruct (_ ≫= _) as [u|]; [|done].
  destruct (default JNull _) as [ |b|m|x|t|l'|l']; try done; [by intros [= _ <-]|..].
  - intros [= _ <-] [= <-]. by destruct b.
  - destruct (m <? 0) eqn:Hm; [done|]. intros [= _ <-] [= <-]. by apply Z.ltb_ge.
Qed.

Lemma attach_move w s e a body r : store_ok s →
  move w s (attach_transfer uni_lower float_repr uni_printable uni_decimal new_transfer transfer_order settings tsettings s e a body r).1.
Proof using new_transfer_uuid transfer_order_perm.
  intros Hok. unfold attach_transfer. match goal with |- move _ _ (as_agent _ _ _ _ _ ?h).1 => destruct (as_agent_cases s a r h) as [->|(f & agent & Ha & ->)] end;
    [apply frame_refl|]. cbn beta.
  destruct (attach_fields _ _ _ _) as [[command total]|x] eqn:Hf; [|apply frame_fleet].
  assert (store_ok (set_fleet s f)) as Hok' by (eapply (move_ok w s), frame_fleet; done).
  destruct (by_command _ _ _) as [t|] eqn:Hb.
  - apply by_command_lookup in Hb as [Ht _]; [|done]. apply (move_after_fleet w s f).
    { intros it. by rewrite (authenticated_items _ _ _ _ _ _ _ Ha). }
    apply reattach_move; [done|]. intros n. by apply (attach_fields_sign body command).
  - destruct (commands _ !! command) as [cmd|]; [|apply frame_fleet]. destruct (negb _); [apply frame_fleet|]. destruct (negb _); [apply frame_fleet|].
    destruct (negb _); [apply frame_fleet|]. destruct (negb _); [apply frame_fleet|]. destruct (c_item_id cmd) as [item|]; [|apply frame_fleet].
    destruct (insert_transfer _ _) as [s1|] eqn:Hi; [|apply frame_fleet]. by eapply insert_move.
Qed.

Lemma remove_file_frame e s p :
  transfers (remove_file e s p) = transfers s ∧ transfers_made (remove_file e s p) = transfers_made s ∧ fleet (remove_file e s p) = fleet s ∧
  (disk (remove_file e s p) = disk s ∨ ∃ c q, p = Some (c :: q) ∧ disk (remove_file e s p) = delete (c :: q) (disk s)).
Proof using Type.
  unfold remove_file. destruct p as [[ |c q]|]; [by split_and!; try left| |by split_and!; try left]. destruct (undeletable e _); [by split_and!; try left|]. split_and!; try done. right. by exists c, q.
Qed.

Lemma remove_path_of e s t :
  disk (remove_file e s (Some (path_of t))) = disk s ∨ disk (remove_file e s (Some (path_of t))) = delete (path_of t) (disk s).
Proof using Type.
  destruct (remove_file_frame e s (Some (path_of t))) as (_ & _ & _ & [H|(c & q & [= ->] & H)]); [by left|by right].
Qed.

Lemma quick_hash_at (fs : text → option (list Z)) path data size :
  fs path = Some data → quick_hash xxh3_64 fs path size = quick_hash xxh3_64 (λ _, Some data) [] size.
Proof using Type. intros H. unfold quick_hash. by rewrite H. Qed.

(** A report without objection is the row vouching for the bytes. *)
Lemma report_vouches it (fs : text → option (list Z)) path data h128 h64 q size :
  fs path = Some data → _compute_staged_hashes xxh3_64 xxh3_128 fs path = Some (h128, h64, q, size) →
  h128 = xxh3_128 data ∧ (hr_ok (_verify_against_catalog it h128 h64 q size) = true ↔ vouches it data).
Proof using Type.
  intros Hfs. unfold _compute_staged_hashes, full_hashes_migration. rewrite Hfs. cbn [mbind option_bind].
  rewrite (quick_hash_at _ _ data) by done. destruct (quick_hash _ _ _ _) as [q'|] eqn:Hq; [|done]. cbn. intros [= <- <- <- <-].
  split; [done|]. unfold vouches, _verify_against_catalog. destruct (Z.of_nat (length data) =? i_size it) eqn:Hs.
  - apply Z.eqb_eq in Hs. cbn [negb]. destruct (i_content_hash it) as [h|].
    + cbn [hr_ok]. rewrite bool_decide_eq_true. split; [intros H; split; [done|by symmetry]|intros [_ H]; by symmetry].
    + destruct (i_quick_hash it) as [h|]; cbn [hr_ok].
      * rewrite bool_decide_eq_true. split; [intros ->; split; [done|by exists h]|]. intros [_ (h' & [= <-] & Hh)]. congruence.
      * split; [done|]. intros [_ (h & ? & _)]. done.
  - apply Z.eqb_neq in Hs. cbn [negb hr_ok]. split; [done|]. intros [He _]. by destruct Hs.
Qed.

Lemma reject_frame s e t item r size s2 x :
  reject uni_decimal new_command row_order csettings tsettings s e t item r size = (s2, x) →
  transfers s2 = transfers s ∧ transfers_made s2 = transfers_made s ∧
  (disk s2 = disk s ∨ disk s2 = delete (path_of t) (disk s)) ∧
  ∀ t', x = Ok t' → transfer_state_machine (t_state t) t_fail = Ok (t_state t') ∧
    t' = set_transfer t (t_state t') (bytes_transferred t) (verified_hash t) false (last_range_request_at t).
Proof using Type.
  unfold reject. destruct (transfer_state_machine _ _) as [st|y] eqn:Hst; [|intros [= <- <-]; by split_and!; try left].
  destruct (remove_file_frame e s (Some (path_of t))) as (Ht & Hm & _). pose proof (remove_path_of e s t) as Hd.
  set (s1 := remove_file e s (Some (path_of t))) in *. clearbody s1.
  destruct (match item with Some it => _ | None => _ end) as [[f rehash]|y]; intros [= <- <-]; cbn [transfers disk transfers_made emit set_fleet]; rewrite Ht, Hm;
    (split; [done|]; split; [done|]; split; [done|]); [|done]. by intros t' [= <-].
Qed.

Lemma finalize_frame s e t s2 x :
  _finalize_staged uni_decimal xxh3_64 xxh3_128 new_command row_order csettings tsettings s e t = (s2, x) → t_state t = t_uploading →
  transfers s2 = transfers s ∧ transfers_made s2 = transfers_made s ∧
  (disk s2 = disk s ∨ disk s2 = delete (path_of t) (disk s)) ∧
  ∀ t', x = Ok t' → appended (items (central (fleet s))) (disk s2) t t' ∧ bytes_transferred t' = bytes_transferred t ∧
    (t_state t' = t_uploading → disk s2 = disk s).
Proof using Type.
  unfold _finalize_staged. intros H Hst. destruct (match commands _ !! _ with Some c => _ | None => _ end) as [[]|].
  - destruct (_compute_staged_hashes _ _ _ _) as [[[[h128 h64] q] size]|] eqn:Hh; [|injection H as <- <-; by split_and!; try left].
    destruct (items (central (fleet s)) !! t_item_id t) as [it|] eqn:Hit.
    + destruct (disk s !! path_of t) as [data|] eqn:Hdata; [|unfold _compute_staged_hashes in Hh; by rewrite Hdata in Hh].
      destruct (report_vouches it (λ p, disk s !! p) (path_of t) data _ _ _ _ Hdata Hh) as [-> Hv].
      destruct (hr_ok _) eqn:Hok.
      * injection H as <- <-. split_and!; [done|done|by left|]. rewrite Hst. cbn. intros t' [= <-]. split; [|done].
        split_and!; [done|done|done|]. right; right; right. split; [done|]. split; [done|]. exists data, it. split_and!; [done|done|by apply Hv|done].
      * apply reject_frame in H as (Ht & Hm & Hd & Hr). split_and!; [done..|]. intros t' Ht'. apply Hr in Ht' as [He ->]. rewrite Hst in He. injection He as He. split; [|by cbn; rewrite <- He].
        split_and!; [done|done|done|]. right; right; left. cbn. by rewrite <- He.
    + cbn [hr_ok] in H. apply reject_frame in H as (Ht & Hm & Hd & Hr). split_and!; [done..|]. intros t' Ht'. apply Hr in Ht' as [He ->].
      rewrite Hst in He. injection He as He. split; [|by cbn; rewrite <- He]. split_and!; [done|done|done|]. right; right; left. cbn. by rewrite <- He.
  - injection H as <- <-. split_and!; [done|done|by left|]. rewrite Hst. cbn. intros t' [= <-]. split; [|done]. split_and!; [done|done|done|]. by right; left.
  - injection H as <- <-. by split_and!; try left.
Qed.

Lemma advance_frame s e t n s2 x :
  advance uni_decimal xxh3_64 xxh3_128 new_command row_order csettings tsettings s e t n = (s2, x) → partial t = true →
  bytes_transferred t ≤ n →
  transfers s2 = transfers s ∧ transfers_made s2 = transfers_made s ∧
  (disk s2 = disk s ∨ disk s2 = delete (path_of t) (disk s)) ∧
  ∀ t', x = Ok t' → appended (items (central (fleet s))) (disk s2) t t' ∧ bytes_transferred t' = n ∧
    (t_state t' = t_uploading → disk s2 = disk s).
Proof using Type.
  unfold advance. intros H Hp Hn. set (t0 := set_transfer t (t_state t) n (verified_hash t) (t_verified t) (last_range_request_at t)) in *.
  destruct (if bool_decide (t_state t0 = t_pending) then _ else _) as [st|] eqn:Hst; [|injection H as <- <-; by split_and!; try left].
  assert (st = t_uploading) as ->.
  { change (t_state t0) with (t_state t) in Hst. unfold partial in Hp. apply bool_decide_eq_true in Hp. unfold _PARTIAL_STATES in Hp.
    elem_cases Hp; rewrite Hp in Hst; by injection Hst. }
  assert (∀ d t', appended (items (central (fleet s))) d (set_state t0 t_uploading) t' → appended (items (central (fleet s))) d t t') as Hback.
  { intros d t' (Hr & Htot & Hle & Hcase). split; [exact Hr|]. split; [exact Htot|]. split; [by etransitivity|exact Hcase]. }
  destruct (match total_bytes _ with Some m => m <=? n | None => false end).
  - apply finalize_frame in H as (Ht & Hm & Hd & Hr); [|done]. split_and!; [done|done|exact Hd|]. intros t' Ht'. apply Hr in Ht' as (Ha & -> & Hu). split; [by apply Hback|done].
  - injection H as <- <-. split_and!; [done|done|by left|]. intros t' [= <-]. split; [|done]. apply Hback. split_and!; [done..|]. by left.
Qed.

Lemma updated_bytes t t' now : bytes_transferred (updated t t' now) = bytes_transferred t'.
Proof using Type. unfold updated. case_bool_decide as He; [by subst|done]. Qed.

Lemma updated_state t t' now : t_state (updated t t' now) = t_state t'.
Proof using Type. unfold updated. case_bool_decide as He; [by subst|done]. Qed.

Lemma appended_updated m d t t' now : appended m d t t' → appended m d t (updated t t' now).
Proof using Type. unfold updated. case_bool_decide as He; [by subst|]. done. Qed.

Lemma write_chunks_ge max_chunk limit offset written file l file' w :
  write_chunks max_chunk limit offset written file l = (file', Ok w) → written ≤ w.
Proof using Type.
  revert written file. induction l as [ |c l IH]; intros written file; cbn [write_chunks]; [by intros [= <- <-]|].
  destruct (bool_decide _); [apply IH|]. destruct (max_chunk <? _); [done|]. destruct (match limit with Some n => _ | None => _ end); [done|].
  destruct (c_taken c); [|done]. intros H%IH. etransitivity; [|exact H]. rewrite <- (Z.add_0_r written) at 1. apply Zplus_le_compat_l, Nat2Z.is_nonneg.
Qed.

(** Where the appends end up, and what is in the file *)
Lemma append_at_spec s e agent t p s' x :
  append_at uni_decimal xxh3_64 xxh3_128 new_command row_order csettings tsettings s e agent t (bytes_transferred t) p = (s', x) →
  transfers s !! t_id t = Some t → partial t = true →
  ∃ file outcome, write_chunks (staging_max_chunk_bytes tsettings) (total_bytes t) (bytes_transferred t) 0
      (ftruncate (bytes_transferred t) (default [] (disk s !! path_of t))) (p_chunks p) = (file, outcome) ∧
    transfers_made s' = transfers_made s ∧
    (disk s' = <[path_of t := file]> (disk s) ∨ disk s' = delete (path_of t) (<[path_of t := file]> (disk s))) ∧
    (transfers s' = transfers s ∧ (p_end p = CommitLost ∨ disk s' !! path_of t = Some file ∨ ∃ y, x = TServerError y) ∨
     ∃ written t', outcome = Ok written ∧ appended (items (central (fleet s))) (disk s') t t' ∧
       bytes_transferred t' = bytes_transferred t + written ∧ transfers s' = <[t_id t := t']> (transfers s) ∧ x = Status 200 t' ∧
       (t_state t' = t_uploading → disk s' = <[path_of t := file]> (disk s))).
Proof using Type.
  unfold append_at. intros H Ht Hp. destruct (write_chunks _ _ _ _ _ _) as [file outcome] eqn:Hw. exists file, outcome. split; [done|].
  set (s1 := set_disk s _) in *. assert (disk s1 !! path_of t = Some file) as Hfile by apply lookup_insert_eq.
  assert ((s1, x) = (s', x) → transfers_made s' = transfers_made s ∧
    (disk s' = <[path_of t := file]> (disk s) ∨ disk s' = delete (path_of t) (<[path_of t := file]> (disk s))) ∧
    transfers s' = transfers s ∧ (p_end p = CommitLost ∨ disk s' !! path_of t = Some file ∨ ∃ y, x = TServerError y)) as Hkeep.
  { intros [= <-]. split; [done|]. split; [by left|]. split; [done|]. by right; left. }
  assert (∀ y, (s1, y) = (s', x) → transfers_made s' = transfers_made s ∧
    (disk s' = <[path_of t := file]> (disk s) ∨ disk s' = delete (path_of t) (<[path_of t := file]> (disk s))) ∧
    (transfers s' = transfers s ∧ (p_end p = CommitLost ∨ disk s' !! path_of t = Some file ∨ ∃ y, x = TServerError y) ∨
     ∃ written t', outcome = Ok written ∧ appended (items (central (fleet s))) (disk s') t t' ∧
       bytes_transferred t' = bytes_transferred t + written ∧ transfers s' = <[t_id t := t']> (transfers s) ∧ x = Status 200 t' ∧
       (t_state t' = t_uploading → disk s' = <[path_of t := file]> (disk s)))) as Hstop.
  { intros y [= Hs ->]. rewrite Hs in Hkeep. destruct (Hkeep eq_refl) as (H1 & H2 & H3). split; [exact H1|]. split; [exact H2|]. by left. }
  destruct outcome as [written|[status|]]; [|by apply Hstop in H..].
  pose proof (write_chunks_ge _ _ _ _ _ _ _ _ Hw) as Hge.
  assert (∀ s2 y, advance uni_decimal xxh3_64 xxh3_128 new_command row_order csettings tsettings s1 e t (bytes_transferred t + written) = (s2, y) →
    transfers s2 = transfers s ∧ transfers_made s2 = transfers_made s ∧
    (disk s2 = <[path_of t := file]> (disk s) ∨ disk s2 = delete (path_of t) (<[path_of t := file]> (disk s))) ∧
    ∀ t', y = Ok t' → appended (items (central (fleet s))) (disk s2) t t' ∧ bytes_transferred t' = bytes_transferred t + written ∧
      (t_state t' = t_uploading → disk s2 = <[path_of t := file]> (disk s))) as Hadv.
  { intros s2 y Ha. apply advance_frame in Ha; [done|done|]. rewrite <- (Z.add_0_r (bytes_transferred t)) at 1. by apply Zplus_le_compat_l. }
  destruct (advance _ _ _ _ _ _ _ _ _ _ _) as [s2 y] eqn:Ha. destruct (Hadv s2 y eq_refl) as (Hs2 & Hm2 & Hd2 & Hr2). clear Hadv Hstop Hkeep.
  assert (∀ z, (match y with
      | Ok t2 => if bool_decide (z = CommitLost) then (rolled_back s1 s2, TServerError OSError)
                 else (put_transfer (commit s2 agent) (updated t t2 (now e)), Status 200 (updated t t2 (now e)))
      | Err x0 => (rolled_back s1 s2, TServerError x0) end) = (s', x) → transfers_made s' = transfers_made s ∧
    (disk s' = <[path_of t := file]> (disk s) ∨ disk s' = delete (path_of t) (<[path_of t := file]> (disk s))) ∧
    (transfers s' = transfers s ∧ (∃ y, x = TServerError y) ∨
     ∃ t', appended (items (central (fleet s))) (disk s') t t' ∧ bytes_transferred t' = bytes_transferred t + written ∧
       transfers s' = <[t_id t := t']> (transfers s) ∧ x = Status 200 t' ∧
       (t_state t' = t_uploading → disk s' = <[path_of t := file]> (disk s)))) as Hend.
  { intros z. destruct y as [t2|y].
    - destruct (Hr2 t2 eq_refl) as (Happ & Hb & Hup). destruct (bool_decide (z = CommitLost)); intros [= <- <-].
      + split; [done|]. split; [done|]. left. split; [done|]. by eexists.
      + split; [done|]. split; [done|]. right. exists (updated t t2 (now e)). apply (appended_updated _ _ _ _ (now e)) in Happ.
        split; [exact Happ|]. split; [by rewrite updated_bytes|].
        split; [|split; [done|by rewrite updated_state]].
        cbn [put_transfer transfers set_transfers commit set_fleet]. destruct Happ as [[-> _] _]. by rewrite Hs2.
    - intros [= <- <-]. split; [done|]. split; [done|]. left. split; [done|]. by eexists. }
  destruct (p_end p) eqn:Hend'.
  - apply Hend in H as (H1 & H2 & [[H3 H4]|(t' & H3)]); (split; [exact H1|]); (split; [exact H2|]); [left|right].
    + split; [exact H3|]. by right; right.
    + exists written, t'. destruct H3 as (? & ? & ? & ? & ?). by split_and!.
  - injection H as <- <-. split; [done|]. split; [by left|]. left. split; [done|]. by right; left.
  - injection H as <- <-. split; [done|]. split; [by left|]. left. split; [done|]. by right; left.
  - apply Hend in H as (H1 & H2 & [[H3 H4]|(t' & H3)]); (split; [exact H1|]); (split; [exact H2|]); [left|right].
    + split; [exact H3|]. by left.
    + exists written, t'. destruct H3 as (? & ? & ? & ? & ?). by split_and!.
Qed.

Lemma own_lookup s agent i t : own_transfer s agent i = Some t → transfers s !! i = Some t ∧ t_agent_id t = ag_id agent.
Proof using Type.
  unfold own_transfer. destruct (transfers s !! i) as [u|]; [|done]. cbn. destruct (t_agent_id u =? ag_id agent) eqn:He; [|done].
  intros [= <-]. split; [done|by apply Z.eqb_eq].
Qed.

(** The cases of an append: the row and the file stay, or the bytes go where they belong. *)
Lemma append_cases s e a i p r :
  (append_transfer uni_lower uni_decimal xxh3_64 xxh3_128 new_command row_order settings csettings tsettings s e a i p r).1 = s ∨
  ∃ f agent, authenticated uni_lower settings (fleet s) a r = Ok (f, agent) ∧
    ((append_transfer uni_lower uni_decimal xxh3_64 xxh3_128 new_command row_order settings csettings tsettings s e a i p r).1 = set_fleet s f ∨
     ∃ t h, transfers s !! i = Some t ∧ partial t = true ∧ upload_offset p = Some h ∧ py_int uni_decimal h = Some (bytes_transferred t) ∧
       t_agent_id t = ag_id agent ∧
       append_transfer uni_lower uni_decimal xxh3_64 xxh3_128 new_command row_order settings csettings tsettings s e a i p r =
       append_at uni_decimal xxh3_64 xxh3_128 new_command row_order csettings tsettings (set_fleet s f) e agent t (bytes_transferred t) p).
Proof using Type.
  unfold append_transfer. match goal with |- context [as_agent _ _ _ _ _ ?h] => destruct (as_agent_cases s a r h) as [Hs|(f & agent & Ha & Hs)] end;
    rewrite Hs; [by left|right]. exists f, agent. split; [done|].
  destruct (own_transfer _ _ _) as [t|] eqn:Ho; [|by left]. apply own_lookup in Ho as [Ht Hag].
  destruct (bool_decide (_ ∈ [_; _])); [by left|]. destruct (bool_decide (_ ∈ _APPENDABLE)) eqn:Hp; [|by left]. cbn [negb].
  destruct (upload_offset p) as [h|] eqn:Hh; [|by left]. destruct (py_int _ h) as [offset|] eqn:Hpy; [|by left].
  destruct (offset =? bytes_transferred t) eqn:He; [|by left]. apply Z.eqb_eq in He. subst offset. cbn [negb]. right. by exists t, h.
Qed.

Lemma append_move s e a i p r : store_ok s →
  move (Some i) s (append_transfer uni_lower uni_decimal xxh3_64 xxh3_128 new_command row_order settings csettings tsettings s e a i p r).1.
Proof using Type.
  intros Hok. destruct (append_cases s e a i p r) as [->|(f & agent & Ha & [->|(t & h & Ht & Hp & _ & _ & _ & ->)])]; [apply frame_refl|apply frame_fleet|].
  pose proof (so_id _ Hok i t Ht) as <-. apply (move_after_fleet _ _ f); [intros it; by rewrite (authenticated_items _ _ _ _ _ _ _ Ha)|].
  destruct (append_at _ _ _ _ _ _ _ _ _ _ _ _ _) as [s' x] eqn:Happ. cbn [fst].
  apply append_at_spec in Happ as (file & outcome & _ & Hm & Hd & Hr); [|done..].
  eapply mv_append; [exact Ht|done|done| | |exact Hm].
  - destruct Hr as [[Hr _]|(written & t' & _ & Hr & _ & Hs & _ & _)]; [by left|right]. by exists t'.
  - intros q Hq. destruct Hd as [->| ->]; [by rewrite lookup_insert_ne|]. rewrite lookup_delete_ne by done. by rewrite lookup_insert_ne.
Qed.

Lemma permitted_cases call now handler s :
  (permitted sha256 load_grants uses_ltree auth_enabled _roles call now handler s).1 = s ∨
  ∃ q ctx, require_permission sha256 auth_enabled _roles load_grants uses_ltree "download" (Some "write") (creds call) (caller call) (tables call) now =
      Ok (q, ctx) ∧
    permitted sha256 load_grants uses_ltree auth_enabled _roles call now handler s = handler ctx (actor q ≫= principal_of_actor).
Proof using Type.
  unfold permitted. destruct (require_permission _ _ _ _ _ _ _ _ _ _ _) as [[q ctx]|[]]; [|by left..]. right. by exists q, ctx.
Qed.

Lemma authorized_cases ctx item s rest :
  (authorized ctx item s rest).1 = s ∨ authorize_item ctx (i_path_scope item) (Some "download") = Ok () ∧ authorized ctx item s rest = rest.
Proof using Type. unfold authorized. destruct (authorize_item _ _ _) as [[]|[]]; [by right|by left..]. Qed.

Lemma initiate_move w s ctx i v by_ now :
  move w s (initiate_transfer uni_decimal new_command new_transfer transfer_order tsettings s ctx i v by_ now).1.
Proof using Type.
  unfold initiate_transfer. destruct (items _ !! i) as [item|]; [|apply frame_refl].
  match goal with |- move _ _ (authorized ?c ?it ?st ?rest).1 => destruct (authorized_cases c it st rest) as [->|[_ ->]] end; [apply frame_refl|].
  destruct (_ ≫= _) as [[l a]|]; [|apply frame_refl]. destruct (agents _ !! a) as [agent|]; [|apply frame_refl]. case_bool_decide; [apply frame_refl|].
  unfold initiate_body. destruct (active_for _ _ _ _); [apply frame_refl|]. destruct (new_row _ _ _ _ _ _ _ _ _) as [[f command]|]; [|apply frame_refl].
  destruct (insert_transfer _ _) as [s2|] eqn:Hi; [|apply frame_refl]. by eapply insert_move.
Qed.

Lemma download_move w s ctx i range by_ now : store_ok s →
  move w s (download_transfer uni_lower uni_decimal s ctx i range by_ now).1.
Proof using Type.
  intros Hok. unfold download_transfer. destruct (transfers s !! i) as [t|] eqn:Ht; [|apply frame_refl].
  pose proof (so_id _ Hok i t Ht) as <-. destruct (items _ !! t_item_id t) as [item|]; [|apply frame_refl].
  match goal with |- move _ _ (authorized ?c ?it ?st ?rest).1 => destruct (authorized_cases c it st rest) as [->|[_ ->]] end; [apply frame_refl|].
  destruct (t_verified t && _) eqn:Hv; [|apply frame_refl]. cbn [negb]. apply andb_true_iff in Hv as [Hv _].
  destruct (_staged_stat _ _) as [data|]; [|apply frame_refl]. set (last := bool_decide (t_state t = t_staged) && _).
  destruct last eqn:Hl.
  - subst last. apply andb_true_iff in Hl as [Hst _]. apply bool_decide_eq_true in Hst. rewrite Hst. cbn [transfer_state_machine _TRANSITIONS].
    set (t1 := set_transfer _ _ _ _ _ _). assert (same_row t (updated t t1 now)) as Hr by (by apply updated_row).
    pose proof Hr as [Hid _]. eapply (mv_row w _ _ t); [exact Ht|right| |done|done].
    + split; [done|]. split; [done|]. split; [exact Hr|]. unfold updated. case_bool_decide as He; [|done]. apply (f_equal t_state) in He. rewrite Hst in He. done.
    + cbn. by rewrite Hid.
  - set (t1 := set_transfer _ _ _ _ _ _). assert (same_row t (updated t t1 now)) as Hr by (by apply updated_row).
    pose proof Hr as [Hid _]. eapply (mv_row w _ _ t); [exact Ht|left| |done|done].
    + split; [exact Hr|]. unfold updated. case_bool_decide; split_and!; try done; by left.
    + cbn. by rewrite Hid.
Qed.

(** Closing a row and removing its file *)
Lemma close_move w s s' e t f now :
  store_ok s → transfers s !! t_id t = Some t → active_transfer t = true →
  transfers s' = <[t_id t := updated t (set_state t t_expired) now]> (transfers s) →
  disk s' = disk (remove_file e (set_fleet s f) (staged_file t)) → transfers_made s' = transfers_made s → move w s s'.
Proof using new_transfer_uuid.
  intros Hok Ht Ha Hs Hd Hm. eapply mv_close; [exact Ht|exact Ha| |exact Hs| |exact Hm].
  - split; [by apply updated_row|]. unfold updated. case_bool_decide as He; [|done].
    apply (f_equal t_state) in He. cbn in He. unfold active_transfer in Ha. by rewrite He in Ha.
  - rewrite Hd, (so_file _ Hok _ _ Ht), <- (ok_path s (t_id t) t) by done. apply (remove_path_of e (set_fleet s f) t).
Qed.

Lemma live_expire t : active_transfer t = true → transfer_state_machine (t_state t) t_expire = Ok t_expired.
Proof using Type. unfold active_transfer. by destruct (t_state t). Qed.

Lemma cancel_move w s e i by_ : store_ok s → move w s (cancel_transfer s e i by_).1.
Proof using new_transfer_uuid.
  intros Hok. unfold cancel_transfer. destruct (transfers s !! i) as [t|] eqn:Ht; [|apply frame_refl].
  pose proof (so_id _ Hok i t Ht) as <-. destruct (bool_decide _) eqn:Hst; [apply frame_refl|].
  assert (active_transfer t = true) as Ha by (unfold active_transfer; by destruct (t_state t)).
  rewrite live_expire by done. destruct (end_command _ _ _ _) as [[f b]|]; [|apply frame_refl]. cbn [result_bind fst].
  pose proof (remove_file_frame e (set_fleet s f) (staged_file t)) as (Hs & Hm & _). set (s1 := remove_file _ _ _) in *.
  assert (t_id (updated t (set_state t t_expired) (now e)) = t_id t) as Hid by (by destruct (updated_row t (set_state t t_expired) (now e)) as [-> _]).
  eapply (close_move w s _ e t f); [done..| |done|done]. cbn. by rewrite Hid, Hs.
Qed.

(** *** The sweep *)

Lemma end_expire f command now : ∃ f' b, end_command f command expire now = Ok (f', b).
Proof using Type.
  unfold end_command. destruct (commands f !! command) as [c|]; [|by eexists _, _].
  destruct (command_is_terminal _) eqn:Ht; [by eexists _, _|]. destruct (c_status c); try done; by eexists _, _.
Qed.

(** What a sweep does to one candidate *)
Lemma reap_spec e grace abandoned_seconds s n t :
  store_ok s → transfers s !! t_id t = Some t → active_transfer t = true →
  ∃ s' n', reap e grace abandoned_seconds (s, n) t = Ok (s', n') ∧
    if draining (now e) grace abandoned_seconds t then s' = s
    else transfers s' = <[t_id t := updated t (set_state t t_expired) (now e)]> (transfers s) ∧ transfers_made s' = transfers_made s ∧
      ∃ f, disk s' = disk (remove_file e (set_fleet s f) (staged_file t)).
Proof using Type.
  intros Hok Ht Ha. unfold reap. destruct (draining _ _ _ t); [by eexists _, _|]. rewrite live_expire by done. cbn [result_bind].
  destruct (remove_file_frame e s (staged_file t)) as (Hs & Hm & Hf & _). set (s1 := remove_file e s (staged_file t)) in *.
  destruct (end_expire (fleet s1) (t_command_id t) (now e)) as (f & b & ->). cbn [result_bind]. eexists _, _. split; [reflexivity|].
  assert (t_id (updated t (set_state t t_expired) (now e)) = t_id t) as Hid by (by destruct (updated_row t (set_state t t_expired) (now e)) as [-> _]).
  cbn. rewrite Hid, Hs. split; [done|]. split; [done|]. exists (fleet s). by subst s1; destruct s.
Qed.

Lemma reap_moves w e grace abandoned_seconds l s n :
  store_ok s → NoDup (map t_id l) → (∀ t, t ∈ l → transfers s !! t_id t = Some t ∧ active_transfer t = true) →
  ∃ s' n', result_fold (reap e grace abandoned_seconds) (s, n) l = Ok (s', n') ∧ rtc (move w) s s'.
Proof using new_transfer_uuid.
  revert s n. induction l as [ |t l IH]; intros s n Hok Hnd Hl; [by exists s, n; split; [|constructor]|].
  cbn [map] in Hnd. apply NoDup_cons in Hnd as [Hnew Hnd]. destruct (Hl t) as [Ht Ha]; [by left|].
  destruct (reap_spec e grace abandoned_seconds s n t Hok Ht Ha) as (s1 & n1 & He & Hs). cbn [result_fold]. rewrite He. cbn [result_bind].
  assert (move w s s1) as Hm.
  { destruct (draining _ _ _ t); [subst s1; apply frame_refl|]. destruct Hs as (Hs & Hm & f & Hd). by eapply close_move. }
  destruct (IH s1 n1) as (s' & n' & Hf & Hr); [by eapply move_ok|done| |exists s', n'; split; [done|by econstructor]].
  intros u Hu. destruct (Hl u) as [Hu' Hau]; [by right|]. split; [|done].
  destruct (draining _ _ _ t); [by subst s1|]. destruct Hs as (-> & _). rewrite lookup_insert_ne; [done|].
  intros He'. apply Hnew. rewrite He'. by apply list_elem_of_fmap_2.
Qed.

Lemma sweepable_active now a t : sweepable now a t = true → active_transfer t = true.
Proof using Type. unfold sweepable, active_transfer. by intros [H _]%andb_true_iff. Qed.

Lemma candidates_ok s (p : StagingTransfer → bool) n :
  store_ok s → let l := take n (merge_sort expires_first (filterb p (all_transfers s))) in
  NoDup (map t_id l) ∧ ∀ t, t ∈ l → transfers s !! t_id t = Some t ∧ p t = true.
Proof using transfer_order_perm.
  intros Hok l. split.
  - subst l. rewrite <- firstn_map. eapply sublist_NoDup; [|apply sublist_take]. rewrite merge_sort_Permutation.
    apply nodup_map_filterb. unfold Transfers.all_transfers. rewrite transfer_order_perm.
    change (map t_id (map snd ?l)) with (t_id <$> (snd <$> l)). rewrite <- list_fmap_compose.
    apply (NoDup_map_factor _ fst); [apply NoDup_fst_map_to_list|]. intros [i t] [j u] Ht Hu. cbn. apply elem_of_map_to_list in Ht, Hu.
    rewrite (so_id _ Hok i t Ht), (so_id _ Hok j u Hu). done.
  - intros t Ht. apply elem_of_list_take in Ht. rewrite merge_sort_Permutation in Ht. apply elem_of_filterb in Ht as [Ht Hp].
    split; [by apply elem_of_transfers|done].
Qed.

Lemma sweep_moves w s e grace abandoned_seconds :
  store_ok s → ∃ s' n, run_staging_cleanup_sweep transfer_order s e grace abandoned_seconds = Ok (s', n) ∧ rtc (move w) s s'.
Proof using new_transfer_uuid transfer_order_perm.
  intros Hok. unfold run_staging_cleanup_sweep. destruct (candidates_ok s (sweepable (now e) abandoned_seconds) _SWEEP_BATCH Hok) as [Hnd Hl].
  apply reap_moves; [done|done|]. intros t Ht. destruct (Hl t Ht) as [H Hs]. split; [done|by eapply sweepable_active].
Qed.

(** *** Any request *)

Definition elsewhere (q : transfer_request) : bool := match q with TElsewhere _ => true | _ => false end.

Lemma serve_moves s e q : store_ok s → elsewhere q = false → rtc (move (patched q)) s (serve s e q).1.
Proof using new_transfer_uuid transfer_order_perm.
  intros Hok Hq. destruct q as [a b r|a i r|a i p r|call i v|call i|call i range|call i| |q|c]; try done; cbn [Transfers.serve patched].
  - by apply rtc_once, attach_move.
  - apply rtc_once. unfold head_transfer.
    match goal with |- move _ _ (as_agent _ _ _ _ _ ?h).1 => destruct (as_agent_cases s a r h) as [->|(f & agent & _ & ->)] end; [apply frame_refl|].
    destruct (own_transfer _ _ _); apply frame_fleet.
  - by apply rtc_once, append_move.
  - apply rtc_once. match goal with |- move _ _ (permitted _ _ _ _ _ ?c ?n ?h ?st).1 => destruct (permitted_cases c n h st) as [->|(x & ctx & _ & ->)] end;
      [apply frame_refl|apply initiate_move].
  - apply rtc_once. unfold gate, get_transfer. destruct (scoped _ _ _ _ _ _ _ _ _) as [s' x] eqn:Hs. apply scoped_cases in Hs as [->|[by_ Hs]]; [apply frame_refl|].
    destruct (transfers s !! i); injection Hs as <- _; apply frame_refl.
  - apply rtc_once. match goal with |- move _ _ (permitted _ _ _ _ _ ?c ?n ?h ?st).1 => destruct (permitted_cases c n h st) as [->|(x & ctx & _ & ->)] end;
      [apply frame_refl|by apply download_move].
  - apply rtc_once. unfold gate. destruct (scoped _ _ _ _ _ _ _ _ _) as [s' x] eqn:Hs. apply scoped_cases in Hs as [->|[by_ Hs]]; [apply frame_refl|].
    replace s' with (cancel_transfer s e i by_).1 by by rewrite Hs. by apply cancel_move.
  - unfold cleanup_staging_transfers.
    destruct (sweep_moves None s e (staging_download_grace_seconds tsettings) (staging_abandoned_upload_seconds tsettings) Hok) as (s' & n & -> & H).
    exact H.
  - apply rtc_once. destruct (Commands.serve _ _ _ _ _ _ _ _ _ _ _ _ _ _) as [f x]. apply frame_fleet.
Qed.

Lemma moves_ok w s s' : store_ok s → rtc (move w) s s' → store_ok s'.
Proof using new_transfer_uuid. intros Hok H. induction H as [s|s s1 s' Hm _ IH]; [done|]. by apply IH, (move_ok w s). Qed.

Lemma cascaded_sub s c : transfers (cascaded s c) ⊆ transfers s.
Proof using Type. unfold cascaded. cbn [transfers]. apply map_filter_subseteq. Qed.

Lemma serve_store_ok s e q : store_ok s → store_ok (serve s e q).1.
Proof using new_transfer_uuid transfer_order_perm.
  intros Hok. destruct (elsewhere q) eqn:Hq; [|by eapply moves_ok, serve_moves]. destruct q; try done. cbn [Transfers.serve fst].
  apply (drop_ok s); [done|apply cascaded_sub|done].
Qed.

Lemma run_store_ok s trace : store_ok s → store_ok (run s trace).
Proof using new_transfer_uuid transfer_order_perm.
  revert s. induction trace as [ |[e q] trace IH]; intros s Hok; [done|]. cbn [Transfers.run]. by apply IH, serve_store_ok.
Qed.

(** *** The state machine *)

Definition edge (a b : TransferState) : Prop := ∃ event, transfer_state_machine a event = Ok b.

Definition row_life (t t' : StagingTransfer) : Prop :=
  same_row t t' ∧ bytes_transferred t ≤ bytes_transferred t' ∧ rtc edge (t_state t) (t_state t').

Lemma row_life_refl t : row_life t t.
Proof using Type. by split_and!. Qed.

Lemma row_life_trans t u v : row_life t u → row_life u v → row_life t v.
Proof using Type.
  intros (Hr & Hb & He) (Hr' & Hb' & He'). split_and!; [|by etransitivity|by etransitivity]. unfold same_row in *. intuition congruence.
Qed.

Lemma move_row w s s' i t :
  move w s s' → store_ok s → transfers s !! i = Some t → ∃ t', transfers s' !! i = Some t' ∧ row_life t t'.
Proof using Type.
  intros Hmv Hok Hi. pose proof (so_id _ Hok i t Hi) as Hid.
  assert (∀ u u', transfers s !! t_id u = Some u → row_life u u' → transfers s' = <[t_id u := u']> (transfers s) →
    ∃ t', transfers s' !! i = Some t' ∧ row_life t t') as Hput.
  { intros u u' Hu Hl ->. destruct (decide (t_id u = i)) as [<-|Hne].
    - exists u'. rewrite lookup_insert_eq. split; [done|]. congruence.
    - exists t. rewrite lookup_insert_ne by done. split; [done|apply row_life_refl]. }
  destruct Hmv as [Ht Hd Hm|u u' Hu Hrow Hs Hd Hm|u Hins Hid' Hf Hst Hb Hv Hs Hd Hm|u u' Hu Ha Hmv Hs Hd Hm|u Hu _ Hp Hs Hd Hm].
  - exists t. rewrite Ht. split; [done|apply row_life_refl].
  - eapply Hput; [exact Hu| |exact Hs]. destruct Hrow as [(Hr & He & Hb & _)|(He & _ & Hr & He' & Hb & _)]; (split; [exact Hr|]); rewrite Hb; split; try done.
    + by rewrite He.
    + rewrite He, He'. apply rtc_once. by exists download.
  - exists t. rewrite Hs. apply insertable_spec in Hins as [Hnone _]. rewrite lookup_insert_ne by congruence. split; [done|apply row_life_refl].
  - eapply Hput; [exact Hu| |exact Hs]. destruct Hmv as (Hr & He & Hb & _). split; [exact Hr|]. rewrite Hb. split; [done|]. rewrite He.
    apply rtc_once. exists t_expire. by apply live_expire.
  - destruct Hs as [Hs|(u' & (Hr & _ & Hb & Hcase) & Hs)]; [exists t; rewrite Hs; split; [done|apply row_life_refl]|].
    eapply Hput; [exact Hu| |exact Hs]. split; [exact Hr|]. split; [exact Hb|].
    assert (rtc edge (t_state u) t_uploading) as Hup.
    { unfold partial in Hp. apply bool_decide_eq_true in Hp. unfold _PARTIAL_STATES in Hp. elem_cases Hp; rewrite Hp; [|done]. apply rtc_once. by exists start_upload. }
    destruct Hcase as [(-> & _)|[(-> & _)|[(-> & _)|(-> & _)]]]; [exact Hup|..]; (eapply rtc_r; [exact Hup|]).
    + by exists staged.
    + by exists t_fail.
    + by exists staged.
Qed.

Lemma move_new w s s' i t :
  move w s s' → transfers s !! i = None → transfers s' !! i = Some t →
  i = t_id t ∧ i = new_transfer (transfers_made s) ∧ t_state t = t_pending ∧ bytes_transferred t = 0 ∧ t_verified t = false.
Proof using Type.
  intros Hmv Hi Hi'.
  assert (∀ u u', transfers s !! t_id u = Some u → transfers s' = <[t_id u := u']> (transfers s) → False) as Hput.
  { intros u u' Hu Hs. rewrite Hs in Hi'. destruct (decide (t_id u = i)) as [<-|Hne]; [congruence|]. rewrite lookup_insert_ne in Hi' by done. congruence. }
  destruct Hmv as [Ht Hd Hm|u u' Hu Hrow Hs Hd Hm|u Hins Hid' Hf Hst Hb Hv Hs Hd Hm|u u' Hu Ha Hmv Hs Hd Hm|u Hu _ Hp Hs Hd Hm].
  - congruence.
  - by eapply Hput in Hs.
  - rewrite Hs in Hi'. destruct (decide (t_id u = i)) as [<-|Hne]; [|rewrite lookup_insert_ne in Hi' by done; congruence].
    rewrite lookup_insert_eq in Hi'. injection Hi' as <-. by split_and!.
  - by eapply Hput in Hs.
  - destruct Hs as [Hs|(u' & _ & Hs)]; [congruence|]. by eapply Hput in Hs.
Qed.

Lemma moves_row w s s' i t :
  rtc (move w) s s' → store_ok s → transfers s !! i = Some t → ∃ t', transfers s' !! i = Some t' ∧ row_life t t'.
Proof using new_transfer_uuid.
  intros H. revert t. induction H as [s|s s1 s' Hm _ IH]; intros t Hok Ht; [exists t; split; [done|apply row_life_refl]|].
  destruct (move_row w s s1 i t Hm Hok Ht) as (t1 & Ht1 & Hl). destruct (IH t1) as (t' & Ht' & Hl'); [by eapply move_ok|done|].
  exists t'. split; [done|by eapply row_life_trans].
Qed.

(** A row in its first state *)
Definition newborn_transfer (t : StagingTransfer) : Prop := t_state t = t_pending ∧ bytes_transferred t = 0 ∧ t_verified t = false.

Lemma moves_new w s s' i t' :
  rtc (move w) s s' → store_ok s → transfers s !! i = None → transfers s' !! i = Some t' →
  ∃ t, newborn_transfer t ∧ row_life t t'.
Proof using new_transfer_uuid.
  induction 1 as [s|s s1 s' Hm Hr IH]; intros Hok Hi Hi'; [congruence|].
  assert (store_ok s1) as Hok1 by by eapply move_ok. destruct (transfers s1 !! i) as [t1|] eqn:Ht1; [|by apply IH].
  exists t1. apply (move_new w s s1 i t1 Hm Hi) in Ht1 as H. destruct H as (_ & _ & H). split; [done|].
  destruct (moves_row w s1 s' i t1 Hr Hok1 Ht1) as (t2 & Ht2 & Hl). congruence.
Qed.

(** C17: the handlers of both planes and the sweep implement the transfer's state machine.
    Whatever the request, a row that the foreign keys do not delete keeps its identity, item,
    agent, command, file and expiry, its committed offset never falls, and its state follows
    the edges of the machine; in particular a downloaded, expired or failed transfer stays so.
    A new row starts pending at offset 0, unverified.  At any time an item has at most one
    active transfer and a command at most one transfer, every file name belongs to one row. *)
Theorem transfer_lifecycle s e q :
  store_ok s → let s' := (serve s e q).1 in
  (∀ i t, transfers s !! i = Some t → elsewhere q = false → ∃ t', transfers s' !! i = Some t' ∧ row_life t t') ∧
  (∀ i t', transfers s' !! i = Some t' →
    (∃ t, (transfers s !! i = Some t ∨ transfers s !! i = None ∧ newborn_transfer t) ∧ row_life t t')) ∧
  (∀ i t, transfers s !! i = Some t → t_state t ∈ [t_downloaded; t_expired; t_failed] → ∀ t', transfers s' !! i = Some t' → t_state t' = t_state t) ∧
  (∀ i j t u, transfers s' !! i = Some t → transfers s' !! j = Some u →
    active_transfer t = true ∧ active_transfer u = true ∧ t_item_id t = t_item_id u ∨ t_command_id t = t_command_id u ∨ path_of t = path_of u → i = j) ∧
  store_ok s'.
Proof using new_transfer_uuid transfer_order_perm.
  intros Hok s'. assert (store_ok s') as Hok' by by apply serve_store_ok.
  assert (∀ i t, transfers s !! i = Some t → elsewhere q = false → ∃ t', transfers s' !! i = Some t' ∧ row_life t t') as Hold.
  { intros i t Ht Hq. eapply moves_row; [by apply serve_moves|done|done]. }
  assert (∀ i t', transfers s' !! i = Some t' →
    (∃ t, (transfers s !! i = Some t ∨ transfers s !! i = None ∧ newborn_transfer t) ∧ row_life t t')) as Hnew.
  { intros i t' Ht'. destruct (elsewhere q) eqn:Hq.
    - exists t'. split; [left|apply row_life_refl]. destruct q; try done. eapply lookup_weaken; [exact Ht'|apply cascaded_sub].
    - destruct (transfers s !! i) as [t|] eqn:Ht.
      + destruct (Hold i t Ht eq_refl) as (t2 & Ht2 & Hl). exists t. split; [by left|]. congruence.
      + destruct (moves_new (patched q) s s' i t') as (t & Hb & Hl); [by apply serve_moves|done..|]. exists t. split; [by right|done]. }
  split; [exact Hold|]. split; [exact Hnew|]. split; [|split; [|exact Hok']].
  - intros i t Ht Hst t' Ht'. destruct (Hnew i t' Ht') as (t2 & [Ht2|[Ht2 _]] & (_ & _ & He)); [|congruence].
    assert (t2 = t) as -> by congruence. inversion He as [|? y ? [event Hev] _]; [done|]. exfalso.
    elem_cases Hst; rewrite Hst in Hev; by destruct event.
  - intros i j t u Ht Hu [(Ha & Ha' & He)|[He|He]]; [by eapply (so_active s')|by eapply (so_command s')|].
    destruct (decide (i = j)) as [|Hne]; [done|]. by eapply paths_differ in He.
Qed.

(** *** What may be downloaded *)

(** The files of the verified transfers, as items of [H] vouch for them *)
Definition vouched (H : Z → Item → Prop) (s : Store) : Prop :=
  ∀ i t data, transfers s !! i = Some t → t_verified t = true → disk s !! path_of t = Some data →
    ∃ it, H (t_item_id t) it ∧ vouches it data ∧ verified_hash t = Some (xxh3_128 data).

Definition catalogued (H : Z → Item → Prop) (s : Store) : Prop := ∀ j it, items (central (fleet s)) !! j = Some it → H j it.

Lemma same_path t t' : same_row t t' → path_of t' = path_of t.
Proof using Type. intros (Hid & _ & _ & _ & Hf & _). unfold Transfers.path_of. by rewrite Hid, Hf. Qed.

Lemma put_vouched H s s' t t' :
  vouched H s → transfers s !! t_id t = Some t → same_row t t' → same_check t t' →
  transfers s' = <[t_id t := t']> (transfers s) → (∀ p data, disk s' !! p = Some data → disk s !! p = Some data) → vouched H s'.
Proof using Type.
  intros Hv Ht Hr [Hver Hhash] Hs Hd i u data. rewrite Hs. destruct (decide (t_id t = i)) as [<-|Hne].
  - rewrite lookup_insert_eq. intros [= <-]. rewrite (same_path t t' Hr), Hver, Hhash. destruct Hr as (_ & -> & _). intros Ht1 Hdata%Hd. by apply (Hv (t_id t) t).
  - rewrite lookup_insert_ne by done. intros Hu Hu1 Hdata%Hd. by apply (Hv i u).
Qed.

Lemma move_vouched H w s s' : store_ok s → move w s s' → w = None ∨ catalogued H s → vouched H s → vouched H s'.
Proof using new_transfer_uuid.
  intros Hok Hmv Hw Hv. destruct Hmv as [Ht Hd Hm|t t' Ht Hrow Hs Hd Hm|t Hins Hid Hf Hst Hb Hv0 Hs Hd Hm|t t' Ht Ha Hmv Hs Hd Hm|t Ht Hwt Hp Hs Hd Hm].
  - intros i u data. rewrite Ht, Hd. apply Hv.
  - eapply put_vouched; [done|exact Ht| | |exact Hs|by rewrite Hd]; by destruct Hrow as [(Hr & _ & _ & Hc & _)|(_ & _ & Hr & _ & _ & _ & Hc)].
  - intros i u data. rewrite Hs, Hd. destruct (decide (t_id t = i)) as [<-|Hne].
    + rewrite lookup_insert_eq. intros [= <-]. congruence.
    + rewrite lookup_insert_ne by done. apply Hv.
  - destruct Hmv as (Hr & _ & _ & _ & Hc). eapply put_vouched; [done|exact Ht|exact Hr|exact Hc|exact Hs|]. intros p data.
    destruct Hd as [->| ->]; [done|]. by intros [_ Hx]%lookup_delete_Some.
  - pose proof (so_checked _ Hok _ _ Ht) as Hchk. rewrite Hp in Hchk.
    assert (∀ i u data, i ≠ t_id t → transfers s !! i = Some u → t_verified u = true → disk s' !! path_of u = Some data →
      ∃ it, H (t_item_id u) it ∧ vouches it data ∧ verified_hash u = Some (xxh3_128 data)) as Hothers.
    { intros i u data Hne Hu Hu1. rewrite Hd by (by eapply paths_differ). by apply (Hv i u). }
    assert (∀ u, transfers s !! t_id t = Some u → t_verified u = true → False) as Hself by (intros u Hu Hu1; assert (u = t) as -> by congruence; by apply Hchk in Hu1).
    destruct Hs as [Hs|(t' & (Hr & _ & _ & Hcase) & Hs)]; intros i u data; rewrite Hs.
    + intros Hu Hu1. destruct (decide (i = t_id t)) as [->|Hne]; [by eapply Hself in Hu1|by eapply Hothers].
    + destruct (decide (t_id t = i)) as [<-|Hne].
      * rewrite lookup_insert_eq. intros [= <-] Hv1. rewrite (same_path t t' Hr). intros Hdata.
        destruct Hcase as [(_ & Hc & _)|[(_ & Hc & _)|[(_ & Hc & _)|(_ & _ & data' & it & Hdata' & Hit & Hvouch & Hhash)]]];
          [rewrite Hc in Hv1; by eapply Hself in Hv1..|congruence|].
        destruct Hw as [->|Hw]; [done|]. assert (data' = data) as -> by congruence. exists it. split; [|done].
        destruct Hr as (_ & -> & _). by apply Hw.
      * rewrite lookup_insert_ne by done. intros Hu Hu1. apply Hothers with i; [congruence|done..].
Qed.

Lemma serve_vouched H s e q : store_ok s → catalogued H s → vouched H s → vouched H (serve s e q).1.
Proof using new_transfer_uuid transfer_order_perm.
  intros Hok Hcat Hv. destruct (elsewhere q) eqn:Hq.
  - destruct q; try done. cbn [Transfers.serve fst]. intros i t data Ht Hvt Hd. apply (Hv i t data); [|exact Hvt|exact Hd]. eapply lookup_weaken; [exact Ht|apply cascaded_sub].
  - destruct (patched q) as [i|] eqn:Hp.
    + destruct q as [| |a i' p r| | | | | | |]; try done. cbn [Transfers.serve]. eapply move_vouched; [exact Hok|by apply append_move|by right|done].
    + pose proof (serve_moves s e q Hok Hq) as Hm. rewrite Hp in Hm. clear Hcat Hq Hp. revert Hok Hv. induction Hm as [s|s s1 s' Hm _ IH]; intros Hok Hv; [done|].
      apply IH; [by eapply move_ok|]. eapply move_vouched; [exact Hok|exact Hm|by left|done].
Qed.

Lemma run_vouched H s trace :
  store_ok s → (∀ before after, trace = before ++ after → catalogued H (run s before)) → vouched H s → vouched H (run s trace).
Proof using new_transfer_uuid transfer_order_perm.
  revert s. induction trace as [ |[e q] trace IH]; intros s Hok Hcat Hv; [done|]. cbn [Transfers.run]. apply IH; [by apply serve_store_ok| |].
  - intros before after ->. by apply (Hcat ((e, q) :: before) after).
  - apply serve_vouched; [done| |done]. by apply (Hcat [] ((e, q) :: trace)).
Qed.

Lemma download_file s e call i range s' data name :
  serve s e (TDownload call i range) = (s', FileOut data name) →
  ∃ t item q ctx st, transfers s !! i = Some t ∧ items (central (fleet s)) !! t_item_id t = Some item ∧
    t_verified t = true ∧ t_state t ∈ [t_staged; t_downloaded] ∧ _staged_stat s (staged_file t) = Some data ∧ name = i_filename item ∧
    require_permission sha256 auth_enabled _roles load_grants uses_ltree "download" (Some "write") (creds call) (caller call) (tables call) (now e) = Ok (q, ctx) ∧
    authorize_item ctx (i_path_scope item) (Some "download") = Ok () ∧
    emitted s' = emitted s ++ [AGENT_TRANSFER_DOWNLOADED (t_id t) (t_item_id t) (t_agent_id t) range st (actor q ≫= principal_of_actor)].
Proof using Type.
  cbn [Transfers.serve]. intros H.
  unfold permitted in H. destruct (require_permission _ _ _ _ _ _ _ _ _ _ _) as [[q ctx]|[]] eqn:Hperm; try done.
  unfold download_transfer in H. destruct (transfers s !! i) as [t|] eqn:Ht; [|done].
  destruct (items _ !! t_item_id t) as [item|] eqn:Hit; [|done].
  unfold authorized in H. destruct (authorize_item _ _ _) as [[]|[]] eqn:Hauth; try done.
  destruct (t_verified t && _) eqn:Hv; [|done]. cbn [negb] in H. apply andb_true_iff in Hv as [Hv Hst]. apply bool_decide_eq_true in Hst.
  destruct (_staged_stat _ _) as [data'|] eqn:Hdata; [|done].
  destruct (if _ && _ then transfer_state_machine _ _ else _) as [st|]; [|done]. injection H as <- <- <-.
  exists t, item, q, ctx, st. by split_and!.
Qed.

(** C16: an operator is handed the bytes of a file only if they are the file.  Take any history
    of requests from a state without verified transfers: whenever a download is answered with
    bytes, the catalogue row of the item vouched for exactly these bytes at some moment of the
    history (same size, and the content hash, or the quick hash where there is no other, is
    that of the bytes), the transfer records their hash, the caller holds the download
    permission on the item, and the download goes to the audit log. *)
Theorem served_bytes_verified s trace e call i range s' data name :
  store_ok s → (∀ j t, transfers s !! j = Some t → t_verified t = false) →
  serve (run s trace) e (TDownload call i range) = (s', FileOut data name) →
  ∃ t, transfers (run s trace) !! i = Some t ∧ verified_hash t = Some (xxh3_128 data) ∧
    (∃ before after it, trace = before ++ after ∧ items (central (fleet (run s before))) !! t_item_id t = Some it ∧ vouches it data) ∧
    (∃ item q ctx, items (central (fleet (run s trace))) !! t_item_id t = Some item ∧
      require_permission sha256 auth_enabled _roles load_grants uses_ltree "download" (Some "write") (creds call) (caller call) (tables call) (now e) = Ok (q, ctx) ∧
      authorize_item ctx (i_path_scope item) (Some "download") = Ok ()) ∧
    ∃ st by_, emitted s' = emitted (run s trace) ++ [AGENT_TRANSFER_DOWNLOADED i (t_item_id t) (t_agent_id t) range st by_].
Proof using new_transfer_uuid transfer_order_perm.
  intros Hok Hnone H. apply download_file in H as (t & item & q & ctx & st & Ht & Hit & Hv & _ & Hdata & _ & Hperm & Hauth & Hem).
  pose proof (run_store_ok s trace Hok) as Hok'. exists t. split; [done|].
  set (H := λ j it, ∃ before after, trace = before ++ after ∧ items (central (fleet (run s before))) !! j = Some it).
  assert (vouched H (run s trace)) as Hvouched.
  { apply run_vouched; [done| |]; [|by intros j u d Hu Hu1; rewrite (Hnone j u Hu) in Hu1]. intros before after -> j it Hj. by exists before, after. }
  destruct (Hvouched i t data Ht Hv) as (it & (before & after & Htr & Hj) & Hvch & Hhash).
  { unfold _staged_stat in Hdata. pose proof (so_file _ Hok' i t Ht) as Hf. rewrite (ok_path _ i t Hok' Ht). rewrite Hf in Hdata. by destruct (staged_path i). }
  split; [done|]. split; [by exists before, after, it|]. split; [by exists item, q, ctx|].
  exists st, (actor q ≫= principal_of_actor). by rewrite <- (so_id _ Hok' i t Ht) at 1.
Qed.

(** *** The audit log *)


Definition logs (s s' : Store) : Prop := ∀ ev, ev ∈ emitted s → ev ∈ emitted s'.

Lemma logs_same s s' : emitted s' = emitted s → logs s s'.
Proof using Type. by intros H ev; rewrite H. Qed.

Lemma logs_refl s : logs s s.
Proof using Type. by apply logs_same. Qed.
#[local] Hint Resolve logs_refl : core.


















(** *** What is staged *)




Lemma partial_not_finished t : partial t = true → t_state t ∈ [t_staged; t_downloaded] → False.
Proof using Type. unfold partial. intros Hp H. elem_cases H; by rewrite H in Hp. Qed.







(** *** What the sweep reclaims *)

(** No live command is left at [k]. *)
Definition command_ended (s : Store) (k : Z) : Prop := ∀ c, commands (fleet s) !! k = Some c → command_is_terminal (c_status c) = true.

Definition reclaimed (e : Env) (s' : Store) (t : StagingTransfer) : Prop :=
  transfers s' !! t_id t = Some (updated t (set_state t t_expired) (now e)) ∧
  (undeletable e (path_of t) = false → disk s' !! path_of t = None) ∧ command_ended s' (t_command_id t).

Lemma end_expire_spec f k now f' b :
  end_command f k expire now = Ok (f', b) →
  (∀ c, commands f' !! k = Some c → command_is_terminal (c_status c) = true) ∧
  (∀ j, (∀ c, commands f !! j = Some c → command_is_terminal (c_status c) = true) →
        ∀ c, commands f' !! j = Some c → command_is_terminal (c_status c) = true).
Proof using Type.
  unfold end_command. destruct (commands f !! k) as [c|] eqn:Hc.
  - destruct (command_is_terminal (c_status c)) eqn:Ht; [intros [= <- <-]; split; [congruence|done]|].
    destruct (command_state_machine _ _) as [st|] eqn:Hst; [|done]. intros [= <- <-]. cbn [commands set_commands].
    assert (command_is_terminal st = true) as Hterm by (by destruct (c_status c); try done; injection Hst as <-). split.
    + intros d. rewrite lookup_insert_eq. by intros [= <-].
    + intros j Hj d. destruct (decide (k = j)) as [<-|Hne]; [rewrite lookup_insert_eq; by intros [= <-]|]. rewrite lookup_insert_ne by done. apply Hj.
  - intros [= <- <-]. split; [congruence|done].
Qed.

Lemma reap_one e grace abandoned_seconds s n t :
  store_ok s → transfers s !! t_id t = Some t → active_transfer t = true → draining (now e) grace abandoned_seconds t = false →
  ∃ s' n', reap e grace abandoned_seconds (s, n) t = Ok (s', n') ∧ reaped n' = reaped n + 1 ∧ reclaimed e s' t ∧ store_ok s' ∧
    (∀ i, i ≠ t_id t → transfers s' !! i = transfers s !! i) ∧
    (∀ p, disk s' !! p = disk s !! p ∨ p = path_of t ∧ disk s' !! p = None) ∧
    (∀ k, command_ended s k → command_ended s' k).
Proof using new_transfer_uuid xxh3_64 xxh3_128.
  intros Hok Ht Ha Hdr. destruct (reap_spec e grace abandoned_seconds s n t Hok Ht Ha) as (s' & n' & Hreap & Hs). rewrite Hdr in Hs.
  destruct Hs as (Hs & Hm & g & Hd). exists s', n'. split; [exact Hreap|].
  assert (store_ok s') as Hok' by (eapply (move_ok None s); [done|by eapply close_move]).
  unfold reap in Hreap. rewrite Hdr, live_expire in Hreap by done. cbn [result_bind] in Hreap.
  destruct (remove_file_frame e s (staged_file t)) as (_ & _ & Hf & _). set (s1 := remove_file e s (staged_file t)) in *.
  destruct (end_command _ _ _ _) as [[f b]|] eqn:Hend; [|done]. cbn [result_bind] in Hreap. injection Hreap as <- <-.
  apply end_expire_spec in Hend as [Hk Hkeep]. rewrite Hf in Hkeep.
  pose proof (so_file _ Hok _ _ Ht) as Hfile. rewrite <- (ok_path s (t_id t) t) in Hfile by done. rewrite Hfile in Hd.
  destruct (path_of t) as [ |c p] eqn:Hpath; [exfalso; rewrite (ok_path s (t_id t) t) in Hpath by done;
    apply (staged_path_nonempty uni_decimal tsettings (t_id t)) in Hpath; [done|exact (so_uuid _ Hok _ _ Ht)]|].
  unfold remove_file in Hd. split; [done|]. split; [|split; [done|split; [|split; [|exact Hkeep]]]].
  - split; [by rewrite Hs, lookup_insert_eq|]. split; [|exact Hk]. rewrite Hpath. intros Hu. rewrite Hd, Hu. cbn. apply lookup_delete_eq.
  - intros i Hi. by rewrite Hs, lookup_insert_ne.
  - intros q. rewrite Hd. destruct (undeletable e (c :: p)); [by left|]. cbn. destruct (decide (q = c :: p)) as [->|Hq]; [right|left].
    + split; [done|apply lookup_delete_eq].
    + by apply lookup_delete_ne.
Qed.

Lemma draining_skips e grace abandoned_seconds s n t :
  draining (now e) grace abandoned_seconds t = true → ∃ n', reap e grace abandoned_seconds (s, n) t = Ok (s, n') ∧ reaped n' = reaped n.
Proof using Type. intros H. unfold reap. rewrite H. by eexists. Qed.

Lemma reap_all e grace abandoned_seconds l s n :
  let dead := λ t, negb (draining (now e) grace abandoned_seconds t) in
  store_ok s → NoDup (map t_id l) → (∀ t, t ∈ l → transfers s !! t_id t = Some t ∧ active_transfer t = true) →
  ∃ s' n', result_fold (reap e grace abandoned_seconds) (s, n) l = Ok (s', n') ∧
    reaped n' = reaped n + Z.of_nat (length (filterb dead l)) ∧ store_ok s' ∧
    (∀ t, t ∈ l → dead t = true → reclaimed e s' t) ∧
    (∀ i t, transfers s !! i = Some t → (t ∈ l → dead t = false) → transfers s' !! i = Some t ∧ disk s' !! path_of t = disk s !! path_of t) ∧
    (∀ k, command_ended s k → command_ended s' k) ∧ (∀ p, disk s !! p = None → disk s' !! p = None).
Proof using new_transfer_uuid xxh3_64 xxh3_128.
  intros dead. revert s n. induction l as [ |t l IH]; intros s n Hok Hnd Hl.
  { exists s, n. split_and!; try done; [cbn; by rewrite Z.add_0_r|]. by intros t Ht%elem_of_nil. }
  cbn [map] in Hnd. apply NoDup_cons in Hnd as [Hnew Hnd]. destruct (Hl t) as [Ht Ha]; [by left|].
  assert (∀ u, u ∈ l → t_id u ≠ t_id t) as Hother by (intros u Hu He; apply Hnew; rewrite <- He; by apply list_elem_of_fmap_2).
  cbn [result_fold filterb]. destruct (dead t) eqn:Hdead; subst dead; cbn beta in *.
  - apply negb_true_iff in Hdead.
    destruct (reap_one e grace abandoned_seconds s n t Hok Ht Ha Hdead) as (s1 & n1 & -> & Hn1 & Hrec & Hok1 & Hrows & Hfiles & Hcmds). cbn [result_bind].
    destruct (IH s1 n1 Hok1 Hnd) as (s' & n' & Hf & Hn' & Hok' & Hin & Hout & Hcmd & Hnone).
    { intros u Hu. destruct (Hl u) as [Hu' Hau]; [by right|]. split; [|done]. rewrite Hrows; [done|by apply Hother]. }
    exists s', n'. split; [done|]. split; [rewrite Hn', Hn1; cbn [length]; rewrite Nat2Z.inj_succ; unfold Z.succ; by rewrite <- Z.add_assoc, (Z.add_comm 1)|].
    split; [done|]. destruct Hrec as (Hr1 & Hr2 & Hr3). split_and!.
    + intros u [->|Hu]%elem_of_cons Hdu; [|by apply Hin].
      destruct (Hout (t_id t) _ Hr1) as [Hx Hy]; [intros Hu; exfalso; apply (Hother _ Hu); by destruct (updated_row t (set_state t t_expired) (now e)) as [-> _]|].
      split; [exact Hx|]. split; [|by apply Hcmd]. intros Hundel. by apply Hnone, Hr2.
    + intros i u Hu Hskip. assert (i ≠ t_id t) as Hne.
      { intros ->. assert (u = t) as -> by congruence. specialize (Hskip (list_elem_of_here _ _)). by rewrite Hdead in Hskip. }
      assert (path_of u ≠ path_of t) as Hpath by (by eapply (paths_differ s)).
      destruct (Hout i u) as [H1 H2]; [by rewrite Hrows|intros Hul; apply Hskip; by right|]. split; [done|]. rewrite H2.
      destruct (Hfiles (path_of u)) as [He|[He _]]; [exact He|by destruct Hpath].
    + intros k Hk. by apply Hcmd, Hcmds.
    + intros p Hp. apply Hnone. destruct (Hfiles p) as [->|[_ He]]; done.
  - apply negb_false_iff in Hdead. destruct (draining_skips e grace abandoned_seconds s n t Hdead) as (n1 & -> & Hn1). cbn [result_bind].
    destruct (IH s n1 Hok Hnd) as (s' & n' & Hf & Hn' & Hok' & Hin & Hout & Hcmd & Hnone); [intros u Hu; apply Hl; by right|].
    exists s', n'. split; [done|]. split; [by rewrite Hn', Hn1|]. split; [done|]. split_and!; try done.
    + intros u [->|Hu]%elem_of_cons Hdu; [by rewrite Hdead in Hdu|by apply Hin].
    + intros i u Hu Hskip. apply Hout; [done|]. intros Hul. apply Hskip. by right.
Qed.

(** An active transfer that is due: an upload without progress for [idle] seconds, or a
    transfer past its expiry that no download has read for [grace] seconds *)
Definition due (now grace idle : Z) (t : StagingTransfer) : bool :=
  active_transfer t &&
  (partial t && (t_updated_at t <=? now - idle * SECOND) ||
   (t_expires_at t <=? now) && match last_range_request_at t with Some w => w <=? now - grace * SECOND | None => true end).

Lemma due_spec now grace idle t : due now grace idle t = sweepable now idle t && negb (draining now grace idle t).
Proof using Type.
  unfold due, sweepable, draining, is_abandoned, is_ttl, active_transfer, partial. change _LIVE_STATES with _ACTIVE_STATES.
  destruct (bool_decide (t_state t ∈ _ACTIVE_STATES)); [|done]. destruct (bool_decide (t_state t ∈ _PARTIAL_STATES)), (t_updated_at t <=? _), (t_expires_at t <=? _);
    cbn; try done; destruct (last_range_request_at t) as [w|]; try done; by rewrite Z.leb_antisym.
Qed.

(** C18: the sweep reclaims exactly the transfers that are due.  It never fails.  With at most
    1000 candidates (one batch), each active transfer that has an upload without progress for
    the configured time, or is past its expiry with no download reading it within the grace,
    is expired, its file is gone if the system lets it go, and no live command works for it;
    every other row and its file stay as they are, and the count reported is the number of
    rows reclaimed. *)
Theorem sweep_exact s e :
  store_ok s →
  let grace := staging_download_grace_seconds tsettings in let idle := staging_abandoned_upload_seconds tsettings in
  (length (filterb (sweepable (now e) idle) (all_transfers s)) ≤ _SWEEP_BATCH)%nat →
  ∃ s' n, serve s e TCleanup = (s', Swept n) ∧ reaped n = Z.of_nat (length (filterb (due (now e) grace idle) (all_transfers s))) ∧
    ∀ i t, transfers s !! i = Some t →
      (due (now e) grace idle t = true → transfers s' !! i = Some (updated t (set_state t t_expired) (now e)) ∧
         (undeletable e (staged_path i) = false → disk s' !! staged_path i = None) ∧
         ∀ c, commands (fleet s') !! t_command_id t = Some c → command_is_terminal (c_status c) = true) ∧
      (due (now e) grace idle t = false → transfers s' !! i = Some t ∧ disk s' !! staged_path i = disk s !! staged_path i).
Proof using new_transfer_uuid transfer_order_perm.
  intros Hok grace idle Hsize. cbn [Transfers.serve]. unfold cleanup_staging_transfers, run_staging_cleanup_sweep. fold grace idle.
  set (l := take _SWEEP_BATCH _). destruct (candidates_ok s (sweepable (now e) idle) _SWEEP_BATCH Hok) as [Hnd Hl]. fold l in Hnd, Hl.
  destruct (reap_all e grace idle l s (mkCleanup 0 0 0 0 0) Hok Hnd) as (s' & n & -> & Hn & _ & Hin & Hout & _).
  { intros t Ht. destruct (Hl t Ht) as [H Hs]. split; [done|by eapply sweepable_active]. }
  exists s', n. split; [done|].
  assert (l ≡ₚ filterb (sweepable (now e) idle) (all_transfers s)) as Hperm.
  { subst l. rewrite take_ge by (by rewrite merge_sort_Permutation). apply merge_sort_Permutation. }
  split.
  - rewrite Hn. cbn [reaped]. rewrite Z.add_0_l. f_equal. rewrite (filterb_length_perm _ _ _ Hperm), filterb_filterb. f_equal.
    apply filterb_ext. intros t _. by rewrite due_spec.
  - intros i t Ht. pose proof (so_id _ Hok i t Ht) as Hid. pose proof (ok_path s i t Hok Ht) as Hpath. rewrite <- Hpath.
    assert (t ∈ all_transfers s) as Hall.
    { unfold Transfers.all_transfers. rewrite transfer_order_perm. apply list_elem_of_fmap. exists (i, t). split; [done|by apply elem_of_map_to_list]. }
    split.
    + rewrite due_spec. intros [Hs Hd]%andb_true_iff. subst i. apply (Hin t); [rewrite Hperm; by apply elem_of_filterb|done].
    + rewrite due_spec. intros Hd. apply Hout; [done|]. intros Htl. destruct (Hl t Htl) as [_ Hs]. by rewrite Hs in Hd.
Qed.

(** *** An upload comes to its end *)

(** The agent asks for the offset and sends the next [n] bytes of [src] from there, until the
    transfer takes no more or [fuel] rounds are over. *)
Definition next_patch (n : nat) (src : list Z) (t : StagingTransfer) : patch :=
  let body := take n (drop (Z.to_nat (bytes_transferred t)) src) in
  mkPatch (Some (int_text (bytes_transferred t))) [mkChunk body (Some (length body))] Sent.

Fixpoint upload (fuel n : nat) (src : list Z) (s : Store) (e : Env) (a i : Z) (r : AgentRequest) : Store :=
  match fuel with
  | O => s
  | S k =>
      match serve s e (THead a i r) with
      | (s1, Status 200 t) =>
          if partial t then upload k n src (serve s1 e (TPatch a i (next_patch n src t) r)).1 e a i r else s1
      | (s1, _) => s1
      end
  end.

Lemma write_one max_chunk limit offset file0 body :
  Z.of_nat (length body) ≤ max_chunk → offset + Z.of_nat (length body) ≤ limit →
  write_chunks max_chunk (Some limit) offset 0 file0 [mkChunk body (Some (length body))] = (file0 ++ body, Ok (Z.of_nat (length body))).
Proof using Type.
  intros Hm Hl. cbn [write_chunks c_data c_taken]. case_bool_decide as Hb; [subst body; by rewrite app_nil_r|].
  rewrite Z.add_0_l, (proj2 (Z.ltb_ge _ _)), (proj2 (Z.ltb_ge _ _)) by done. by rewrite take_ge by done.
Qed.

Lemma quick_hash_total (data : list Z) path : ∃ q, quick_hash xxh3_64 (λ _, Some data) path (Z.of_nat (length data)) = Some q.
Proof using Type.
  unfold quick_hash. cbn [mbind option_bind]. destruct (QUICK_CHUNK * 2 <? _) eqn:H; [|by eexists]. destruct (_ <? QUICK_CHUNK) eqn:H2; [|by eexists].
  exfalso. apply Z.ltb_lt in H, H2. by apply (Z.lt_asymm _ _ (Z.lt_trans _ _ _ H2 (ltac:(done) : QUICK_CHUNK < QUICK_CHUNK * 2))).
Qed.

Lemma hashes_total (fs : text → option (list Z)) path data :
  fs path = Some data → ∃ q, _compute_staged_hashes xxh3_64 xxh3_128 fs path = Some (xxh3_128 data, xxh3_64 data, q, Z.of_nat (length data)).
Proof using Type.
  intros Hfs. unfold _compute_staged_hashes, full_hashes_migration. rewrite Hfs. cbn [mbind option_bind].
  rewrite (quick_hash_at _ _ data) by done. destruct (quick_hash_total data []) as [q ->]. by exists q.
Qed.

(** The last byte of a file the catalogue vouches for *)
Lemma finalize_vouched s e t c it data :
  commands (fleet s) !! t_command_id t = Some c → verify_requested (c_payload c) = Some true →
  items (central (fleet s)) !! t_item_id t = Some it → disk s !! path_of t = Some data → vouches it data → t_state t = t_uploading →
  _finalize_staged uni_decimal xxh3_64 xxh3_128 new_command row_order csettings tsettings s e t =
    (s, Ok (set_transfer t t_staged (bytes_transferred t) (Some (xxh3_128 data)) true (last_range_request_at t))).
Proof using Type.
  intros Hc Hv Hit Hd Hvouch Hst. unfold _finalize_staged. rewrite Hc, Hv, Hit.
  destruct (hashes_total (λ p, disk s !! p) (path_of t) data Hd) as [q Hh]. rewrite Hh.
  destruct (report_vouches it _ _ _ _ _ _ _ Hd Hh) as [_ Hok]. rewrite (proj2 Hok Hvouch), Hst. done.
Qed.

(** The transfer [t] at [i] is being uploaded by the agent that sends [r], the command asks
    for verification and the catalogue vouches for [src]. *)
Record in_upload (src : list Z) (s : Store) (a i : Z) (r : AgentRequest) (t : StagingTransfer) : Prop := {
  iu_enabled : agents_enabled settings = true;
  iu_auth : ∃ agent, authenticated uni_lower settings (fleet s) a r = Ok (fleet s, agent) ∧
    agents (central (fleet s)) !! ag_id agent = Some agent ∧ t_agent_id t = ag_id agent;
  iu_row : transfers s !! i = Some t;
  iu_id : t_id t = i;
  iu_partial : partial t = true;
  iu_total : total_bytes t = Some (Z.of_nat (length src));
  iu_bytes : let n := Z.to_nat (bytes_transferred t) in let file := default [] (disk s !! path_of t) in
    0 ≤ bytes_transferred t ∧ (n ≤ length src)%nat ∧ take n file = take n src ∧ (n ≤ length file)%nat;
  iu_command : ∃ c, commands (fleet s) !! t_command_id t = Some c ∧ verify_requested (c_payload c) = Some true;
  iu_item : ∃ it, items (central (fleet s)) !! t_item_id t = Some it ∧ vouches it src;
}.

Lemma set_agent_same c agent : agents c !! ag_id agent = Some agent → set_agent c agent = c.
Proof using Type. intros H. unfold set_agent. rewrite insert_id by done. by destruct c. Qed.

Lemma commit_same s agent : agents (central (fleet s)) !! ag_id agent = Some agent → commit s agent = s.
Proof using Type. intros H. unfold commit. rewrite set_agent_same by done. destruct s as [f ????]. by destruct f. Qed.

Lemma as_agent_same s a r handler agent :
  agents_enabled settings = true → authenticated uni_lower settings (fleet s) a r = Ok (fleet s, agent) →
  as_agent uni_lower settings s a r handler = handler s agent.
Proof using Type. intros He Ha. unfold as_agent. rewrite He, Ha. cbn [negb]. by destruct s. Qed.

Lemma own_transfer_same s agent i t : transfers s !! i = Some t → t_agent_id t = ag_id agent → own_transfer s agent i = Some t.
Proof using Type. intros Ht Ha. unfold own_transfer. rewrite Ht. cbn. by rewrite Ha, Z.eqb_refl. Qed.

Lemma head_upload src s e a i r t : in_upload src s a i r t → serve s e (THead a i r) = (s, Status 200 t).
Proof using Type.
  intros [He (agent & Ha & _ & Hag) Ht _ _ _ _ _ _]. cbn [Transfers.serve]. unfold head_transfer. rewrite (as_agent_same s a r _ agent) by done.
  by rewrite (own_transfer_same s agent i t).
Qed.

(** One append of the client, up to its effect on the row *)
Lemma patch_upload k src s e a i r t :
  in_upload src s a i r t → Z.of_nat k ≤ staging_max_chunk_bytes tsettings → Z.of_nat (length src) < 10 ^ 4299 →
  let n := Z.to_nat (bytes_transferred t) in let m := Nat.min (n + k) (length src) in
  let s1 := set_disk s (<[path_of t := take m src]> (disk s)) in
  ∃ agent, agents (central (fleet s)) !! ag_id agent = Some agent ∧
  serve s e (TPatch a i (next_patch k src t) r) =
    match advance uni_decimal xxh3_64 xxh3_128 new_command row_order csettings tsettings s1 e t (Z.of_nat m) with
    | (s2, Err x) => (rolled_back s1 s2, TServerError x)
    | (s2, Ok t2) => (put_transfer (commit s2 agent) (updated t t2 (now e)), Status 200 (updated t t2 (now e)))
    end.
Proof using Type.
  intros [He (agent & Ha & Hrow & Hag) Ht Hid Hp Htot (Hb0 & Hn & Htake & Hlen) _ _] Hk Hbig n m s1. exists agent. split; [done|].
  fold n in Hn, Htake, Hlen. assert (bytes_transferred t = Z.of_nat n) as Hbn by (subst n; by rewrite Z2Nat.id).
  destruct (next_part src n k Hn) as (Hm & Hjoin & Hbody & Hmax & _). fold m in Hm, Hjoin, Hmax. set (body := take k (drop n src)) in *.
  cbn [Transfers.serve]. unfold append_transfer. rewrite (as_agent_same s a r _ agent) by done. rewrite (own_transfer_same s agent i t) by done.
  assert (bool_decide (t_state t ∈ [t_staged; t_downloaded]) = false) as ->.
  { apply bool_decide_eq_false. intros H. by apply partial_not_finished in H. }
  unfold partial in Hp. change _PARTIAL_STATES with _APPENDABLE in Hp. rewrite Hp. cbn [negb]. unfold next_patch. cbn [upload_offset].
  rewrite py_int_text by (split; [done|]; rewrite Hbn; apply (Z.le_lt_trans _ (Z.of_nat (length src))); [by apply Nat2Z.inj_le|done]).
  rewrite Z.eqb_refl. cbn [negb]. unfold append_at. cbn [p_chunks p_end]. fold n. fold body.
  rewrite Htot, Hbn, write_one, (ftruncate_prefix n _ src); [|done|done| |].
  - rewrite Hjoin.
    rewrite <- Nat2Z.inj_add, Hm. fold s1. destruct (advance _ _ _ _ _ _ _ _ _ _ _) as [s2 [t2|x]]; [|done]. by rewrite bool_decide_false.
  - etransitivity; [|exact Hk]. by apply Nat2Z.inj_le.
  - rewrite <- Nat2Z.inj_add. apply Nat2Z.inj_le. by rewrite Hm.
Qed.

Lemma partial_uploading t :
  partial t = true → (if bool_decide (t_state t = t_pending) then transfer_state_machine (t_state t) start_upload else Ok (t_state t)) = Ok t_uploading.
Proof using Type. unfold partial. by destruct (t_state t). Qed.

(** The transfer is finished and verified, its file is [src]. *)
Definition uploaded (src : list Z) (s : Store) (i : Z) : Prop :=
  ∃ t, transfers s !! i = Some t ∧ t_state t = t_staged ∧ t_verified t = true ∧ verified_hash t = Some (xxh3_128 src) ∧
    disk s !! path_of t = Some src.

Lemma upload_step k src s e a i r t :
  in_upload src s a i r t → Z.of_nat k ≤ staging_max_chunk_bytes tsettings → Z.of_nat (length src) < 10 ^ 4299 →
  let n := Z.to_nat (bytes_transferred t) in let s' := (serve s e (TPatch a i (next_patch k src t) r)).1 in
  (n + k < length src)%nat ∧ (∃ t', in_upload src s' a i r t' ∧ bytes_transferred t' = Z.of_nat (n + k)) ∨
  (length src ≤ n + k)%nat ∧ uploaded src s' i.
Proof using Type.
  intros Hin Hk Hbig n s'. subst s'. destruct (patch_upload k src s e a i r t Hin Hk Hbig) as (agent & Hag & ->). fold n.
  destruct Hin as [He Hauth Ht Hid Hp Htot (Hb0 & Hn & Htake & Hlen) (c & Hc & Hver) (it & Hit & Hvouch)]. fold n in Hn, Htake, Hlen.
  destruct (next_part src n k Hn) as (_ & _ & _ & Hmax & Hge). set (m := Nat.min (n + k) (length src)) in *.
  set (s1 := set_disk s (<[path_of t := take m src]> (disk s))).
  assert (commit s1 agent = s1) as Hcommit by by apply commit_same.
  unfold advance. set (t0 := set_transfer t (t_state t) (Z.of_nat m) _ _ _).
  change (t_state t0) with (t_state t). rewrite partial_uploading by done. change (total_bytes (set_state t0 t_uploading)) with (total_bytes t). rewrite Htot.
  assert (∀ t2, same_row t t2 → same_row t (updated t t2 (now e))) as Hrow by (intros t2; apply updated_row).
  destruct (Z.of_nat (length src) <=? Z.of_nat m) eqn:Hdone.
  - apply Z.leb_le, Nat2Z.inj_le in Hdone. right. split; [by etransitivity; [exact Hdone|apply Nat.le_min_l]|].
    assert (m = length src) as Hm by by apply Nat.le_antisymm.
    rewrite (finalize_vouched s1 e (set_state t0 t_uploading) c it src); [|done|done|done| |done|done].
    2: { subst s1. cbn [disk set_disk]. change (path_of (set_state t0 t_uploading)) with (path_of t). rewrite lookup_insert_eq, Hm. by rewrite firstn_all. }
    cbn [fst]. rewrite Hcommit. set (t2 := set_transfer _ _ _ _ _ _).
    exists (updated t t2 (now e)). destruct (Hrow t2) as (Hid' & Hrest); [done|].
    assert (t_state (updated t t2 (now e)) = t_staged) as Hst by by rewrite updated_state.
    split; [cbn; by rewrite Hid', Hid, lookup_insert_eq|]. split; [done|].
    assert (t_verified (updated t t2 (now e)) = true ∧ verified_hash (updated t t2 (now e)) = Some (xxh3_128 src)) as [Hv Hh].
    { unfold updated. case_bool_decide as Heq; [rewrite Heq; done|done]. }
    split; [done|]. split; [done|]. rewrite (same_path t) by (by apply Hrow). cbn. rewrite lookup_insert_eq, Hm. by rewrite firstn_all.
  - left. apply Z.leb_gt, Nat2Z.inj_lt in Hdone.
    assert (n + k < length src)%nat as Hlt by (apply Nat.nle_gt; intros Hle; subst m; by rewrite Nat.min_r in Hdone by done; apply Nat.lt_irrefl in Hdone).
    assert (m = (n + k)%nat) as Hm by (subst m; by apply Nat.min_l, Nat.lt_le_incl).
    split; [done|]. cbn [fst]. rewrite Hcommit. set (t2 := set_state t0 t_uploading). exists (updated t t2 (now e)).
    destruct (Hrow t2) as (Hid' & Hit' & Hag' & Hcmd' & Hrest); [done|]. rewrite updated_bytes. split; [|by rewrite <- Hm].
    split; [done|rewrite Hag'; exact Hauth|cbn; by rewrite Hid', Hid, lookup_insert_eq|by rewrite Hid'|unfold partial; by rewrite updated_state| | | | ].
    + unfold updated. case_bool_decide as Heq; [done|exact Htot].
    + cbn zeta. rewrite updated_bytes. change (bytes_transferred t2) with (Z.of_nat m). rewrite Nat2Z.id, (same_path t) by (by apply Hrow).
      cbn [disk put_transfer set_transfers s1 set_disk]. rewrite lookup_insert_eq. cbn [default id]. rewrite take_take, Nat.min_id, length_take.
      split; [apply Nat2Z.is_nonneg|]. split; [done|]. split; [done|]. by rewrite Nat.min_l.
    + rewrite Hcmd'. by exists c.
    + rewrite Hit'. by exists it.
Qed.

Lemma uploaded_stays fuel n src s e a i r : uploaded src s i → uploaded src (upload fuel n src s e a i r) i.
Proof using Type.
  intros Hup. destruct fuel as [ |fuel]; cbn [upload]; [done|]. destruct (serve s e (THead a i r)) as [s1 x] eqn:Hs.
  assert (uploaded src s1 i ∧ ∀ t, x = Status 200 t → transfers s1 !! i = Some t) as [Hup1 Hx].
  { cbn [Transfers.serve] in Hs. unfold head_transfer, as_agent in Hs. destruct (negb _); [injection Hs as <- <-; done|].
    destruct (authenticated _ _ _ _ _) as [[f agent]|]; [|injection Hs as <- <-; done].
    destruct (own_transfer _ _ _) as [t|] eqn:Ho; injection Hs as <- <-; (split; [exact Hup|]); [|done]. intros u [= <-]. by apply own_lookup in Ho as [Ho _]. }
  destruct x; try done. destruct (decide (code = 200)) as [->|Hne]; [|by destruct code as [|[]|]; try done; repeat (case_match; try done)].
  specialize (Hx t eq_refl). destruct Hup1 as (t' & Ht' & Hst & Hrest). assert (t' = t) as -> by congruence. unfold partial. rewrite Hst. by exists t.
Qed.

(** C19: an upload that nothing disturbs comes to its end.  The agent feature is on and the
    agent that asks is registered and owns the transfer; the transfer is unfinished, its
    declared size is the length of the source, and the bytes committed so far are on disk;
    the command asked for verification and the catalogue row vouches for the source (a file
    that drifted ends [failed] instead); all requests come at one moment, from this agent,
    with no other in between, and each commits.  The source is shorter than 10^4299 bytes
    (the offset is a decimal header, which [int] reads up to 4300 digits).  Then an agent
    that asks for the committed offset and sends the next [n] bytes from there, [n] positive
    and within the limit of a chunk, needs at most [length src / n + 1] rounds until the
    transfer is staged, verified against the catalogue and its file is the source, from
    wherever an earlier attempt left off. *)
Theorem upload_completes fuel n src s e a i r t :
  in_upload src s a i r t → (0 < n)%nat → Z.of_nat n ≤ staging_max_chunk_bytes tsettings → Z.of_nat (length src) < 10 ^ 4299 →
  (length src / n < fuel)%nat → uploaded src (upload fuel n src s e a i r) i.
Proof using Type.
  intros Hin Hn Hmax Hbig Hfuel.
  assert (length src < Z.to_nat (bytes_transferred t) + fuel * n)%nat as Hrounds.
  { by apply rounds_enough. }
  clear Hfuel. revert s t Hin Hrounds. induction fuel as [ |fuel IH]; intros s t Hin Hrounds; cbn [upload].
  { destruct (iu_bytes _ _ _ _ _ _ Hin) as (_ & Hle & _). rewrite Nat.add_0_r in Hrounds. by apply Nat.lt_nge in Hrounds. }
  rewrite (head_upload src s e a i r t) by done. rewrite (iu_partial _ _ _ _ _ _ Hin).
  destruct (upload_step n src s e a i r t Hin Hmax Hbig) as [[_ (t' & Hin' & Hb)]|[_ Hup]].
  - apply (IH _ t'); [done|]. rewrite Hb, Nat2Z.id, <- Nat.add_assoc. exact Hrounds.
  - by apply uploaded_stays.
Qed.
End requests.

(** ** Examples *)

Module Demo.
(** Agent 7 hosts the file [1 2 3 4 5], item 5 of its library 1; agent 8 is another one. *)
Definition agent (i : Z) (fp : string) : Agent := mkAgent i (txt fp) (txt fp) None (Some (txt fp)) (Some "bearer") 0 None None.
Definition blank : Curated := mkCurated None None [] ∅ ∅ ∅ 0.
Definition file : list Z := [1; 2; 3; 4; 5].
Definition hash64 (l : list Z) : string := hexn 16 (foldl (λ a b, a * 256 + b + 1) 1 l).
Definition hash128 (l : list Z) : string := hexn 32 (foldl (λ a b, a * 256 + b + 1) 1 l).
Definition item (content : list Z) : Item :=
  mkItem 5 1 None None active (txt "/m/a.bin") (txt "a.bin") (txt "a.bin") (Some (txt "bin")) (Z.of_nat (length content)) 0
    None (Some (hash128 content)) None None None None None 0 None None None (Some 7) None blank.
Definition central (content : list Z) : Central :=
  mkCentral {[5 := item content]} [mkAgentLibrary 1 (txt "m") (txt "/m") (Some 7) (Some (txt "m"))]
    {[7 := agent 7 "fp"; 8 := agent 8 "other"]} ∅ ∅ ∅ 0 0 0.
Definition start (content : list Z) : Store := mkStore (mkFleet (central content) ∅ ∅ 0 ∅) ∅ ∅ 0 [].
Definition tsettings : TransferSettings := mkTransferSettings (txt "/config/staging") 86400 4 21600 3600 21600.
Definition call : OperatorCall := mkCall None None (mkRequest ∅ ∅ None).
Definition bearer (fp : string) : AgentRequest := mkAgentRequest (Some (txt "Bearer " ++ txt fp)) None None None.
Definition at_ (s : Z) : Env := mkEnv (s * SECOND) (λ _, false) (λ _, false).
Definition new_transfer (n : nat) : Z := (Z.of_nat n + 100) mod 2 ^ 128.

Local Abbreviation serve := (Transfers.serve (λ c, [c]) (λ _, []) (λ _, true) (λ _, None) id (λ _, None) hash64 hash128 example_id new_transfer (λ l, l) (λ l, l)
    (λ _, (mkRole "user" ∅ ∅ false, [])) false example_settings example_csettings tsettings false ∅).
Local Abbreviation run := (Transfers.run (λ c, [c]) (λ _, []) (λ _, true) (λ _, None) id (λ _, None) hash64 hash128 example_id new_transfer (λ l, l) (λ l, l)
    (λ _, (mkRole "user" ∅ ∅ false, [])) false example_settings example_csettings tsettings false ∅).

Definition bytes (offset : string) (l : list Z) (e : ending) : patch := mkPatch (Some (txt offset)) [mkChunk l (Some (length l))] e.
Definition poll : transfer_request := TCommand (RPoll 7 (mkPoll 10 None None None) (bearer "fp")).
Definition attach (a : Z) (fp : string) (total : Z) : transfer_request :=
  TAttach a (Some (JDict [(txt "command_id", uuid_json 100); (txt "total_bytes", JInt total)])) (bearer fp).
Definition append (offset : string) (l : list Z) (e : ending) : transfer_request := TPatch 7 100 (bytes offset l e) (bearer "fp").

(** A retrieve with a lost connection, a stale offset, a lost commit and a repeated last chunk *)
Definition opened : list (Env * transfer_request) :=
  [(at_ 0, TInitiate call 5 true); (at_ 1, poll); (at_ 2, attach 7 "fp" 5)].
Definition history : list (Env * transfer_request) :=
  opened ++ [(at_ 3, append "0" [1; 2] Disconnected); (at_ 4, append "0" [1; 2; 3] Sent); (at_ 5, append "2" [3; 4] Sent);
   (at_ 6, append "3" [4; 5] CommitLost); (at_ 7, append "3" [4; 5] Sent); (at_ 8, append "3" [4; 5] Sent)].
Definition path : text := txt "/config/staging/00000000-0000-0000-0000-000000000064.bin".
Definition row (s : Store) : option (TransferState * Z * bool) := t ← transfers s !! 100; Some (t_state t, bytes_transferred t, t_verified t).

Example retrieve_runs :
  row (run (start file) opened) = Some (t_pending, 0, false) ∧
  row (run (start file) history) = Some (t_staged, 5, true) ∧ disk (run (start file) history) !! path = Some file ∧
  (serve (run (start file) history) (at_ 9) (TDownload call 100 None)).2 = FileOut file (txt "a.bin").
Proof. vm_compute. done. Qed.

(** A catalogue that does not vouch for the file, and a lost commit of the failed
    verification: the file is gone while the row still counts three bytes of it, and the
    next append continues a file of zeros. *)
Definition refused : list (Env * transfer_request) :=
  opened ++ [(at_ 3, append "0" [1; 2; 3] Sent); (at_ 4, append "3" [4; 5] CommitLost)].
Example lost_rejection :
  let drifted := start [9; 9; 9; 9; 9] in
  row (run drifted refused) = Some (t_uploading, 3, false) ∧ disk (run drifted refused) !! path = None ∧
  let s := (serve (run drifted refused) (at_ 5) (append "3" [4] Sent)).1 in
  row s = Some (t_uploading, 4, false) ∧ disk s !! path = Some [0; 0; 0; 4].
Proof. vm_compute. done. Qed.

Lemma new_transfer_uuid n : is_uuid (new_transfer n).
Proof. apply Z.mod_pos_bound. done. Qed.

Lemma transfer_order_perm (l : list StagingTransfer) : l ≡ₚ l.
Proof. done. Qed.

Lemma demo_start_ok content : store_ok (λ _, None) tsettings (start content).
Proof. constructor; try done; intros i ??; by rewrite lookup_empty. Qed.

Lemma opened_ok content : store_ok (λ _, None) tsettings (run (start content) opened).
Proof.
  eapply (run_store_ok (λ c, [c]) (λ _, []) (λ _, true) (λ _, None) id (λ _, None) hash64 hash128 example_id new_transfer (λ l, l) (λ l, l));
    [apply new_transfer_uuid|apply transfer_order_perm|apply demo_start_ok].
Qed.

(** ** What the modelling showed *)

(** Anyone's agent may re-attach the transfer of any command: it reads its state and sets the
    declared size, with which the owner's upload cannot finish. *)
Example reattach_ignores_owner :
  ∃ t, (serve (run (start file) opened) (at_ 3) (attach 8 "other" 2)).2 = Status 200 t ∧ t_agent_id t = 7 ∧ total_bytes t = Some 2 ∧
  (serve (serve (run (start file) opened) (at_ 3) (attach 8 "other" 2)).1 (at_ 4) (append "0" [1; 2; 3] Sent)).2 = THttpError 409.
Proof. eexists. split; [vm_compute; reflexivity|]. by vm_compute. Qed.

(** A write that the system takes in part counts in full, and the next append fills the gap
    with zeros. *)
Definition short : patch := mkPatch (Some (txt "0")) [mkChunk [1; 2; 3] (Some 1%nat)] Sent.
Example short_write_counts :
  let s := (serve (run (start file) opened) (at_ 3) (TPatch 7 100 short (bearer "fp"))).1 in
  row s = Some (t_uploading, 3, false) ∧ disk s !! path = Some [1] ∧
  disk (serve s (at_ 4) (append "3" [4] Sent)).1 !! path = Some [1; 0; 0; 4].
Proof. by vm_compute. Qed.

(** The file of a downloaded transfer stays, whatever the sweep. *)
Example downloaded_never_reclaimed :
  let s := run (start file) (history ++ [(at_ 9, TDownload call 100 None); (at_ 1000000000, TCleanup)]) in
  row s = Some (t_downloaded, 5, true) ∧ disk s !! path = Some file.
Proof. by vm_compute. Qed.

(** So does the file of an agent that is purged: the row goes with the agent. *)
Example purged_file_stays :
  let s := run (start file) (history ++ [(at_ 9, TElsewhere (mkCentral ∅ [] ∅ ∅ ∅ ∅ 0 0 0)); (at_ 1000000000, TCleanup)]) in
  transfers s = ∅ ∧ disk s !! path = Some file.
Proof. by vm_compute. Qed.

(** A range beyond the end, which yields no byte, marks the transfer downloaded. *)
Example empty_range_downloads :
  row (run (start file) (history ++ [(at_ 9, TDownload call 100 (Some (txt "bytes=99-")))])) = Some (t_downloaded, 5, true).
Proof. by vm_compute. Qed.

(** Between its expiry and the next sweep a transfer blocks the item without being named. *)
Example expired_blocks_unnamed :
  (serve (run (start file) opened) (at_ 21600) (TInitiate call 5 true)).2 = TConflict None ∧
  (serve (run (start file) opened) (at_ 21599) (TInitiate call 5 true)).2 = TConflict (Some 100).
Proof. by vm_compute. Qed.

(** ** Witnesses *)

Definition opened_state : Store := run (start file) opened.
Definition opened_row : StagingTransfer :=
  mkTransfer 100 5 7 100 t_pending 0 (Some 5) (Some path) None false (21600 * SECOND) None 0 0.

Lemma opened_lookup : transfers opened_state !! 100 = Some opened_row.
Proof. by vm_compute. Qed.

Lemma transfer_lifecycle_witness :
  ∃ t', transfers (serve opened_state (at_ 3) (TCancel call 100)).1 !! 100 = Some t' ∧ row_life opened_row t'.
Proof.
  destruct (transfer_lifecycle (λ c, [c]) (λ _, []) (λ _, true) (λ _, None) id (λ _, None) hash64 hash128 example_id new_transfer (λ l, l) (λ l, l)
    (λ _, (mkRole "user" ∅ ∅ false, [])) false example_settings example_csettings tsettings false ∅
    new_transfer_uuid transfer_order_perm opened_state (at_ 3) (TCancel call 100) (opened_ok file)) as (H & _).
  apply (H 100 opened_row opened_lookup). reflexivity.
Defined.

Lemma served_bytes_verified_witness :
  ∃ before after it, history = before ++ after ∧ items (Transfers.fleet (run (start file) before)).(Commands.central) !! 5 = Some it ∧
    vouches hash64 hash128 it file.
Proof.
  destruct (served_bytes_verified (λ c, [c]) (λ _, []) (λ _, true) (λ _, None) id (λ _, None) hash64 hash128 example_id new_transfer (λ l, l) (λ l, l)
    (λ _, (mkRole "user" ∅ ∅ false, [])) false example_settings example_csettings tsettings false ∅
    new_transfer_uuid transfer_order_perm (start file) history (at_ 9) call 100 None
    (serve (run (start file) history) (at_ 9) (TDownload call 100 None)).1 file (txt "a.bin") (demo_start_ok file)) as (t & Ht & _ & H & _).
  - intros j t Hj. cbn [transfers start] in Hj. by rewrite lookup_empty in Hj.
  - vm_compute. reflexivity.
  - vm_compute in Ht. injection Ht as <-. exact H.
Defined.

Lemma sweep_exact_witness :
  ∃ s' n, serve opened_state (at_ 21600) TCleanup = (s', Swept n) ∧ reaped n = 1.
Proof.
  destruct (sweep_exact (λ c, [c]) (λ _, []) (λ _, true) (λ _, None) id (λ _, None) hash64 hash128 example_id new_transfer (λ l, l) (λ l, l)
    (λ _, (mkRole "user" ∅ ∅ false, [])) false example_settings example_csettings tsettings false ∅
    new_transfer_uuid transfer_order_perm opened_state (at_ 21600) (opened_ok file)) as (s' & n & Hs & Hn & _).
  - apply Nat.leb_le. vm_compute. reflexivity.
  - exists s', n. split; [exact Hs|]. rewrite Hn. vm_compute. reflexivity.
Defined.








Lemma upload_completes_witness :
  uploaded (λ _, None) hash128 tsettings file
    (upload (λ c, [c]) (λ _, []) (λ _, true) (λ _, None) id (λ _, None) hash64 hash128 example_id new_transfer (λ l, l) (λ l, l)
    (λ _, (mkRole "user" ∅ ∅ false, [])) false example_settings example_csettings tsettings false ∅ 3 2 file opened_state (at_ 3) 7 100 (bearer "fp")) 100.
Proof.
  apply (upload_completes (λ c, [c]) (λ _, []) (λ _, true) (λ _, None) id (λ _, None) hash64 hash128 example_id new_transfer (λ l, l) (λ l, l)
    (λ _, (mkRole "user" ∅ ∅ false, [])) false example_settings example_csettings tsettings false ∅
    3 2 file opened_state (at_ 3) 7 100 (bearer "fp") opened_row); [|repeat constructor|done|vm_compute; reflexivity|repeat constructor].
  constructor; try (vm_compute; reflexivity).
  - eexists. split; [vm_compute; reflexivity|]. split; [vm_compute; reflexivity|reflexivity].
  - cbn zeta. vm_compute. repeat split; try discriminate; repeat constructor.
  - eexists. split; [vm_compute; reflexivity|vm_compute; reflexivity].
  - exists (item file). split; [vm_compute; reflexivity|]. split; [vm_compute; reflexivity|vm_compute; reflexivity].
Defined.
End Demo.
