(* ===== verification/ShareMap.v ===== *)
(** * Share locations ([transfers.py], [share_map.py], [share_resolution.py], [api/agent_share_maps.py])

    Where on the network a file can be opened: the most specific of the operator's mappings
    for an agent, the mount map that the deployment writes, the conversion between the URL
    and the Windows form of a location, and the precedence among the sources. *)
From S2P Require Import Prelude PyStr Uuid Utf8 PathLabel Text Json PyNum Catalog Rbac Access AgentSync.
From Stdlib Require Import SpecFloat.
From stdpp Require Import options.

(** ** Text *)

(** [text.find(sub)]; [None] for [-1] *)
Fixpoint find_text (sub t : text) : option nat :=
  if starts_with t sub then Some 0%nat
  else match t with [] => None | _ :: t' => S <$> find_text sub t' end.

(** [text.find(c)] of one character *)
Definition find_char (c : Z) (t : text) : option nat := find_text [c] t.

(** [text.rstrip(cs)] *)
Definition rstrip_any (cs : list Z) (t : text) : text := rev (lstrip_any cs (rev t)).

(** [text.replace(a, b)] of single characters *)
Definition replace_char (a b : Z) (t : text) : text := map (λ c, if c =? a then b else c) t.

Definition nonempty (t : text) : bool := negb (bool_decide (t = [])).
(** [[s for s in text.split("/") if s]] *)
Definition segments (t : text) : list text := filterb nonempty (split_text SLASH t).

Definition AT : Z := 64.
Definition UNC_ROOT : text := [BACKSLASH; BACKSLASH].

(** ** Mappings *)

Inductive ShareScheme := unc_ | url_ | posix_ | unknown_.
Global Instance share_scheme_eq_dec : EqDecision ShareScheme.
Proof. solve_decision. Defined.

Record ShareMapping := mkMapping {
  local_prefix : text;
  share_prefix : text;
  m_agent_id : option text;
  m_library_id : option text;
  m_unc : option text;
}.

Definition _norm_local (path : text) : text := strip SLASH (replace_char BACKSLASH SLASH path).

(** [covers] and the agent's restriction of one mapping *)
Definition covers (base target : text) : bool :=
  bool_decide (target = base) || bool_decide (base = []) || starts_with target (base ++ [SLASH]).
Definition applies (agent_id : option text) (m : ShareMapping) : bool :=
  match m_agent_id m with Some a => bool_decide (agent_id = Some a) | None => true end.

(** The loop: the best mapping so far with the length of its prefix and whether it names the
    agent, [None] with -1 *)
Definition select_one (agent_id : option text) (target : text) (best : option (ShareMapping * nat * bool)) (m : ShareMapping) :
    option (ShareMapping * nat * bool) :=
  if negb (applies agent_id m) then best
  else
    let base := _norm_local (local_prefix m) in
    if negb (covers base target) then best
    else
      let agent_specific := bool_decide (is_Some (m_agent_id m)) in
      match best with
      | None => Some (m, length base, agent_specific)
      | Some (_, best_len, best_specific) =>
          if (best_len <? length base)%nat || (length base =? best_len)%nat && agent_specific && negb best_specific
          then Some (m, length base, agent_specific) else best
      end.

Definition _select_mapping (mappings : list ShareMapping) (agent_id : option text) (local_path : text) :
    option (ShareMapping * list text) :=
  let target := _norm_local local_path in
  match foldl (select_one agent_id target) None mappings with
  | None => None
  | Some (best, _, _) =>
      let base := _norm_local (local_prefix best) in
      Some (best, drop (length (segments base)) (segments target))
  end.

Section share.
(** [str.isalpha], [str.isalnum] and [str.lower] beyond ASCII *)
Context (uni_alpha uni_alnum : Z → bool) (uni_lower : Z → list Z).

Definition ascii_alpha (c : Z) : bool := (65 <=? c) && (c <=? 90) || (97 <=? c) && (c <=? 122).
Definition isalpha (c : Z) : bool := ascii_alpha c || (128 <=? c) && uni_alpha c.
Definition isalnum (c : Z) : bool := ascii_alpha c || (48 <=? c) && (c <=? 57) || (128 <=? c) && uni_alnum c.

Definition classify_prefix (prefix : text) : ShareScheme :=
  if bool_decide (prefix = []) then unknown_
  else if starts_with prefix UNC_ROOT then unc_
  else
    let url := match find_text (txt "://") prefix with
      | Some (S i) =>
          match prefix with c :: _ => isalpha c | [] => false end &&
          forallb (λ c, isalnum c || bool_decide (c ∈ txt "+.-")) (take (S i) prefix)
      | _ => false
      end in
    if url then url_ else if starts_with prefix [SLASH] then posix_ else unknown_.

Definition _join_share (share_prefix : text) (remainder : list text) : text :=
  let sep := if bool_decide (classify_prefix share_prefix = unc_) then BACKSLASH else SLASH in
  let base := rstrip sep share_prefix in
  let rel := join_text sep remainder in
  if nonempty rel then base ++ sep :: rel else base.

Definition resolve_share_url (mappings : list ShareMapping) (agent_id : option text) (local_path : text) : option text :=
  match _select_mapping mappings agent_id local_path with
  | None => None
  | Some (best, remainder) => Some (_join_share (share_prefix best) remainder)
  end.

(** ** The two forms of a location *)

Record ShareLocation := mkLocation { url : option text; unc : option text }.

Definition SMB : text := txt "smb://".
Definition IPV6 : text := txt ".ipv6-literal.net".

(** The host of the authority, if UNC can express it *)
Definition unc_host (hostport : text) : option text :=
  match hostport with
  | 91 :: _ =>
      match find_char 93 hostport with
      | None => None
      | Some e =>
          let host6 := take (e - 1) (drop 1 hostport) in
          let after := drop (S e) hostport in
          if starts_with after [COLON] then None else Some (replace_char COLON 45 host6 ++ IPV6)
      end
  | _ => if has_code COLON hostport then None else Some hostport
  end.

(** The text after the credentials *)
Definition drop_userinfo (rest : text) : text :=
  match find_char AT rest with
  | None => rest
  | Some a =>
      match find_char SLASH rest with
      | Some s => if (a <? s)%nat then drop (S a) rest else rest
      | None => drop (S a) rest
      end
  end.

Definition unc_text (host : text) (segs : list text) : text :=
  let body := join_text BACKSLASH segs in
  if nonempty body then UNC_ROOT ++ host ++ BACKSLASH :: body else UNC_ROOT ++ host.

Definition _derive_unc_from_url (u : text) : option text :=
  if bool_decide (u = []) || negb (starts_with (tlower uni_lower u) SMB) then None
  else
    let rest := drop_userinfo (drop (length SMB) u) in
    let '(hostport, pathpart) := match find_char SLASH rest with
      | None => (rest, [])
      | Some s => (take s rest, drop (S s) rest)
      end in
    match unc_host hostport with
    | None | Some [] => None
    | Some host => Some (unc_text host (segments pathpart))
    end.

Definition _derive_url_from_unc (u : text) : option text :=
  if bool_decide (u = []) || negb (starts_with u UNC_ROOT) then None
  else match segments (replace_char BACKSLASH SLASH (drop 2 u)) with
  | [] => None
  | host :: segs =>
      let host := if ends_with (tlower uni_lower host) IPV6
        then [91] ++ replace_char 45 COLON (drop_last (length IPV6) host) ++ [93] else host in
      let body := join_text SLASH segs in
      Some (if nonempty body then SMB ++ host ++ SLASH :: body else SMB ++ host)
  end.

Definition _location_from_prefix (prefix : text) : ShareLocation :=
  match classify_prefix prefix with
  | unc_ => mkLocation (_derive_url_from_unc prefix) (Some prefix)
  | url_ =>
      if starts_with (tlower uni_lower prefix) SMB then mkLocation (Some prefix) (_derive_unc_from_url prefix)
      else mkLocation (Some prefix) None
  | _ => mkLocation (Some prefix) None
  end.

(** [None] and the empty text are falsy. *)
Definition given (t : option text) : option text := match t with Some (c :: t) => Some (c :: t) | _ => None end.

Definition resolve_for_agent (mappings : list ShareMapping) (agent_id : option text) (local_path : text) : option ShareLocation :=
  match _select_mapping mappings agent_id local_path with
  | None => None
  | Some (best, remainder) =>
      let u := _join_share (share_prefix best) remainder in
      Some (match given (m_unc best) with
        | Some w => mkLocation (Some u) (Some (_join_share w remainder))
        | None => _location_from_prefix u
        end)
  end.

(** ** The mount map that the deployment writes *)

Record ShareMapEntry := mkEntry {
  container_prefix : text;
  share_url : text;
  e_storage_type : option text;
  e_host : option text;
  e_unc : option text;
}.

Record ShareHint := mkHint {
  h_share_url : text;
  h_scheme : ShareScheme;
  h_unc : option text;
  h_storage_type : option text;
  h_host : option text;
}.

Inductive share_error := UnicodeDecodeError | NoAttribute.

Definition validate_entry (l : list (text * json)) : option ShareMapEntry :=
  p ← dict_get (txt "container_prefix") l ≫= str_field;
  u ← dict_get (txt "share_url") l ≫= str_field;
  s ← opt_field "storage_type" l; h ← opt_field "host" l; w ← opt_field "unc" l;
  Some (mkEntry p u s h w).

Definition parse_row (row : json) : option ShareMapEntry :=
  match row with
  | JDict l =>
      e ← validate_entry l;
      if bool_decide (strip_space (container_prefix e) = []) || bool_decide (strip_space (share_url e) = []) then None else Some e
  | _ => None
  end.

(** Reading in text mode: each end of a line becomes a line feed. *)
Fixpoint universal_newlines (t : text) : text :=
  match t with
  | 13 :: ((10 :: _) as t') => universal_newlines t'
  | 13 :: t' => 10 :: universal_newlines t'
  | c :: t' => c :: universal_newlines t'
  | [] => []
  end.

(** The file: its modification time and its bytes, each unless the system refuses *)
Record map_file := mkFile { mtime : option spec_float; content : option (list Z) }.

(** The module's variables *)
Record map_cache := mkCache { _cache : option (spec_float * list ShareMapEntry); _missing_logged : bool }.
Definition reset_cache : map_cache := mkCache None false.

(** -1.0 *)
Definition ABSENT : spec_float := S754_finite true (2 ^ 52) (- 52).

Definition resolve (entries : list ShareMapEntry) (path : text) : option ShareHint :=
  let target := _norm_local path in
  let step best e :=
    let base := _norm_local (container_prefix e) in
    if covers base target && match best with Some (_, n) => (n <? length base)%nat | None => true end then Some (e, length base)
    else best in
  match foldl step None entries with
  | None => None
  | Some (best, _) =>
      let remainder := drop (length (segments (_norm_local (container_prefix best)))) (segments target) in
      Some (mkHint (_join_share (share_url best) remainder) (classify_prefix (share_url best))
        ((λ w, _join_share w remainder) <$> given (e_unc best)) (e_storage_type best) (e_host best))
  end.

Section entries.
(** [json.loads]; [None]: [ValueError] *)
Context (json_loads : text → option json).

Definition _parse (raw : text) : list ShareMapEntry :=
  match json_loads raw with Some (JList l) => omap parse_row l | _ => [] end.

Definition get_entries (f : map_file) (c : map_cache) : map_cache * result share_error (list ShareMapEntry) :=
  match mtime f with
  | None =>
      match _cache c with
      | Some (t, l) => if SFeqb t ABSENT then (c, Ok l) else (mkCache (Some (ABSENT, [])) true, Ok [])
      | None => (mkCache (Some (ABSENT, [])) true, Ok [])
      end
  | Some t =>
      let load :=
        match content f with
        | None => (mkCache (Some (t, [])) (_missing_logged c), Ok [])
        | Some bytes =>
            match utf8_decode bytes with
            | None => (c, Err UnicodeDecodeError)
            | Some raw =>
                let entries := _parse (universal_newlines raw) in
                (mkCache (Some (t, entries)) false, Ok entries)
            end
        end in
      match _cache c with
      | Some (t', l) => if SFeqb t' t then (c, Ok l) else load
      | None => load
      end
  end.

(** [resolve(path)] without entries *)
Definition resolve_mounted (f : map_file) (c : map_cache) (path : text) : map_cache * result share_error (option ShareHint) :=
  let '(c, r) := get_entries f c in (c, entries <-! r; Ok (resolve entries path)).

Inductive prefix_source := manual | mount_map | none_.

Definition rel_segments (rel_path : text) : list text := segments (replace_char BACKSLASH SLASH rel_path).

Definition effective_library_share (f : map_file) (c : map_cache) (share_prefix : option text) (root_path : text) :
    map_cache * result share_error (option text * prefix_source) :=
  match given share_prefix with
  | Some p => (c, Ok (Some p, manual))
  | None =>
      let '(c, r) := resolve_mounted f c root_path in
      (c, hint <-! r; Ok (match hint with Some h => (Some (h_share_url h), mount_map) | None => (None, none_) end))
  end.

Definition item_share_url (f : map_file) (c : map_cache) (share_prefix : option text) (item_path rel_path : text) :
    map_cache * result share_error (option text) :=
  match given share_prefix with
  | Some p => (c, Ok (Some (_join_share p (rel_segments rel_path))))
  | None => let '(c, r) := resolve_mounted f c item_path in (c, hint <-! r; Ok (h_share_url <$> hint))
  end.

Definition hint_location (h : ShareHint) : ShareLocation := mkLocation (Some (h_share_url h)) (h_unc h).
Definition nowhere : ShareLocation := mkLocation None None.

Definition effective_library_share_location (f : map_file) (c : map_cache) (share_prefix : option text) (root_path : text) :
    map_cache * result share_error (ShareLocation * prefix_source) :=
  match given share_prefix with
  | Some p => (c, Ok (_location_from_prefix p, manual))
  | None =>
      let '(c, r) := resolve_mounted f c root_path in
      (c, hint <-! r; Ok (match hint with Some h => (hint_location h, mount_map) | None => (nowhere, none_) end))
  end.

Definition item_share_location (f : map_file) (c : map_cache) (share_prefix : option text) (item_path rel_path : text) :
    map_cache * result share_error ShareLocation :=
  match given share_prefix with
  | Some p => (c, Ok (_location_from_prefix (_join_share p (rel_segments rel_path))))
  | None => let '(c, r) := resolve_mounted f c item_path in (c, hint <-! r; Ok (default nowhere (hint_location <$> hint)))
  end.

(** ** The precedence among the sources *)

Inductive ShareSource := agent_hint | mapping | library.

Definition _agent_local_path (root_path rel_path : text) : text :=
  let base := rstrip SLASH (replace_char BACKSLASH SLASH root_path) in
  let rel := strip SLASH (replace_char BACKSLASH SLASH rel_path) in
  if nonempty rel then base ++ SLASH :: rel else base.

(** The URL of the agent's hint, if it has one; [Err]: the hint has no [get]. *)
Definition hinted (share_hint : option json) : result share_error (option text) :=
  match share_hint with
  | None => Ok None
  | Some j =>
      if negb (truthy j) then Ok None
      else match j with
      | JDict l => Ok (match dict_get (txt "share_url") l with Some (JText t) => given (Some t) | _ => None end)
      | _ => Err NoAttribute
      end
  end.

Definition resolve_item_share (f : map_file) (c : map_cache) (share_hint : option json) (source_agent_id : option text)
    (agent_mappings : list ShareMapping) (library_share_prefix : option text) (library_root_path item_path rel_path : text) :
    map_cache * result share_error (option text * option ShareSource) :=
  match hinted share_hint with
  | Err e => (c, Err e)
  | Ok (Some u) => (c, Ok (Some u, Some agent_hint))
  | Ok None =>
      let mapped := match source_agent_id with
        | Some a => given (resolve_share_url agent_mappings (Some a) (_agent_local_path library_root_path rel_path))
        | None => None
        end in
      match mapped with
      | Some u => (c, Ok (Some u, Some mapping))
      | None =>
          let '(c, r) := item_share_url f c library_share_prefix item_path rel_path in
          (c, u <-! r; Ok (match given u with Some u => (Some u, Some library) | None => (None, None) end))
      end
  end.
End entries.

(** ** Rows *)

Record AgentShareMap := mkShareMap {
  sm_id : Z;
  sm_agent_id : option Z;
  sm_library_id : option Z;
  sm_local_prefix : text;
  sm_share_prefix : text;
  sm_unc : option text;
  sm_storage_type : option text;
  sm_host : option text;
  sm_created_at : Z;
  sm_updated_at : Z;
}.

Definition uuid_text (u : Z) : text := txt (uuid_str u).

Definition mapping_of (m : AgentShareMap) : ShareMapping :=
  mkMapping (sm_local_prefix m) (sm_share_prefix m) (uuid_text <$> sm_agent_id m) (uuid_text <$> sm_library_id m) (sm_unc m).

(** [location] of [ShareMapOut] *)
Definition location_of (m : AgentShareMap) : ShareLocation :=
  default nowhere (resolve_for_agent [mapping_of m] (uuid_text <$> sm_agent_id m) (sm_local_prefix m)).

(** [share_prefixes] is a column of the libraries table (no entry: [NULL]); [file] and
    [cached] are the mount map and the process's copy. *)
Record Shares := mkShares {
  central : Central;
  share_prefixes : gmap Z text;
  share_maps : gmap Z AgentShareMap;
  maps_made : nat;
  file : map_file;
  cached : map_cache;
}.

Definition set_maps (s : Shares) (m : gmap Z AgentShareMap) (n : nat) : Shares :=
  mkShares (central s) (share_prefixes s) m n (file s) (cached s).
Definition set_cached (s : Shares) (c : map_cache) : Shares :=
  mkShares (central s) (share_prefixes s) (share_maps s) (maps_made s) (file s) c.

(** ** The operator's mappings *)

Definition _ALLOWED_URL_SCHEMES : list text := map txt ["smb"; "sftp"; "ftp"; "nfs"; "webdav"].
Definition _PREFIX_MAX : nat := 4096.

(** [None]: [HTTPException(422)] *)
Definition _normalize_local_prefix (raw : option text) : option text :=
  let p := strip_space (default [] raw) in
  if bool_decide (p = []) || (_PREFIX_MAX <? length p)%nat then None
  else let stripped := rstrip_any [SLASH; BACKSLASH] p in Some (if nonempty stripped then stripped else p).

Definition _url_has_credentials (u : text) : bool :=
  match find_text (txt "://") u with
  | None => false
  | Some i => has_code AT (take_while (λ c, negb (c =? SLASH)) (drop (i + 3) u))
  end.

(** [p[: p.find("://")].lower()] *)
Definition scheme_of (p : text) : text :=
  tlower uni_lower (take (default (length p - 1)%nat (find_text (txt "://") p)) p).

Definition _validate_share_prefix (raw : option text) : option text :=
  let p := strip_space (default [] raw) in
  if bool_decide (p = []) || (_PREFIX_MAX <? length p)%nat then None
  else match classify_prefix p with
  | url_ =>
      if _url_has_credentials p then None
      else if mem (scheme_of p) _ALLOWED_URL_SCHEMES then Some p else None
  | unc_ | posix_ => Some p
  | unknown_ => None
  end.

Definition _validate_unc (raw : option text) : option (option text) :=
  match raw with
  | None => Some None
  | Some raw =>
      let p := strip_space raw in
      if bool_decide (p = []) then Some None
      else if bool_decide (classify_prefix p = unc_) then Some (Some p) else None
  end.

Record ShareMapCreateIn := mkCreateIn {
  in_library_id : option Z;
  in_local_prefix : text;
  in_share_prefix : text;
  in_unc : option text;
  in_storage_type : option text;
  in_host : option text;
}.

(** Each field with its value when the request sets it *)
Record ShareMapUpdateIn := mkUpdateIn {
  up_library_id : option (option Z);
  up_local_prefix : option (option text);
  up_share_prefix : option (option text);
  up_unc : option (option text);
  up_storage_type : option (option text);
  up_host : option (option text);
}.

Definition at_most (n : nat) (t : option text) : bool := match t with Some t => (length t <=? n)%nat | None => true end.
Definition create_in_ok (b : ShareMapCreateIn) : bool :=
  nonempty (in_local_prefix b) && nonempty (in_share_prefix b) && at_most 64 (in_storage_type b) && at_most 255 (in_host b).
Definition update_in_ok (b : ShareMapUpdateIn) : bool :=
  at_most 64 (default None (up_storage_type b)) && at_most 255 (default None (up_host b)).

(** Does the table take the text columns of the row, and its unique index the key *)
Definition row_ok (index_ok : text → bool) (m : AgentShareMap) : bool :=
  let opt t := match t with Some t => column_ok t | None => true end in
  column_ok (sm_local_prefix m) && index_ok (sm_local_prefix m) && column_ok (sm_share_prefix m) && opt (sm_unc m) &&
  opt (sm_storage_type m) && opt (sm_host m).

Definition same_key (agent_id library_id : option Z) (local_prefix : text) (m : AgentShareMap) : bool :=
  bool_decide (sm_agent_id m = agent_id) && bool_decide (sm_library_id m = library_id) &&
  bool_decide (sm_local_prefix m = local_prefix).

Definition _dup_exists (s : Shares) (agent_id library_id : option Z) (local_prefix : text) (exclude_id : option Z) : bool :=
  existsb (λ '(i, m), same_key agent_id library_id local_prefix m && negb (bool_decide (exclude_id = Some i)))
    (map_to_list (share_maps s)).

Definition has_library (s : Shares) (library_id : option Z) : bool :=
  match library_id with
  | None => true
  | Some l => existsb (λ x, al_id x =? l) (libraries (central s))
  end.

Inductive share_reply :=
  | SHttpError (status : Z)
  | SMap (m : AgentShareMap) (loc : ShareLocation)
  | SMaps (l : list (AgentShareMap * ShareLocation))
  | SNoContent
  | SResolved (u : option text) (source : option ShareSource).

Definition out (m : AgentShareMap) : AgentShareMap * ShareLocation := (m, location_of m).

Section api.
Context (json_loads : text → option json) (sha256 : string → string) (auth_enabled : bool) (_roles : gmap string Role).
Context (settings : SyncSettings).
(** The ids of the rows inserted, the keys the unique index takes, the order of a query
    without [ORDER BY] *)
Context (new_map : nat → Z) (index_ok : text → bool) (map_order : list AgentShareMap → list AgentShareMap).

Definition create_share_map (s : Shares) (agent_id : Z) (b : ShareMapCreateIn) (now : Z) : Shares * share_reply :=
  if negb (create_in_ok b) then (s, SHttpError 422)
  else if negb (bool_decide (is_Some (agents (central s) !! agent_id))) then (s, SHttpError 404)
  else if negb (has_library s (in_library_id b)) then (s, SHttpError 404)
  else match _normalize_local_prefix (Some (in_local_prefix b)), _validate_share_prefix (Some (in_share_prefix b)), _validate_unc (in_unc b) with
  | Some local_prefix, Some share_prefix, Some w =>
      if negb (column_ok local_prefix) then (s, SHttpError 500)
      else if _dup_exists s (Some agent_id) (in_library_id b) local_prefix None then (s, SHttpError 409)
      else
        let m := mkShareMap (new_map (maps_made s)) (Some agent_id) (in_library_id b) local_prefix share_prefix w
          (in_storage_type b) (in_host b) now now in
        if row_ok index_ok m && bool_decide (share_maps s !! sm_id m = None) then
          (set_maps s (<[sm_id m := m]> (share_maps s)) (S (maps_made s)), SMap m (location_of m))
        else (s, SHttpError 500)
  | _, _, _ => (s, SHttpError 422)
  end.

Definition newest_first (a b : AgentShareMap) : Prop := sm_id b ≤ sm_id a.
Local Instance newest_first_dec a b : base.Decision (newest_first a b) := Z_le_dec (sm_id b) (sm_id a).

Definition list_share_maps (s : Shares) (agent_id library_id : option Z) (global_only : bool) (limit : Z) : share_reply :=
  let limit := Z.max 1 (Z.min limit 500) in
  let keep (m : AgentShareMap) :=
    (if global_only then bool_decide (sm_agent_id m = None)
     else match agent_id with Some a => bool_decide (sm_agent_id m = Some a) | None => true end) &&
    match library_id with Some l => bool_decide (sm_library_id m = Some l) | None => true end in
  SMaps (map out (take (Z.to_nat limit) (filterb keep (merge_sort newest_first (map snd (map_to_list (share_maps s))))))).

Definition get_share_map (s : Shares) (map_id : Z) : share_reply :=
  match share_maps s !! map_id with Some m => SMap m (location_of m) | None => SHttpError 404 end.

(** A column after a request: the new value, checked, if the request sets the field *)
Definition patched {A B} (validate : A → option B) (old : B) (field : option A) : option B :=
  match field with Some raw => validate raw | None => Some old end.

Definition update_share_map (s : Shares) (map_id : Z) (b : ShareMapUpdateIn) (now : Z) : Shares * share_reply :=
  if negb (update_in_ok b) then (s, SHttpError 422)
  else match share_maps s !! map_id with
  | None => (s, SHttpError 404)
  | Some m =>
      let new_library := default (sm_library_id m) (up_library_id b) in
      match patched _normalize_local_prefix (sm_local_prefix m) (up_local_prefix b) with
      | None => (s, SHttpError 422)
      | Some new_local =>
          if bool_decide (is_Some (up_library_id b)) && negb (has_library s new_library) then (s, SHttpError 404)
          else match patched _validate_share_prefix (sm_share_prefix m) (up_share_prefix b), patched _validate_unc (sm_unc m) (up_unc b) with
          | Some share_prefix, Some w =>
              let storage := default (sm_storage_type m) (up_storage_type b) in
              let host := default (sm_host m) (up_host b) in
              let m' := mkShareMap (sm_id m) (sm_agent_id m) new_library new_local share_prefix w storage host (sm_created_at m) now in
              (* the query flushes the columns already assigned *)
              let flushed := mkShareMap (sm_id m) (sm_agent_id m) (sm_library_id m) (sm_local_prefix m) share_prefix w storage host
                (sm_created_at m) (sm_updated_at m) in
              if bool_decide (is_Some (up_local_prefix b)) || bool_decide (is_Some (up_library_id b)) then
                if negb (row_ok index_ok flushed && column_ok new_local) then (s, SHttpError 500)
                else if _dup_exists s (sm_agent_id m) new_library new_local (Some map_id) then (s, SHttpError 409)
                else if row_ok index_ok m' then (set_maps s (<[map_id := m']> (share_maps s)) (maps_made s), SMap m' (location_of m'))
                else (s, SHttpError 500)
              else if row_ok index_ok m' then (set_maps s (<[map_id := m']> (share_maps s)) (maps_made s), SMap m' (location_of m'))
              else (s, SHttpError 500)
          | _, _ => (s, SHttpError 422)
          end
      end
  end.

Definition delete_share_map (s : Shares) (map_id : Z) : Shares * share_reply :=
  match share_maps s !! map_id with
  | None => (s, SHttpError 404)
  | Some _ => (set_maps s (delete map_id (share_maps s)) (maps_made s), SNoContent)
  end.

(** ** The location of an item *)

Definition agent_maps (s : Shares) (agent_id : Z) : list AgentShareMap :=
  filterb (λ m, match sm_agent_id m with Some a => a =? agent_id | None => true end) (map_order (map snd (map_to_list (share_maps s)))).

Definition _resolve_item_share (s : Shares) (item : Item) (lib : option AgentLibrary) : Shares * share_reply :=
  match lib with
  | None => (s, SResolved None None)
  | Some l =>
      let mappings := match i_source_agent_id item with Some a => map mapping_of (agent_maps s a) | None => [] end in
      let '(c, r) := resolve_item_share json_loads (file s) (cached s) (i_share_hint item) (uuid_text <$> i_source_agent_id item)
        mappings (share_prefixes s !! al_id l) (al_root_path l) (i_path item) (i_rel_path item) in
      (set_cached s c, match r with Ok (u, source) => SResolved u source | Err _ => SHttpError 500 end)
  end.

(** ** Requests *)

Inductive share_request :=
  | MCreate (agent_id : Z) (b : ShareMapCreateIn)
  | MList (agent_id library_id : option Z) (global_only : bool) (limit : Z)
  | MGet (map_id : Z)
  | MUpdate (map_id : Z) (b : ShareMapUpdateIn)
  | MDelete (map_id : Z).

(** The two dependencies of every route *)
Definition gate (scope : string) (call : OperatorCall) (now : Z) (handler : option string → Shares * share_reply) (s : Shares) :
    Shares * share_reply :=
  if negb (agents_enabled settings) then (s, SHttpError 404)
  else scoped sha256 auth_enabled _roles SHttpError scope call now handler s.

Definition serve (s : Shares) (call : OperatorCall) (now : Z) (q : share_request) : Shares * share_reply :=
  match q with
  | MCreate a b => gate "admin" call now (λ _, create_share_map s a b now) s
  | MList a l g n => gate "read" call now (λ _, (s, list_share_maps s a l g n)) s
  | MGet i => gate "read" call now (λ _, (s, get_share_map s i)) s
  | MUpdate i b => gate "admin" call now (λ _, update_share_map s i b now) s
  | MDelete i => gate "admin" call now (λ _, delete_share_map s i) s
  end.

(** What happens to the table: a request, or another part of the system leaves another
    catalogue and the foreign keys delete along; the file is written. *)
Inductive share_step :=
  | SRequest (call : OperatorCall) (now : Z) (q : share_request)
  | SElsewhere (c : Central) (prefixes : gmap Z text) (f : map_file)
  | SResolve (item : Item) (lib : option AgentLibrary).

Definition orphan (c : Central) (m : AgentShareMap) : bool :=
  match sm_agent_id m with Some a => bool_decide (agents c !! a = None) | None => false end ||
  match sm_library_id m with Some l => negb (existsb (λ x, al_id x =? l) (libraries c)) | None => false end.

Definition step (s : Shares) (x : share_step) : Shares :=
  match x with
  | SRequest call now q => (serve s call now q).1
  | SElsewhere c prefixes f => mkShares c prefixes (filter (λ '(_, m), orphan c m = false) (share_maps s)) (maps_made s) f (cached s)
  | SResolve item lib => (_resolve_item_share s item lib).1
  end.

Definition run (s : Shares) (xs : list share_step) : Shares := foldl step s xs.
End api.
End share.
