(* ===== verification/ShareMapFacts.v ===== *)
(** * Facts about share locations

    The mapping selected is the most specific one that covers the path, a URL and its
    Windows form name the same place, and no link that a stored mapping yields carries
    credentials or a scheme outside the allow-list. *)
From S2P Require Import Prelude PyStr Uuid Utf8 PathLabel Text Json PyNum Catalog Rbac Access AgentSync ShareMap.
From Stdlib Require Import SpecFloat.
From stdpp Require Import options.

(** ** Text *)

Lemma segments_app a b : segments (a ++ SLASH :: b) = segments a ++ segments b.
Proof. unfold segments. by rewrite split_text_app, List.filter_app. Qed.

(** A name: what stands between two separators *)
Definition name (s : text) : Prop := s ≠ [] ∧ SLASH ∉ s.

Lemma split_text_sep sep t s : s ∈ split_text sep t → sep ∉ s.
Proof.
  revert s. induction t as [|c t IH]; intros s; cbn; [intros ->%list_elem_of_singleton; apply not_elem_of_nil|].
  destruct (Z.eqb_spec c sep) as [->|Hc].
  - intros [->|Hs]%elem_of_cons; [apply not_elem_of_nil|by apply IH].
  - destruct (split_text sep t) as [|w ws]; [intros ->%list_elem_of_singleton; intros ->%list_elem_of_singleton; done|].
    intros [->|Hs]%elem_of_cons; [|by apply IH; right].
    intros [?|Hw]%elem_of_cons; [by subst|]. revert Hw. apply IH. left.
Qed.

Lemma segments_names t : Forall name (segments t).
Proof.
  apply Forall_forall. intros s Hs. unfold segments in Hs. apply elem_of_filterb in Hs as [Hs Hn]. split.
  - intros ->. done.
  - by apply split_text_sep in Hs.
Qed.

Lemma drop_names n t : Forall name (drop n (segments t)).
Proof. apply Forall_drop, segments_names. Qed.

Lemma covers_segments base target :
  covers base target = true → segments target = segments base ++ drop (length (segments base)) (segments target).
Proof.
  unfold covers. intros [[H|H]%orb_true_iff|H]%orb_true_iff.
  - apply bool_decide_eq_true in H as ->. by rewrite drop_all, app_nil_r.
  - apply bool_decide_eq_true in H as ->. done.
  - apply starts_with_spec in H as [r ->]. rewrite <- app_assoc. cbn [app]. rewrite segments_app, drop_app_length. done.
Qed.

(** ** The selection *)

Definition eligible (agent_id : option text) (target : text) (m : ShareMapping) : bool :=
  applies agent_id m && covers (_norm_local (local_prefix m)) target.

(** The length of the prefix, then whether the mapping names an agent *)
Definition rank (m : ShareMapping) : nat :=
  (2 * length (_norm_local (local_prefix m)) + (if bool_decide (is_Some (m_agent_id m)) then 1 else 0))%nat.

(** The first of the highest rank *)
Definition first_best (ok : ShareMapping → bool) (ms : list ShareMapping) (m : ShareMapping) : Prop :=
  ∃ before after, ms = before ++ m :: after ∧ ok m = true ∧
    (∀ x, x ∈ before → ok x = true → (rank x < rank m)%nat) ∧ (∀ x, x ∈ after → ok x = true → (rank x ≤ rank m)%nat).

Definition selected (ok : ShareMapping → bool) (ms : list ShareMapping) (best : option (ShareMapping * nat * bool)) : Prop :=
  match best with
  | None => ∀ m, m ∈ ms → ok m = false
  | Some (m, n, b) => n = length (_norm_local (local_prefix m)) ∧ b = bool_decide (is_Some (m_agent_id m)) ∧ first_best ok ms m
  end.

Lemma rank_lt_arith n n' (b b' : bool) :
  (n <? n')%nat || (n' =? n)%nat && b' && negb b = true →
  (2 * n + (if b then 1 else 0) < 2 * n' + (if b' then 1 else 0))%nat.
Proof. destruct (Nat.ltb_spec n n'), (Nat.eqb_spec n' n), b, b'; cbn; intros H'; try discriminate H'; lia. Qed.

Lemma rank_le_arith n n' (b b' : bool) :
  (n <? n')%nat || (n' =? n)%nat && b' && negb b = false →
  (2 * n' + (if b' then 1 else 0) ≤ 2 * n + (if b then 1 else 0))%nat.
Proof. destruct (Nat.ltb_spec n n'), (Nat.eqb_spec n' n), b, b'; cbn; intros H'; try discriminate H'; lia. Qed.

Lemma first_best_skip ok ms best m :
  first_best ok ms best → (ok m = true → (rank m ≤ rank best)%nat) → first_best ok (ms ++ [m]) best.
Proof.
  intros (before & after & -> & Hb & H1 & H2) Hm. exists before, (after ++ [m]). rewrite <- app_assoc. split; [done|].
  do 2 (split; [done|]). intros x [Hx| ->%list_elem_of_singleton]%elem_of_app Hok; auto.
Qed.

Lemma first_best_take ok ms m :
  ok m = true → (∀ x, x ∈ ms → ok x = true → (rank x < rank m)%nat) → first_best ok (ms ++ [m]) m.
Proof. intros Hm H. exists ms, []. split; [done|]. do 2 (split; [done|]). intros x Hx. by apply elem_of_nil in Hx. Qed.

Lemma first_best_bound ok ms best x : first_best ok ms best → x ∈ ms → ok x = true → (rank x ≤ rank best)%nat.
Proof.
  intros (before & after & -> & Hb & H1 & H2) [Hx|[ ->|Hx]%elem_of_cons]%elem_of_app Hok; [|done|auto].
  apply Nat.lt_le_incl. auto.
Qed.

Lemma select_one_selected agent_id target ms best m :
  selected (eligible agent_id target) ms best →
  selected (eligible agent_id target) (ms ++ [m]) (select_one agent_id target best m).
Proof.
  intros H. unfold select_one.
  assert (Hskip : eligible agent_id target m = false → selected (eligible agent_id target) (ms ++ [m]) best).
  { intros Hm. destruct best as [[[b n] s]|]; cbn.
    - destruct H as (-> & -> & H). do 2 (split; [done|]). apply first_best_skip; [done|]. by rewrite Hm.
    - intros x [Hx| ->%list_elem_of_singleton]%elem_of_app; [by apply H|done]. }
  destruct (negb (applies agent_id m)) eqn:Ha.
  { apply Hskip. unfold eligible. apply negb_true_iff in Ha as ->. done. }
  destruct (negb (covers _ _)) eqn:Hc.
  { apply Hskip. unfold eligible. apply negb_true_iff in Hc as ->. by rewrite andb_false_r. }
  apply negb_false_iff in Ha, Hc.
  assert (Hm : eligible agent_id target m = true) by (unfold eligible; by rewrite Ha, Hc).
  destruct best as [[[b n] s]|]; cbn [selected] in H.
  - destruct H as (-> & -> & H). destruct (_ || _) eqn:E; cbn [selected]; do 2 (split; [done|]).
    + apply first_best_take; [done|]. intros x Hx Hok. eapply Nat.le_lt_trans; [by eapply first_best_bound|].
      unfold rank. by apply rank_lt_arith.
    + apply first_best_skip; [done|]. intros _. unfold rank. by apply rank_le_arith.
  - cbn. do 2 (split; [done|]). apply first_best_take; [done|]. intros x Hx Hok. by rewrite H in Hok.
Qed.

Lemma select_all agent_id target ms :
  selected (eligible agent_id target) ms (foldl (select_one agent_id target) None ms).
Proof.
  induction ms as [|m ms IH] using rev_ind; [by intros m ?%elem_of_nil|].
  rewrite foldl_app. cbn. by apply select_one_selected.
Qed.

(** What [ShareMapping] documents: a mapping is scoped to one agent and/or one library, and
    covers its prefix and everything below it. *)
Definition in_library (library_id : option text) (m : ShareMapping) : bool :=
  match m_library_id m with Some l => bool_decide (library_id = Some l) | None => true end.
Definition documented (agent_id library_id : option text) (target : text) (m : ShareMapping) : bool :=
  eligible agent_id target m && in_library library_id m.

Lemma first_best_ext ok ok' ms m : (∀ x, x ∈ ms → ok x = ok' x) → first_best ok ms m → first_best ok' ms m.
Proof.
  intros He (before & after & -> & Hm & H1 & H2). exists before, after.
  assert (∀ x, x ∈ before ∨ x = m ∨ x ∈ after → ok x = ok' x) as Hx by (intros x Hx; apply He; set_solver).
  split; [done|]. split; [rewrite <- Hx by auto; done|].
  split; intros x Hin Hok; rewrite <- Hx in Hok by auto; auto.
Qed.

(** C33: for an agent, a library and a path, among mappings none of which is scoped to
    another library: the mapping taken is one whose agent and library scope admits the two
    and whose normalised prefix is the path or a directory above it; among those it is the
    first with the longest prefix, a mapping that names the agent before one for every
    agent; the leftover segments are exactly the path's beyond the prefix; and no mapping is
    taken only when none is in scope and covers the path.  The documented library scope is
    not implemented, so a mapping scoped to another library is taken like any other
    (Demo.library_scope_ignored): the claim does not cover tables that have one. *)
Theorem share_selection ms agent_id library_id path :
  (∀ m, m ∈ ms → in_library library_id m = true) →
  match _select_mapping ms agent_id path with
  | None => ∀ m, m ∈ ms → documented agent_id library_id (_norm_local path) m = false
  | Some (m, rest) =>
      first_best (documented agent_id library_id (_norm_local path)) ms m ∧
      segments (_norm_local path) = segments (_norm_local (local_prefix m)) ++ rest
  end.
Proof.
  intros Hlib. unfold _select_mapping. pose proof (select_all agent_id (_norm_local path) ms) as H.
  assert (∀ m, m ∈ ms → eligible agent_id (_norm_local path) m = documented agent_id library_id (_norm_local path) m) as He.
  { intros m Hm. unfold documented. by rewrite Hlib, andb_true_r. }
  destruct (foldl _ _ _) as [[[m n] b]|]; cbn in H.
  - destruct H as (_ & _ & H). split; [by eapply first_best_ext|].
    destruct H as (before & after & _ & Hm & _). unfold eligible in Hm. apply andb_true_iff in Hm as [_ Hm].
    by apply covers_segments.
  - intros m Hm. rewrite <- He by done. by apply H.
Qed.

(** ** Joining and splitting again *)

Lemma segments_name w : name w → segments w = [w].
Proof.
  intros [Hne Hs]. unfold segments. rewrite split_fresh by done. cbn. unfold nonempty. by rewrite bool_decide_eq_false_2.
Qed.

Lemma segments_join l : Forall name l → segments (join_text SLASH l) = l.
Proof.
  induction 1 as [|w [|w' l] Hw Hl IH]; [done|by apply segments_name|].
  change (join_text SLASH (w :: w' :: l)) with (w ++ SLASH :: join_text SLASH (w' :: l)).
  by rewrite segments_app, segments_name, IH.
Qed.

Lemma replace_fresh a b t : a ∉ t → replace_char a b t = t.
Proof.
  induction t as [|c t IH]; intros H; [done|]. apply not_elem_of_cons in H as [Hc H]. unfold replace_char in *. cbn.
  rewrite IH by done. destruct (Z.eqb_spec c a); [by subst|done].
Qed.

Lemma replace_join a b l : Forall (λ w, a ∉ w) l → replace_char a b (join_text a l) = join_text b l.
Proof.
  induction 1 as [|w [|w' l] Hw Hl IH]; [done|by apply replace_fresh|].
  change (join_text a (w :: w' :: l)) with (w ++ a :: join_text a (w' :: l)). unfold replace_char in *.
  rewrite map_app. cbn [map]. rewrite IH, Z.eqb_refl. by rewrite (replace_fresh a b w Hw : map _ w = w).
Qed.

Lemma find_char_none c t : c ∉ t → find_char c t = None.
Proof.
  unfold find_char. induction t as [|d t IH]; intros H; [done|]. apply not_elem_of_cons in H as [Hd H]. cbn. rewrite IH by done.
  destruct (Z.eqb_spec d c); [by subst|done].
Qed.

Lemma find_char_here c a b : c ∉ a → find_char c (a ++ c :: b) = Some (length a).
Proof.
  unfold find_char. induction a as [|d a IH]; intros H; cbn; [by rewrite Z.eqb_refl; destruct b|].
  apply not_elem_of_cons in H as [Hd H]. rewrite IH by done. destruct (Z.eqb_spec d c); [by subst|done].
Qed.

Lemma find_char_beyond c a b n : c ∉ a → find_char c (a ++ b) = Some n → (length a ≤ n)%nat.
Proof.
  unfold find_char. revert n. induction a as [|d a IH]; intros n H; [intros _; apply Nat.le_0_l|].
  apply not_elem_of_cons in H as [Hd H]. cbn. destruct (Z.eqb_spec d c); [by subst|]. cbn.
  destruct (find_text [c] (a ++ b)) as [k|]; [|done]. intros [= <-]. by apply le_n_S, IH.
Qed.

Lemma drop_userinfo_plain h x : AT ∉ h → SLASH ∉ h → drop_userinfo (h ++ SLASH :: x) = h ++ SLASH :: x.
Proof.
  intros Ha Hs. unfold drop_userinfo. destruct (find_char AT _) as [n|] eqn:E; [|done].
  apply find_char_beyond in E; [|done]. rewrite find_char_here by done. by destruct (Nat.ltb_spec n (length h)); [exfalso; lia|].
Qed.

Lemma has_code_fresh c t : c ∉ t → has_code c t = false.
Proof.
  unfold has_code. induction t as [|d t IH]; intros H; [done|]. apply not_elem_of_cons in H as [Hd H]. cbn. rewrite IH by done.
  destruct (Z.eqb_spec c d); [by subst|done].
Qed.

(** ** What follows a scheme *)

Definition MARK : text := txt "://".
Definition authority (r : text) : text := take_while (λ c, negb (c =? SLASH)) r.

Lemma authority_app x y : y = [] ∨ starts_with y [SLASH] = true → authority (x ++ y) = authority x.
Proof.
  intros Hy. induction x as [|c x IH]; cbn.
  - destruct Hy as [->|[r ->]%starts_with_spec]; done.
  - unfold authority in *. cbn. destruct (negb (c =? SLASH)); [|done]. by rewrite IH.
Qed.

Lemma find_mark s r : COLON ∉ s → find_text MARK (s ++ MARK ++ r) = Some (length s).
Proof.
  induction s as [|c s IH]; intros Hs; [by destruct r|]. apply not_elem_of_cons in Hs as [Hc Hs].
  cbn [app find_text length]. destruct (starts_with _ _) eqn:E; [|by rewrite (IH Hs)].
  cbn in E. apply andb_true_iff in E as [->%Z.eqb_eq _]. done.
Qed.

Lemma find_text_some sub t i : find_text sub t = Some i → ∃ r, t = take i t ++ sub ++ r ∧ (i ≤ length t)%nat.
Proof.
  revert i. induction t as [|c t IH]; intros i; cbn [find_text].
  - destruct (starts_with [] sub) eqn:E; [|done]. intros [= <-]. apply starts_with_spec in E as [r ->]. exists r. split; [done|apply Nat.le_0_l].
  - destruct (starts_with (c :: t) sub) eqn:E.
    + intros [= <-]. apply starts_with_spec in E as [r ->]. exists r. split; [done|apply Nat.le_0_l].
    + destruct (find_text sub t) as [k|]; [|done]. intros [= <-]. destruct (IH k eq_refl) as (r & H & Hk).
      exists r. split; [cbn; by rewrite <- H|cbn; by apply le_n_S].
Qed.

Lemma colon_unique s a s' b : COLON ∉ s → COLON ∉ s' → s ++ COLON :: a = s' ++ COLON :: b → s = s' ∧ a = b.
Proof.
  revert s'. induction s as [|c s IH]; intros [|c' s'] Hs Hs' H; cbn in H; injection H.
  - intros ->. done.
  - intros _ <-. destruct Hs'. left.
  - intros _ ->. destruct Hs. left.
  - intros H' <-. apply not_elem_of_cons in Hs as [_ Hs], Hs' as [_ Hs']. destruct (IH s' Hs Hs' H') as [-> ->]. done.
Qed.

Lemma lstrip_app c x y : lstrip c (x ++ y) = if bool_decide (lstrip c x = []) then lstrip c y else lstrip c x ++ y.
Proof. induction x as [|a x IH]; cbn; [done|]. by destruct (a =? c). Qed.

Lemma rstrip_app c x y : rstrip c (x ++ y) = if bool_decide (rstrip c y = []) then rstrip c x else x ++ rstrip c y.
Proof.
  unfold rstrip. rewrite rev_app_distr, lstrip_app.
  destruct (decide (lstrip c (rev y) = [])) as [E|E].
  - rewrite !bool_decide_eq_true_2 by (try rewrite E; done). done.
  - rewrite !bool_decide_eq_false_2; [by rewrite rev_app_distr, rev_involutive| |done].
    intros H. apply E. by rewrite <- (rev_involutive (lstrip _ _)), H.
Qed.

(** The run that is stripped *)
Lemma rstrip_split c t : ∃ k, t = rstrip c t ++ replicate k c.
Proof.
  induction t as [|a t [k IH]] using rev_ind; [by exists 0%nat|]. rewrite rstrip_app. cbn. destruct (Z.eqb_spec a c) as [->|Ha]; cbn.
  - exists (S k). rewrite IH at 1. rewrite <- app_assoc. f_equal. by rewrite <- replicate_cons_app.
  - by exists 0%nat; rewrite app_nil_r.
Qed.

Lemma replicate_sep k : replicate k SLASH = [] ∨ starts_with (replicate k SLASH) [SLASH] = true.
Proof. destruct k; [by left|by right; apply (starts_with_app [SLASH])]. Qed.

Lemma join_names_head sep l c t : Forall name l → join_text sep l = c :: t → c ≠ SLASH.
Proof.
  intros Hl. destruct l as [|w l]; [done|]. apply Forall_cons in Hl as [[Hw Hs] _]. destruct w as [|d w]; [done|].
  intros H ->. apply Hs. destruct l; cbn in H; injection H as ->; left.
Qed.

Section facts.
Context (uni_alpha uni_alnum : Z → bool) (uni_lower : Z → list Z).
Notation classify := (classify_prefix uni_alpha uni_alnum).
Notation join := (_join_share uni_alpha uni_alnum).

(** ** Locations that name a scheme *)

Lemma colon_not_alnum : isalnum uni_alnum COLON || bool_decide (COLON ∈ txt "+.-") = false.
Proof using Type. reflexivity. Qed.

(** The text of a URL: its scheme and what follows the mark *)
Definition url_parts (u s r : text) : Prop :=
  u = s ++ MARK ++ r ∧ COLON ∉ s ∧ ∃ c s', s = c :: s' ∧ isalpha uni_alpha c = true.

Lemma classify_url u : classify u = url_ → ∃ s r, url_parts u s r.
Proof using Type.
  unfold classify_prefix. destruct (bool_decide (u = [])); [done|]. destruct (starts_with u UNC_ROOT); [done|]. cbv zeta.
  destruct (find_text (txt "://") u) as [[|i]|] eqn:F; cycle 1.
  - destruct (_ && _) eqn:E; [|by destruct (starts_with u _)]. intros _. apply andb_true_iff in E as [Ha Hall].
    destruct (find_text_some _ _ _ F) as (r & H & Hi). exists (take (S i) u), r. split; [done|]. split.
    + intros Hc. rewrite forallb_forall in Hall. apply list_elem_of_In in Hc. apply Hall in Hc.
      by rewrite colon_not_alnum in Hc.
    + destruct u as [|c u]; [done|]. exists c, (take i u). done.
  - by destruct (starts_with u _).
  - by destruct (starts_with u _).
Qed.

Lemma url_parts_unique u s r s' r' : url_parts u s r → url_parts u s' r' → s = s' ∧ r = r'.
Proof using Type.
  intros (-> & Hs & _) (H & Hs' & _).
  assert (length s = length s') as Hl.
  { pose proof (find_mark s r Hs) as E. rewrite H, (find_mark s' r' Hs') in E. by injection E. }
  apply app_inj_1 in H as [-> H]; [|done]. split; [done|]. by injection H.
Qed.

Lemma url_parts_creds u s r : url_parts u s r → _url_has_credentials u = has_code AT (authority r).
Proof using Type.
  intros (-> & Hs & _). unfold _url_has_credentials. fold MARK. rewrite find_mark by done.
  replace (drop (length s + 3) (s ++ MARK ++ r)) with r; [done|].
  by rewrite <- drop_drop, drop_app_length.
Qed.

Lemma url_parts_scheme u s r : url_parts u s r → scheme_of uni_lower u = tlower uni_lower s.
Proof using Type.
  intros (-> & Hs & _). unfold scheme_of. fold MARK. rewrite find_mark by done. cbn [default]. f_equal. by apply take_app_length.
Qed.

(** A link is clean: a URL in it has an allowed scheme and no credentials. *)
Definition clean (u : text) : Prop :=
  classify u = url_ → _url_has_credentials u = false ∧ scheme_of uni_lower u ∈ _ALLOWED_URL_SCHEMES.

(** The form of a URL (RFC 3986): a scheme, [://], an authority up to the next slash, the rest *)
Definition letter (c : Z) : Prop := 65 ≤ c ≤ 90 ∨ 97 ≤ c ≤ 122.
Definition scheme_char (c : Z) : Prop := letter c ∨ 48 ≤ c ≤ 57 ∨ c = 43 ∨ c = 45 ∨ c = 46.
Definition url_form (u scheme auth rest : text) : Prop :=
  u = scheme ++ [58; 47; 47] ++ auth ++ rest ∧
  (∃ c s, scheme = c :: s ∧ letter c ∧ Forall scheme_char scheme) ∧ 47 ∉ auth ∧ (rest = [] ∨ ∃ t, rest = 47 :: t).

Lemma letter_alpha c : letter c → ascii_alpha c = true.
Proof using Type. clear. unfold letter, ascii_alpha. lia. Qed.

Lemma scheme_char_ok c : scheme_char c → c ≠ COLON ∧ c ≠ BACKSLASH ∧ isalnum uni_alnum c || bool_decide (c ∈ txt "+.-") = true.
Proof using Type.
  intros [H|[H|H]].
  - split; [|split]; [by intros ->; unfold letter, COLON in H; clear -H; lia|by intros ->; unfold letter, BACKSLASH in H; clear -H; lia|].
    unfold isalnum. by rewrite letter_alpha.
  - split; [|split]; [by intros ->; unfold COLON in H; clear -H; lia|by intros ->; unfold BACKSLASH in H; clear -H; lia|].
    unfold isalnum. assert ((48 <=? c) && (c <=? 57) = true) as -> by (clear -H; lia). by rewrite orb_true_r.
  - destruct H as [->|[->| ->]]; split_and!; try done; by rewrite bool_decide_eq_true_2, orb_true_r by (by apply (bool_decide_unpack _)).
Qed.

Lemma authority_form auth rest : 47 ∉ auth → (rest = [] ∨ ∃ t, rest = 47 :: t) → authority (auth ++ rest) = auth.
Proof using Type.
  intros Ha Hr. induction auth as [|c auth IH]; cbn.
  - by destruct Hr as [->|[t ->]].
  - apply not_elem_of_cons in Ha as [Hc Ha]. unfold authority in *. cbn. destruct (Z.eqb_spec c SLASH) as [->|]; [done|]. cbn. by rewrite IH.
Qed.

Lemma clean_form u scheme auth rest :
  clean u → url_form u scheme auth rest → AT ∉ auth ∧ tlower uni_lower scheme ∈ _ALLOWED_URL_SCHEMES.
Proof using Type.
  intros Hclean (Hu & (c & s & Hs & Hc & Hall) & Ha & Hr).
  assert (COLON ∉ scheme) as Hcol.
  { intros Hin. rewrite Forall_forall in Hall. by destruct (scheme_char_ok COLON (Hall COLON Hin)). }
  assert (url_parts u scheme (auth ++ rest)) as Hp.
  { split; [exact Hu|]. split; [done|]. exists c, s. split; [done|]. unfold isalpha. by rewrite letter_alpha. }
  assert (classify u = url_) as Hurl.
  { unfold classify_prefix. rewrite (bool_decide_eq_false_2 (u = [])) by (by rewrite Hu, Hs).
    assert (starts_with u UNC_ROOT = false) as ->.
    { apply not_true_iff_false. intros [r H]%starts_with_spec. rewrite Hu, Hs in H. injection H as -> _.
      rewrite Forall_forall in Hall. by destruct (scheme_char_ok BACKSLASH (Hall BACKSLASH ltac:(rewrite Hs; left))) as (_ & ? & _). }
    cbv zeta. fold MARK. change [58; 47; 47] with MARK in Hu.
    assert (find_text MARK u = Some (length scheme)) as -> by (rewrite Hu; by apply find_mark).
    assert (length scheme = S (length s)) as -> by (by rewrite Hs).
    assert (match u with c :: _ => isalpha uni_alpha c | [] => false end = true) as ->.
    { rewrite Hu, Hs. cbn. unfold isalpha. by rewrite letter_alpha. }
    assert (take (S (length s)) u = scheme) as ->.
    { rewrite Hu. replace (S (length s)) with (length scheme) by (by rewrite Hs). apply take_app_length. }
    assert (forallb (λ c, isalnum uni_alnum c || bool_decide (c ∈ txt "+.-")) scheme = true) as ->; [|done].
    apply forallb_elem. intros x Hx. rewrite Forall_forall in Hall. by destruct (scheme_char_ok x (Hall x Hx)) as (_ & _ & ?). }
  destruct (Hclean Hurl) as [Hcr Hsch]. rewrite (url_parts_creds _ _ _ Hp), authority_form in Hcr by done.
  rewrite (url_parts_scheme _ _ _ Hp) in Hsch. split; [|done]. intros Hat.
  apply has_code_spec in Hat. congruence.
Qed.

(** What [_validate_share_prefix] admits *)
Definition vetted (p : text) : Prop := classify p ≠ unknown_ ∧ clean p.

Lemma validate_vetted raw p : _validate_share_prefix uni_alpha uni_alnum uni_lower raw = Some p → vetted p.
Proof using Type.
  unfold _validate_share_prefix. destruct (_ || _); [done|]. destruct (classify (strip_space (default [] raw))) eqn:E.
  - intros [= <-]. split; [by rewrite E|]. intros H. by rewrite E in H.
  - destruct (_url_has_credentials _) eqn:C; [done|]. destruct (mem _ _) eqn:M; [|done]. intros [= <-].
    split; [by rewrite E|]. intros _. split; [done|]. by apply bool_decide_eq_true in M.
  - intros [= <-]. split; [by rewrite E|]. intros H. by rewrite E in H.
  - done.
Qed.

Lemma join_shape p rel :
  ∃ y, join p rel = rstrip (if bool_decide (classify p = unc_) then BACKSLASH else SLASH) p ++ y ∧
    (y = [] ∨ y = (if bool_decide (classify p = unc_) then BACKSLASH else SLASH) :: join_text (if bool_decide (classify p = unc_) then BACKSLASH else SLASH) rel ∧
      join_text (if bool_decide (classify p = unc_) then BACKSLASH else SLASH) rel ≠ []).
Proof using Type.
  unfold _join_share. cbv zeta. set (sep := if bool_decide (classify p = unc_) then BACKSLASH else SLASH).
  unfold nonempty. destruct (bool_decide_reflect (join_text sep rel = [])) as [E|E]; cbn [negb].
  - exists []. rewrite app_nil_r. split; [done|by left].
  - eexists. split; [done|by right].
Qed.

(** A text that begins with a separator has no scheme. *)
Lemma classify_sep c t : c = SLASH ∨ c = BACKSLASH → classify (c :: t) ≠ url_.
Proof using Type.
  intros Hc H. apply classify_url in H as (s & r & H & _ & d & s' & -> & Ha). injection H as <- _.
  by destruct Hc as [->| ->].
Qed.

Lemma join_not_url p rel : classify p = unc_ ∨ classify p = posix_ → classify (join p rel) ≠ url_.
Proof using Type.
  intros Hp. set (sep := if bool_decide (classify p = unc_) then BACKSLASH else SLASH).
  assert (∃ c t, p = c :: t ∧ (c = SLASH ∨ c = BACKSLASH)) as (c & t & Hc & Hsep).
  { unfold classify_prefix in Hp. destruct (bool_decide_reflect (p = [])) as [E|E]; [by destruct Hp|].
    destruct (starts_with p UNC_ROOT) eqn:U; [apply starts_with_spec in U as [r ->]; do 2 eexists; split; [done|by right]|].
    assert (starts_with p [SLASH] = true) as [r ->]%starts_with_spec.
    { destruct (starts_with p [SLASH]); [done|]. cbv zeta in Hp.
      destruct (find_text _ _) as [[|i]|]; [| destruct (_ && _)|]; by destruct Hp. }
    do 2 eexists. split; [done|by left]. }
  destruct (join_shape p rel) as (y & -> & Hy). fold sep in Hy |- *.
  destruct (rstrip_split sep p) as [k Hk]. destruct (rstrip sep p) as [|d b].
  - cbn. destruct Hy as [->|[-> _]]; [done|]. apply classify_sep. unfold sep. destruct (bool_decide _); auto.
  - rewrite Hc in Hk. injection Hk as <- _. cbn. by apply classify_sep.
Qed.

Lemma join_clean p rel : vetted p → Forall name rel → clean (join p rel).
Proof using Type.
  intros [Hp Hcl] Hrel Hu. destruct (decide (classify p = url_)) as [E|E]; cycle 1.
  { exfalso. revert Hu. apply join_not_url. destruct (classify p); tauto. }
  destruct (Hcl E) as [Hat Hsch]. destruct (classify_url _ E) as (s & r & Hparts).
  rewrite (url_parts_creds _ _ _ Hparts) in Hat. rewrite (url_parts_scheme _ _ _ Hparts) in Hsch.
  destruct Hparts as (Hpe & Hs & Hhead).
  destruct (join_shape p rel) as (y & Hj & Hy). rewrite E, bool_decide_eq_false_2 in Hj, Hy by done.
  rewrite Hpe in Hj at 2. rewrite !rstrip_app in Hj. destruct (decide (rstrip SLASH r = [])) as [Er|Er].
  - (* only slashes after the scheme: the join loses the mark *)
    rewrite (bool_decide_eq_true_2 _ Er) in Hj. change (rstrip SLASH MARK) with [COLON] in Hj.
    rewrite bool_decide_eq_false_2, <- app_assoc in Hj by done. cbn [app] in Hj. exfalso.
    destruct (classify_url _ Hu) as (s' & r' & H' & Hs' & _). rewrite Hj in H'. cbn in H'.
    apply colon_unique in H' as [_ H']; [|done..]. destruct Hy as [->|[-> Hne]]; [done|]. injection H' as H'.
    by eapply (join_names_head SLASH rel SLASH).
  - rewrite !(bool_decide_eq_false_2 _ Er) in Hj. rewrite bool_decide_eq_false_2 in Hj by (intros [H _]%app_nil; done).
    rewrite <- !app_assoc in Hj.
    assert (url_parts (join p rel) s (rstrip SLASH r ++ y)) as Hparts' by (split; done).
    rewrite (url_parts_creds _ _ _ Hparts'), (url_parts_scheme _ _ _ Hparts'). split; [|done].
    destruct (rstrip_split SLASH r) as [k Hk]. rewrite Hk, authority_app in Hat by apply replicate_sep.
    rewrite authority_app; [done|]. destruct Hy as [->|[-> _]]; [by left|right; apply (starts_with_app [SLASH])].
Qed.

(** ** The two forms of a location *)

Definition url_text (host : text) (segs : list text) : text :=
  let body := join_text SLASH segs in if nonempty body then SMB ++ host ++ SLASH :: body else SMB ++ host.

(** A host that stands for itself in both forms: no port, no credentials, no IPv6 address *)
Definition plain_host (h : text) : Prop :=
  name h ∧ BACKSLASH ∉ h ∧ COLON ∉ h ∧ AT ∉ h ∧ starts_with h [91] = false ∧ ends_with (tlower uni_lower h) IPV6 = false.

Lemma nonempty_join sep l : Forall name l → nonempty (join_text sep l) = negb (bool_decide (l = [])).
Proof using Type.
  destruct 1 as [|w l [Hw _] _]; [done|]. destruct w as [|c w]; [done|]. by destruct l.
Qed.

Lemma smb_url rest : starts_with (tlower uni_lower (SMB ++ rest)) SMB = true.
Proof using Type. unfold tlower. rewrite bind_app. change (SMB ≫= lower_code uni_lower) with SMB. apply starts_with_app. Qed.

Lemma unc_host_plain h : plain_host h → unc_host h = Some h.
Proof using Type.
  intros ([Hne _] & _ & Hc & _ & Hb & _). unfold unc_host. rewrite has_code_fresh by done.
  destruct h as [|c h]; [done|]. cbn in Hb. destruct (Z.eqb_spec c 91) as [->|E]; [by destruct h|].
  destruct c as [|c|c]; try done. do 7 (destruct c as [c|c|]; try done).
Qed.

Lemma unc_of_url h segs : plain_host h → Forall name segs →
  _derive_unc_from_url uni_lower (url_text h segs) = Some (unc_text h segs).
Proof using Type.
  intros Hh Hsegs. pose proof Hh as ([Hne Hs] & Hb & Hc & Ha & _). unfold url_text, unc_text.
  rewrite !nonempty_join by done. unfold _derive_unc_from_url. destruct (bool_decide_reflect (segs = [])) as [->|Hne'].
  - cbn [negb]. rewrite smb_url, bool_decide_eq_false_2, drop_app_length by done. cbn [orb negb]. unfold drop_userinfo.
    rewrite (find_char_none AT h Ha), (find_char_none SLASH h Hs). rewrite (unc_host_plain h Hh). destruct h; done.
  - cbn [negb]. rewrite smb_url, bool_decide_eq_false_2, drop_app_length by done. cbn [orb negb].
    rewrite drop_userinfo_plain, find_char_here by done. rewrite take_app_length.
    replace (drop (S (length h)) (h ++ SLASH :: join_text SLASH segs)) with (join_text SLASH segs).
    + rewrite (unc_host_plain h Hh), segments_join by done. unfold unc_text. rewrite nonempty_join, bool_decide_eq_false_2 by done. destruct h; done.
    + by rewrite <- Nat.add_1_r, <- drop_drop, drop_app_length.
Qed.

Lemma url_of_unc h segs : plain_host h → Forall name segs → Forall (λ w, BACKSLASH ∉ w) segs →
  _derive_url_from_unc uni_lower (unc_text h segs) = Some (url_text h segs).
Proof using Type.
  intros (Hh & Hb & Hc & Ha & _ & He) Hsegs Hbs.
  assert (_derive_url_from_unc uni_lower (UNC_ROOT ++ join_text BACKSLASH (h :: segs)) = Some (url_text h segs)) as H.
  { unfold _derive_url_from_unc. rewrite (starts_with_app UNC_ROOT), bool_decide_eq_false_2 by done. cbn [negb orb].
    change (drop 2 (UNC_ROOT ++ ?x)) with x. rewrite replace_join by (by constructor).
    rewrite segments_join by (by constructor). by rewrite He. }
  rewrite <- H. f_equal. unfold unc_text. rewrite nonempty_join by done. by destruct segs.
Qed.

(** The URL form and the Windows form of a location name each other. *)
Lemma url_unc_roundtrip h segs : plain_host h → Forall name segs → Forall (λ w, BACKSLASH ∉ w) segs →
  (_derive_unc_from_url uni_lower (url_text h segs) ≫= _derive_url_from_unc uni_lower) = Some (url_text h segs) ∧
  (_derive_url_from_unc uni_lower (unc_text h segs) ≫= _derive_unc_from_url uni_lower) = Some (unc_text h segs).
Proof using Type.
  intros Hh Hs Hb. rewrite unc_of_url, url_of_unc by done. cbn. by rewrite unc_of_url, url_of_unc.
Qed.

(** A stored mapping yields clean links. *)
Lemma resolved_clean ms agent_id path u :
  (∀ m, m ∈ ms → vetted (share_prefix m)) → resolve_share_url uni_alpha uni_alnum ms agent_id path = Some u → clean u.
Proof using Type.
  intros Hms. unfold resolve_share_url, _select_mapping. pose proof (select_all agent_id (_norm_local path) ms) as H.
  destruct (foldl _ _ _) as [[[m n] b]|]; [|done]. destruct H as (_ & _ & before & after & -> & _).
  intros [= <-]. apply join_clean; [|apply drop_names]. apply Hms, elem_of_app. right. left.
Qed.

(** ** The table *)

Section table.
Context (json_loads : text → option json) (sha256 : string → string) (auth_enabled : bool) (_roles : gmap string Role).
Context (settings : SyncSettings) (new_map : nat → Z) (index_ok : text → bool).
Context (map_order : list AgentShareMap → list AgentShareMap).
Notation step := (step uni_alpha uni_alnum uni_lower json_loads sha256 auth_enabled _roles settings new_map index_ok map_order).
Notation run := (run uni_alpha uni_alnum uni_lower json_loads sha256 auth_enabled _roles settings new_map index_ok map_order).
Notation create := (create_share_map uni_alpha uni_alnum uni_lower new_map index_ok).
Notation update := (update_share_map uni_alpha uni_alnum uni_lower index_ok).

(** Rows stand under their ids, with a vetted location, one per scope and prefix. *)
Record maps_ok (maps : gmap Z AgentShareMap) : Prop := {
  maps_id i m : maps !! i = Some m → sm_id m = i;
  maps_vetted i m : maps !! i = Some m → vetted (sm_share_prefix m);
  maps_key i j m m' : maps !! i = Some m → maps !! j = Some m' →
    sm_agent_id m = sm_agent_id m' → sm_library_id m = sm_library_id m' → sm_local_prefix m = sm_local_prefix m' → i = j;
}.

Lemma maps_ok_sub maps maps' : maps' ⊆ maps → maps_ok maps → maps_ok maps'.
Proof using Type.
  intros Hsub [H1 H2 H3]. split.
  - intros i m H. eapply H1, lookup_weaken; done.
  - intros i m H. eapply H2, lookup_weaken; done.
  - intros i j m m' H H'. eapply H3; eapply lookup_weaken; done.
Qed.

Lemma dup_exists_false s agent_id library_id local_prefix x i m :
  _dup_exists s agent_id library_id local_prefix x = false → share_maps s !! i = Some m → x ≠ Some i →
  ¬ (sm_agent_id m = agent_id ∧ sm_library_id m = library_id ∧ sm_local_prefix m = local_prefix).
Proof using Type.
  intros H Hm Hx (Ha & Hl & Hp). assert (_dup_exists s agent_id library_id local_prefix x = true); [|congruence].
  unfold _dup_exists. apply existsb_exists. exists (i, m). split; [by apply list_elem_of_In, elem_of_map_to_list|].
  unfold same_key. rewrite Ha, Hl, Hp. apply andb_true_iff. split; [|by rewrite bool_decide_eq_false_2].
  by rewrite !bool_decide_eq_true_2.
Qed.

(** A row that no other row shares its key with may be written. *)
Lemma maps_ok_insert s m i :
  maps_ok (share_maps s) → sm_id m = i → vetted (sm_share_prefix m) →
  (∀ j m', share_maps s !! j = Some m' → i ≠ j →
     ¬ (sm_agent_id m' = sm_agent_id m ∧ sm_library_id m' = sm_library_id m ∧ sm_local_prefix m' = sm_local_prefix m)) →
  maps_ok (<[i := m]> (share_maps s)).
Proof using Type.
  intros [H1 H2 H3] Hid Hv Hkey. split.
  - intros j m' [[<- <-]|[_ H]]%lookup_insert_Some; [done|by apply H1].
  - intros j m' [[<- <-]|[_ H]]%lookup_insert_Some; [done|by eapply H2].
  - intros j k m1 m2 [[<- <-]|[Hj H]]%lookup_insert_Some [[<- <-]|[Hk H']]%lookup_insert_Some Ha Hl Hp; [done| | |by eapply H3].
    + by destruct (Hkey k m2 H' Hk).
    + by destruct (Hkey j m1 H Hj).
Qed.

Lemma create_ok s agent_id b now : maps_ok (share_maps s) → maps_ok (share_maps (create s agent_id b now).1).
Proof using Type.
  intros H. unfold create_share_map. do 3 (case_match; [done|]).
  destruct (_normalize_local_prefix _) as [p|]; [|done]. destruct (_validate_share_prefix _ _ _ _) as [u|] eqn:V; [|done].
  destruct (_validate_unc _ _ _); [|done]. case_match; [done|]. destruct (_dup_exists _ _ _ _ _) eqn:D; [done|]. cbv zeta.
  destruct (_ && _) eqn:E; [|done]. apply maps_ok_insert; [done..| |].
  - cbn. by eapply validate_vetted.
  - intros j m' Hj _. by eapply dup_exists_false.
Qed.

Lemma update_ok s i b now : maps_ok (share_maps s) → maps_ok (share_maps (update s i b now).1).
Proof using Type.
  intros H. unfold update_share_map. case_match; [done|]. destruct (share_maps s !! i) as [m|] eqn:Hm; [|done]. cbv zeta.
  destruct (patched _ _ (up_local_prefix b)) as [p|] eqn:Ep; [|done].
  case_match; [done|].
  destruct (patched _ _ (up_share_prefix b)) as [u|] eqn:Eu; [|done].
  destruct (patched _ _ (up_unc b)) as [w|]; [|done].
  assert (vetted u) as Hu.
  { unfold patched in Eu. destruct (up_share_prefix b) as [raw|]; [by eapply validate_vetted|]. injection Eu as <-. by eapply maps_vetted. }
  destruct (_ || _) eqn:Echg.
  - case_match; [done|]. destruct (_dup_exists _ _ _ _ _) eqn:D; [done|]. case_match; [|done].
    apply maps_ok_insert; [done|exact (maps_id _ H _ _ Hm)|done|]. intros j m' Hj Hij. eapply dup_exists_false; [done..|]. by intros [= ->].
  - case_match; [|done]. apply maps_ok_insert; [done|exact (maps_id _ H _ _ Hm)|done|]. cbn.
    apply orb_false_iff in Echg as [E1%bool_decide_eq_false E2%bool_decide_eq_false].
    unfold patched in Ep. destruct (up_local_prefix b); [by destruct E1|]. destruct (up_library_id b); [by destruct E2|]. injection Ep as <-.
    intros j m' Hj Hij (Ha & Hl & Hp). apply Hij. by eapply (maps_key _ H).
Qed.

Lemma share_serve_ok s call now q : maps_ok (share_maps s) →
  maps_ok (share_maps (serve uni_alpha uni_alnum uni_lower sha256 auth_enabled _roles settings new_map index_ok s call now q).1).
Proof using Type.
  intros H. unfold serve, gate. set (on := negb (agents_enabled settings)).
  assert (∀ scope h, (∀ by_, maps_ok (share_maps (h by_).1)) →
    maps_ok (share_maps (if on then (s, SHttpError 404) else scoped sha256 auth_enabled _roles SHttpError scope call now h s).1)) as gated.
  { intros scope h Hh. destruct on; [done|]. destruct (scoped _ _ _ _ _ _ _ _ _) as [s' r] eqn:E.
    apply scoped_cases in E as [-> |[by_ E]]; [done|]. specialize (Hh by_). by rewrite E in Hh. }
  destruct q; apply gated; intros _; [by apply create_ok|done|done|by apply update_ok|].
  unfold delete_share_map. destruct (share_maps s !! map_id); [|done]. cbn. by eapply maps_ok_sub, H; apply delete_subseteq.
Qed.

Lemma share_step_ok s x : maps_ok (share_maps s) → maps_ok (share_maps (step s x)).
Proof using Type.
  intros H. destruct x as [call now q|c prefixes f|item lib]; cbn [ShareMap.step].
  - by apply share_serve_ok.
  - cbn. by eapply maps_ok_sub, H; apply map_filter_subseteq.
  - unfold _resolve_item_share. destruct lib; [|done]. by destruct (resolve_item_share _ _ _ _ _ _ _ _ _ _ _).
Qed.

Lemma share_run_ok s xs : maps_ok (share_maps s) → maps_ok (share_maps (run s xs)).
Proof using Type. revert s. induction xs as [|x xs IH]; intros s H; cbn; [done|]. by apply IH, share_step_ok. Qed.

Lemma maps_ok_empty : maps_ok ∅.
Proof using Type. by split. Qed.

(** C34: whatever the operators' requests, and whatever else happens to the catalogue and the
    mount map's file: when a link that a mapping gives an item has the form of a URL, a
    scheme, [://] and an authority up to the next slash, then the authority holds no [@], so
    no credentials, and the scheme is one of the five that are allowed; and no two mappings
    have the same agent, library and prefix.  A link of another form, a UNC or a mount
    point, is not covered: credentials in a UNC are stored (Demo.unc_credentials), against
    the module's promise. *)
Theorem mapped_links_clean s xs item lib s' u :
  share_maps s = ∅ → (∀ l, map_order l ≡ₚ l) →
  _resolve_item_share uni_alpha uni_alnum json_loads map_order (run s xs) item lib = (s', SResolved (Some u) (Some mapping)) →
  (∀ scheme auth rest, url_form u scheme auth rest →
    64 ∉ auth ∧ tlower uni_lower scheme ∈ map txt ["smb"; "sftp"; "ftp"; "nfs"; "webdav"]) ∧
  (∀ i j m m', share_maps (run s xs) !! i = Some m → share_maps (run s xs) !! j = Some m' →
    sm_agent_id m = sm_agent_id m' → sm_library_id m = sm_library_id m' → sm_local_prefix m = sm_local_prefix m' → i = j).
Proof using Type.
  intros H0 Hord H. assert (maps_ok (share_maps (run s xs))) as Hok by (apply share_run_ok; rewrite H0; apply maps_ok_empty).
  split; [|apply (maps_key _ Hok)]. enough (clean u) as Hu by (intros ???; by apply clean_form). unfold _resolve_item_share in H. destruct lib as [l|]; [|done].
  unfold resolve_item_share in H. destruct (hinted _) as [[?|]|?]; [done| |done].
  destruct (i_source_agent_id item) as [a|]; cbn [fmap option_fmap option_map] in H.
  - destruct (given (resolve_share_url _ _ _ _ _)) as [v|] eqn:E.
    + injection H as _ <-. assert (resolve_share_url uni_alpha uni_alnum (map mapping_of (agent_maps map_order (run s xs) a)) (Some (uuid_text a))
        (_agent_local_path (al_root_path l) (i_rel_path item)) = Some v) as E'.
      { destruct (resolve_share_url _ _ _ _ _) as [[|c t]|]; [done|exact E|done]. }
      apply resolved_clean in E'; [exact E'|]. intros m Hm. apply list_elem_of_fmap in Hm as (r & -> & Hr).
      unfold agent_maps in Hr. apply elem_of_filterb in Hr as [Hr _]. rewrite Hord in Hr.
      apply list_elem_of_fmap in Hr as ([i m] & -> & Hm). apply elem_of_map_to_list in Hm. by eapply (maps_vetted _ Hok).
    + destruct (item_share_url _ _ _ _ _ _ _ _) as [c [[w|]|e]]; cbn in H; [|done|done]. by destruct w.
  - destruct (item_share_url _ _ _ _ _ _ _ _) as [c [[w|]|e]]; cbn in H; [|done|done]. by destruct w.
Qed.
End table.
End facts.

(** ** A concrete table *)

Module Demo.
(** Agent 7 hosts item 5 of its library 1, rooted at [C:\media]. *)
Definition agent7 : Agent := mkAgent 7 (txt "a") (txt "a") None None None 0 None None.
Definition lib1 : AgentLibrary := mkAgentLibrary 1 (txt "m") (txt "C:\media") (Some 7) (Some (txt "m")).
Definition item5 : Item :=
  mkItem 5 1 None None active (txt "/m/x/a.bin") (txt "x/a.bin") (txt "a.bin") (Some (txt "bin")) 5 0
    None None None None None None None 0 None None None (Some 7) None (mkCurated None None [] ∅ ∅ ∅ 0).
Definition start : Shares :=
  mkShares (mkCentral {[5 := item5]} [lib1] {[7 := agent7]} ∅ ∅ ∅ 0 0 0) ∅ ∅ 0 (mkFile None None) reset_cache.
Definition settings : SyncSettings := mkSyncSettings true "none" [] 100 100 100 100 100.
Definition call : OperatorCall := mkCall None None (mkRequest ∅ ∅ None).
Definition rule (library_id : option Z) (local share : string) : share_step :=
  SRequest call 0 (MCreate 7 (mkCreateIn library_id (txt local) (txt share) None None None)).

Local Abbreviation run := (ShareMap.run (λ _, false) (λ _, false) (λ c, [c]) (λ _, None) id false ∅ settings Z.of_nat (λ _, true) (λ l, l)).
Local Abbreviation resolve_item order :=
  (_resolve_item_share (λ _, false) (λ _, false) (λ _, None) order).

Definition rules : list share_step := [rule None "C:\media\" "smb://nas/media"; rule None "C:\" "\\nas\c"; rule (Some 1) "/media" "ftp://h"].

Lemma mapped_links_clean_witness :
  share_maps start = ∅ ∧
  ∃ s', resolve_item (λ l, l) (run start rules) item5 (Some lib1) = (s', SResolved (Some (txt "smb://nas/media/x/a.bin")) (Some mapping)) ∧
  url_form (txt "smb://nas/media/x/a.bin") (txt "smb") (txt "nas") (txt "/media/x/a.bin") ∧ 64 ∉ txt "nas".
Proof.
  split; [reflexivity|]. eexists. split; [vm_compute; reflexivity|].
  assert (url_form (txt "smb://nas/media/x/a.bin") (txt "smb") (txt "nas") (txt "/media/x/a.bin")) as Hform.
  { split; [reflexivity|]. split; [|split; [apply (bool_decide_unpack _); vm_compute; exact I|right; by eexists]].
    do 2 eexists. split; [reflexivity|]. split; [right; vm_compute; split; discriminate|].
    change (txt "smb") with [115; 109; 98]. repeat (apply Forall_cons_2; [left; right; split; discriminate|]). constructor. }
  split; [exact Hform|].
  refine (proj1 (proj1 (mapped_links_clean (λ _, false) (λ _, false) (λ c, [c]) (λ _, None) id false ∅ settings Z.of_nat (λ _, true)
    (λ l, l) start rules item5 (Some lib1) _ _ eq_refl (λ l, Permutation_refl l) _) _ _ _ Hform)). vm_compute. reflexivity.
Defined.

(** Three mappings for one file: the longest prefix that covers it, and the rest *)
Definition share_rows : list ShareMapping :=
  [mkMapping (txt "C:\") (txt "\\nas\c") (Some (txt "7")) None None; mkMapping (txt "C:\media\") (txt "smb://nas/media") None (Some (txt "1")) None;
   mkMapping (txt "C:\med") (txt "smb://other") None None None].
Lemma share_selection_witness :
  ∃ m, _select_mapping share_rows (Some (txt "7")) (txt "C:\media\x\a.bin") = Some (m, [txt "x"; txt "a.bin"]) ∧
    m_library_id m = Some (txt "1") ∧
    first_best (documented (Some (txt "7")) (Some (txt "1")) (txt "C:/media/x/a.bin")) share_rows m.
Proof.
  assert (∀ m, m ∈ share_rows → in_library (Some (txt "1")) m = true) as Hin
    by (intros m Hm; unfold share_rows in Hm; elem_cases Hm; reflexivity).
  pose proof (share_selection share_rows (Some (txt "7")) (Some (txt "1")) (txt "C:\media\x\a.bin") Hin) as H.
  exists (mkMapping (txt "C:\media\") (txt "smb://nas/media") None (Some (txt "1")) None).
  split; [vm_compute; reflexivity|]. split; [reflexivity|]. exact (proj1 H).
Defined.

(** ** What the modelling showed *)

(** The library a mapping is scoped to plays no part: of two mappings of one agent for one
    prefix, each for its own library, the order of an unordered query decides. *)
Definition scoped_rules : list share_step := [rule (Some 1) "C:\media" "smb://one"; rule None "C:\media" "smb://any"].
Example library_scope_ignored :
  (resolve_item (λ l, l) (run start scoped_rules) item5 (Some lib1)).2 ≠
  (resolve_item (@rev _) (run start scoped_rules) item5 (Some lib1)).2.
Proof. by vm_compute. Qed.

(** Credentials are refused in a URL and pass in a UNC, whose other form is a URL that
    carries them. *)
Example unc_credentials :
  let s := run start [rule None "C:\media" "\\user:pw@nas\share"] in
  location_of (λ _, false) (λ _, false) (λ c, [c]) <$> (share_maps s !! 0) =
  Some (mkLocation (Some (txt "smb://user:pw@nas/share")) (Some (txt "\\user:pw@nas\share"))).
Proof. by vm_compute. Qed.

(** A mount map that is not UTF-8 is not ignored: every resolution fails, also the next one. *)
Example bad_map_raises :
  let f := mkFile (Some ABSENT) (Some [255]) in
  ∀ c, _cache c = None → get_entries (λ _, None) f c = (c, Err UnicodeDecodeError).
Proof. intros f c Hc. unfold get_entries. cbn. by rewrite Hc. Qed.
End Demo.
