(* ===== verification/UpdateGate.v ===== *)
(** * When an agent is offered an update ([update_gate.py], [versioncmp.py])

    The update window and the embargo of a policy document, the reason that holds an update
    back, and the comparison of the version texts that tools print. *)
From S2P Require Import Prelude PyStr Utf8 PathLabel Text Json PyNum.
From stdpp Require Import options.

(** ** Windows *)

(** Minutes since midnight; days from Monday = 0 *)
Record UpdateWindow := mkWindow { w_days : gset Z; w_start : Z; w_end : Z; w_tz : option text }.

Inductive gate_error := ValueError | ZoneFailure.

(** What [ZoneInfo(name)] does: a zone, [ZoneInfoNotFoundError] or [ValueError], anything else *)
Inductive zone_answer := ZoneKnown | ZoneUnknown | ZoneRaises.

Definition DAY_NAMES : list text := map txt ["mon"; "tue"; "wed"; "thu"; "fri"; "sat"; "sun"].

Fixpoint index_of (t : text) (l : list text) : option Z :=
  match l with [] => None | u :: l' => if bool_decide (t = u) then Some 0 else Z.succ <$> index_of t l' end.

Definition WEEK : list Z := [0; 1; 2; 3; 4; 5; 6].

Definition _parse_day (part : text) : option (list Z) :=
  let part := strip_space part in
  if bool_decide (part = []) then Some []
  else if has_code 45 part then
    let a := take_while (λ c, negb (c =? 45)) part in
    let b := drop (S (length a)) part in
    i ← index_of a DAY_NAMES; j ← index_of b DAY_NAMES;
    Some (if i <=? j then filterb (λ d, (i <=? d) && (d <=? j)) WEEK else filterb (λ d, (i <=? d) || (d <=? j)) WEEK)
  else i ← index_of part DAY_NAMES; Some [i].

Definition _parse_days (spec : text) : option (gset Z) :=
  if bool_decide (spec = txt "*") then Some (list_to_set WEEK)
  else
    l ← mapM _parse_day (split_text 44 spec);
    let days : gset Z := list_to_set (concat l) in
    if bool_decide (days = ∅) then None else Some days.

(** The classes of [_WINDOW_RE], case ignored: beyond ASCII, four letters fold into [a-z]. *)
Definition fold_letter (c : Z) : bool :=
  (65 <=? c) && (c <=? 90) || (97 <=? c) && (c <=? 122) || bool_decide (c ∈ [304; 305; 383; 8490]).
Definition day_char (c : Z) : bool := fold_letter c || (c =? 44) || (c =? 45).
Definition zone_char (c : Z) : bool := fold_letter c || (48 <=? c) && (c <=? 57) || bool_decide (c ∈ txt "_+-/").

Section gate.
Context (uni_lower : Z → list Z) (uni_decimal : Z → option Z) (zone : text → zone_answer).

(** [\d{1,2}] and [\d{2}] at the head of the text *)
Definition digit_char (c : Z) : bool := bool_decide (is_Some (decimal uni_decimal c)).
Definition digits_max (n : nat) (t : text) : text * text :=
  let ds := take n (take_while digit_char t) in (ds, drop (length ds) t).
Definition expect (c : Z) (t : text) : option text := match t with d :: t' => if d =? c then Some t' else None | [] => None end.

(** [HH:MM] *)
Definition clock (t : text) : option (Z * Z * text) :=
  let '(h, t) := digits_max 2 t in
  t ← expect 58 t;
  let '(m, t) := digits_max 2 t in
  if bool_decide (h = []) || negb (length m =? 2)%nat then None
  else hv ← py_int uni_decimal h; mv ← py_int uni_decimal m; Some (hv, mv, t).

(** [_WINDOW_RE]: the days, the two times and the zone *)
Definition match_window (spec : text) : option (text * (Z * Z) * (Z * Z) * option text) :=
  let t := lstrip_space spec in
  let days := match t with 42 :: _ => [42] | _ => take_while day_char t end in
  let t := drop (length days) t in
  if bool_decide (days = []) then None
  else match t with
  | c :: _ =>
      if negb (Text.is_space c) then None
      else
        s ← clock (lstrip_space t);
        t ← expect 45 (lstrip_space s.2);
        e ← clock (lstrip_space t);
        let t := e.2 in
        let rest := lstrip_space t in
        if bool_decide (rest = []) then Some (days, s.1, e.1, None)
        else if bool_decide (rest = t) then None
        else
          let z := take_while zone_char rest in
          match z with
          | c :: _ =>
              if (fold_letter c || (c =? 95)) && bool_decide (lstrip_space (drop (length z) rest) = [])
              then Some (days, s.1, e.1, Some z) else None
          | [] => None
          end
  | [] => None
  end.

Definition time_ok (t : Z * Z) : bool := (0 <=? t.1) && (t.1 <=? 23) && (0 <=? t.2) && (t.2 <=? 59).
Definition minutes (t : Z * Z) : Z := 60 * t.1 + t.2.

Definition parse_update_window (spec : text) : result gate_error UpdateWindow :=
  match match_window spec with
  | None => Err ValueError
  | Some (days, s, e, tz) =>
      match _parse_days (tlower uni_lower days) with
      | None => Err ValueError
      | Some ds =>
          if negb (time_ok s && time_ok e) then Err ValueError
          else if minutes s =? minutes e then Err ValueError
          else match tz with
          | Some z =>
              match zone z with
              | ZoneKnown => Ok (mkWindow ds (minutes s) (minutes e) (Some z))
              | ZoneUnknown => Err ValueError
              | ZoneRaises => Err ZoneFailure
              end
          | None => Ok (mkWindow ds (minutes s) (minutes e) None)
          end
      end
  end.

Definition wraps (w : UpdateWindow) : bool := w_end w <=? w_start w.

(** The weekday and the minute of the day of an instant in a zone, [None]: central's *)
Context (local : option text → Z → Z * Z).

Definition window_open (w : UpdateWindow) (now : Z) : bool :=
  let '(wd, t) := local (w_tz w) now in
  if negb (wraps w) then bool_decide (wd ∈ w_days w) && (w_start w <=? t) && (t <? w_end w)
  else if bool_decide (wd ∈ w_days w) && (w_start w <=? t) then true
  else bool_decide ((wd - 1) mod 7 ∈ w_days w) && (t <? w_end w).

(** [datetime.fromisoformat] as an instant, a naive one in central's zone; [None]: [ValueError] *)
Context (fromisoformat : text → option Z).

Definition parse_not_before (value : text) : option Z :=
  let raw := strip_space value in
  if bool_decide (raw = []) then None
  else fromisoformat (if ends_with raw (txt "Z") || ends_with raw (txt "z") then drop_last 1 raw ++ txt "+00:00" else raw).

(** Why an update is held *)
Inductive hold := AutoUpdateOff | HeldUntil (when : Z) | OutsideWindow (w : UpdateWindow).

(** A key whose value is a text that is not blank *)
Definition stated (document : gmap text json) (key : string) : option text :=
  match document !! txt key with
  | Some (JText t) => if bool_decide (strip_space t = []) then None else Some t
  | _ => None
  end.

Definition hold_reason (document : gmap text json) (now : Z) : result gate_error (option hold) :=
  if bool_decide (document !! txt "auto_update" = Some (JBool false)) then Ok (Some AutoUpdateOff)
  else
    let windowed :=
      match stated document "update_window" with
      | None => Ok None
      | Some spec =>
          match parse_update_window spec with
          | Ok w => Ok (if window_open w now then None else Some (OutsideWindow w))
          | Err ValueError => Ok None
          | Err ZoneFailure => Err ZoneFailure
          end
      end in
    match stated document "update_not_before" ≫= parse_not_before with
    | Some when => if now <? when then Ok (Some (HeldUntil when)) else windowed
    | None => windowed
    end.
End gate.

(** ** Versions that tools print *)

Definition _MAX_COMPONENTS : nat := 4.
Definition _MAX_COMPONENT_DIGITS : nat := 9.

Section versions.
Context (uni_decimal : Z → option Z) (uni_digit : Z → bool).

Inductive version_answer := Unparseable | RaisesValueError | Components (l : list Z).

(** The loop over the chunks; [parts] from the last *)
Fixpoint components (chunks : list text) (parts : list Z) : version_answer :=
  match chunks with
  | [] => Components (rev parts)
  | chunk :: chunks' =>
      let digits := take_while (is_digit uni_digit) chunk in
      if bool_decide (digits = []) then Components (rev parts)
      else if (_MAX_COMPONENT_DIGITS <? length digits)%nat then Unparseable
      else match py_int uni_decimal digits with
        | None => RaisesValueError
        | Some n =>
            let parts := n :: parts in
            if negb (length digits =? length chunk)%nat then Components (rev parts)
            else if (_MAX_COMPONENTS <=? length parts)%nat then Components (rev parts)
            else components chunks' parts
        end
  end.

Definition head_digit (t : text) : bool := match t with c :: _ => is_digit uni_digit c | [] => false end.

Definition numeric_version (raw : option text) : version_answer :=
  let s := strip_space (default [] raw) in
  let s := match s with c :: s' => if ((c =? 118) || (c =? 86)) && head_digit s' then s' else s | [] => s end in
  if negb (head_digit s) then Unparseable
  else match components (split_text 46 s) [] with Components [] => Unparseable | v => v end.

(** Tuples of one length, in order *)
Fixpoint tuple_order (a b : list Z) : Z :=
  match a, b with
  | x :: a', y :: b' => if x <? y then -1 else if y <? x then 1 else tuple_order a' b'
  | [], [] => 0
  | [], _ => -1
  | _, [] => 1
  end.
Definition padded (width : nat) (a : list Z) : list Z := a ++ replicate (width - length a) 0.
Definition compare_padded (a b : list Z) : Z :=
  let width := Nat.max (length a) (length b) in tuple_order (padded width a) (padded width b).

(** [None]: cannot say; [Err]: [int] of a digit that is not decimal *)
Definition compare_versions (found other : option text) : result gate_error (option Z) :=
  match numeric_version found, numeric_version other with
  | RaisesValueError, _ => Err ValueError
  | _, RaisesValueError => Err ValueError
  | Components a, Components b => Ok (Some (compare_padded a b))
  | _, _ => Ok None
  end.

Definition is_below (found minimum : option text) : result gate_error (option bool) :=
  c <-! compare_versions found minimum; Ok ((λ n, n <? 0) <$> c).
End versions.
