(* ===== verification/UpdateGateFacts.v ===== *)
(** * Facts about update windows and version texts

    The window a policy states is the cyclic interval of the week it describes, and the
    comparison of version texts is the order of their components with zeros after the last. *)
From S2P Require Import Prelude PyStr Utf8 PathLabel Text Json PyNum UpdateGate.
From stdpp Require Import options.

(** ** Windows *)

Record window_ok (w : UpdateWindow) : Prop := {
  wo_days d : d ∈ w_days w → 0 ≤ d < 7;
  wo_start : 0 ≤ w_start w < 1440;
  wo_end : 0 ≤ w_end w < 1440;
  wo_differ : w_start w ≠ w_end w;
}.

Lemma index_of_range t l i : index_of t l = Some i → 0 ≤ i < Z.of_nat (length l).
Proof.
  revert i. induction l as [|u l IH]; intros i; cbn; [done|]. destruct (bool_decide _); [intros [= <-]; lia|].
  destruct (index_of t l) as [j|]; [|done]. intros [= <-]. specialize (IH j eq_refl). lia.
Qed.

Lemma week_range d : d ∈ WEEK → 0 ≤ d < 7.
Proof. unfold WEEK. rewrite !elem_of_cons, elem_of_nil. lia. Qed.

Lemma week_filter (f : Z → bool) d : d ∈ filterb f WEEK → 0 ≤ d < 7.
Proof. intros [H _]%list_elem_of_In%filter_In. apply week_range. by apply list_elem_of_In. Qed.

Lemma parse_day_range part l d : _parse_day part = Some l → d ∈ l → 0 ≤ d < 7.
Proof.
  unfold _parse_day. cbn zeta. destruct (bool_decide _); [intros [= <-] H; by apply elem_of_nil in H|]. destruct (has_code _ _).
  - intros (i & _ & (j & _ & H)%bind_Some)%bind_Some Hd. apply Some_inj in H. rewrite <-H in Hd.
    destruct (i <=? j); by eapply week_filter.
  - intros (i & E & [= <-])%bind_Some ->%list_elem_of_singleton. by apply index_of_range in E.
Qed.

Lemma parse_days_range spec ds d : _parse_days spec = Some ds → d ∈ ds → 0 ≤ d < 7.
Proof.
  unfold _parse_days. destruct (bool_decide _).
  { intros H Hd. apply Some_inj in H. rewrite <-H in Hd. apply elem_of_list_to_set in Hd. by apply week_range. }
  destruct (mapM _parse_day _) as [l|] eqn:E; [|done]. cbn. destruct (bool_decide _); [done|]. intros H Hd. apply Some_inj in H. rewrite <-H in Hd.
  apply elem_of_list_to_set, list_elem_of_In, in_concat in Hd as (x & Hx & Hd). apply list_elem_of_In in Hx, Hd.
  apply mapM_Some in E. apply list_elem_of_lookup in Hx as [i Hi]. apply (Forall2_lookup_r _ _ _ _ _ E) in Hi as (y & _ & Hy).
  by eapply parse_day_range.
Qed.

Section gate.
Context (uni_lower : Z → list Z) (uni_decimal : Z → option Z) (zone : text → zone_answer) (local : option text → Z → Z * Z).

Lemma minutes_range t : time_ok t = true → 0 ≤ minutes t < 1440.
Proof using Type. clear. unfold time_ok, minutes. rewrite !andb_true_iff. lia. Qed.

Lemma parse_update_window_ok spec w : parse_update_window uni_lower uni_decimal zone spec = Ok w → window_ok w.
Proof using Type.
  unfold parse_update_window. destruct (match_window _ _) as [[[[days s] e] tz]|]; [|done].
  destruct (_parse_days _) as [ds|] eqn:Hd; [|done]. destruct (negb _) eqn:Ht; [done|]. destruct (Z.eqb_spec (minutes s) (minutes e)) as [|Hne]; [done|].
  apply negb_false_iff, andb_true_iff in Ht as [Hs He]. intros H.
  assert (∃ z, w = mkWindow ds (minutes s) (minutes e) z) as [z ->].
  { destruct tz as [z|]; [destruct (zone z)|]; (try discriminate H); injection H as <-; by eexists. }
  split; cbn; [|by apply minutes_range..|done]. intros d. by apply (parse_days_range _ _ _ Hd).
Qed.

(** Since the opening of the window on the day [d], in minutes of the week *)
Definition elapsed (w : UpdateWindow) (d wd t : Z) : Z := ((wd - d) * 1440 + t - w_start w) mod 10080.
Definition length_of (w : UpdateWindow) : Z := (w_end w - w_start w) mod 1440.

Lemma same_day w wd t : window_ok w → 0 ≤ wd < 7 → 0 ≤ t < 1440 →
  elapsed w wd wd t < length_of w ↔ w_start w ≤ t ∧ (wraps w = true ∨ t < w_end w).
Proof using Type.
  clear. intros [Hd Hs He Hne] Hwd Ht. unfold elapsed, length_of, wraps. rewrite Z.leb_le. clear Hd.
  Z.to_euclidean_division_equations. lia.
Qed.

Lemma day_before w wd t : window_ok w → 0 ≤ wd < 7 → 0 ≤ t < 1440 →
  elapsed w ((wd - 1) mod 7) wd t < length_of w ↔ wraps w = true ∧ t < w_end w.
Proof using Type.
  clear. intros [Hd Hs He Hne] Hwd Ht. unfold elapsed, length_of, wraps. rewrite Z.leb_le. clear Hd.
  Z.to_euclidean_division_equations. lia.
Qed.

Lemma other_day w d wd t : window_ok w → 0 ≤ d < 7 → 0 ≤ wd < 7 → 0 ≤ t < 1440 → elapsed w d wd t < length_of w →
  d = wd ∨ d = (wd - 1) mod 7.
Proof using Type.
  clear. intros [Hd Hs He Hne] Hdd Hwd Ht. unfold elapsed, length_of. clear Hd.
  Z.to_euclidean_division_equations. lia.
Qed.

(** C39: A window that parses is open exactly while less than its length has passed since it opened on one of its days, counted in minutes of a cyclic week: windows past midnight belong to the day they open on, also from Sunday to Monday, and a window is never empty or a whole day. *)
Theorem window_open_exact spec w now : parse_update_window uni_lower uni_decimal zone spec = Ok w →
  let '(wd, t) := local (w_tz w) now in 0 ≤ wd < 7 → 0 ≤ t < 1440 →
  0 < length_of w < 1440 ∧ (window_open local w now = true ↔ ∃ d, d ∈ w_days w ∧ elapsed w d wd t < length_of w).
Proof using Type.
  intros Hp. apply parse_update_window_ok in Hp as Hok. unfold window_open. destruct (local (w_tz w) now) as [wd t]. intros Hwd Ht.
  pose proof (same_day w wd t Hok Hwd Ht) as Hsame. pose proof (day_before w wd t Hok Hwd Ht) as Hbefore. split.
  { clear -Hok. destruct Hok as [_ Hs He Hne]. unfold length_of. Z.to_euclidean_division_equations. lia. }
  assert ((∃ d, d ∈ w_days w ∧ elapsed w d wd t < length_of w) ↔
    (wd ∈ w_days w ∧ w_start w ≤ t ∧ (wraps w = true ∨ t < w_end w)) ∨ ((wd - 1) mod 7 ∈ w_days w ∧ wraps w = true ∧ t < w_end w)) as ->.
  { rewrite <-Hsame, <-Hbefore. split; [|intros [H|H]; eauto]. intros (d & Hd & He).
    destruct (other_day w d wd t Hok (wo_days _ Hok _ Hd) Hwd Ht He); subst d; auto. }
  destruct (wraps w); cbn [negb].
  - destruct (bool_decide (wd ∈ w_days w) && (w_start w <=? t)) eqn:E.
    + rewrite andb_true_iff, bool_decide_eq_true, Z.leb_le in E. clear -E. tauto.
    + rewrite andb_true_iff, bool_decide_eq_true, Z.ltb_lt. apply not_true_iff_false in E.
      rewrite andb_true_iff, bool_decide_eq_true, Z.leb_le in E. clear -E. tauto.
  - rewrite !andb_true_iff, bool_decide_eq_true, Z.leb_le, Z.ltb_lt. clear. intuition discriminate.
Qed.
End gate.

(** ** Version texts *)

(** A component past the last one is zero. *)
Definition component (l : list Z) (i : nat) : Z := nth i l 0.

(** The first component that differs decides. *)
Definition before (a b : list Z) : Prop := ∃ i, (∀ j, (j < i)%nat → component a j = component b j) ∧ component a i < component b i.

Lemma component_padded n a i : component (padded n a) i = component a i.
Proof.
  unfold component, padded. destruct (Nat.lt_ge_cases i (length a)) as [H|H]; [by rewrite app_nth1|].
  rewrite app_nth2 by done. rewrite (nth_overflow a) by done.
  generalize (i - length a)%nat. generalize (n - length a)%nat. intros k. induction k as [|k IH]; intros [|m]; cbn; auto.
Qed.

Lemma tuple_order_spec a b : length a = length b →
  (tuple_order a b = -1 ∧ before a b) ∨ (tuple_order a b = 0 ∧ ∀ i, component a i = component b i) ∨ (tuple_order a b = 1 ∧ before b a).
Proof.
  revert b. induction a as [|x a IH]; intros [|y b] H; try done; [right; left; done|]. cbn in H. injection H as H. cbn.
  destruct (Z.ltb_spec x y) as [Hlt|Hge]; [left; split; [done|]; exists 0%nat; split; [lia|done]|].
  destruct (Z.ltb_spec y x) as [Hlt|Hge']; [right; right; split; [done|]; exists 0%nat; split; [lia|done]|].
  assert (x = y) as <- by lia. assert (∀ c d, before c d → before (x :: c) (x :: d)) as Hcons.
  { intros c d (i & Hi & Hlt). exists (S i). split; [|done]. intros [|j] Hj; [done|]. apply Hi. lia. }
  destruct (IH _ H) as [[E Hb]|[[E Hi]|[E Hb]]]; rewrite E; [left|right; left|right; right]; (split; [done|]); [auto| |auto].
  intros [|i]; [done|apply Hi].
Qed.

Lemma padded_length n a : (length a ≤ n)%nat → length (padded n a) = n.
Proof. intros H. unfold padded. rewrite length_app, length_replicate. lia. Qed.

Lemma before_padded n m a b : before (padded n a) (padded m b) ↔ before a b.
Proof.
  unfold before. split; intros (i & Hi & Hlt); exists i; rewrite !component_padded in *; (split; [|done]); intros j Hj; specialize (Hi j Hj);
    by rewrite !component_padded in *.
Qed.

Lemma compare_padded_spec a b :
  (compare_padded a b = -1 ∧ before a b) ∨ (compare_padded a b = 0 ∧ ∀ i, component a i = component b i) ∨ (compare_padded a b = 1 ∧ before b a).
Proof.
  unfold compare_padded. cbn zeta. set (n := Nat.max _ _).
  destruct (tuple_order_spec (padded n a) (padded n b)) as [[E H]|[[E H]|[E H]]]; [rewrite !padded_length by lia; done|..].
  - left. split; [done|]. by apply before_padded in H.
  - right. left. split; [done|]. intros i. specialize (H i). by rewrite !component_padded in H.
  - right. right. split; [done|]. by apply before_padded in H.
Qed.

Lemma before_irrefl a b : (∀ i, component a i = component b i) → ¬ before a b.
Proof. intros H (i & _ & Hi). rewrite H in Hi. lia. Qed.

Lemma before_trans a b c : before a b → before b c → before a c.
Proof.
  intros (i & Hi & Hlt) (j & Hj & Hlt'). destruct (Nat.lt_trichotomy i j) as [H|[H|H]].
  - exists i. rewrite <-(Hj i) by done. split; [|done]. intros k Hk. rewrite Hi by done. apply Hj. lia.
  - subst j. exists i. split; [|lia]. intros k Hk. rewrite Hi by done. by apply Hj.
  - exists j. rewrite (Hi j) by done. split; [|done]. intros k Hk. rewrite (Hi k) by lia. by apply Hj.
Qed.

Lemma before_asym a b : before a b → ¬ before b a.
Proof. intros H1 H2. exact (before_irrefl a a (λ _, eq_refl) (before_trans _ _ _ H1 H2)). Qed.

Lemma compare_before a b : compare_padded a b = -1 ↔ before a b.
Proof.
  destruct (compare_padded_spec a b) as [[E H]|[[E H]|[E H]]]; rewrite E; (split; [|intros Hb]); try done.
  - by destruct (before_irrefl _ _ H).
  - by destruct (before_asym _ _ H).
Qed.

Lemma compare_flip a b : compare_padded b a = - compare_padded a b.
Proof.
  destruct (compare_padded_spec a b) as [[E H]|[[E H]|[E H]]]; destruct (compare_padded_spec b a) as [[E' H']|[[E' H']|[E' H']]];
    rewrite E, E'; try done; exfalso; solve [by eapply before_asym|by eapply before_irrefl|by eapply before_irrefl; [intros i; symmetry; apply H|]
    |by eapply before_irrefl; [intros i; symmetry; apply H'|]].
Qed.

(** *** What a version text says *)

Definition dec_digit (c : Z) : Prop := 48 ≤ c ≤ 57.
Definition number (d : text) : Prop := d ≠ [] ∧ Forall dec_digit d.
Definition decimal_value (d : text) : Z := foldl (λ n c, 10 * n + (c - 48)) 0 d.

(** A dotted run of numbers ends: no further digit, and no dot with a digit after it. *)
Definition run_ends (t : text) : Prop :=
  match t with
  | [] => True
  | c :: t' => ¬ dec_digit c ∧ (c = 46 → match t' with d :: _ => ¬ dec_digit d | [] => True end)
  end.

(** The text is a dotted run of numbers, perhaps after one [v], and whatever follows it. *)
Definition leading_run (raw : option text) (run : list text) : Prop :=
  ∃ t pre rest, raw = Some t ∧ strip_space t = pre ++ join_text 46 run ++ rest ∧ pre ∈ [[]; [118]; [86]] ∧
    run ≠ [] ∧ Forall number run ∧ run_ends rest.

(** The version that a text carries: the first four numbers of the leading run, unless one of
    them has more than nine digits *)
Definition version_of (raw : option text) (l : list Z) : Prop :=
  ∃ run, leading_run raw run ∧ Forall (λ d, (length d ≤ 9)%nat) (take 4 run) ∧ l = map decimal_value (take 4 run).

(** The digits of the text are those from 0 to 9. *)
Definition ascii_digits (uni_digit : Z → bool) (raw : option text) : Prop :=
  ∀ t c, raw = Some t → c ∈ t → is_digit uni_digit c = true → dec_digit c.

Section versions.
Context (uni_decimal : Z → option Z) (uni_digit : Z → bool).
Local Abbreviation head_digit := (head_digit uni_digit).
Local Abbreviation components := (components uni_decimal uni_digit).
Local Abbreviation numeric_version := (numeric_version uni_decimal uni_digit).

Lemma dec_digit_is c : dec_digit c → is_digit uni_digit c = true.
Proof using Type. intros Hc. apply orb_true_iff. left. clear -Hc. unfold dec_digit in Hc. lia. Qed.

Lemma take_digits d r : Forall dec_digit d → (match r with c :: _ => is_digit uni_digit c = false | [] => True end) →
  take_while (is_digit uni_digit) (d ++ r) = d.
Proof using Type.
  intros Hd Hr. induction Hd as [|c d Hc _ IH]; cbn.
  - destruct r as [|c r]; [done|]. cbn. by rewrite Hr.
  - by rewrite dec_digit_is, IH.
Qed.

Lemma value_decimal d : Forall dec_digit d → ∀ acc, PyNum.value 10 acc d = foldl (λ n c, 10 * n + (c - 48)) acc d.
Proof using Type.
  induction 1 as [|c d Hc _ IH]; intros acc; [done|]. cbn. rewrite digit_value_decimal by done. apply IH.
Qed.

Lemma number_no_dot d : Forall dec_digit d → 46 ∉ d.
Proof using Type. clear. intros Hd H. rewrite Forall_forall in Hd. specialize (Hd _ H). unfold dec_digit in Hd. lia. Qed.

Lemma run_next rest : run_ends rest → (∀ c, c ∈ rest → is_digit uni_digit c = true → dec_digit c) →
  match rest with c :: _ => is_digit uni_digit c = false | [] => True end.
Proof using Type.
  destruct rest as [|c rest]; [done|]. intros [Hc _] Hd. apply not_true_iff_false. intros H. apply Hc, Hd; [left|done].
Qed.

(** One number, and what the loop has after it *)
Lemma components_step d r chunks parts : number d →
  match r with c :: _ => is_digit uni_digit c = false | [] => True end →
  components ((d ++ r) :: chunks) parts =
  if (9 <? length d)%nat then Unparseable
  else if negb (bool_decide (r = [])) || (4 <=? S (length parts))%nat then Components (rev (decimal_value d :: parts))
  else components chunks (decimal_value d :: parts).
Proof using Type.
  intros [Hne Hd] Hr. cbn [UpdateGate.components]. rewrite take_digits by done. rewrite bool_decide_eq_false_2 by done.
  unfold _MAX_COMPONENT_DIGITS, _MAX_COMPONENTS. destruct (Nat.ltb_spec 9 (length d)) as [Hl|Hl]; [done|].
  rewrite py_int_digits; [|exact Hd|done|etrans; [exact Hl|by apply Nat.leb_le]]. rewrite value_decimal by done.
  fold (decimal_value d). cbn zeta.
  assert (negb (length d =? length (d ++ r))%nat = negb (bool_decide (r = []))) as ->.
  { f_equal. destruct r as [|c r]; [by rewrite app_nil_r, Nat.eqb_refl|]. apply Nat.eqb_neq. rewrite length_app. cbn. clear. lia. }
  cbn [length]. by destruct (negb _).
Qed.

Lemma split_prefix_of d t : 46 ∉ d → split_text 46 (d ++ t) = match split_text 46 t with w :: ws => (d ++ w) :: ws | [] => [d] end.
Proof using Type.
  induction d as [|c d IH]; intros Hd; cbn [app].
  - destruct (split_text 46 t) eqn:E; [by apply split_text_not_nil in E|done].
  - apply not_elem_of_cons in Hd as [Hc Hd]. cbn [split_text]. rewrite (IH Hd).
    destruct (Z.eqb_spec c 46) as [->|_]; [done|]. by destruct (split_text 46 t).
Qed.

Lemma components_stop t parts : match t with c :: _ => is_digit uni_digit c = false | [] => True end →
  components (split_text 46 t) parts = Components (rev parts).
Proof using Type.
  destruct t as [|c t]; [done|]. intros Hc. cbn [split_text]. destruct (c =? 46); [done|].
  destruct (split_text 46 t); cbn; by rewrite Hc.
Qed.

Definition within (d : text) : bool := (length d <=? 9)%nat.

Lemma components_run run rest parts : run ≠ [] → Forall number run → run_ends rest →
  (∀ c, c ∈ rest → is_digit uni_digit c = true → dec_digit c) → (length parts < 4)%nat →
  components (split_text 46 (join_text 46 run ++ rest)) parts =
  if forallb within (take (4 - length parts) run)
  then Components (rev parts ++ map decimal_value (take (4 - length parts) run)) else Unparseable.
Proof using Type.
  intros Hne Hrun Hends Hrest. revert parts Hne. induction Hrun as [|d run Hd Hrun IH]; intros parts Hne Hparts; [done|].
  assert (∃ k, (4 - length parts = S k)%nat ∧ (k = 3 - length parts)%nat) as (k & -> & Hk)
    by (clear -Hparts; exists (3 - length parts)%nat; split; [lia|done]).
  cbn [take forallb map]. unfold within at 1. rewrite (Nat.leb_antisym 9 (length d) : (length d <=? 9)%nat = negb (9 <? length d)%nat).
  assert (∀ parts', rev (decimal_value d :: parts') = rev parts' ++ [decimal_value d]) as Hrev by done.
  assert (∀ b, (4 <=? S (length parts))%nat = b → match b with true => k = 0%nat | false => S (length parts) < 4 ∧ k = (4 - S (length parts)) end)%nat as Hcap.
  { intros b. clear -Hparts Hk. destruct (Nat.leb_spec 4 (S (length parts))) as [H|H]; intros <-; [lia|]. split; lia. }
  destruct run as [|d' run].
  - cbn [join_text]. rewrite split_prefix_of by (apply number_no_dot, Hd). rewrite take_nil. cbn [forallb map]. rewrite andb_true_r.
    pose proof (run_next rest Hends Hrest) as Hnext. destruct rest as [|c rest].
    + cbn [split_text]. rewrite components_step by done. rewrite bool_decide_eq_true_2 by done. cbn [negb orb].
      destruct (9 <? length d)%nat; cbn [negb]; [done|]. by destruct (4 <=? _)%nat.
    + cbn [split_text]. destruct (Z.eqb_spec c 46) as [->|Hc].
      * rewrite components_step by done. rewrite bool_decide_eq_true_2 by done. cbn [negb orb].
        destruct (9 <? length d)%nat; cbn [negb]; [done|]. destruct (4 <=? _)%nat; [done|].
        apply components_stop. destruct Hends as [_ Hdot]. specialize (Hdot eq_refl). destruct rest as [|x rest]; [done|].
        apply not_true_iff_false. intros Hx. apply Hdot, Hrest; [right; left|done].
      * destruct (split_text 46 rest) as [|w ws]; rewrite components_step by done; rewrite bool_decide_eq_false_2 by done; cbn [negb orb];
          by destruct (9 <? length d)%nat.
  - change (join_text 46 (d :: d' :: run)) with (d ++ 46 :: join_text 46 (d' :: run)). rewrite <- app_assoc. cbn [app].
    rewrite split_prefix_of by (apply number_no_dot, Hd). cbn [split_text]. rewrite Z.eqb_refl.
    rewrite components_step by done. rewrite bool_decide_eq_true_2 by done. cbn [negb orb].
    destruct (9 <? length d)%nat; cbn [negb andb]; [done|].
    pose proof (Hcap _ eq_refl) as E. destruct (4 <=? S (length parts))%nat.
    + rewrite E. reflexivity.
    + destruct E as [E E']. rewrite E', IH; [|done|exact E]. cbn [length]. rewrite Hrev, <- app_assoc. done.
Qed.

Lemma run_exists s : head_digit s = true → (∀ c, c ∈ s → is_digit uni_digit c = true → dec_digit c) →
  ∃ run rest, s = join_text 46 run ++ rest ∧ run ≠ [] ∧ Forall number run ∧ run_ends rest.
Proof using Type.
  remember (length s) as n eqn:Hn. revert s Hn. induction (lt_wf n) as [n _ IH]. intros s -> Hh Hs.
  assert (∃ d r, s = d ++ r ∧ number d ∧ match r with c :: _ => is_digit uni_digit c = false | [] => True end) as (d & r & -> & Hd & Hr).
  { clear IH. induction s as [|c s IHs]; [done|]. cbn in Hh. destruct s as [|c' s].
    - exists [c], []. split; [done|]. split; [|done]. split; [done|]. constructor; [|constructor]. apply Hs; [left|done].
    - destruct (is_digit uni_digit c') eqn:Hc'.
      + destruct IHs as (d & r & E & [_ Hd] & Hr); [done|intros x Hx; apply Hs; by right|].
        exists (c :: d), r. split; [by rewrite E|]. split; [|done]. split; [done|]. constructor; [apply Hs; [left|done]|done].
      + exists [c], (c' :: s). split; [done|]. split; [|done]. split; [done|]. constructor; [|constructor]. apply Hs; [left|done]. }
  assert (run_ends r ∨ ∃ r', r = 46 :: r' ∧ head_digit r' = true) as [He|(r' & -> & Hh')].
  { destruct r as [|c r]; [by left|]. destruct (decide (c = 46)) as [->|Hc].
    - destruct (head_digit r) eqn:Hr'; [right; by exists r|]. left. split; [unfold dec_digit; clear; lia|]. intros _.
      destruct r as [|x r]; [done|]. intros Hx. cbn in Hr'. by rewrite dec_digit_is in Hr'.
    - left. split; [|done]. intros Hx. by rewrite dec_digit_is in Hr. }
  - exists [d], r. split_and!; [done|done|by constructor; [|constructor]|done].
  - destruct (IH (length r')) with (s := r') as (run & rest & -> & Hne & Hrun & He); [|done|done| |].
    + rewrite length_app. cbn. destruct Hd as [Hd _]. destruct d; [done|]. cbn. clear. lia.
    + intros c Hc. apply Hs. apply elem_of_app. right. by right.
    + exists (d :: run), rest. split_and!; [|done|by constructor|done]. destruct run; [done|]. cbn [join_text].
      by rewrite <- app_assoc.
Qed.

Lemma head_run run rest : run ≠ [] → Forall number run → ∃ c s, join_text 46 run ++ rest = c :: s ∧ dec_digit c.
Proof using Type.
  destruct run as [|d run]; [done|]. intros _ [[Hne Hd] _]%Forall_cons. destruct d as [|c d]; [done|]. apply Forall_cons in Hd as [Hc _].
  destruct run; cbn [join_text app]; by do 2 eexists.
Qed.

Lemma stripped_digits raw t : ascii_digits uni_digit raw → raw = Some t → ∀ c, c ∈ strip_space t → is_digit uni_digit c = true → dec_digit c.
Proof using Type. intros Ha -> c Hc. apply (Ha t c eq_refl). by apply strip_space_sub. Qed.

(** The answer for a text with a leading run *)
Lemma numeric_run raw run : ascii_digits uni_digit raw → leading_run raw run →
  numeric_version raw = if forallb within (take 4 run) then Components (map decimal_value (take 4 run)) else Unparseable.
Proof using Type.
  intros Ha (t & pre & rest & -> & Hs & Hpre & Hne & Hrun & Hends). unfold UpdateGate.numeric_version. cbn [default id].
  pose proof (stripped_digits _ t Ha eq_refl) as Hdig. rewrite Hs in *. destruct (head_run run rest Hne Hrun) as (c & s & Hcs & Hc).
  assert (match pre ++ join_text 46 run ++ rest with
    | c :: s' => if ((c =? 118) || (c =? 86)) && head_digit s' then s' else pre ++ join_text 46 run ++ rest
    | [] => pre ++ join_text 46 run ++ rest end = join_text 46 run ++ rest) as ->.
  { assert (head_digit (join_text 46 run ++ rest) = true) as Hh by (rewrite Hcs; by apply dec_digit_is).
    elem_cases Hpre; cbn [app]; [|by rewrite Hh..]. rewrite Hcs.
    assert ((c =? 118) || (c =? 86) = false) as -> by (clear -Hc; unfold dec_digit in Hc; lia). done. }
  rewrite Hcs. cbn [UpdateGate.head_digit]. rewrite dec_digit_is by done. cbn [negb]. rewrite <- Hcs.
  rewrite components_run; [|done|done|done| |clear; cbn; lia].
  - cbn [length rev app]. change (4 - 0)%nat with 4%nat. destruct (forallb within _); [|done].
    by destruct run as [|d [|]].
  - intros x Hx. apply Hdig. rewrite !elem_of_app. by right; right.
Qed.

Lemma run_of_answer raw : ascii_digits uni_digit raw → numeric_version raw ≠ Unparseable → ∃ run, leading_run raw run.
Proof using Type.
  intros Ha. unfold UpdateGate.numeric_version. destruct raw as [t|]; cbn [default id]; [|done].
  pose proof (stripped_digits _ t Ha eq_refl) as Hdig. set (s := match strip_space t with c :: s' => _ | [] => _ end).
  assert (∃ pre, pre ∈ [[]; [118]; [86]] ∧ strip_space t = pre ++ s) as (pre & Hpre & Hs).
  { unfold s. destruct (strip_space t) as [|c s']; [exists []; split; [left|done]|].
    destruct (Z.eqb_spec c 118) as [->|]; [|destruct (Z.eqb_spec c 86) as [->|]]; cbn [orb andb].
    - destruct (head_digit s'); [exists [118]|exists []]; (split; [|done]); [right; left|left].
    - destruct (head_digit s'); [exists [86]|exists []]; (split; [|done]); [right; right; left|left].
    - exists []. split; [left|done]. }
  destruct (head_digit s) eqn:Hh; [|done]. intros _.
  destruct (run_exists s Hh) as (run & rest & E & Hne & Hrun & He).
  { intros c Hc. apply Hdig. rewrite Hs, elem_of_app. by right. }
  exists run, t, pre, rest. rewrite Hs, E. by split_and!.
Qed.

Lemma numeric_version_exact raw : ascii_digits uni_digit raw →
  numeric_version raw ≠ RaisesValueError ∧ ∀ l, numeric_version raw = Components l ↔ version_of raw l.
Proof using Type.
  intros Ha. assert (∀ l, forallb within l = true ↔ Forall (λ d, (length d ≤ 9)%nat) l) as Hw.
  { intros l. rewrite forallb_elem, Forall_forall. unfold within. by setoid_rewrite Nat.leb_le. }
  split.
  - intros H. destruct (run_of_answer raw Ha) as [run Hr]; [by rewrite H|]. rewrite (numeric_run raw run Ha Hr) in H.
    by destruct (forallb _ _).
  - intros l. split.
    + intros H. destruct (run_of_answer raw Ha) as [run Hr]; [by rewrite H|]. rewrite (numeric_run raw run Ha Hr) in H.
      destruct (forallb _ _) eqn:E; [|done]. injection H as <-. exists run. split_and!; [done|by apply Hw|done].
    + intros (run & Hr & Hl & ->). rewrite (numeric_run raw run Ha Hr). by rewrite (proj2 (Hw _) Hl).
Qed.
End versions.

(** C40: the comparison of two version texts, whose digits are those from 0 to 9.  A text
    carries the first four numbers of the dotted run it begins with, after spaces and perhaps
    one [v], whatever the packager appended; none when it begins otherwise, as a git build
    does, or when one of the four has more than nine digits.  When both carry a version, the
    first component that differs decides, missing ones being zero (so 7.1 equals 7.1.0 and
    12.76 comes after 12.24), and when one carries none the answer is "cannot say": such a
    text is never below anything.  A digit beyond ASCII that [int] refuses raises
    [ValueError] instead (Demo.superscript_raises). *)
Theorem version_order uni_decimal uni_digit found other :
  ascii_digits uni_digit found → ascii_digits uni_digit other →
  (∀ a b, version_of found a → version_of other b → ∃ n,
    compare_versions uni_decimal uni_digit found other = Ok (Some n) ∧
    is_below uni_decimal uni_digit found other = Ok (Some (bool_decide (n = -1))) ∧
    (n = -1 ↔ before a b) ∧ (n = 1 ↔ before b a) ∧ (n = 0 ↔ ∀ i, component a i = component b i)) ∧
  ((∀ a, ¬ version_of found a) ∨ (∀ b, ¬ version_of other b) →
    compare_versions uni_decimal uni_digit found other = Ok None ∧ is_below uni_decimal uni_digit found other = Ok None).
Proof.
  intros Hf Ho. destruct (numeric_version_exact uni_decimal uni_digit found Hf) as [Ef Vf].
  destruct (numeric_version_exact uni_decimal uni_digit other Ho) as [Eo Vo]. unfold is_below, compare_versions. split.
  - intros a b Ha%Vf Hb%Vo. rewrite Ha, Hb. exists (compare_padded a b). cbn.
    split; [done|]. split; [by destruct (compare_padded_spec a b) as [[-> _]|[[-> _]|[-> _]]]|].
    split; [apply compare_before|]. split; [rewrite <- compare_before, compare_flip; lia|].
    destruct (compare_padded_spec a b) as [[E H]|[[E H]|[E H]]]; rewrite E; (split; [|intros Hi]); try done.
    + by destruct (before_irrefl a b Hi).
    + destruct (before_irrefl b a); [|done]. intros i. by symmetry.
  - intros H. destruct (numeric_version uni_decimal uni_digit found) as [| |a] eqn:Nf; [|done|].
    + by destruct (numeric_version uni_decimal uni_digit other).
    + destruct (numeric_version uni_decimal uni_digit other) as [| |b] eqn:No; [done|done|].
      destruct H as [H|H]; [destruct (H a); by apply Vf|destruct (H b); by apply Vo].
Qed.

Module Demo.
(** Monday at 01:30 *)
Definition local (_ : option text) (_ : Z) : Z * Z := (0, 90).
Definition parsed : result gate_error UpdateWindow := parse_update_window (λ c, [c]) (λ _, None) (λ _, ZoneKnown) (txt "fri-sun 22:00-06:00").
Definition weekend : UpdateWindow := mkWindow (list_to_set [4; 5; 6]) 1320 360 None.

Lemma window_open_exact_witness : parsed = Ok weekend ∧
  0 < length_of weekend < 1440 ∧ (window_open local weekend 0 = true ↔ ∃ d, d ∈ w_days weekend ∧ elapsed weekend d 0 90 < length_of weekend).
Proof.
  split; [vm_compute; reflexivity|].
  refine (window_open_exact (λ c, [c]) (λ _, None) (λ _, ZoneKnown) local (txt "fri-sun 22:00-06:00") weekend 0 _ _ _);
    [vm_compute; reflexivity|lia|lia].
Defined.

Example open_after_sunday : window_open local weekend 0 = true.
Proof. by vm_compute. Qed.

(** A Debian build against a plain release *)
Lemma version_order_witness :
  ascii_digits (λ _, false) (Some (txt " v6.1.1-3ubuntu5")) ∧ ascii_digits (λ _, false) (Some (txt "12.76")) ∧
  version_of (Some (txt " v6.1.1-3ubuntu5")) [6; 1; 1] ∧ version_of (Some (txt "12.76")) [12; 76] ∧
  is_below (λ _, None) (λ _, false) (Some (txt " v6.1.1-3ubuntu5")) (Some (txt "12.76")) = Ok (Some true).
Proof.
  assert (∀ raw, ascii_digits (λ _, false) raw) as Ha.
  { intros raw t c _ _. unfold is_digit, dec_digit. rewrite andb_false_r, orb_false_r. lia. }
  assert (version_of (Some (txt " v6.1.1-3ubuntu5")) [6; 1; 1]) as H1.
  { exists [txt "6"; txt "1"; txt "1"]. split; [|split; [repeat constructor|reflexivity]].
    exists (txt " v6.1.1-3ubuntu5"), [118], (txt "-3ubuntu5"). split_and!; [reflexivity|vm_compute; reflexivity|right; left|done| |].
    - repeat constructor; done.
    - split; [|done]. intros [H _]. by apply H. }
  assert (version_of (Some (txt "12.76")) [12; 76]) as H2.
  { exists [txt "12"; txt "76"]. split; [|split; [repeat constructor|reflexivity]].
    exists (txt "12.76"), [], []. split_and!; [reflexivity|vm_compute; reflexivity|left|done| |done]. repeat constructor; done. }
  split_and!; [apply Ha|apply Ha|exact H1|exact H2|].
  destruct (proj1 (version_order (λ _, None) (λ _, false) _ _ (Ha _) (Ha _)) _ _ H1 H2) as (n & _ & -> & Hb & _).
  rewrite bool_decide_eq_true_2; [reflexivity|]. apply Hb. exists 0%nat. split; [lia|done].
Defined.

(** A superscript two is a digit and no decimal: where no answer is meant, there is an error. *)
Example superscript_raises : compare_versions (λ _, None) (λ c, c =? 178) (Some [178]) (Some (txt "5.0")) = Err ValueError.
Proof. by vm_compute. Qed.
End Demo.
