(* ===== verification/ConfigSettings.v ===== *)
(** * The two documents of a configuration group ([agent_config.py], [policy.py])

    What [validate_settings] and [validate_policy] let into a group, the sizes they measure
    and the inventory run that a merged document asks for.  The conversions of pydantic's
    default mode, Python's [re.compile] and the cron parser are parameters. *)
From S2P Require Import Prelude PyStr Utf8 PathLabel Text Json PyNum UpdateGate.
From Stdlib Require Import SpecFloat.
From stdpp Require Import options.

(** ** Constants *)

Definition SCAN_PRESET_NAMES : list text :=
  map txt ["user-documents"; "user-media"; "user-profiles-full"; "downloads"; "server-data"; "custom"].
Definition LOG_LEVELS : list text := map txt ["error"; "warn"; "info"; "verbose"; "debug"].
Definition MAX_SETTINGS_BYTES : nat := 65536.
Definition MAX_SCAN_SELECTIONS : nat := 100.
Definition MAX_PATHS_PER_SELECTION : nat := 200.
Definition MAX_REGEX_PER_SELECTION : nat := 200.
Definition MAX_PATH_LEN : nat := 4096.
Definition MAX_REGEX_LEN : nat := 4096.
Definition MAX_COLLECTORS : nat := 64.
Definition MAX_COLLECTOR_LEN : nat := 128.
Definition MAX_RETAIN_SNAPSHOTS : Z := 1000.
Definition MAX_PATH_SCOPE_PREDICATES : nat := 1000.

(** Why a document is refused: a [GroupSettingsValidationError] or [PolicyValidationError],
    a text without UTF-8 encoding, another exception of a validator *)
Inductive doc_error := Invalid | UnicodeEncodeError | OtherError.

Definition not_blank (t : text) : bool := negb (bool_decide (strip_space t = [])).
Definition at_most_chars (n : nat) (t : text) : bool := (length t <=? n)%nat.

(** [_check_balanced]: neither depth falls below zero, and both end there. *)
Fixpoint balanced (brace brack : Z) (spec : text) : bool :=
  match spec with
  | [] => (brace =? 0) && (brack =? 0)
  | ch :: spec' =>
      let brace := if ch =? 123 then brace + 1 else if ch =? 125 then brace - 1 else brace in
      let brack := if ch =? 91 then brack + 1 else if ch =? 93 then brack - 1 else brack in
      if (brace <? 0) || (brack <? 0) then false else balanced brace brack spec'
  end.
Definition _check_balanced (spec : text) : bool := balanced 0 0 spec.

Definition valid_path_spec (t : text) : bool := not_blank t && at_most_chars MAX_PATH_LEN t && _check_balanced t.

Section documents.
(** What pydantic makes of a value for [bool] and for [int]; [None]: refused *)
Context (as_bool : json → option bool) (as_int : json → option Z).
(** Do [re.compile] and [CronSim] accept the text *)
Context (re_ok cron_ok : text → bool) (zone : text → zone_answer).
Context (uni_lower : Z → list Z) (uni_decimal : Z → option Z) (float_repr : spec_float → text).
Context (fromisoformat : text → option Z) (preset_names : list text).

Definition is_bool (j : json) : bool := bool_decide (is_Some (as_bool j)).
Definition int_that (p : Z → bool) (j : json) : bool := match as_int j with Some n => p n | None => false end.

(** ** [schedule.py] *)

Definition validate_cron (expr : text) : bool := not_blank expr && cron_ok (strip_space expr).

Definition validate_schedule_tz (name : text) : bool :=
  bool_decide (name = txt "agent") || match zone name with ZoneKnown => true | _ => false end.

(** ** [GroupSettings] *)

Definition _validate_regex (pat : text) : bool := not_blank pat && at_most_chars MAX_REGEX_LEN pat && re_ok pat.

(** A nested model takes a dict only. *)
Definition model_that (p : list (text * json) → bool) (j : json) : bool := match j with JDict l => p l | _ => false end.

Definition ScanSelection (l : list (text * json)) : bool :=
  only_keys ["preset"; "paths"; "include_regex"; "exclude_regex"; "enabled"] l &&
  optional l "preset" (text_that (λ t, mem t SCAN_PRESET_NAMES)) &&
  defaulted l "paths" (texts_that MAX_PATHS_PER_SELECTION valid_path_spec) &&
  defaulted l "include_regex" (texts_that MAX_REGEX_PER_SELECTION _validate_regex) &&
  defaulted l "exclude_regex" (texts_that MAX_REGEX_PER_SELECTION _validate_regex) &&
  defaulted l "enabled" is_bool.

Definition AuditConfig (l : list (text * json)) : bool :=
  only_keys ["enabled"; "retain_snapshots"; "alert_on_change"; "watch_paths"] l &&
  defaulted l "enabled" is_bool &&
  defaulted l "retain_snapshots" (int_that (λ n, (1 <=? n) && (n <=? MAX_RETAIN_SNAPSHOTS))) &&
  defaulted l "alert_on_change" is_bool &&
  defaulted l "watch_paths" (texts_that MAX_PATHS_PER_SELECTION valid_path_spec).

Definition short_name (t : text) : bool := not_blank t && at_most_chars MAX_COLLECTOR_LEN t.

Definition PermissionsConfig (l : list (text * json)) : bool :=
  only_keys ["enabled"; "resolve_names"; "include_inherited"; "include_effective_access"; "exclude_well_known";
             "exclude_principals"; "collect_share_acls"; "audit"] l &&
  forallb (λ k, defaulted l k is_bool)
    ["enabled"; "resolve_names"; "include_inherited"; "include_effective_access"; "exclude_well_known"; "collect_share_acls"] &&
  defaulted l "exclude_principals" (texts_that MAX_COLLECTORS short_name) &&
  optional l "audit" (model_that AuditConfig).

(** The text that an optional text field holds after its validator *)
Definition set_text (l : list (text * json)) (key : string) : bool :=
  match dict_get (txt key) l with Some (JText _) => true | _ => false end.

Definition InventoryConfig (l : list (text * json)) : bool :=
  only_keys ["enabled"; "collectors"; "permissions"; "schedule_cron"; "schedule_tz"; "paths"; "preset"; "inherit_scan_paths";
             "max_entries"] l &&
  defaulted l "enabled" is_bool &&
  defaulted l "collectors" (texts_that MAX_COLLECTORS short_name) &&
  optional l "permissions" (model_that PermissionsConfig) &&
  optional l "schedule_cron" (text_that (λ t, not_blank t && validate_cron (strip_space t))) &&
  optional l "schedule_tz" (text_that (λ t, not_blank t && validate_schedule_tz (strip_space t))) &&
  defaulted l "paths" (texts_that 200 (λ t, not_blank t && at_most_chars 1024 t)) &&
  optional l "preset" (text_that (λ _, true)) &&
  defaulted l "inherit_scan_paths" is_bool &&
  optional l "max_entries" (int_that (λ n, (1000 <=? n) && (n <=? 5000000))) &&
  (negb (set_text l "schedule_tz") || set_text l "schedule_cron").

Definition GroupSettings (l : list (text * json)) : bool :=
  only_keys ["log_level"; "scan_selections"; "inventory"; "web_ui_enabled"; "local_access_enabled"; "auth_required"] l &&
  optional l "log_level" (text_that (λ t, mem t LOG_LEVELS)) &&
  optional l "scan_selections" (λ j, match j with
    | JList s => forallb (model_that ScanSelection) s && (length s <=? MAX_SCAN_SELECTIONS)%nat
    | _ => false
    end) &&
  optional l "inventory" (model_that InventoryConfig) &&
  forallb (λ k, optional l k is_bool) ["web_ui_enabled"; "local_access_enabled"; "auth_required"].

(** The bytes of the compact text; [None]: [UnicodeEncodeError] *)
Definition settings_json_len (l : list (text * json)) : option nat :=
  length <$> utf8_encode (json_dumps float_repr false (JDict l)).

(** The whole gate, for a settings object as the request carries it *)
Definition validate_settings (l : list (text * json)) : result doc_error unit :=
  match settings_json_len l with
  | None => Err UnicodeEncodeError
  | Some n =>
      if (MAX_SETTINGS_BYTES <? n)%nat then Err Invalid
      else if GroupSettings l then Ok tt else Err Invalid
  end.

(** ** [PolicyModel] *)

Definition POLICY_BOOLS : list string :=
  ["watch_mode"; "local_access_enabled"; "web_ui_enabled"; "auth_required"; "scan_on_start"; "auto_update"; "extract_enabled";
   "extract_body_text"; "extract_ocr"; "extract_exif"; "local_scan_control"; "local_schedule_control"; "local_roots_control"].

(** The bounded integers, the upper bound when there is one *)
Definition POLICY_INTS : list (string * Z * option Z) :=
  [("content_hash_max_bytes", 0, None); ("reconcile_interval_seconds", 300, None);
   ("poll_interval_seconds", 60, Some 86400); ("offline_grace_seconds", 0, None); ("scan_interval_seconds", 300, None);
   ("upload_rate_bytes_per_sec", 0, None); ("update_poll_interval_seconds", 300, Some 604800); ("extract_max_bytes", 0, None)].

Definition in_bounds (lo : Z) (hi : option Z) (n : Z) : bool := (lo <=? n) && match hi with Some h => n <=? h | None => true end.

(** [_valid_update_window]: blank counts as absent; the zone may raise something else. *)
Definition window_check (l : list (text * json)) : result doc_error bool :=
  match dict_get (txt "update_window") l with
  | None | Some JNull => Ok true
  | Some j =>
      match str_field j with
      | None => Ok false
      | Some t =>
          if not_blank t then
            match parse_update_window uni_lower uni_decimal zone t with
            | Ok _ => Ok true
            | Err ValueError => Ok false
            | Err ZoneFailure => Err OtherError
            end
          else Ok true
      end
  end.

Definition PolicyModel (l : list (text * json)) : result doc_error bool :=
  window <-! window_check l;
  Ok (window &&
    optional l "presets" (texts_all (λ t, mem t preset_names)) &&
    forallb (λ k, optional l k (texts_all (λ _, true))) ["include_globs"; "exclude_globs"] &&
    forallb (λ k, optional l k is_bool) POLICY_BOOLS &&
    forallb (λ '(k, lo, hi), optional l k (int_that (in_bounds lo hi))) POLICY_INTS &&
    optional l "read_only" (λ j, bool_decide (as_bool j = Some true)) &&
    optional l "path_scope" (texts_that MAX_PATH_SCOPE_PREDICATES not_blank) &&
    optional l "scan_cron" (text_that validate_cron) &&
    optional l "update_not_before" (text_that (λ t, negb (not_blank t) ||
      bool_decide (is_Some (parse_not_before fromisoformat t))))).

Definition policy_json_len (l : list (text * json)) : option nat := settings_json_len l.

Definition validate_policy (l : list (text * json)) : result doc_error unit :=
  ok <-! PolicyModel l; if ok then Ok tt else Err Invalid.

(** ** The inventory run *)

Definition texts_of (j : option json) : list json := match j with Some (JList l) => l | _ => [] end.
Definition given_json (j : option json) : option json := match j with Some j => if truthy j then Some j else None | None => None end.

(** [inventory_command_payload]; [int] of the cap is the one the validator admitted. *)
Definition inventory_command_payload (inv : list (text * json)) (scheduled : bool) : list (text * json) :=
  [(txt "scheduled", JBool scheduled);
   (txt "collectors", JList (texts_of (given_json (dict_get (txt "collectors") inv))));
   (txt "paths", JList (texts_of (given_json (dict_get (txt "paths") inv))))] ++
  match given_json (dict_get (txt "preset") inv) with Some j => [(txt "preset", j)] | None => [] end ++
  match given_json (dict_get (txt "max_entries") inv) with
  | Some j => match as_int j with Some n => [(txt "max_entries", JInt n)] | None => [] end
  | None => []
  end.

(** The first of each text that is not empty, in order *)
Fixpoint dedup (seen : list text) (l : list text) : list text :=
  match l with
  | [] => []
  | p :: l' => if bool_decide (p = []) || mem p seen then dedup seen l' else p :: dedup (p :: seen) l'
  end.

Definition only_texts (l : list json) : list text := omap (λ j, match j with JText t => Some t | _ => None end) l.

(** [inventory_walk_paths] of an agent whose libraries have the roots given, in order *)
Definition inventory_walk_paths (roots : list text) (inv group : list (text * json)) : list text :=
  let own := only_texts (texts_of (dict_get (txt "paths") inv)) in
  let inherit := match dict_get (txt "inherit_scan_paths") inv with Some j => truthy j | None => false end ||
    negb (negb (bool_decide (own = [])) || match dict_get (txt "preset") inv with Some j => truthy j | None => false end) in
  let selected (sel : json) := match sel with
    | JDict l => if match dict_get (txt "enabled") l with Some j => truthy j | None => true end
                 then only_texts (texts_of (dict_get (txt "paths") l)) else []
    | _ => []
    end in
  dedup [] (own ++ if inherit then roots ++ (texts_of (dict_get (txt "scan_selections") group) ≫= selected) else []).
End documents.
