(* ===== verification/ConfigRollout.v ===== *)
(** * Phased rollouts ([agent_config.py], [worker.py])

    The tiers of a rollout, the bucket of an agent, what a rollout covers, and the state
    machine that configuration rollouts and release rollouts share: scheduled, running tier
    by tier, completed or cancelled.  Times are microseconds; a time past the year 9999 is
    Python's [OverflowError]. *)
From S2P Require Import Prelude PyStr Uuid Utf8 PathLabel Text Json.
From stdpp Require Import options.

(** ** Tiers *)

Record Tier := mkTier { percent : Z; delay_minutes : Z }.
Global Instance tier_eq_dec : EqDecision Tier.
Proof. solve_decision. Defined.

Definition MAX_ROLLOUT_TIERS : nat := 5.

(** One entry after the percent [previous]; [None]: [RolloutValidationError] *)
Definition validate_tier (previous : Z) (tier : json) : option Tier :=
  match tier with
  | JDict l =>
      match dict_get (txt "percent") l, default (JInt 0) (dict_get (txt "delay_minutes") l) with
      | Some (JInt p), JInt d =>
          if (1 <=? p) && (p <=? 100) && negb (p <=? previous) && (0 <=? d) then Some (mkTier p d) else None
      | _, _ => None
      end
  | _ => None
  end.

Fixpoint validate_from (previous : Z) (tiers : list json) : option (list Tier) :=
  match tiers with
  | [] => Some []
  | t :: ts => t ← validate_tier previous t; l ← validate_from (percent t) ts; Some (t :: l)
  end.

Definition last_percent (l : list Tier) : option Z := percent <$> last l.

Definition validate_tiers (tiers : list json) : option (list Tier) :=
  if bool_decide (tiers = []) || (MAX_ROLLOUT_TIERS <? length tiers)%nat then None
  else l ← validate_from 0 tiers; if bool_decide (last_percent l = Some 100) then Some l else None.

(** ** Buckets *)

(** The 16 bytes of a UUID, most significant first *)
Fixpoint bytes_be (n : nat) (z : Z) : list Z :=
  match n with O => [] | S n' => bytes_be n' (z / 256) ++ [z mod 256] end.
Definition uuid_bytes (u : Z) : list Z := bytes_be 16 u.
Definition from_bytes_be (l : list Z) : Z := foldl (λ n b, 256 * n + b) 0 l.

Section bucket.
(** [hashlib.sha256(...).digest()] *)
Context (sha256_digest : list Z → list Z).
Definition agent_bucket (agent_id : Z) : Z := from_bytes_be (take 4 (sha256_digest (uuid_bytes agent_id))) mod 100.
End bucket.

(** ** Rollouts *)

Inductive RolloutStatus := scheduled | running | completed | cancelled.
Global Instance rollout_status_eq_dec : EqDecision RolloutStatus.
Proof. solve_decision. Defined.

Definition status_text (s : RolloutStatus) : string :=
  match s with scheduled => "scheduled" | running => "running" | completed => "completed" | cancelled => "cancelled" end.

(** What both kinds of rollout keep *)
Record Rollout := mkRollout {
  tiers : list Tier;
  status : RolloutStatus;
  current_tier : Z;
  starts_at : option Z;
  started_at : option Z;
  tier_started_at : option Z;
  finished_at : option Z;
}.
Global Instance rollout_eq_dec : EqDecision Rollout.
Proof. solve_decision. Defined.

(** A new row, with the defaults of its columns *)
Definition new_rollout (l : list Tier) (starts : option Z) : Rollout := mkRollout l scheduled (-1) starts None None None.

Definition live (r : Rollout) : bool := bool_decide (status r ∈ [scheduled; running]).
Definition tier_count (r : Rollout) : Z := Z.of_nat (length (tiers r)).

Definition rollout_active_percent (rollout : option Rollout) : option Z :=
  r ← rollout;
  if negb (bool_decide (status r = running)) || (current_tier r <? 0) then None
  else if tier_count r <=? current_tier r then None
  else percent <$> tiers r !! Z.to_nat (current_tier r).

Definition rollout_covers (bucket : Z) (rollout : option Rollout) : bool :=
  match rollout_active_percent rollout with Some p => bucket <? p | None => false end.

(** ** Time *)

Definition MINUTE : Z := 60000000.
(** 9999-12-31 23:59:59.999999 UTC *)
Definition MAX_TIME : Z := 253402300799999999.

(** [at + timedelta(minutes=n)]; [None]: [OverflowError] *)
Definition after_minutes (t n : Z) : option Z := if t + n * MINUTE <=? MAX_TIME then Some (t + n * MINUTE) else None.

Definition _next_promotion_at (r : Rollout) : option (option Z) :=
  match tier_started_at r with
  | Some t =>
      if bool_decide (status r = running) then
        match tiers r !! Z.to_nat (current_tier r + 1) with
        | Some tier => Some <$> after_minutes t (delay_minutes tier)
        | None => Some None
        end
      else Some None
  | None => Some None
  end.

(** ** One tick *)

(** What a tick makes of a rollout: nothing, the row it commits, or an [OverflowError] *)
Inductive tick_result := Unchanged | Advanced (r : Rollout) | Overflow.

Definition with_tier (r : Rollout) (s : RolloutStatus) (n : Z) (started at_ finished : option Z) : Rollout :=
  mkRollout (tiers r) s n (starts_at r) started at_ finished.

(** [_step_rollout] *)
Definition _step_rollout (r : Rollout) (tick : Z) : tick_result :=
  match tiers r with
  | [] => Unchanged
  | first :: others =>
      if bool_decide (status r = scheduled) then
        if match starts_at r with Some t => tick <? t | None => false end then Unchanged
        else if delay_minutes first <=? 0 then
          if bool_decide (others = []) then Advanced (with_tier r completed 0 (Some tick) (Some tick) (Some tick))
          else Advanced (with_tier r running 0 (Some tick) (Some tick) (finished_at r))
        else Advanced (with_tier r running (current_tier r) (Some tick) (Some tick) (finished_at r))
      else
        let nxt := current_tier r + 1 in
        if tier_count r <=? nxt then Unchanged
        else
          let anchor := match tier_started_at r with Some t => t | None => default tick (started_at r) end in
          match tiers r !! Z.to_nat nxt with
          | None => Unchanged
          | Some tier =>
              match after_minutes anchor (delay_minutes tier) with
              | None => Overflow
              | Some due =>
                  if tick <? due then Unchanged
                  else if nxt =? tier_count r - 1 then Advanced (with_tier r completed nxt (started_at r) (Some tick) (Some tick))
                  else Advanced (with_tier r running nxt (started_at r) (Some tick) (finished_at r))
              end
          end
  end.

(** The body of the loop of [_advance_config_rollouts], written out a second time there *)
Definition advance_config (r : Rollout) (tick : Z) : tick_result :=
  if bool_decide (tiers r = []) then Unchanged
  else if bool_decide (status r = scheduled) then
    if match starts_at r with Some t => tick <? t | None => false end then Unchanged
    else
      let first_delay := match tiers r with t :: _ => delay_minutes t | [] => 0 end in
      if 0 <? first_delay then Advanced (with_tier r running (current_tier r) (Some tick) (Some tick) (finished_at r))
      else if (length (tiers r) =? 1)%nat then Advanced (with_tier r completed 0 (Some tick) (Some tick) (Some tick))
      else Advanced (with_tier r running 0 (Some tick) (Some tick) (finished_at r))
  else
    let nxt := current_tier r + 1 in
    if tier_count r <=? nxt then Unchanged
    else
      let anchor := match tier_started_at r with Some t => t | None => default tick (started_at r) end in
      let delay := match tiers r !! Z.to_nat nxt with Some t => delay_minutes t | None => 0 end in
      match after_minutes anchor delay with
      | None => Overflow
      | Some due =>
          if tick <? due then Unchanged
          else
            let last := nxt =? tier_count r - 1 in
            Advanced (with_tier r (if last then completed else running) nxt (started_at r) (Some tick)
              (if last then Some tick else finished_at r))
      end.

(** An operator's promotion of a running rollout, and a cancellation *)
Definition promote (r : Rollout) (now : Z) : Rollout :=
  let r := if current_tier r + 1 <? tier_count r
           then with_tier r (status r) (current_tier r + 1) (started_at r) (Some now) (finished_at r) else r in
  if tier_count r - 1 <=? current_tier r
  then with_tier r completed (current_tier r) (started_at r) (tier_started_at r) (Some now) else r.

Definition cancel (r : Rollout) (now : Z) : Rollout :=
  with_tier r cancelled (current_tier r) (started_at r) (tier_started_at r) (Some now).
