(* ===== verification/ConfigGroups.v ===== *)
(** * Configuration groups ([agent_config.py], [api/agent_config_groups.py], [api/agent_policies.py], [worker.py])

    Named, prioritised groups of two documents, their numbered snapshots, the phased rollout
    of a snapshot to a growing slice of the agents, the membership of the agents, the merged
    document an agent polls, and the minute tick. A request is one transaction; a tick
    commits each rollout on its own and may die between two commits. *)
From S2P Require Import Prelude PyStr Uuid Utf8 PathLabel Text Json Catalog Rbac Access AgentSync Verify Commands UpdateGate ConfigSettings ConfigRollout.
From Stdlib Require Import SpecFloat.
From stdpp Require Import options.

(** ** Rows *)

Record Group := mkGroup {
  g_id : Z;
  g_name : text;
  g_description : option text;
  g_settings : gmap text json;
  g_policy : gmap text json;
  g_priority : Z;
  g_is_system : bool;
  g_current_version : Z;
  g_created_at : Z;
  g_updated_at : Z;
}.
Global Instance group_eq_dec : EqDecision Group.
Proof. solve_decision. Defined.

Record GroupVersion := mkVersion {
  v_seq : Z;
  v_group : Z;
  v_version : Z;
  v_settings : gmap text json;
  v_policy : gmap text json;
  v_actor : option string;
  v_note : option text;
  v_created_at : Z;
}.

Record ConfigRollout := mkConfigRollout {
  cr_id : Z;
  cr_group : Z;
  cr_target : Z;
  cr_rollout : Rollout;
  cr_actor : option string;
  cr_created_at : Z;
}.

(** [seqs] is the last number drawn of the identity column; [applied] is a column of the
    agents table ([config_generation_applied]; no entry: [NULL]). *)
Record Configs := mkConfigs {
  fleet : Fleet;
  members : gset (Z * Z);
  groups : gmap Z Group;
  versions : list GroupVersion;
  seqs : Z;
  config_rollouts : gmap Z ConfigRollout;
  groups_made : nat;
  rollouts_made : nat;
  applied : gmap Z Z;
}.

Definition set_fleet (s : Configs) (f : Fleet) : Configs :=
  mkConfigs f (members s) (groups s) (versions s) (seqs s) (config_rollouts s) (groups_made s) (rollouts_made s) (applied s).
Definition set_members (s : Configs) (m : gset (Z * Z)) : Configs :=
  mkConfigs (fleet s) m (groups s) (versions s) (seqs s) (config_rollouts s) (groups_made s) (rollouts_made s) (applied s).
Definition set_groups (s : Configs) (m : gmap Z Group) (made : nat) : Configs :=
  mkConfigs (fleet s) (members s) m (versions s) (seqs s) (config_rollouts s) made (rollouts_made s) (applied s).
Definition set_versions (s : Configs) (l : list GroupVersion) (n : Z) : Configs :=
  mkConfigs (fleet s) (members s) (groups s) l n (config_rollouts s) (groups_made s) (rollouts_made s) (applied s).
Definition set_rollouts (s : Configs) (m : gmap Z ConfigRollout) (made : nat) : Configs :=
  mkConfigs (fleet s) (members s) (groups s) (versions s) (seqs s) m (groups_made s) made (applied s).
Definition set_applied (s : Configs) (m : gmap Z Z) : Configs :=
  mkConfigs (fleet s) (members s) (groups s) (versions s) (seqs s) (config_rollouts s) (groups_made s) (rollouts_made s) m.

Definition put_group (s : Configs) (g : Group) : Configs := set_groups s (<[g_id g := g]> (groups s)) (groups_made s).
Definition put_rollout (s : Configs) (r : ConfigRollout) : Configs :=
  set_rollouts s (<[cr_id r := r]> (config_rollouts s)) (rollouts_made s).
Definition with_rollout (c : ConfigRollout) (r : Rollout) : ConfigRollout :=
  mkConfigRollout (cr_id c) (cr_group c) (cr_target c) r (cr_actor c) (cr_created_at c).

(** The [UPDATE] of a group, which stamps [updated_at] when a column changes *)
Definition updated (old new : Group) (now : Z) : Group :=
  if bool_decide (old = new) then old
  else mkGroup (g_id new) (g_name new) (g_description new) (g_settings new) (g_policy new) (g_priority new) (g_is_system new)
    (g_current_version new) (g_created_at new) now.
Definition set_current (g : Group) (v : Z) : Group :=
  mkGroup (g_id g) (g_name g) (g_description g) (g_settings g) (g_policy g) (g_priority g) (g_is_system g) v
    (g_created_at g) (g_updated_at g).
Definition set_documents (g : Group) (settings policy : gmap text json) : Group :=
  mkGroup (g_id g) (g_name g) (g_description g) settings policy (g_priority g) (g_is_system g) (g_current_version g)
    (g_created_at g) (g_updated_at g).

(** What the columns of a group and of a snapshot accept *)
Definition opt_column_ok (t : option text) : bool := match t with Some t => column_ok t | None => true end.
Definition group_ok (g : Group) : bool :=
  column_ok (g_name g) && opt_column_ok (g_description g) && jsonb_map_ok (g_settings g) && jsonb_map_ok (g_policy g).

Definition agent_exists (s : Configs) (a : Z) : bool := bool_decide (is_Some (agents (central (fleet s)) !! a)).

(** An object as the wire carries it, its keys in some order *)
Definition object_of (m : gmap text json) : json := JDict (map_to_list m).

(** ** The merge *)

Inductive section := in_settings | in_policy.
Global Instance section_eq_dec : EqDecision section.
Proof. solve_decision. Defined.
Global Instance section_countable : Countable section.
Proof.
  refine (inj_countable' (λ s, match s with in_settings => true | in_policy => false end)
    (λ b, if b then in_settings else in_policy) _). by intros [].
Defined.

Record Source := mkSource { s_group : Z; s_name : text; s_version : Z }.

Record GroupContribution := mkContribution {
  gc_group : Group;
  version_used : Z;
  gc_seq : Z;
  via_rollout : bool;
  gc_settings : gmap text json;
  gc_policy : gmap text json;
}.

Record EffectiveConfig := mkEffective {
  document : gmap text json;
  e_settings : gmap text json;
  e_policy : gmap text json;
  generation : Z;
  doc_hash : option string;
  contributors : list GroupContribution;
  provenance : gmap (section * text) Source;
}.

Definition LIFTED_LOCAL_KEYS : list text := map txt ["web_ui_enabled"; "local_access_enabled"; "auth_required"].
Definition GROUP_KEY : text := txt "group".

Definition lift_key (settings doc : gmap text json) (key : text) : gmap text json :=
  match settings !! key with
  | None | Some JNull => doc
  | Some v => <[key := v]> doc
  end.
Definition compose_document (settings policy : gmap text json) : gmap text json :=
  foldl (lift_key settings) (<[GROUP_KEY := object_of settings]> policy) LIFTED_LOCAL_KEYS.

(** [sort_keys=True] at every level *)
Definition key_le (a b : text * json) : bool := text_le a.1 b.1.
Fixpoint sort_keys (j : json) : json :=
  match j with
  | JList l => JList (map sort_keys l)
  | JDict l => JDict (merge_sort key_le (map (λ '(k, v), (k, sort_keys v)) l))
  | _ => j
  end.

Section configs.
Context (uni_lower : Z → list Z) (float_repr : spec_float → text) (uni_decimal : Z → option Z).
Context (as_bool : json → option bool) (as_int : json → option Z) (re_ok cron_ok : text → bool) (zone : text → zone_answer).
Context (fromisoformat : text → option Z) (preset_names : list text).
(** SHA-256 as a digest and in hexadecimal *)
Context (sha256_digest : list Z → list Z) (sha256_hex : list Z → string).
(** The database's order of texts, and its orders where a query states none *)
Context (collate : text → text → bool) (row_order : list ConfigRollout → list ConfigRollout).
Context (sha256 : string → string) (settings : SyncSettings) (auth_enabled : bool) (_roles : gmap string Role).
Context (agent_policy_max_bytes : nat) (new_group new_rollout_id : nat → Z).
(** A wall clock in the time zone of the database's session *)
Context (db_zone : Z → Z).

Definition canonical_hash (doc : gmap text json) : option string :=
  bytes ← utf8_encode (json_dumps float_repr false (sort_keys (object_of doc)));
  Some (String.substring 0 12 (sha256_hex bytes)).

(** [ORDER BY priority, name, id] *)
Definition merge_le (a b : Group) : bool :=
  (g_priority a <? g_priority b) ||
  (g_priority a =? g_priority b) &&
  (if bool_decide (g_name a = g_name b) then g_id a <=? g_id b else collate (g_name a) (g_name b)).

Definition all_groups (s : Configs) : list Group := map snd (map_to_list (groups s)).

Definition load_agent_groups (s : Configs) (agent_id : Z) : list Group :=
  merge_sort merge_le (filterb (λ g, g_is_system g || bool_decide ((agent_id, g_id g) ∈ members s)) (all_groups s)).

Definition live_rollout (s : Configs) (group : Z) : option ConfigRollout :=
  List.find (λ r, (cr_group r =? group) && live (cr_rollout r)) (map snd (map_to_list (config_rollouts s))).

(** The version of a group that an agent of the bucket receives *)
Definition version_for (s : Configs) (bucket : Z) (g : Group) : Z * bool :=
  match live_rollout s (g_id g) with
  | Some r =>
      if rollout_covers bucket (Some (cr_rollout r)) && (g_current_version g <? cr_target r) then (cr_target r, true)
      else (g_current_version g, false)
  | None => (g_current_version g, false)
  end.

Definition snapshot (s : Configs) (group version : Z) : option GroupVersion :=
  List.find (λ v, (v_group v =? group) && (v_version v =? version)) (versions s).

Definition contribution (s : Configs) (bucket : Z) (g : Group) : GroupContribution :=
  let '(version, early) := version_for s bucket g in
  match snapshot s (g_id g) version with
  | None => mkContribution g version 0 early (g_settings g) (g_policy g)
  | Some v => mkContribution g version (v_seq v) early (v_settings v) (v_policy v)
  end.

(** [target[key] = value] for each key of the later section *)
Definition overlay (target source : gmap text json) : gmap text json := source ∪ target.

Definition source_of (c : GroupContribution) : Source := mkSource (g_id (gc_group c)) (g_name (gc_group c)) (version_used c).

Definition keys_of (sec : section) (m : gmap text json) (src : Source) : gmap (section * text) Source :=
  list_to_map (map (λ '(k, _), ((sec, k), src)) (map_to_list m)).

(** One turn of the loop over the groups *)
Definition merge_one (st : gmap text json * gmap text json * gmap (section * text) Source * Z) (c : GroupContribution) :
    gmap text json * gmap text json * gmap (section * text) Source * Z :=
  let '(ms, mp, prov, gen) := st in
  (overlay ms (gc_settings c), overlay mp (gc_policy c),
   keys_of in_policy (gc_policy c) (source_of c) ∪ (keys_of in_settings (gc_settings c) (source_of c) ∪ prov),
   Z.max gen (gc_seq c)).

Definition resolve_effective_config (s : Configs) (agent_id : Z) : EffectiveConfig :=
  let cs := map (contribution s (agent_bucket sha256_digest agent_id)) (load_agent_groups s agent_id) in
  let '(ms, mp, prov, gen) := foldl merge_one (∅, ∅, ∅, 0) cs in
  let doc := compose_document ms mp in
  mkEffective doc ms mp gen (canonical_hash doc) cs prov.

Definition config_etag (gen : Z) (hash : string) (taxonomy_version : Z) : text :=
  [QUOTE] ++ txt "groups/" ++ int_text gen ++ txt "/h:" ++ txt hash ++ txt "/t:" ++ int_text taxonomy_version ++ [QUOTE].

(** ** Replies *)

Inductive config_reply :=
  | GHttpError (status : Z)
  | GGroup (g : Group) (member_count : nat) (rollout : option ConfigRollout)
  | GGroups (l : list (Group * nat * option ConfigRollout))
  | GDetail (g : Group) (member_count : nat) (rollout : option ConfigRollout) (l : list GroupVersion)
  | GHistory (l : list GroupVersion)
  | GRollout (r : ConfigRollout) (covered_percent : Z) (next_promotion_at : option Z)
  | GRollouts (l : list (ConfigRollout * Z * option Z))
  | GMembership (l : list Group)
  | GEffective (e : EffectiveConfig) (confirmed : option Z)
  | GPolicy (gen : Z) (doc : gmap text json) (etag : text)
  | GNotModified (etag : text)
  | GNoContent
  | GTick (advanced : list Z)
  | GDied.

Definition member_counts (s : Configs) (group : Z) : nat := length (filterb (λ '(_, g), g =? group) (elements (members s))).
Definition agent_total (s : Configs) : nat := size (agents (central (fleet s))).
Definition member_count (s : Configs) (g : Group) : nat := if g_is_system g then agent_total s else member_counts s (g_id g).
Definition _group_out (s : Configs) (g : Group) : config_reply := GGroup g (member_count s g) (live_rollout s (g_id g)).

(** [_rollout_out]; an [OverflowError] of the next promotion answers 500. *)
Definition rollout_row (r : ConfigRollout) : option (ConfigRollout * Z * option Z) :=
  nxt ← _next_promotion_at (cr_rollout r); Some (r, default 0 (rollout_active_percent (Some (cr_rollout r))), nxt).
Definition _rollout_out (r : ConfigRollout) : config_reply :=
  match rollout_row r with Some (r, p, nxt) => GRollout r p nxt | None => GHttpError 500 end.

(** ** Documents *)

Definition doc_status (e : doc_error) : Z := match e with Invalid => 422 | _ => 500 end.

Definition _validate_settings_or_422 (l : list (text * json)) : result Z unit :=
  match validate_settings as_bool as_int re_ok cron_ok zone float_repr l with Ok _ => Ok tt | Err e => Err (doc_status e) end.

Definition _validate_policy_or_422 (l : list (text * json)) : result Z unit :=
  match policy_json_len float_repr l with
  | None => Err 500
  | Some n =>
      if (agent_policy_max_bytes <? n)%nat then Err 413
      else match validate_policy as_bool as_int cron_ok zone uni_lower uni_decimal fromisoformat preset_names l with
        | Ok _ => Ok tt
        | Err e => Err (doc_status e)
        end
  end.

Definition stored (l : list (text * json)) : gmap text json := list_to_map l.

(** [_publish_version]: a snapshot of the group's documents with the next number *)
Definition next_version (s : Configs) (group : Z) : Z :=
  foldr Z.max 0 (map v_version (filterb (λ v, v_group v =? group) (versions s))) + 1.
Definition _publish_version (s : Configs) (g : Group) (actor : option string) (note : option text) (now : Z) : Configs * GroupVersion :=
  let row := mkVersion (seqs s + 1) (g_id g) (next_version s (g_id g)) (g_settings g) (g_policy g) actor note now in
  (set_versions s (versions s ++ [row]) (seqs s + 1), row).

Definition name_taken (s : Configs) (id : Z) (name : text) : bool :=
  existsb (λ '(i, g), negb (i =? id) && bool_decide (g_name g = name)) (map_to_list (groups s)).

(** ** Groups *)

Record ConfigGroupIn := mkGroupIn {
  gi_name : text;
  gi_description : option text;
  gi_settings : list (text * json);
  gi_policy : list (text * json);
  gi_priority : Z;
}.

(** A time of a request: an instant, or the time of a wall clock when no offset is given *)
Inductive request_time := Aware (t : Z) | Naive (wall : Z).

Record ConfigGroupUpdateIn := mkGroupUpdate {
  gu_name : option text;
  gu_description : option text;
  gu_priority : option Z;
  gu_settings : option (list (text * json));
  gu_policy : option (list (text * json));
  gu_note : option text;
  gu_rollout : option (list json * option request_time);
}.

Definition name_ok (t : text) : bool := (1 <=? length t)%nat && (length t <=? 128)%nat.
Definition short_text (t : option text) : bool := match t with Some t => (length t <=? 1024)%nat | None => true end.
Definition priority_ok (n : Z) : bool := (0 <=? n) && (n <=? 1000000).
Definition body_ok {A} (p : A → bool) (x : option A) : bool := match x with Some a => p a | None => true end.

Definition create_config_group (s : Configs) (b : ConfigGroupIn) (actor : option string) (now : Z) : Configs * config_reply :=
  if negb (name_ok (gi_name b) && short_text (gi_description b) && priority_ok (gi_priority b)) then (s, GHttpError 422)
  else match _validate_settings_or_422 (gi_settings b) with
  | Err e => (s, GHttpError e)
  | Ok _ =>
      match _validate_policy_or_422 (gi_policy b) with
      | Err e => (s, GHttpError e)
      | Ok _ =>
          let g := mkGroup (new_group (groups_made s)) (gi_name b) (gi_description b) (stored (gi_settings b)) (stored (gi_policy b))
            (gi_priority b) false 1 now now in
          if negb (group_ok g) then (s, GHttpError 500)
          else if name_taken s (g_id g) (g_name g) || bool_decide (is_Some (groups s !! g_id g)) then (s, GHttpError 409)
          else
            let s' := set_groups s (<[g_id g := g]> (groups s)) (S (groups_made s)) in
            let '(s', _) := _publish_version s' g actor (Some (txt "created")) now in
            (s', GGroup g 0 None)
      end
  end.

(** The row after the fields of the request, or the status of a refusal *)
Definition edited (g : Group) (b : ConfigGroupUpdateIn) : result Z Group :=
  let keep {A} (x : option A) (old : A) := default old x in
  _ <-! match gu_settings b with Some l => _validate_settings_or_422 l | None => Ok tt end;
  _ <-! match gu_policy b with Some l => _validate_policy_or_422 l | None => Ok tt end;
  Ok (mkGroup (g_id g) (keep (gu_name b) (g_name g)) (match gu_description b with Some d => Some d | None => g_description g end)
        (match gu_settings b with Some l => stored l | None => g_settings g end)
        (match gu_policy b with Some l => stored l | None => g_policy g end)
        (keep (gu_priority b) (g_priority g)) (g_is_system g) (g_current_version g) (g_created_at g) (g_updated_at g)).

(** A flush of the edited row: the columns refuse a value, the name is taken. *)
Definition flush_group (s : Configs) (g : Group) (on_conflict : Z) : result Z unit :=
  if negb (group_ok g) then Err 500 else if name_taken s (g_id g) (g_name g) then Err on_conflict else Ok tt.

Definition instant (t : request_time) : Z := match t with Aware t => t | Naive wall => db_zone wall end.

Definition new_config_rollout (s : Configs) (g : Group) (target : Z) (tiers : list Tier) (starts : option Z)
    (actor : option string) (now : Z) : ConfigRollout :=
  mkConfigRollout (new_rollout_id (rollouts_made s)) (g_id g) target (new_rollout tiers starts) actor now.

Definition update_body_ok (b : ConfigGroupUpdateIn) : bool :=
  body_ok name_ok (gu_name b) && short_text (gu_description b) && body_ok priority_ok (gu_priority b) && short_text (gu_note b).

(** The edit of the documents, live at once or behind a rollout. A flush before the last one
    is outside the handler's [try]. *)
Definition publish_edit (s : Configs) (old g : Group) (b : ConfigGroupUpdateIn) (actor : option string) (now : Z) :
    Configs * config_reply :=
  match gu_rollout b with
  | None =>
      match flush_group s g 500 with
      | Err e => (s, GHttpError e)
      | Ok _ =>
          if negb (opt_column_ok (gu_note b)) then (s, GHttpError 500)
          else
            let '(s', v) := _publish_version s g actor (gu_note b) now in
            let g' := updated old (set_current g (v_version v)) now in
            let s' := put_group s' g' in (s', _group_out s' g')
      end
  | Some (raw, starts) =>
      match validate_tiers raw with
      | None => (s, GHttpError 422)
      | Some tiers =>
          match flush_group s g 500 with
          | Err e => (s, GHttpError e)
          | Ok _ =>
              if bool_decide (is_Some (live_rollout s (g_id g))) then (s, GHttpError 409)
              else if negb (opt_column_ok (gu_note b)) then (s, GHttpError 500)
              else
                let '(s', v) := _publish_version s g actor (gu_note b) now in
                let burnt := set_versions s (versions s) (seqs s + 1) in
                let with_start (start : option Z) :=
                  let r := new_config_rollout s g (v_version v) tiers start actor now in
                  match config_rollouts s !! cr_id r with
                  | Some _ => (burnt, GHttpError 409)
                  | None =>
                      let g' := updated old g now in
                      let s' := put_group s' g' in
                      let s' := set_rollouts s' (<[cr_id r := r]> (config_rollouts s')) (S (rollouts_made s)) in
                      (s', _group_out s' g')
                  end in
                with_start (instant <$> starts)
          end
      end
  end.

Definition update_config_group (s : Configs) (group_id : Z) (b : ConfigGroupUpdateIn) (actor : option string) (now : Z) :
    Configs * config_reply :=
  if negb (update_body_ok b) then (s, GHttpError 422)
  else match groups s !! group_id with
  | None => (s, GHttpError 404)
  | Some row =>
      let document_changed := bool_decide (is_Some (gu_settings b)) || bool_decide (is_Some (gu_policy b)) in
      if g_is_system row && (bool_decide (is_Some (gu_name b)) || bool_decide (is_Some (gu_priority b))) then (s, GHttpError 409)
      else if bool_decide (is_Some (gu_rollout b)) && negb document_changed then (s, GHttpError 422)
      else match edited row b with
      | Err e => (s, GHttpError e)
      | Ok g =>
          if document_changed then publish_edit s row g b actor now
          else match flush_group s g 409 with
          | Err e => (s, GHttpError e)
          | Ok _ => let g' := updated row g now in let s' := put_group s g' in (s', _group_out s' g')
          end
      end
  end.

(** The row and, by the foreign keys, its memberships, snapshots and rollouts *)
Definition delete_config_group (s : Configs) (group_id : Z) : Configs * config_reply :=
  match groups s !! group_id with
  | None => (s, GHttpError 404)
  | Some g =>
      if g_is_system g then (s, GHttpError 409)
      else
        (mkConfigs (fleet s) (filter (λ '(_, x), x ≠ group_id) (members s)) (delete group_id (groups s))
           (filterb (λ v, negb (v_group v =? group_id)) (versions s)) (seqs s)
           (filter (λ '(_, r), cr_group r ≠ group_id) (config_rollouts s)) (groups_made s) (rollouts_made s) (applied s),
         GNoContent)
  end.

(** Newest first *)
Definition version_ge (a b : GroupVersion) : bool := v_version b <=? v_version a.
Definition history_of (s : Configs) (group_id : Z) (before : option Z) (limit : nat) : list GroupVersion :=
  take limit (merge_sort version_ge (filterb (λ v, (v_group v =? group_id) &&
    match before with Some n => v_version v <? n | None => true end) (versions s))).

Definition config_group_history (s : Configs) (group_id : Z) (before : option Z) (limit : Z) : config_reply :=
  match groups s !! group_id with
  | None => GHttpError 404
  | Some _ => GHistory (history_of s group_id before (Z.to_nat (Z.max 1 (Z.min limit 100))))
  end.

Definition get_config_group (s : Configs) (group_id : Z) : config_reply :=
  match groups s !! group_id with
  | None => GHttpError 404
  | Some g => GDetail g (member_count s g) (live_rollout s group_id) (history_of s group_id None 20)
  end.

(** [ORDER BY priority, name]; the order of equals is the query's. *)
Definition list_config_groups (s : Configs) : config_reply :=
  GGroups (map (λ g, (g, member_count s g, live_rollout s (g_id g))) (merge_sort merge_le (all_groups s))).

Definition rollback_note (note : option text) (version : Z) : text :=
  match note with Some (c :: t) => c :: t | _ => txt "rollback to version " ++ int_text version end.

Definition rollback_config_group (s : Configs) (group_id version : Z) (note : option text) (actor : option string) (now : Z) :
    Configs * config_reply :=
  if (version <? 1) || negb (short_text note) then (s, GHttpError 422)
  else match groups s !! group_id with
  | None => (s, GHttpError 404)
  | Some old =>
      match snapshot s group_id version with
      | None => (s, GHttpError 404)
      | Some target =>
          match _validate_settings_or_422 (map_to_list (v_settings target)) with
          | Err e => (s, GHttpError e)
          | Ok _ =>
              let g := set_documents old (v_settings target) (v_policy target) in
              if negb (column_ok (rollback_note note version)) then (s, GHttpError 500)
              else
                let s1 := match live_rollout s group_id with
                  | Some r => put_rollout s (with_rollout r (cancel (cr_rollout r) now))
                  | None => s
                  end in
                let '(s2, v) := _publish_version s1 g actor (Some (rollback_note note version)) now in
                let g' := updated old (set_current g (v_version v)) now in
                let s3 := put_group s2 g' in
                (s3, GGroup g' (member_count s3 g') None)
          end
      end
  end.

(** ** Membership and the merged document *)

(** The groups of the request, once each, or the status of a refusal *)
Fixpoint wanted_groups (s : Configs) (ids : list Z) : result Z (list Group) :=
  match ids with
  | [] => Ok []
  | i :: ids' =>
      match groups s !! i with
      | None => Err 404
      | Some g => if g_is_system g then Err 400 else l <-! wanted_groups s ids'; Ok (g :: l)
      end
  end.

Fixpoint first_of_each (seen : list Z) (l : list Z) : list Z :=
  match l with
  | [] => []
  | i :: l' => if bool_decide (i ∈ seen) then first_of_each seen l' else i :: first_of_each (i :: seen) l'
  end.

Definition set_agent_config_groups (s : Configs) (agent_id : Z) (group_ids : list Z) : Configs * config_reply :=
  if negb (agent_exists s agent_id) then (s, GHttpError 404)
  else match wanted_groups s (first_of_each [] group_ids) with
  | Err e => (s, GHttpError e)
  | Ok l =>
      (set_members s (filter (λ '(a, _), a ≠ agent_id) (members s) ∪ list_to_set (map (λ g, (agent_id, g_id g)) l)), GMembership l)
  end.

Definition agent_effective_config (s : Configs) (agent_id : Z) : config_reply :=
  if negb (agent_exists s agent_id) then GHttpError 404
  else match doc_hash (resolve_effective_config s agent_id) with
  | None => GHttpError 500
  | Some _ => GEffective (resolve_effective_config s agent_id) (applied s !! agent_id)
  end.

Definition _etag_matches (if_none_match etag : text) : bool :=
  let tokens := map strip_space (split_text COMMA if_none_match) in
  mem (txt "*") tokens || mem etag tokens.

(** [GET /agents/{agent_id}/policy]; the taxonomy's version as the caller reads it *)
Definition get_agent_policy (s : Configs) (agent_id : Z) (r : AgentRequest) (if_none_match : option text) (applied_ : option Z)
    (taxonomy_version now : Z) : Configs * config_reply :=
  if negb (agents_enabled settings) then (s, GHttpError 404)
  else match authenticated uni_lower settings (fleet s) agent_id r with
  | Err status => (s, GHttpError status)
  | Ok (f, agent) =>
      if match applied_ with Some n => negb (int64 n) | None => false end then (set_fleet s f, GHttpError 500)
      else
        let seen := touch_agent agent (last_contiguous_seq_no agent) now in
        let s := set_fleet s (set_central f (set_agent (central f) seen)) in
        let s := match applied_ with Some n => set_applied s (<[agent_id := n]> (applied s)) | None => s end in
        let e := resolve_effective_config s agent_id in
        match doc_hash e with
        | None => (s, GHttpError 500)
        | Some h =>
            let etag := config_etag (generation e) h taxonomy_version in
            match if_none_match with
            | Some (c :: inm) =>
                if _etag_matches (c :: inm) etag then (s, GNotModified etag)
                else (s, GPolicy (generation e) (<[txt "taxonomy_version" := JInt taxonomy_version]> (document e)) etag)
            | _ => (s, GPolicy (generation e) (<[txt "taxonomy_version" := JInt taxonomy_version]> (document e)) etag)
            end
        end
  end.

(** ** Rollouts *)

(** [group.current_version = rollout.target_version] *)
Definition finish (s : Configs) (c : ConfigRollout) (now : Z) : Configs :=
  match groups s !! cr_group c with
  | Some g => put_group s (updated g (set_current g (cr_target c)) now)
  | None => s
  end.

Definition cancel_config_rollout (s : Configs) (rollout_id now : Z) : Configs * config_reply :=
  match config_rollouts s !! rollout_id with
  | None => (s, GHttpError 404)
  | Some c =>
      match groups s !! cr_group c with
      | None => (s, GHttpError 404)
      | Some _ =>
          if negb (live (cr_rollout c)) then (s, GHttpError 409)
          else let c' := with_rollout c (cancel (cr_rollout c) now) in (put_rollout s c', _rollout_out c')
      end
  end.

Definition promote_config_rollout (s : Configs) (rollout_id now : Z) : Configs * config_reply :=
  match config_rollouts s !! rollout_id with
  | None => (s, GHttpError 404)
  | Some c =>
      match groups s !! cr_group c with
      | None => (s, GHttpError 404)
      | Some _ =>
          if negb (bool_decide (status (cr_rollout c) = running)) then (s, GHttpError 409)
          else
            let c' := with_rollout c (promote (cr_rollout c) now) in
            let s' := put_rollout s c' in
            (if bool_decide (status (cr_rollout c') = completed) then finish s' c' now else s', _rollout_out c')
      end
  end.

(** Newest first; [None] where a promotion lies beyond the last year. *)
Definition created_ge (a b : ConfigRollout) : bool := cr_created_at b <=? cr_created_at a.
Definition list_config_rollouts (s : Configs) (status_filter : option string) (limit : Z) : config_reply :=
  let keep (c : ConfigRollout) := match status_filter with
    | Some f => if bool_decide (f = EmptyString) then live (cr_rollout c) else bool_decide (status_text (status (cr_rollout c)) = f)
    | None => live (cr_rollout c)
    end in
  let rows := take (Z.to_nat (Z.max 1 (Z.min limit 200)))
    (merge_sort created_ge (filterb keep (row_order (map snd (map_to_list (config_rollouts s)))))) in
  match mapM rollout_row rows with Some l => GRollouts l | None => GHttpError 500 end.

(** The loop of the tick over the live rollouts, oldest first.  [commits] is the number of
    commits before the worker dies, [None]: it lives. An [OverflowError] ends the tick. *)
Fixpoint advance_all (s : Configs) (tick : Z) (commits : option nat) (l : list ConfigRollout) (done : list Z) : Configs * config_reply :=
  match l with
  | [] => (s, GTick (rev done))
  | c :: l' =>
      match advance_config (cr_rollout c) tick with
      | Unchanged => advance_all s tick commits l' done
      | Overflow => (s, GHttpError 500)
      | Advanced r =>
          match commits with
          | Some 0%nat => (s, GDied)
          | _ =>
              let commits := pred <$> commits in
              let c' := with_rollout c r in
              let s := put_rollout s c' in
              if bool_decide (status r = completed) then
                match commits with
                | Some 0%nat => (s, GDied)
                | _ => advance_all (finish s c' tick) tick (pred <$> commits) l' (cr_id c :: done)
                end
              else advance_all s tick commits l' (cr_id c :: done)
          end
      end
  end.

Definition created_le (a b : ConfigRollout) : bool := cr_created_at a <=? cr_created_at b.
Definition _advance_config_rollouts (s : Configs) (tick : Z) (maintenance : bool) (commits : option nat) : Configs * config_reply :=
  if maintenance then (s, GTick [])
  else advance_all s tick commits
    (merge_sort created_le (filterb (λ c, live (cr_rollout c)) (row_order (map snd (map_to_list (config_rollouts s)))))) [].

(** ** Requests *)

Inductive config_request :=
  | QCreate (call : OperatorCall) (b : ConfigGroupIn)
  | QUpdate (call : OperatorCall) (group_id : Z) (b : ConfigGroupUpdateIn)
  | QDelete (call : OperatorCall) (group_id : Z)
  | QRollback (call : OperatorCall) (group_id version : Z) (note : option text)
  | QList (call : OperatorCall)
  | QGet (call : OperatorCall) (group_id : Z)
  | QHistory (call : OperatorCall) (group_id : Z) (before : option Z) (limit : Z)
  | QMembers (call : OperatorCall) (agent_id : Z) (group_ids : list Z)
  | QEffective (call : OperatorCall) (agent_id : Z)
  | QRollouts (call : OperatorCall) (status_filter : option string) (limit : Z)
  | QCancel (call : OperatorCall) (rollout_id : Z)
  | QPromote (call : OperatorCall) (rollout_id : Z)
  | QPolicy (agent_id : Z) (r : AgentRequest) (if_none_match : option text) (applied_ : option Z) (taxonomy_version : Z)
  | QTick (maintenance : bool) (commits : option nat)
  | QElsewhere (f : Fleet) (joined : gset (Z * Z)).

(** Another part of the system leaves another fleet and lets agents join groups; the foreign
    keys drop the memberships of agents that are gone. *)
Definition cascaded (s : Configs) (f : Fleet) (joined : gset (Z * Z)) : Configs :=
  let ok '(a, g) := is_Some (agents (central f) !! a) ∧ is_Some (groups s !! g) in
  mkConfigs f (filter ok (members s ∪ joined)) (groups s) (versions s) (seqs s) (config_rollouts s) (groups_made s) (rollouts_made s)
    (filter (λ '(a, _), is_Some (agents (central f) !! a)) (applied s)).

Definition admin (call : OperatorCall) (now : Z) (handler : option string → Configs * config_reply) (s : Configs) :
    Configs * config_reply :=
  if negb (agents_enabled settings) then (s, GHttpError 404)
  else scoped sha256 auth_enabled _roles GHttpError "admin" call now handler s.

Definition serve (s : Configs) (now : Z) (q : config_request) : Configs * config_reply :=
  match q with
  | QCreate call b => admin call now (λ by_, create_config_group s b by_ now) s
  | QUpdate call g b => admin call now (λ by_, update_config_group s g b by_ now) s
  | QDelete call g => admin call now (λ _, delete_config_group s g) s
  | QRollback call g v note => admin call now (λ by_, rollback_config_group s g v note by_ now) s
  | QList call => admin call now (λ _, (s, list_config_groups s)) s
  | QGet call g => admin call now (λ _, (s, get_config_group s g)) s
  | QHistory call g before limit => admin call now (λ _, (s, config_group_history s g before limit)) s
  | QMembers call a l => admin call now (λ _, set_agent_config_groups s a l) s
  | QEffective call a => admin call now (λ _, (s, agent_effective_config s a)) s
  | QRollouts call f limit => admin call now (λ _, (s, list_config_rollouts s f limit)) s
  | QCancel call r => admin call now (λ _, cancel_config_rollout s r now) s
  | QPromote call r => admin call now (λ _, promote_config_rollout s r now) s
  | QPolicy a r inm n t => get_agent_policy s a r inm n t now
  | QTick m k => _advance_config_rollouts s now m k
  | QElsewhere f joined => (cascaded s f joined, GNoContent)
  end.

Fixpoint run (s : Configs) (trace : list (Z * config_request)) : Configs :=
  match trace with [] => s | (now, q) :: t => run (serve s now q).1 t end.
End configs.
