(* ===== verification/ConfigFacts.v ===== *)
(** * Facts about configuration groups

    The steps that groups, snapshots and rollouts take, what they preserve, what an agent is
    delivered along them, and the completion of a rollout. *)
From S2P Require Import Prelude PyStr Uuid Utf8 PathLabel Text Json Catalog Rbac Access AgentSync Verify Commands UpdateGate ConfigSettings ConfigRollout ConfigGroups.
From Stdlib Require Import SpecFloat.
From stdpp Require Import options.

(** ** Rollouts *)

Definition tier_ok (t : Tier) : Prop := 1 ≤ percent t ≤ 100 ∧ 0 ≤ delay_minutes t.
Definition ascending (l : list Tier) : Prop := ∀ i j a b, (i < j)%nat → l !! i = Some a → l !! j = Some b → percent a < percent b.

Record tiers_ok (l : list Tier) : Prop := {
  to_nonempty : l ≠ [];
  to_each : Forall tier_ok l;
  to_ascending : ascending l;
  to_last : last_percent l = Some 100;
}.

Lemma validate_from_ok previous raw l : validate_from previous raw = Some l →
  length l = length raw ∧ Forall tier_ok l ∧ ascending l ∧ Forall (λ t, previous < percent t) l.
Proof.
  revert previous l. induction raw as [|x raw IH]; intros previous l H; cbn in H.
  { injection H as <-. split; [done|]. split; [done|]. split; [|done]. intros i j a b _ Ha. by rewrite lookup_nil in Ha. }
  destruct (validate_tier previous x) as [t|] eqn:Ht; [|done]. cbn in H.
  destruct (validate_from (percent t) raw) as [ts|] eqn:Hts; [|done]. injection H as <-.
  destruct (IH _ _ Hts) as (Hlen & Hok & Hasc & Hgt).
  assert (tier_ok t ∧ previous < percent t) as [Htok Hprev].
  { unfold validate_tier in Ht. destruct x; try done.
    destruct (dict_get _ l) as [[]|]; try done. destruct (default _ _); try done.
    destruct (_ && _) eqn:E; [|done]. injection Ht as <-. unfold tier_ok. cbn.
    rewrite !andb_true_iff, negb_true_iff in E. lia. }
  split; [cbn; by rewrite Hlen|]. split; [by constructor|]. split.
  - intros [|i] [|j] a b Hij Ha Hb; try lia.
    + injection Ha as <-. eapply Forall_lookup_1 in Hgt; [|exact Hb]. done.
    + eapply (Hasc i j); [lia|exact Ha|exact Hb].
  - constructor; [done|]. eapply Forall_impl; [exact Hgt|]. intros u Hu. cbn in Hu. lia.
Qed.

Lemma validate_tiers_ok raw l : validate_tiers raw = Some l → tiers_ok l.
Proof.
  unfold validate_tiers. destruct (_ || _) eqn:E; [done|]. destruct (validate_from 0 raw) as [l'|] eqn:H; [|done]. cbn.
  destruct (bool_decide_reflect (last_percent l' = Some 100)) as [Hl|]; [|done]. intros [= <-].
  destruct (validate_from_ok _ _ _ H) as (Hlen & Hok & Hasc & _). split; [|done..].
  intros ->. done.
Qed.

(** The tier stands between the one before the first and the last; a running rollout has
    not reached the last, a completed one has. *)
Record rollout_ok (r : Rollout) : Prop := {
  ro_tiers : tiers_ok (tiers r);
  ro_range : -1 ≤ current_tier r < tier_count r;
  ro_scheduled : status r = scheduled → current_tier r = -1;
  ro_running : status r = running → current_tier r < tier_count r - 1 ∧ is_Some (tier_started_at r);
  ro_completed : status r = completed → current_tier r = tier_count r - 1;
}.

Definition moved (r r' : Rollout) : Prop :=
  tiers r' = tiers r ∧ current_tier r ≤ current_tier r' ∧ (status r' = running ∨ status r' = completed) ∧ rollout_ok r'.

Lemma tier_count_pos {A} (l : list A) : l ≠ [] → 0 < Z.of_nat (length l).
Proof. destruct l; [done|cbn; lia]. Qed.

Lemma new_rollout_ok l starts : tiers_ok l → rollout_ok (new_rollout l starts).
Proof.
  intros H. pose proof (tier_count_pos l (to_nonempty _ H)). split; try done; cbn. unfold tier_count. cbn. lia.
Qed.

(** The two loops are one state machine. *)
Lemma step_is_advance r tick : _step_rollout r tick = advance_config r tick.
Proof.
  unfold _step_rollout, advance_config. destruct (tiers r) as [|t ts] eqn:E; [done|]. rewrite (bool_decide_eq_false_2 (t :: ts = [])) by done.
  destruct (bool_decide (status r = scheduled)).
  - destruct (match starts_at r with Some _ => _ | None => _ end); [done|].
    rewrite Z.leb_antisym. destruct (0 <? delay_minutes t); [done|]. cbn [negb]. by destruct ts.
  - destruct (Z.leb_spec (tier_count r) (current_tier r + 1)) as [|Hlt]; [done|].
    destruct ((t :: ts) !! Z.to_nat (current_tier r + 1)) as [tier|] eqn:Hn.
    + destruct (after_minutes _ _); [|done]. destruct (tick <? z); [done|]. by destruct (_ =? _).
    + exfalso. apply lookup_ge_None_1 in Hn. unfold tier_count in Hlt. rewrite E in Hlt. cbn [length] in *. lia.
Qed.

Lemma advance_config_moved r tick r' : rollout_ok r → live r = true → advance_config r tick = Advanced r' → moved r r'.
Proof.
  intros [Ht Hr Hs Hrun Hc] Hl. unfold advance_config. rewrite bool_decide_eq_false_2 by apply Ht.
  pose proof (tier_count_pos _ (to_nonempty _ Ht)) as Hpos.
  destruct (bool_decide_reflect (status r = scheduled)) as [E|E].
  - destruct (match starts_at r with Some _ => _ | None => _ end); [done|].
    destruct (0 <? _); [|destruct (length (tiers r) =? 1)%nat eqn:E1]; intros [= <-]; unfold moved; cbn; rewrite ?(Hs E).
    + split; [done|]. split; [lia|]. split; [by left|]. split; cbn; try done; unfold tier_count in *; cbn in *; try lia.
      intros _. split; [lia|by eexists].
    + apply Nat.eqb_eq in E1. split; [done|]. split; [lia|]. split; [by right|].
      split; cbn; try done; unfold tier_count in *; cbn in *; rewrite ?E1 in *; lia.
    + apply Nat.eqb_neq in E1. split; [done|]. split; [lia|]. split; [by left|].
      split; cbn; try done; unfold tier_count in *; cbn in *; try lia. intros _. split; [lia|by eexists].
  - assert (status r = running) as Er.
    { unfold live in Hl. apply bool_decide_eq_true in Hl. set_solver. }
    destruct (Z.leb_spec (tier_count r) (current_tier r + 1)) as [|Hlt]; [done|].
    destruct (after_minutes _ _); [|done]. destruct (tick <? z); [done|]. intros [= <-].
    destruct (Z.eqb_spec (current_tier r + 1) (tier_count r - 1)) as [El|El]; unfold moved; cbn.
    + split; [done|]. split; [lia|]. split; [by right|]. split; cbn; try done; unfold tier_count in *; cbn in *; lia.
    + split; [done|]. split; [lia|]. split; [by left|].
      split; cbn; try done; unfold tier_count in *; cbn in *; try lia. intros _. split; [lia|by eexists].
Qed.

Lemma promote_moved r now : rollout_ok r → status r = running → moved r (promote r now).
Proof.
  intros [Ht Hr Hs Hrun Hc] E. destruct (Hrun E) as [Hlt Hts]. unfold promote.
  destruct (Z.ltb_spec (current_tier r + 1) (tier_count r)) as [_|]; [|lia]. unfold tier_count in *. cbn.
  destruct (Z.leb_spec (Z.of_nat (length (tiers r)) - 1) (current_tier r + 1)); unfold moved; cbn.
  - split; [done|]. split; [lia|]. split; [by right|]. split; cbn; try done; unfold tier_count; cbn; lia.
  - split; [done|]. split; [lia|]. split; [by left|]. split; cbn; try done; unfold tier_count; cbn; try lia; try congruence.
Qed.

Lemma cancel_ok r now : rollout_ok r → rollout_ok (cancel r now).
Proof. intros [Ht Hr Hs Hrun Hc]. by split. Qed.

(** What a rollout covers only grows while it runs. *)
Lemma covers_grows r r' b : rollout_ok r → moved r r' → status r' = running → rollout_covers b (Some r) = true → rollout_covers b (Some r') = true.
Proof.
  intros Hok (Ht & Hc & _ & Hok') Hs'. unfold rollout_covers, rollout_active_percent. cbn. rewrite Hs'.
  destruct (bool_decide_reflect (status r = running)) as [E|]; [|done]. cbn [negb orb]. rewrite bool_decide_eq_true_2 by done. cbn [negb orb].
  destruct (Z.ltb_spec (current_tier r) 0) as [|H0]; [done|]. destruct (Z.leb_spec (tier_count r) (current_tier r)) as [|H1]; [done|].
  destruct (Z.ltb_spec (current_tier r') 0) as [|_]; [lia|].
  pose proof (ro_range _ Hok') as Hr'. destruct (Z.leb_spec (tier_count r') (current_tier r')) as [|_]; [lia|].
  rewrite Ht. destruct (tiers r !! Z.to_nat (current_tier r)) as [t|] eqn:L; [|done]. cbn.
  destruct (tiers r !! Z.to_nat (current_tier r')) as [t'|] eqn:L'.
  - cbn. intros Hb. destruct (decide (current_tier r = current_tier r')) as [Eq|Ne]; [congruence|].
    assert (Z.to_nat (current_tier r) < Z.to_nat (current_tier r'))%nat as Hlt by lia.
    pose proof (to_ascending _ (ro_tiers _ Hok) _ _ _ _ Hlt L L'). lia.
  - exfalso. apply lookup_ge_None_1 in L'. unfold tier_count in Hr'. rewrite Ht in Hr'. lia.
Qed.

(** ** Progress of a rollout *)

(** A tick at [t] finds every delay of at most [D] minutes passed. *)
Record due (D t : Z) (r : Rollout) : Prop := {
  du_starts x : status r = scheduled → starts_at r = Some x → x ≤ t;
  du_anchor x : status r = running → tier_started_at r = Some x → x + D * MINUTE ≤ t;
  du_delays : Forall (λ x, delay_minutes x ≤ D) (tiers r);
  du_time : t ≤ MAX_TIME;
}.

(** The ticks a rollout still needs *)
Definition steps_left (r : Rollout) : Z := (if bool_decide (status r = scheduled) then 1 else 0) + (tier_count r - 1 - current_tier r).

Definition progressed (t : Z) (r r' : Rollout) : Prop :=
  moved r r' ∧ (status r' = running → tier_started_at r' = Some t ∧ steps_left r' < steps_left r).

Lemma advance_scheduled D t r : rollout_ok r → due D t r → status r = scheduled → ∃ r', advance_config r t = Advanced r' ∧
  (status r' = running → tier_started_at r' = Some t ∧ steps_left r' < steps_left r).
Proof.
  intros Hok Hd E. unfold advance_config. rewrite bool_decide_eq_false_2 by apply (ro_tiers _ Hok).
  rewrite (bool_decide_eq_true_2 (status r = scheduled)) by done.
  assert (match starts_at r with Some x => t <? x | None => false end = false) as ->.
  { destruct (starts_at r) as [x|] eqn:Hx; [|done]. apply Z.ltb_ge. by eapply du_starts. }
  pose proof (ro_scheduled _ Hok E) as Hc.
  assert (steps_left r = tier_count r + 1) as -> by (unfold steps_left; rewrite E, bool_decide_eq_true_2 by done; lia).
  destruct (0 <? _); [|destruct (length (tiers r) =? 1)%nat]; eexists; (split; [done|]); try done;
    intros _; (split; [done|]); unfold steps_left, with_tier; cbn [status current_tier]; rewrite bool_decide_eq_false_2 by done;
    unfold tier_count; cbn [tiers]; lia.
Qed.

Lemma advance_running D t r : rollout_ok r → due D t r → status r = running → ∃ r', advance_config r t = Advanced r' ∧
  (status r' = running → tier_started_at r' = Some t ∧ steps_left r' < steps_left r).
Proof.
  intros Hok Hd E. unfold advance_config. rewrite bool_decide_eq_false_2 by apply (ro_tiers _ Hok).
  rewrite (bool_decide_eq_false_2 (status r = scheduled)) by (by rewrite E).
  destruct (ro_running _ Hok E) as [Hlt [x Hx]]. rewrite (proj2 (Z.leb_gt _ _)) by lia. rewrite Hx.
  pose proof (du_anchor _ _ _ Hd x E Hx) as Hdue.
  assert (∃ tier, tiers r !! Z.to_nat (current_tier r + 1) = Some tier ∧ delay_minutes tier ≤ D) as (tier & Htier & Hle).
  { pose proof (ro_range _ Hok) as Hr. destruct (lookup_lt_is_Some_2 (tiers r) (Z.to_nat (current_tier r + 1))) as [tier Ht].
    - unfold tier_count in *. lia.
    - exists tier. split; [done|]. eapply Forall_lookup_1 in Ht; [exact Ht|apply (du_delays _ _ _ Hd)]. }
  rewrite Htier. unfold after_minutes. pose proof (du_time _ _ _ Hd) as Hmax. unfold MINUTE in *.
  rewrite (proj2 (Z.leb_le _ _)) by lia. rewrite (proj2 (Z.ltb_ge _ _)) by lia. eexists. split; [done|].
  unfold steps_left, tier_count. cbn. destruct (_ =? _); [done|]. intros _. split; [done|]. rewrite E. cbn. lia.
Qed.

Lemma live_cases r : live r = true → status r = scheduled ∨ status r = running.
Proof. unfold live. intros H%bool_decide_eq_true. set_solver. Qed.

Lemma advance_due D t r : rollout_ok r → live r = true → due D t r → ∃ r', advance_config r t = Advanced r' ∧ progressed t r r'.
Proof.
  intros Hok Hl Hd. assert (∃ r', advance_config r t = Advanced r' ∧
    (status r' = running → tier_started_at r' = Some t ∧ steps_left r' < steps_left r)) as (r' & Ha & Hp).
  { destruct (live_cases _ Hl); [by eapply advance_scheduled|by eapply advance_running]. }
  exists r'. split; [done|]. split; [by eapply advance_config_moved|done].
Qed.

Lemma steps_left_pos r : rollout_ok r → live r = true → 0 < steps_left r.
Proof.
  intros Hok Hl. unfold steps_left. destruct (live_cases _ Hl) as [E|E].
  - rewrite E, bool_decide_eq_true_2 by done. pose proof (ro_range _ Hok). lia.
  - pose proof (ro_running _ Hok E) as [H _]. rewrite E, bool_decide_eq_false_2 by done. lia.
Qed.

(** ** Numbering *)

Lemma foldr_max_snoc l x : foldr Z.max 0 (l ++ [x]) = Z.max (foldr Z.max 0 l) (Z.max x 0).
Proof. induction l as [|y l IH]; cbn; [lia|]. rewrite IH. lia. Qed.

Lemma foldr_max_nonneg l : 0 ≤ foldr Z.max 0 l.
Proof. induction l; cbn; lia. Qed.

Lemma foldr_max_ge l x : x ∈ l → x ≤ foldr Z.max 0 l.
Proof. induction l as [|y l IH]; [by intros ?%elem_of_nil|]. intros [->|Hx]%elem_of_cons; cbn; [lia|]. apply IH in Hx. lia. Qed.

Definition numbers (s : Configs) (i : Z) : list Z := map v_version (filterb (λ v, v_group v =? i) (versions s)).

Lemma next_version_pos s i : 1 ≤ next_version s i.
Proof. unfold next_version. pose proof (foldr_max_nonneg (numbers s i)). unfold numbers in *. lia. Qed.

(** The state with one more snapshot *)
Definition published (s s' : Configs) (v : GroupVersion) : Prop :=
  versions s' = versions s ++ [v] ∧ v_version v = next_version s (v_group v) ∧ v_seq v = seqs s + 1 ∧ seqs s' = seqs s + 1.

Lemma numbers_published s s' v i : published s s' v →
  numbers s' i = numbers s i ++ if v_group v =? i then [v_version v] else [].
Proof.
  intros (H & _). unfold numbers. rewrite H, List.filter_app, map_app. f_equal. cbn. by destruct (v_group v =? i).
Qed.

Lemma next_published s s' v i : published s s' v →
  next_version s' i = next_version s i + (if v_group v =? i then 1 else 0).
Proof.
  intros Hp. pose proof (numbers_published _ _ _ i Hp) as Hn. destruct Hp as (_ & Hv & _).
  change (foldr Z.max 0 (numbers s' i) + 1 = foldr Z.max 0 (numbers s i) + 1 + (if v_group v =? i then 1 else 0)).
  rewrite Hn. destruct (Z.eqb_spec (v_group v) i) as [<-|_]; [|rewrite app_nil_r; lia].
  rewrite foldr_max_snoc, Hv. change (next_version s (v_group v)) with (foldr Z.max 0 (numbers s (v_group v)) + 1).
  pose proof (foldr_max_nonneg (numbers s (v_group v))). lia.
Qed.

(** ** The steps *)

Definition same_rest (s s' : Configs) : Prop := groups s' = groups s ∧ config_rollouts s' = config_rollouts s.
Definition same_numbers (s s' : Configs) : Prop := versions s' = versions s ∧ seqs s ≤ seqs s'.

(** An edit of a group keeps its identity, and the name and the place of a system group. *)
Definition same_group (g g' : Group) : Prop :=
  g_id g' = g_id g ∧ g_is_system g' = g_is_system g ∧ (g_is_system g = true → g_name g' = g_name g ∧ g_priority g' = g_priority g).

(** In a calm step nothing is cancelled, deleted or lost, and no document goes live at once
    beside a live rollout. *)
Inductive config_step (calm : bool) (s s' : Configs) : Prop :=
  | st_idle : same_rest s s' → same_numbers s s' → config_step calm s s'
  | st_create g v : groups s !! g_id g = None → g_current_version g = v_version v → g_is_system g = false →
      v_group v = g_id g → published s s' v → groups s' = <[g_id g := g]> (groups s) →
      config_rollouts s' = config_rollouts s → config_step calm s s'
  | st_edit g g' : groups s !! g_id g = Some g → same_group g g' → g_current_version g' = g_current_version g →
      groups s' = <[g_id g := g']> (groups s) → config_rollouts s' = config_rollouts s → same_numbers s s' → config_step calm s s'
  | st_publish g g' v : (calm = true → live_rollout s (g_id g) = None) →
      groups s !! g_id g = Some g → same_group g g' → v_group v = g_id g → g_current_version g' = v_version v →
      published s s' v → groups s' = <[g_id g := g']> (groups s) → config_rollouts s' = config_rollouts s → config_step calm s s'
  | st_schedule g g' v c : live_rollout s (g_id g) = None → config_rollouts s !! cr_id c = None →
      groups s !! g_id g = Some g → same_group g g' → g_current_version g' = g_current_version g →
      v_group v = g_id g → published s s' v → cr_group c = g_id g → cr_target c = v_version v →
      (∃ l t, tiers_ok l ∧ cr_rollout c = new_rollout l t) → groups s' = <[g_id g := g']> (groups s) →
      config_rollouts s' = <[cr_id c := c]> (config_rollouts s) → config_step calm s s'
  | st_rollback g g' v now : groups s !! g_id g = Some g → same_group g g' → v_group v = g_id g → g_current_version g' = v_version v →
      published s s' v → groups s' = <[g_id g := g']> (groups s) →
      config_rollouts s' = match live_rollout s (g_id g) with
        | Some c => <[cr_id c := with_rollout c (cancel (cr_rollout c) now)]> (config_rollouts s)
        | None => config_rollouts s
        end → config_step calm s s'
  | st_advance c r : config_rollouts s !! cr_id c = Some c → live (cr_rollout c) = true →
      (rollout_ok (cr_rollout c) → moved (cr_rollout c) r) → status r = running → groups s' = groups s →
      config_rollouts s' = <[cr_id c := with_rollout c r]> (config_rollouts s) → same_numbers s s' → config_step calm s s'
  | st_complete c r g g' : config_rollouts s !! cr_id c = Some c → live (cr_rollout c) = true →
      (rollout_ok (cr_rollout c) → moved (cr_rollout c) r) → status r = completed → groups s !! cr_group c = Some g →
      same_group g g' → g_current_version g' = cr_target c →
      groups s' = <[g_id g := g']> (groups s) → config_rollouts s' = <[cr_id c := with_rollout c r]> (config_rollouts s) →
      same_numbers s s' → config_step calm s s'
  | st_lost c r : calm = false → config_rollouts s !! cr_id c = Some c → live (cr_rollout c) = true →
      (rollout_ok (cr_rollout c) → moved (cr_rollout c) r) → status r = completed → groups s' = groups s →
      config_rollouts s' = <[cr_id c := with_rollout c r]> (config_rollouts s) → same_numbers s s' → config_step calm s s'
  | st_cancel c now : calm = false → config_rollouts s !! cr_id c = Some c → live (cr_rollout c) = true → groups s' = groups s →
      config_rollouts s' = <[cr_id c := with_rollout c (cancel (cr_rollout c) now)]> (config_rollouts s) → same_numbers s s' →
      config_step calm s s'
  | st_delete g : calm = false → groups s !! g_id g = Some g → g_is_system g = false → groups s' = delete (g_id g) (groups s) →
      versions s' = filterb (λ v, negb (v_group v =? g_id g)) (versions s) → seqs s' = seqs s →
      config_rollouts s' = filter (λ '(_, c), cr_group c ≠ g_id g) (config_rollouts s) → config_step calm s s'.

(** ** The invariant *)

Record configs_ok (s : Configs) : Prop := {
  ck_group i g : groups s !! i = Some g → g_id g = i;
  ck_rollout_id i c : config_rollouts s !! i = Some c → cr_id c = i;
  ck_rollout i c : config_rollouts s !! i = Some c →
    rollout_ok (cr_rollout c) ∧ is_Some (groups s !! cr_group c) ∧ 1 ≤ cr_target c < next_version s (cr_group c);
  ck_owner v : v ∈ versions s → is_Some (groups s !! v_group v);
  ck_numbers i : numbers s i = seqZ 1 (next_version s i - 1);
  ck_current i g : groups s !! i = Some g → 1 ≤ g_current_version g < next_version s i;
  ck_seq : StronglySorted Z.lt (map v_seq (versions s));
  ck_seqs v : v ∈ versions s → v_seq v ≤ seqs s;
  ck_live i j c c' : config_rollouts s !! i = Some c → config_rollouts s !! j = Some c' →
    live (cr_rollout c) = true → live (cr_rollout c') = true → cr_group c = cr_group c' → i = j;
}.

Lemma live_rollout_some s i c : live_rollout s i = Some c → (∃ j, config_rollouts s !! j = Some c) ∧ cr_group c = i ∧ live (cr_rollout c) = true.
Proof.
  unfold live_rollout. intros H. apply find_some in H as [Hin H]. apply andb_true_iff in H as [H1%Z.eqb_eq H2].
  split; [|done]. apply list_elem_of_In, list_elem_of_fmap in Hin as ([j c'] & -> & Hin). exists j. by apply elem_of_map_to_list.
Qed.

Lemma live_rollout_none s i j c : live_rollout s i = None → config_rollouts s !! j = Some c → cr_group c = i → live (cr_rollout c) = false.
Proof.
  unfold live_rollout. intros H Hc Hi. eapply find_none in H; [|apply list_elem_of_In, list_elem_of_fmap; exists (j, c);
    split; [done|by apply elem_of_map_to_list]].
  cbn in H. rewrite Hi, Z.eqb_refl in H. done.
Qed.

Lemma live_rollout_iff s i c : configs_ok s →
  live_rollout s i = Some c ↔ config_rollouts s !! cr_id c = Some c ∧ cr_group c = i ∧ live (cr_rollout c) = true.
Proof.
  intros Hok. split.
  - intros H. apply live_rollout_some in H as ((j & Hj) & Hi & Hl). pose proof (ck_rollout_id _ Hok _ _ Hj) as Hid. by rewrite Hid.
  - intros (Hc & Hi & Hl). destruct (live_rollout s i) as [c'|] eqn:E.
    + apply live_rollout_some in E as ((j & Hj) & Hi' & Hl'). f_equal.
      assert (j = cr_id c) as Hjc by (eapply (ck_live _ Hok j (cr_id c)); eauto; congruence). subst j. congruence.
    + by rewrite (live_rollout_none _ _ _ _ E Hc Hi) in Hl.
Qed.

(** ** The steps keep the invariant *)

Lemma numbers_same s s' i : same_numbers s s' → numbers s' i = numbers s i ∧ next_version s' i = next_version s i.
Proof. intros [H _]. unfold numbers, next_version. by rewrite H. Qed.

(** What every step but a deletion does: [k] is the only rollout it may add. *)
Record keeps (k : Z) (s s' : Configs) : Prop := {
  kp_versions : same_numbers s s' ∨ ∃ v, published s s' v ∧ is_Some (groups s' !! v_group v);
  kp_stay i : is_Some (groups s !! i) → is_Some (groups s' !! i);
  kp_groups i g' : groups s' !! i = Some g' → g_id g' = i ∧
    ((∃ g, groups s !! i = Some g ∧ g_current_version g' = g_current_version g) ∨ 1 ≤ g_current_version g' < next_version s' i);
  kp_rollouts i c' : config_rollouts s' !! i = Some c' → cr_id c' = i ∧ rollout_ok (cr_rollout c') ∧
    ((∃ c, config_rollouts s !! i = Some c ∧ cr_group c' = cr_group c ∧ cr_target c' = cr_target c ∧
       (live (cr_rollout c') = true → live (cr_rollout c) = true)) ∨
     (i = k ∧ is_Some (groups s' !! cr_group c') ∧ 1 ≤ cr_target c' < next_version s' (cr_group c') ∧
       live_rollout s (cr_group c') = None));
}.

Lemma keeps_next k s s' i : keeps k s s' → next_version s i ≤ next_version s' i.
Proof.
  intros K. destruct (kp_versions _ _ _ K) as [H|(v & Hp & _)].
  - by rewrite (proj2 (numbers_same _ _ i H)).
  - rewrite (next_published _ _ _ i Hp). by destruct (v_group v =? i); lia.
Qed.

Lemma keeps_numbers k s s' i : configs_ok s → keeps k s s' → numbers s' i = seqZ 1 (next_version s' i - 1).
Proof.
  intros Hok K. destruct (kp_versions _ _ _ K) as [H|(v & Hp & _)].
  - destruct (numbers_same _ _ i H) as [-> ->]. apply (ck_numbers _ Hok).
  - rewrite (numbers_published _ _ _ i Hp), (next_published _ _ _ i Hp), (ck_numbers _ Hok).
    destruct (Z.eqb_spec (v_group v) i) as [<-|_]; [|by rewrite app_nil_r, Z.add_0_r].
    destruct Hp as (_ & -> & _). pose proof (next_version_pos s (v_group v)).
    replace (next_version s (v_group v) + 1 - 1) with (next_version s (v_group v) - 1 + 1) by lia.
    rewrite (seqZ_app 1 _ 1) by lia. f_equal. change (seqZ (1 + (next_version s (v_group v) - 1)) 1) with [0 + (1 + (next_version s (v_group v) - 1))].
    f_equal. lia.
Qed.

Lemma sorted_snoc (l : list Z) n : StronglySorted Z.lt l → Forall (λ x, x < n) l → StronglySorted Z.lt (l ++ [n]).
Proof.
  induction 1 as [|x l Hs IH Hx]; intros Hn; cbn; [by repeat constructor|]. apply Forall_cons in Hn as [Hxn Hn].
  constructor; [by apply IH|]. apply Forall_app. split; [done|]. by repeat constructor.
Qed.

Lemma keeps_seq k s s' : configs_ok s → keeps k s s' →
  StronglySorted Z.lt (map v_seq (versions s')) ∧ (∀ v, v ∈ versions s' → v_seq v ≤ seqs s' ∧ is_Some (groups s' !! v_group v)).
Proof.
  intros Hok K. destruct (kp_versions _ _ _ K) as [[H Hs]|(v & (H & _ & Hv & Hs) & Hg)]; rewrite H.
  - split; [apply (ck_seq _ Hok)|]. intros v Hv. pose proof (ck_seqs _ Hok _ Hv). split; [lia|].
    by eapply (kp_stay _ _ _ K), ck_owner.
  - split.
    + rewrite map_app. cbn. apply sorted_snoc; [apply (ck_seq _ Hok)|]. apply Forall_map, Forall_forall.
      intros w Hw. pose proof (ck_seqs _ Hok _ Hw). cbn. lia.
    + intros w [Hw|Hw]%elem_of_app.
      * pose proof (ck_seqs _ Hok _ Hw). split; [lia|]. by eapply (kp_stay _ _ _ K), ck_owner.
      * apply list_elem_of_singleton in Hw as ->. split; [lia|done].
Qed.

Lemma keeps_ok k s s' : configs_ok s → keeps k s s' → configs_ok s'.
Proof.
  intros Hok K. pose proof (λ i, keeps_next _ _ _ i K) as Hnext. destruct (keeps_seq _ _ _ Hok K) as [Hseq Hin]. split.
  - intros i g Hg. by apply (kp_groups _ _ _ K) in Hg as [? _].
  - intros i c Hc. by apply (kp_rollouts _ _ _ K) in Hc as [? _].
  - intros i c' Hc'. destruct (kp_rollouts _ _ _ K _ _ Hc') as (_ & Hr & [(c & Hc & Hg & Ht & _)|(_ & Hg & Ht & _)]); [|done].
    destruct (ck_rollout _ Hok _ _ Hc) as (_ & Hs & Hn). split; [done|]. rewrite Hg, Ht.
    split; [by apply (kp_stay _ _ _ K)|]. pose proof (Hnext (cr_group c)). lia.
  - intros v Hv. by apply Hin.
  - intros i. by eapply keeps_numbers.
  - intros i g' Hg'. destruct (kp_groups _ _ _ K _ _ Hg') as (_ & [(g & Hg & ->)|H]); [|done].
    pose proof (ck_current _ Hok _ _ Hg). pose proof (Hnext i). lia.
  - done.
  - intros v Hv. by apply Hin.
  - intros i j c c' Hc Hc' Hl Hl' Hg.
    destruct (kp_rollouts _ _ _ K _ _ Hc) as (_ & _ & [(d & Hd & Hdg & _ & Hdl)|(-> & _ & _ & Hn)]);
    destruct (kp_rollouts _ _ _ K _ _ Hc') as (_ & _ & [(d' & Hd' & Hdg' & _ & Hdl')|(-> & _ & _ & Hn')]); [| | |done].
    + eapply (ck_live _ Hok); eauto. congruence.
    + rewrite <-Hg, Hdg in Hn'. pose proof (live_rollout_none _ _ _ _ Hn' Hd eq_refl). rewrite Hdl in * by done. done.
    + rewrite Hg, Hdg' in Hn. pose proof (live_rollout_none _ _ _ _ Hn Hd' eq_refl). rewrite Hdl' in * by done. done.
Qed.

(** The parts of [keeps], for a group and a rollout that change *)
Lemma stay_insert (m : gmap Z Group) j g i : is_Some (m !! i) → is_Some (<[j := g]> m !! i).
Proof. intros [x Hx]. destruct (decide (j = i)) as [->|Hne]; simplify_map_eq; eauto. Qed.

Lemma groups_kept s s' : configs_ok s → groups s' = groups s →
  ∀ i g', groups s' !! i = Some g' → g_id g' = i ∧
    ((∃ g, groups s !! i = Some g ∧ g_current_version g' = g_current_version g) ∨ 1 ≤ g_current_version g' < next_version s' i).
Proof. intros Hok -> i g' Hg. split; [by apply (ck_group _ Hok)|]. left. eauto. Qed.

Lemma groups_set s s' j g' : configs_ok s → groups s' = <[j := g']> (groups s) → g_id g' = j →
  ((∃ g, groups s !! j = Some g ∧ g_current_version g' = g_current_version g) ∨ 1 ≤ g_current_version g' < next_version s' j) →
  ∀ i h, groups s' !! i = Some h → g_id h = i ∧
    ((∃ g, groups s !! i = Some g ∧ g_current_version h = g_current_version g) ∨ 1 ≤ g_current_version h < next_version s' i).
Proof.
  intros Hok -> Hid H i h Hh. destruct (decide (j = i)) as [Hji|Hne].
  - subst i. rewrite lookup_insert_eq in Hh. injection Hh as <-. done.
  - rewrite lookup_insert_ne in Hh by done. split; [by apply (ck_group _ Hok)|]. left. eauto.
Qed.

Definition rollout_kept (s s' : Configs) (k i : Z) (c' : ConfigRollout) : Prop :=
  cr_id c' = i ∧ rollout_ok (cr_rollout c') ∧
    ((∃ c, config_rollouts s !! i = Some c ∧ cr_group c' = cr_group c ∧ cr_target c' = cr_target c ∧
       (live (cr_rollout c') = true → live (cr_rollout c) = true)) ∨
     (i = k ∧ is_Some (groups s' !! cr_group c') ∧ 1 ≤ cr_target c' < next_version s' (cr_group c') ∧
       live_rollout s (cr_group c') = None)).

Lemma rollouts_kept s s' k : configs_ok s → config_rollouts s' = config_rollouts s →
  ∀ i c', config_rollouts s' !! i = Some c' → rollout_kept s s' k i c'.
Proof.
  intros Hok -> i c' Hc. split; [by apply (ck_rollout_id _ Hok)|]. split; [by apply (ck_rollout _ Hok _ _ Hc)|]. left. eauto 6.
Qed.

Lemma rollouts_set s s' k c : configs_ok s → config_rollouts s' = <[cr_id c := c]> (config_rollouts s) → rollout_kept s s' k (cr_id c) c →
  ∀ i c', config_rollouts s' !! i = Some c' → rollout_kept s s' k i c'.
Proof.
  intros Hok Hs H i c' Hc. rewrite Hs in Hc. destruct (decide (cr_id c = i)) as [Heq|Hne].
  - subst i. rewrite lookup_insert_eq in Hc. injection Hc as <-. done.
  - rewrite lookup_insert_ne in Hc by done. split; [by apply (ck_rollout_id _ Hok)|].
    split; [by apply (ck_rollout _ Hok _ _ Hc)|]. left. eauto 6.
Qed.

(** A rollout that a step moves or cancels *)
Lemma rollout_moves s s' k c r : config_rollouts s !! cr_id c = Some c → live (cr_rollout c) = true → rollout_ok r →
  rollout_kept s s' k (cr_id c) (with_rollout c r).
Proof. intros Hc Hl Hr. split; [done|]. split; [done|]. left. exists c. done. Qed.

Lemma current_published s s' v g : published s s' v → v_group v = g_id g → g_current_version g = v_version v →
  1 ≤ g_current_version g < next_version s' (g_id g).
Proof.
  intros Hp Hg ->. rewrite (next_published _ _ _ (g_id g) Hp), Hg, Z.eqb_refl. destruct Hp as (_ & -> & _). rewrite Hg.
  pose proof (next_version_pos s (g_id g)). lia.
Qed.

Definition group_part (s s' : Configs) : Prop :=
  groups s' = groups s ∨ ∃ g', groups s' = <[g_id g' := g']> (groups s) ∧
    ((∃ g, groups s !! g_id g' = Some g ∧ g_current_version g' = g_current_version g) ∨ 1 ≤ g_current_version g' < next_version s' (g_id g')).
Definition rollout_part (k : Z) (s s' : Configs) : Prop :=
  config_rollouts s' = config_rollouts s ∨ ∃ c, config_rollouts s' = <[cr_id c := c]> (config_rollouts s) ∧ rollout_kept s s' k (cr_id c) c.

Lemma keeps_of k s s' : configs_ok s → (same_numbers s s' ∨ ∃ v, published s s' v ∧ is_Some (groups s' !! v_group v)) →
  group_part s s' → rollout_part k s s' → keeps k s s'.
Proof.
  intros Hok Hv Hg Hr. split; [done|..].
  - destruct Hg as [->|(g' & -> & _)]; [done|]. apply stay_insert.
  - destruct Hg as [Hg|(g' & Hg & H)]; [by apply groups_kept|]. by eapply groups_set.
  - destruct Hr as [Hr|(c & Hr & H)]; [by apply rollouts_kept|]. by eapply rollouts_set.
Qed.

(** A group of the same identity with the same current version, or with a snapshot of the step *)
Lemma edit_part s s' g g' : groups s !! g_id g = Some g → g_id g' = g_id g → groups s' = <[g_id g := g']> (groups s) →
  g_current_version g' = g_current_version g → group_part s s'.
Proof. intros Hold Hid Hg Hcur. right. exists g'. rewrite Hid. split; [done|]. left. eauto. Qed.

Lemma publish_part s s' g' i v : g_id g' = i → groups s' = <[i := g']> (groups s) → v_group v = i →
  published s s' v → g_current_version g' = v_version v → group_part s s' ∧ is_Some (groups s' !! v_group v).
Proof.
  intros <- Hg Hv Hp Hcur. split.
  - right. exists g'. split; [done|]. right. by eapply current_published.
  - rewrite Hg, Hv, lookup_insert_eq. by eexists.
Qed.

Lemma move_part s s' c r : config_rollouts s !! cr_id c = Some c → live (cr_rollout c) = true → rollout_ok r →
  config_rollouts s' = <[cr_id c := with_rollout c r]> (config_rollouts s) → rollout_part 0 s s'.
Proof. intros Hc Hl Hr Hs. right. exists (with_rollout c r). split; [done|]. exact (rollout_moves s s' 0 c r Hc Hl Hr). Qed.

Lemma schedule_part s s' c v i : configs_ok s → live_rollout s i = None → published s s' v → v_group v = i → cr_group c = i →
  cr_target c = v_version v → rollout_ok (cr_rollout c) → is_Some (groups s' !! i) →
  config_rollouts s' = <[cr_id c := c]> (config_rollouts s) → rollout_part (cr_id c) s s'.
Proof.
  intros Hok Hl Hp Hv Hg Ht Hr Hi Hs. right. exists c. split; [done|]. split; [done|]. split; [done|]. right. rewrite Hg.
  split; [done|]. split; [done|]. split; [|done]. rewrite (next_published _ _ _ i Hp), Hv, Z.eqb_refl, Ht.
  destruct Hp as (_ & -> & _). rewrite Hv. pose proof (next_version_pos s i). lia.
Qed.

Lemma step_keeps calm s s' : configs_ok s → config_step calm s s' →
  (∃ k, keeps k s s') ∨ (∃ g, calm = false ∧ groups s !! g_id g = Some g ∧ groups s' = delete (g_id g) (groups s) ∧
    versions s' = filterb (λ v, negb (v_group v =? g_id g)) (versions s) ∧ seqs s' = seqs s ∧
    config_rollouts s' = filter (λ '(_, c), cr_group c ≠ g_id g) (config_rollouts s)).
Proof.
  intros Hok St. assert (∀ c, config_rollouts s !! cr_id c = Some c → rollout_ok (cr_rollout c)) as Hro.
  { intros c Hc. apply (ck_rollout _ Hok _ _ Hc). }
  destruct St as [[Hg Hc] Hn|g v Hnone Hcur Hsys Hv Hp Hg Hc|g g' Hold (Hid & _) Hcur Hg Hc Hn|g g' v _ Hold (Hid & _) Hv Hcur Hp Hg Hc
    |g g' v c Hlive Hfresh Hold (Hid & _) Hcur Hv Hp Hcg Ht (l & t & Htiers & Hnew) Hg Hc|g g' v now Hold (Hid & _) Hv Hcur Hp Hg Hc
    |c r Hc Hl Hm Hs Hg Hcs Hn|c r g g' Hc Hl Hm Hs Hold (Hid & _) Hcur Hg Hcs Hn|c r _ Hc Hl Hm Hs Hg Hcs Hn|c now _ Hc Hl Hg Hcs Hn
    |g Hcalm Hold Hsys Hg Hvs Hn Hcs]; [left..|right; eauto 10].
  - exists 0. apply keeps_of; [done|by left..].
  - exists 0. destruct (publish_part _ _ _ _ _ eq_refl Hg Hv Hp Hcur) as [Hpart Hin]. apply keeps_of; [done|eauto|done|by left].
  - exists 0. apply keeps_of; [done|by left| |by left]. by eapply edit_part.
  - exists 0. destruct (publish_part _ _ _ _ _ Hid Hg Hv Hp Hcur) as [Hpart Hin]. apply keeps_of; [done|eauto|done|by left].
  - assert (is_Some (groups s' !! g_id g)) as Hin by (rewrite Hg, lookup_insert_eq; by eexists).
    exists (cr_id c). apply keeps_of; [done|right; exists v; by rewrite Hv|by eapply edit_part|].
    eapply schedule_part; eauto. rewrite Hnew. by apply new_rollout_ok.
  - exists 0. destruct (publish_part _ _ _ _ _ Hid Hg Hv Hp Hcur) as [Hpart Hin]. apply keeps_of; [done|eauto|done|].
    destruct (live_rollout s (g_id g)) as [c|] eqn:El; [|by left]. apply (live_rollout_iff _ _ _ Hok) in El as (Hcc & _ & Hl).
    eapply move_part; [done|done| |done]. by apply cancel_ok, Hro.
  - exists 0. destruct (Hm (Hro _ Hc)) as (_ & _ & _ & Hr). apply keeps_of; [done|by left|by left|]. by eapply move_part.
  - exists 0. destruct (Hm (Hro _ Hc)) as (_ & _ & _ & Hr). pose proof (ck_group _ Hok _ _ Hold) as Hgid.
    apply keeps_of; [done|by left| |by eapply move_part]. right. exists g'. rewrite Hid. split; [done|]. right.
    rewrite Hcur, (proj2 (numbers_same _ _ _ Hn)), Hgid. apply (ck_rollout _ Hok _ _ Hc).
  - exists 0. destruct (Hm (Hro _ Hc)) as (_ & _ & _ & Hr). apply keeps_of; [done|by left|by left|]. by eapply move_part.
  - exists 0. apply keeps_of; [done|by left|by left|]. eapply move_part; [done|done| |done]. by apply cancel_ok, Hro.
Qed.

Lemma filter_again {A} (p q : A → bool) l : filterb p (filterb q l) = filterb (λ x, q x && p x) l.
Proof. induction l as [|x l IH]; [done|]. cbn. destruct (q x); cbn; [|done]. destruct (p x); by rewrite IH. Qed.

Lemma sorted_filter {A} (f : A → Z) (p : A → bool) l : StronglySorted Z.lt (map f l) → StronglySorted Z.lt (map f (filterb p l)).
Proof.
  induction l as [|x l IH]; [done|]. rewrite map_cons. intros [Hs Hx]%StronglySorted_inv. apply IH in Hs.
  change (filterb p (x :: l)) with (if p x then x :: filterb p l else filterb p l). destruct (p x); [|done]. rewrite map_cons.
  constructor; [done|]. apply Forall_forall. intros n [y [<- Hy]]%list_elem_of_In%in_map_iff. apply filter_In in Hy as [Hy _].
  eapply Forall_forall in Hx; [exact Hx|]. by apply list_elem_of_In, in_map.
Qed.

Lemma deleted_numbers s s' j i : versions s' = filterb (λ v, negb (v_group v =? j)) (versions s) →
  numbers s' i = (if i =? j then [] else numbers s i) ∧ next_version s' i = (if i =? j then 1 else next_version s i).
Proof.
  intros Hv. assert (filterb (λ v, v_group v =? i) (versions s') = if i =? j then [] else filterb (λ v, v_group v =? i) (versions s)) as Hf.
  { rewrite Hv, filter_again. destruct (Z.eqb_spec i j) as [->|Hne].
    - transitivity (filterb (λ _ : GroupVersion, false) (versions s)); [|symmetry; generalize (versions s); intros l; by induction l].
      apply List.filter_ext. intros v. by destruct (v_group v =? j).
    - apply List.filter_ext. intros v. destruct (Z.eqb_spec (v_group v) i) as [->|]; [|by rewrite andb_false_r].
      rewrite andb_true_r, negb_true_iff. by apply Z.eqb_neq. }
  unfold numbers, next_version. rewrite Hf. by destruct (i =? j).
Qed.

Lemma delete_ok s s' g : configs_ok s → groups s' = delete (g_id g) (groups s) →
  versions s' = filterb (λ v, negb (v_group v =? g_id g)) (versions s) → seqs s' = seqs s →
  config_rollouts s' = filter (λ '(_, c), cr_group c ≠ g_id g) (config_rollouts s) → configs_ok s'.
Proof.
  intros Hok Hg Hv Hn Hc. pose proof (λ i, deleted_numbers s s' _ i Hv) as Hd.
  assert (∀ i h, groups s' !! i = Some h → groups s !! i = Some h ∧ i ≠ g_id g) as Hgs.
  { intros i h. rewrite Hg, lookup_delete_Some. naive_solver. }
  assert (∀ i c, config_rollouts s' !! i = Some c → config_rollouts s !! i = Some c ∧ cr_group c ≠ g_id g) as Hcs.
  { intros i c. by rewrite Hc, map_lookup_filter_Some. }
  assert (∀ i, is_Some (groups s !! i) → i ≠ g_id g → is_Some (groups s' !! i)) as Hst.
  { intros i Hi Hne. by rewrite Hg, lookup_delete_ne. }
  assert (∀ v, v ∈ versions s' → v ∈ versions s ∧ v_group v ≠ g_id g) as Hvs.
  { intros v. rewrite Hv. intros Hin%list_elem_of_In. apply filter_In in Hin as [Hin%list_elem_of_In H].
    apply negb_true_iff, Z.eqb_neq in H. done. }
  split.
  - intros i h Hh. apply Hgs in Hh as [Hh _]. by apply (ck_group _ Hok).
  - intros i c Hi. apply Hcs in Hi as [Hi _]. by apply (ck_rollout_id _ Hok).
  - intros i c Hi. apply Hcs in Hi as [Hi Hne]. destruct (ck_rollout _ Hok _ _ Hi) as (Hr & Hs & Ht).
    split; [done|]. split; [by apply Hst|]. rewrite (proj2 (Hd _)), (proj2 (Z.eqb_neq _ _)) by done. done.
  - intros v Hin. apply Hvs in Hin as [Hin Hne]. apply Hst; [|done]. by apply (ck_owner _ Hok).
  - intros i. destruct (Hd i) as [-> ->]. destruct (i =? g_id g); [done|]. apply (ck_numbers _ Hok).
  - intros i h Hh. apply Hgs in Hh as [Hh Hne]. rewrite (proj2 (Hd _)), (proj2 (Z.eqb_neq _ _)) by done. by apply (ck_current _ Hok).
  - rewrite Hv. apply sorted_filter, (ck_seq _ Hok).
  - intros v Hin. apply Hvs in Hin as [Hin _]. rewrite Hn. by apply (ck_seqs _ Hok).
  - intros i j c c' [Hi _]%Hcs [Hj _]%Hcs. by eapply (ck_live _ Hok).
Qed.

Lemma config_step_ok calm s s' : config_step calm s s' → configs_ok s → configs_ok s'.
Proof.
  intros St Hok. destruct (step_keeps _ _ _ Hok St) as [[k K]|(g & _ & _ & Hg & Hv & Hn & Hc)]; [by eapply keeps_ok|by eapply delete_ok].
Qed.

Lemma config_steps_ok calm s s' : rtc (config_step calm) s s' → configs_ok s → configs_ok s'.
Proof. induction 1 as [|s t u Hst _ IH]; [done|]. intros Hok. by eapply IH, config_step_ok. Qed.

(** ** The handlers are steps *)

Section configs.
Context (uni_lower : Z → list Z) (float_repr : spec_float → text) (uni_decimal : Z → option Z).
Context (as_bool : json → option bool) (as_int : json → option Z) (re_ok cron_ok : text → bool) (zone : text → zone_answer).
Context (fromisoformat : text → option Z) (preset_names : list text).
Context (sha256_digest : list Z → list Z) (sha256_hex : list Z → string).
Context (collate : text → text → bool) (row_order : list ConfigRollout → list ConfigRollout).
Context (sha256 : string → string) (settings : SyncSettings) (auth_enabled : bool) (_roles : gmap string Role).
Context (agent_policy_max_bytes : nat) (new_group new_rollout_id : nat → Z) (db_zone : Z → Z).

Local Abbreviation create_config_group := (ConfigGroups.create_config_group uni_lower float_repr uni_decimal as_bool as_int re_ok cron_ok zone
  fromisoformat preset_names agent_policy_max_bytes new_group).
Local Abbreviation edited := (ConfigGroups.edited uni_lower float_repr uni_decimal as_bool as_int re_ok cron_ok zone
  fromisoformat preset_names agent_policy_max_bytes).
Local Abbreviation publish_edit := (ConfigGroups.publish_edit new_rollout_id db_zone).
Local Abbreviation update_config_group := (ConfigGroups.update_config_group uni_lower float_repr uni_decimal as_bool as_int re_ok cron_ok zone
  fromisoformat preset_names agent_policy_max_bytes new_rollout_id db_zone).
Local Abbreviation rollback_config_group := (ConfigGroups.rollback_config_group float_repr as_bool as_int re_ok cron_ok zone).
Local Abbreviation serve := (ConfigGroups.serve uni_lower float_repr uni_decimal as_bool as_int re_ok cron_ok zone
  fromisoformat preset_names sha256_digest sha256_hex collate row_order sha256 settings auth_enabled _roles agent_policy_max_bytes new_group new_rollout_id db_zone).
Local Abbreviation run := (ConfigGroups.run uni_lower float_repr uni_decimal as_bool as_int re_ok cron_ok zone
  fromisoformat preset_names sha256_digest sha256_hex collate row_order sha256 settings auth_enabled _roles agent_policy_max_bytes new_group new_rollout_id db_zone).

Lemma idle calm s s' : same_rest s s' → same_numbers s s' → rtc (config_step calm) s s'.
Proof using Type. intros H1 H2. by apply rtc_once, st_idle. Qed.

Lemma unowned s i : configs_ok s → groups s !! i = None → next_version s i = 1.
Proof using Type.
  intros Hok Hi. unfold next_version. assert (filterb (λ v, v_group v =? i) (versions s) = []) as ->; [|done].
  destruct (filterb _ _) as [|v l] eqn:E; [done|]. assert (v ∈ filterb (λ v, v_group v =? i) (versions s)) as Hv by (rewrite E; by left).
  apply list_elem_of_In, filter_In in Hv as [Hv%list_elem_of_In Hg%Z.eqb_eq]. destruct (ck_owner _ Hok _ Hv) as [x Hx]. congruence.
Qed.

Lemma create_steps calm s b actor now : configs_ok s → rtc (config_step calm) s (create_config_group s b actor now).1.
Proof using Type.
  intros Hok. unfold ConfigGroups.create_config_group. destruct (negb _); [apply rtc_refl|].
  destruct (_validate_settings_or_422 _ _ _ _ _ _ _); [|apply rtc_refl]. destruct (_validate_policy_or_422 _ _ _ _ _ _ _ _ _ _ _); [|apply rtc_refl].
  set (g := mkGroup _ _ _ _ _ _ _ _ _ _). destruct (negb (group_ok g)); [apply rtc_refl|].
  destruct (name_taken s (g_id g) (g_name g)); [apply rtc_refl|]. cbn [orb].
  destruct (groups s !! g_id g) eqn:Hg; [rewrite bool_decide_eq_true_2 by (by eexists); apply rtc_refl|].
  rewrite bool_decide_eq_false_2 by (by intros [? ?]). unfold _publish_version. cbn [fst].
  apply rtc_once. eapply (st_create _ _ _ g); [done| |done| | |done|done].
  3: (split; [reflexivity|done]). 2: reflexivity. symmetry. exact (unowned _ _ Hok Hg).
Qed.

Lemma updated_same old new now : same_group old new → same_group old (updated old new now) ∧
  g_current_version (updated old new now) = g_current_version new.
Proof using Type. intros H. unfold updated. by destruct (bool_decide_reflect (old = new)) as [->|]. Qed.

Lemma edited_same g b g' : edited g b = Ok g' → g_is_system g && (bool_decide (is_Some (gu_name b)) || bool_decide (is_Some (gu_priority b))) = false →
  same_group g g' ∧ g_current_version g' = g_current_version g.
Proof using Type.
  unfold ConfigGroups.edited. intros H Hs. destruct (match gu_settings b with Some _ => _ | None => _ end) as [u|]; [cbn in H|done].
  destruct (match gu_policy b with Some _ => _ | None => _ end) as [u'|]; [cbn in H|done]. injection H as <-.
  split; [|done]. split; [done|]. split; [done|]. cbn. intros E. rewrite E in Hs. cbn in Hs. apply orb_false_iff in Hs as [H1 H2].
  apply bool_decide_eq_false in H1, H2. apply eq_None_not_Some in H1, H2. by rewrite H1, H2.
Qed.

Lemma published_row s g actor note now : let '(s', v) := _publish_version s g actor note now in
  published s s' v ∧ v_group v = g_id g ∧ groups s' = groups s ∧ config_rollouts s' = config_rollouts s.
Proof using Type. by repeat split. Qed.

(** An edit whose document goes live at once *)
Definition immediate (b : ConfigGroupUpdateIn) : bool :=
  (bool_decide (is_Some (gu_settings b)) || bool_decide (is_Some (gu_policy b))) && bool_decide (gu_rollout b = None).
Definition alone (s : Configs) (i : Z) : bool := bool_decide (live_rollout s i = None).

Lemma publish_edit_steps calm s old g b actor now : configs_ok s → groups s !! g_id old = Some old → same_group old g →
  g_current_version g = g_current_version old → (calm = true → gu_rollout b = None → live_rollout s (g_id old) = None) →
  rtc (config_step calm) s (publish_edit s old g b actor now).1.
Proof using Type.
  intros Hok Hold Hsame Hcur Hcalm. unfold ConfigGroups.publish_edit.
  assert (g_id g = g_id old) as Hid by apply Hsame.
  destruct (gu_rollout b) as [[raw starts]|].
  - destruct (validate_tiers raw) as [l|] eqn:Hl; [|apply rtc_refl]. apply validate_tiers_ok in Hl.
    destruct (flush_group s g 500); [|apply rtc_refl].
    destruct (bool_decide_reflect (is_Some (live_rollout s (g_id g)))) as [|Hlive%eq_None_not_Some]; [apply rtc_refl|].
    destruct (negb (opt_column_ok (gu_note b))); [apply rtc_refl|].
    pose proof (published_row s g actor (gu_note b) now) as Hp. destruct (_publish_version _ _ _ _ _) as [s1 v].
    destruct Hp as (Hp & Hv & Hg & Hc).
    assert (rtc (config_step calm) s (set_versions s (versions s) (seqs s + 1))) as Hburnt by (apply idle; split; [done..|apply Z.le_succ_diag_r]).
    assert (∀ start, rtc (config_step calm) s (let r := new_config_rollout new_rollout_id s g (v_version v) l start actor now in
      match config_rollouts s !! cr_id r with
      | Some _ => (set_versions s (versions s) (seqs s + 1), GHttpError 409)
      | None => let g' := updated old g now in let s' := put_group s1 g' in
          let s' := set_rollouts s' (<[cr_id r := r]> (config_rollouts s')) (S (rollouts_made s)) in (s', _group_out s' g')
      end).1) as Hstart.
    { intros start. cbn zeta. set (r := new_config_rollout _ _ _ _ _ _ _ _). destruct (config_rollouts s !! cr_id r) eqn:Hr; [done|].
      destruct (updated_same old g now Hsame) as [Hs1 Hs2]. rewrite Hid in Hlive. apply rtc_once.
      eapply (st_schedule _ _ _ old (updated old g now) v r); rewrite <-?Hid; try done; rewrite ?Hid; try done.
      - by rewrite Hs2.
      - by exists l, start.
      - cbn. rewrite Hg. by rewrite (proj1 Hs1).
      - cbn. by rewrite Hc. }
    apply Hstart.
  - destruct (flush_group s g 500); [|apply rtc_refl]. destruct (negb (opt_column_ok (gu_note b))); [apply rtc_refl|].
    pose proof (published_row s g actor (gu_note b) now) as Hp. destruct (_publish_version _ _ _ _ _) as [s1 v].
    destruct Hp as (Hp & Hv & Hg & Hc). rewrite Hid in Hv.
    assert (same_group old (set_current g (v_version v))) as Hs' by done.
    destruct (updated_same old _ now Hs') as [Hs1 Hs2]. apply rtc_once.
    eapply (st_publish _ _ _ old (updated old (set_current g (v_version v)) now) v); try done.
    + intros Ht. by apply Hcalm.
    + cbn. rewrite Hg. by rewrite (proj1 Hs1).
Qed.

Lemma update_steps calm s i b actor now : configs_ok s → (calm = true → negb (immediate b) || alone s i = true) →
  rtc (config_step calm) s (update_config_group s i b actor now).1.
Proof using Type.
  intros Hok Hcalm. unfold ConfigGroups.update_config_group. destruct (negb (update_body_ok b)); [apply rtc_refl|].
  destruct (groups s !! i) as [row|] eqn:Hrow; [|apply rtc_refl]. cbn zeta. pose proof (ck_group _ Hok _ _ Hrow) as Hid.
  destruct (g_is_system row && _) eqn:Hsys; [apply rtc_refl|]. destruct (bool_decide (is_Some (gu_rollout b)) && _); [apply rtc_refl|].
  destruct (edited row b) as [g|] eqn:Hg; [|apply rtc_refl]. destruct (edited_same _ _ _ Hg Hsys) as [Hsame Hcur].
  destruct (bool_decide (is_Some (gu_settings b)) || bool_decide (is_Some (gu_policy b))) eqn:Hdoc.
  - apply publish_edit_steps; [done|by rewrite Hid|done..|]. intros Ht Hn. specialize (Hcalm Ht). unfold immediate in Hcalm.
    rewrite Hdoc, (bool_decide_eq_true_2 (gu_rollout b = None)) in Hcalm by done. cbn in Hcalm. rewrite Hid. by apply bool_decide_eq_true in Hcalm.
  - destruct (flush_group s g 409); [|apply rtc_refl]. destruct (updated_same row g now Hsame) as [Hs1 Hs2]. apply rtc_once.
    eapply (st_edit _ _ _ row (updated row g now)); [by rewrite Hid|done|by rewrite Hs2| |done|split; [done|apply Z.le_refl]].
    cbn. by rewrite (proj1 Hs1).
Qed.

Lemma rollback_steps calm s i version note actor now : configs_ok s →
  rtc (config_step calm) s (rollback_config_group s i version note actor now).1.
Proof using Type.
  intros Hok. unfold ConfigGroups.rollback_config_group. destruct (_ || _); [apply rtc_refl|].
  destruct (groups s !! i) as [old|] eqn:Hold; [|apply rtc_refl]. pose proof (ck_group _ Hok _ _ Hold) as Hid.
  destruct (snapshot s i version) as [target|]; [|apply rtc_refl]. destruct (_validate_settings_or_422 _ _ _ _ _ _ _); [|apply rtc_refl].
  cbn zeta. destruct (negb _); [apply rtc_refl|]. set (g := set_documents _ _ _).
  set (s1 := match live_rollout s i with Some r => _ | None => _ end).
  assert (groups s1 = groups s ∧ versions s1 = versions s ∧ seqs s1 = seqs s ∧ config_rollouts s1 = match live_rollout s (g_id old) with
    | Some c => <[cr_id c := with_rollout c (cancel (cr_rollout c) now)]> (config_rollouts s) | None => config_rollouts s end) as (Hg1 & Hv1 & Hn1 & Hc1).
  { subst s1. rewrite Hid. by destruct (live_rollout s i). }
  pose proof (published_row s1 g actor (Some (rollback_note note version)) now) as Hp. destruct (_publish_version _ _ _ _ _) as [s2 v].
  destruct Hp as (Hp & Hv & Hg & Hc). assert (same_group old (set_current g (v_version v))) as Hs' by done.
  destruct (updated_same old _ now Hs') as [Hs1 Hs2]. apply rtc_once.
  eapply (st_rollback _ _ _ old (updated old (set_current g (v_version v)) now) v now); [by rewrite Hid|done|done|done| | |].
  - destruct Hp as (Hpv & Hpn & Hps & Hpq). unfold published, next_version in *. cbn. by rewrite Hpv, Hpn, Hps, Hpq, Hv1, Hn1.
  - cbn. rewrite Hg, Hg1. by rewrite (proj1 Hs1).
  - cbn. by rewrite Hc.
Qed.

Lemma moved_status r r' : moved r r' → status r' = running ∨ status r' = completed.
Proof using Type. by intros (_ & _ & ? & _). Qed.

(** A rollout that moves, and with its completion its group *)
Lemma move_step calm s c r now : configs_ok s → config_rollouts s !! cr_id c = Some c → live (cr_rollout c) = true → moved (cr_rollout c) r →
  config_step calm s (let s' := put_rollout s (with_rollout c r) in
    if bool_decide (status r = completed) then finish s' (with_rollout c r) now else s').
Proof using Type.
  intros Hok Hc Hl Hm. assert (same_numbers s s) as Hn by (split; [done|apply Z.le_refl]). cbn zeta.
  destruct (ck_rollout _ Hok _ _ Hc) as (_ & [g Hg] & _). pose proof (ck_group _ Hok _ _ Hg) as Hid.
  destruct (moved_status _ _ Hm) as [Hr|Hr]; rewrite Hr.
  - rewrite bool_decide_eq_false_2 by done. by eapply (st_advance _ _ _ c r).
  - rewrite bool_decide_eq_true_2 by done. unfold finish. cbn. rewrite Hg.
    assert (same_group g (set_current g (cr_target c))) as Hs by done. destruct (updated_same g _ now Hs) as [Hs1 Hs2].
    eapply (st_complete _ _ _ c r g (updated g (set_current g (cr_target c)) now)); try done.
    cbn. by rewrite (proj1 Hs1).
Qed.

Lemma lost_step s c r : config_rollouts s !! cr_id c = Some c → live (cr_rollout c) = true → moved (cr_rollout c) r →
  config_step false s (put_rollout s (with_rollout c r)).
Proof using Type.
  intros Hc Hl Hm. assert (same_numbers s (put_rollout s (with_rollout c r))) as Hn by (split; [done|apply Z.le_refl]).
  destruct (moved_status _ _ Hm) as [Hr|Hr]; [by eapply (st_advance _ _ _ c r)|by eapply (st_lost _ _ _ c r)].
Qed.

Lemma promote_steps calm s i now : configs_ok s → rtc (config_step calm) s (promote_config_rollout s i now).1.
Proof using Type.
  intros Hok. unfold promote_config_rollout. destruct (config_rollouts s !! i) as [c|] eqn:Hc; [|apply rtc_refl].
  pose proof (ck_rollout_id _ Hok _ _ Hc) as Hid. destruct (groups s !! cr_group c); [|apply rtc_refl].
  destruct (bool_decide_reflect (status (cr_rollout c) = running)) as [Hr|]; [|apply rtc_refl]. cbn [negb fst]. cbn zeta.
  apply rtc_once, move_step; [done|by rewrite Hid|unfold live; by rewrite Hr|]. apply promote_moved; [by eapply (ck_rollout _ Hok)|done].
Qed.

Lemma cancel_steps s i now : configs_ok s → rtc (config_step false) s (cancel_config_rollout s i now).1.
Proof using Type.
  intros Hok. unfold cancel_config_rollout. destruct (config_rollouts s !! i) as [c|] eqn:Hc; [|apply rtc_refl].
  destruct (groups s !! cr_group c); [|apply rtc_refl]. destruct (live (cr_rollout c)) eqn:Hl; [|apply rtc_refl].
  pose proof (ck_rollout_id _ Hok _ _ Hc) as Hid. apply rtc_once. eapply (st_cancel _ _ _ c now); try done. by rewrite Hid.
Qed.

Lemma delete_steps s i : configs_ok s → rtc (config_step false) s (delete_config_group s i).1.
Proof using Type.
  intros Hok. unfold delete_config_group. destruct (groups s !! i) as [g|] eqn:Hg; [|apply rtc_refl].
  destruct (g_is_system g) eqn:Hs; [apply rtc_refl|]. pose proof (ck_group _ Hok _ _ Hg) as Hid. subst i.
  apply rtc_once. by eapply (st_delete _ _ _ g).
Qed.

(** The rows that a tick still has to visit *)
Definition waiting (s : Configs) (l : list ConfigRollout) : Prop :=
  NoDup (map cr_id l) ∧ ∀ c, c ∈ l → config_rollouts s !! cr_id c = Some c ∧ live (cr_rollout c) = true.

Lemma waiting_tail s s' c r l : waiting s (c :: l) → config_rollouts s' = <[cr_id c := r]> (config_rollouts s) → waiting s' l.
Proof using Type.
  intros [Hnd H] Hs. apply NoDup_cons in Hnd as [Hnin Hnd]. split; [done|]. intros d Hd.
  destruct (H d) as [Hd1 Hd2]; [by right|]. split; [|done]. rewrite Hs, lookup_insert_ne; [done|].
  intros E. apply Hnin. rewrite E. apply list_elem_of_In, in_map. by apply list_elem_of_In.
Qed.

Lemma put_move_rollouts s c r now : config_rollouts (let s' := put_rollout s (with_rollout c r) in
    if bool_decide (status r = completed) then finish s' (with_rollout c r) now else s') = <[cr_id c := with_rollout c r]> (config_rollouts s).
Proof using Type. cbn zeta. destruct (bool_decide _); [|done]. unfold finish. by destruct (groups _ !! _). Qed.

Lemma advance_all_steps calm s tick commits l done_ : configs_ok s → waiting s l → (calm = true → commits = None) →
  rtc (config_step calm) s (advance_all s tick commits l done_).1.
Proof using Type.
  revert s commits done_. induction l as [|c l IH]; intros s commits done_ Hok Hw Hcalm; [apply rtc_refl|]. cbn [advance_all].
  destruct (proj2 Hw c ltac:(by left)) as [Hc Hl]. destruct (ck_rollout _ Hok _ _ Hc) as (Hro & _).
  destruct (advance_config (cr_rollout c) tick) as [|r|] eqn:Ha; [|pose proof (advance_config_moved _ _ _ Hro Hl Ha) as Hm|apply rtc_refl].
  { apply IH; [done| |done]. destruct Hw as [Hnd H]. apply NoDup_cons in Hnd as [_ Hnd]. split; [done|]. intros d Hd. apply H. by right. }
  assert (∀ commits', (calm = true → commits' = None) → let s' := put_rollout s (with_rollout c r) in
    let s2 := if bool_decide (status r = completed) then finish s' (with_rollout c r) tick else s' in
    rtc (config_step calm) s (advance_all s2 tick commits' l (cr_id c :: done_)).1) as Hgo.
  { intros commits' Hc'. cbn zeta. pose proof (move_step calm s c r tick Hok Hc Hl Hm) as St. cbn zeta in St.
    eapply rtc_l; [exact St|]. apply IH; [by eapply config_step_ok| |done]. eapply waiting_tail; [done|]. apply (put_move_rollouts s c r tick). }
  destruct commits as [[|n]|]; [apply rtc_refl| |].
  - destruct calm; [by specialize (Hcalm eq_refl)|]. cbn. destruct (bool_decide (status r = completed)) eqn:Hd; rewrite ?Hd in Hgo.
    + destruct n as [|n]; [apply rtc_once; by apply lost_step|]. by apply Hgo.
    + by apply Hgo.
  - cbn. destruct (bool_decide (status r = completed)) eqn:Hd; by apply Hgo.
Qed.

(** A query returns every row once, in some order. *)
Context (row_order_perm : ∀ l, row_order l ≡ₚ l).

Lemma all_rollouts s c : c ∈ map snd (map_to_list (config_rollouts s)) ↔ ∃ i, config_rollouts s !! i = Some c.
Proof using Type.
  split.
  - intros [[i d] [<- Hin%list_elem_of_In]]%list_elem_of_In%in_map_iff. exists i. by apply elem_of_map_to_list.
  - intros [i Hi]. apply list_elem_of_In, in_map_iff. exists (i, c). split; [done|]. by apply list_elem_of_In, elem_of_map_to_list.
Qed.

Lemma rollout_ids_NoDup s : configs_ok s → NoDup (map cr_id (map snd (map_to_list (config_rollouts s)))).
Proof using Type.
  intros Hok. rewrite map_map. assert (map (λ x, cr_id x.2) (map_to_list (config_rollouts s)) = map fst (map_to_list (config_rollouts s))) as ->;
    [|apply NoDup_fst_map_to_list].
  apply map_ext_in. intros [i c] Hin%list_elem_of_In%elem_of_map_to_list. by apply (ck_rollout_id _ Hok).
Qed.

Lemma NoDup_filter {A B} (f : A → B) (p : A → bool) l : NoDup (map f l) → NoDup (map f (filterb p l)).
Proof using Type.
  induction l as [|x l IH]; [done|]. rewrite map_cons. intros [Hx Hnd]%NoDup_cons.
  change (filterb p (x :: l)) with (if p x then x :: filterb p l else filterb p l). destruct (p x); [|by apply IH].
  rewrite map_cons. constructor; [|by apply IH]. intros [y [Hy Hin]]%list_elem_of_In%in_map_iff. apply Hx.
  rewrite <-Hy. apply filter_In in Hin as [Hin _]. by apply list_elem_of_In, in_map.
Qed.

Lemma live_rows_waiting s : configs_ok s → waiting s (merge_sort created_le (filterb (λ c, live (cr_rollout c)) (row_order (map snd (map_to_list (config_rollouts s)))))).
Proof using row_order_perm.
  intros Hok. set (l := filterb _ _). assert (merge_sort created_le l ≡ₚ l) as Hp by apply merge_sort_Permutation. split.
  - rewrite Hp. apply NoDup_filter. rewrite row_order_perm. by apply rollout_ids_NoDup.
  - intros c Hc. rewrite Hp in Hc. apply list_elem_of_In, filter_In in Hc as [Hin Hl]. split; [|done].
    apply list_elem_of_In in Hin. rewrite row_order_perm in Hin. apply all_rollouts in Hin as [i Hi].
    by rewrite (ck_rollout_id _ Hok _ _ Hi).
Qed.

Lemma tick_steps calm s now maintenance commits : configs_ok s → (calm = true → commits = None) →
  rtc (config_step calm) s (_advance_config_rollouts row_order s now maintenance commits).1.
Proof using row_order_perm.
  intros Hok Hc. unfold _advance_config_rollouts. destruct maintenance; [apply rtc_refl|].
  apply advance_all_steps; [done|by apply live_rows_waiting|done].
Qed.

(** A poll of the policy and a change of the membership leave groups, snapshots and rollouts. *)
Lemma policy_steps calm s a r inm n t now :
  rtc (config_step calm) s (get_agent_policy uni_lower float_repr sha256_digest sha256_hex collate settings s a r inm n t now).1.
Proof using Type.
  unfold get_agent_policy. destruct (negb _); [apply rtc_refl|].
  destruct (authenticated _ _ _ _ _) as [[f agent]|]; [|apply rtc_refl].
  assert (∀ s' reply, same_rest s s' → same_numbers s s' → rtc (config_step calm) s (s', reply : config_reply).1) as Hi.
  { intros s' reply H1 H2. by apply idle. }
  destruct (match n with Some n => negb (int64 n) | None => false end); [apply Hi; [done|split; [done|apply Z.le_refl]]|]. cbn zeta.
  set (s1 := match n with Some m => set_applied _ _ | None => _ end).
  assert (same_rest s s1 ∧ same_numbers s s1) as [H1 H2].
  { subst s1. destruct n; (split; [done|split; [done|apply Z.le_refl]]). }
  destruct (doc_hash _) as [h|]; [|by apply Hi]. destruct inm as [[|c inm]|]; try by apply Hi.
  destruct (_etag_matches _ _); by apply Hi.
Qed.

Lemma members_steps calm s a l : rtc (config_step calm) s (set_agent_config_groups s a l).1.
Proof using Type.
  unfold set_agent_config_groups. destruct (negb _); [apply rtc_refl|]. destruct (wanted_groups _ _); [|apply rtc_refl].
  apply idle; [done|split; [done|apply Z.le_refl]].
Qed.

Definition calm_request (s : Configs) (q : config_request) : bool :=
  match q with
  | QCancel _ _ | QDelete _ _ => false
  | QUpdate _ i b => negb (immediate b) || alone s i
  | QTick _ commits => bool_decide (commits = None)
  | _ => true
  end.

Lemma admin_steps calm s call now handler : (∀ by_, rtc (config_step calm) s (handler by_).1) →
  rtc (config_step calm) s (admin sha256 settings auth_enabled _roles call now handler s).1.
Proof using Type.
  intros H. unfold admin. destruct (negb _); [apply rtc_refl|].
  destruct (scoped _ _ _ _ _ _ _ _ _) as [s' r] eqn:E. apply scoped_cases in E as [->|[by_ E]]; [apply rtc_refl|].
  specialize (H by_). by rewrite E in H.
Qed.

Lemma serve_steps calm s now q : configs_ok s → (calm = true → calm_request s q = true) → rtc (config_step calm) s (serve s now q).1.
Proof using row_order_perm.
  intros Hok Hcalm. destruct q; cbn [ConfigGroups.serve]; try (apply admin_steps; intros by_; try apply rtc_refl).
  - by apply create_steps.
  - by apply update_steps.
  - destruct calm; [by specialize (Hcalm eq_refl)|by apply delete_steps].
  - by apply rollback_steps.
  - by apply members_steps.
  - destruct calm; [by specialize (Hcalm eq_refl)|by apply cancel_steps].
  - by apply promote_steps.
  - by apply policy_steps.
  - apply tick_steps; [done|]. intros H. by apply Hcalm, bool_decide_eq_true in H.
  - apply idle; [done|split; [done|apply Z.le_refl]].
Qed.

Lemma run_steps trace s : configs_ok s → rtc (config_step false) s (run s trace) ∧ configs_ok (run s trace).
Proof using row_order_perm.
  revert s. induction trace as [|[now q] trace IH]; intros s Hok; [split; [apply rtc_refl|done]|]. cbn [ConfigGroups.run].
  assert (rtc (config_step false) s (serve s now q).1) as Hs by (by apply serve_steps).
  destruct (IH _ (config_steps_ok _ _ _ Hs Hok)) as [Hr Hok']. split; [by etrans|done].
Qed.

(** The requests of a trace that are calm where they arrive *)
Fixpoint calm_trace (s : Configs) (trace : list (Z * config_request)) : bool :=
  match trace with [] => true | (now, q) :: t => calm_request s q && calm_trace (serve s now q).1 t end.

Lemma calm_run trace s : configs_ok s → calm_trace s trace = true → rtc (config_step true) s (run s trace).
Proof using row_order_perm.
  revert s. induction trace as [|[now q] trace IH]; intros s Hok; [intros _; apply rtc_refl|]. cbn [ConfigGroups.run calm_trace].
  intros [Hq Ht]%andb_true_iff. assert (rtc (config_step true) s (serve s now q).1) as Hs by (by apply serve_steps).
  etrans; [exact Hs|]. apply IH; [by eapply config_steps_ok|done].
Qed.

(** ** What a bucket is delivered *)

(** A live rollout is ahead of what its group delivers to everybody. *)
Definition forward (s : Configs) : Prop :=
  ∀ i c g, config_rollouts s !! i = Some c → live (cr_rollout c) = true → groups s !! cr_group c = Some g → g_current_version g < cr_target c.

Definition delivered (s : Configs) (bucket i : Z) : option Z := g ← groups s !! i; Some (version_for s bucket g).1.

Lemma version_for_ge s b g : g_current_version g ≤ (version_for s b g).1.
Proof using Type.
  unfold version_for. destruct (live_rollout s (g_id g)) as [c|]; [|apply Z.le_refl].
  destruct (rollout_covers b _); [|apply Z.le_refl]. destruct (Z.ltb_spec (g_current_version g) (cr_target c)) as [H|]; [by apply Z.lt_le_incl|apply Z.le_refl].
Qed.

Lemma version_for_lt s b i g : configs_ok s → groups s !! i = Some g → (version_for s b g).1 < next_version s i.
Proof using Type.
  intros Hok Hg. pose proof (ck_current _ Hok _ _ Hg) as [_ Hc]. pose proof (ck_group _ Hok _ _ Hg) as Hid. unfold version_for.
  destruct (live_rollout s (g_id g)) as [c|] eqn:E; [|done]. destruct (_ && _); [|done]. cbn.
  apply (live_rollout_iff _ _ _ Hok) in E as (Hr & Hcg & _). destruct (ck_rollout _ Hok _ _ Hr) as (_ & _ & _ & Ht). by rewrite Hcg, Hid in Ht.
Qed.

(** A step on a rollout leaves the live rollouts of the other groups. *)
Lemma live_other s s' c i : configs_ok s → configs_ok s' → config_rollouts s' = <[cr_id c := c]> (config_rollouts s) →
  (∀ d, config_rollouts s !! cr_id c = Some d → cr_group d = cr_group c) → i ≠ cr_group c → live_rollout s' i = live_rollout s i.
Proof using Type.
  intros Hok Hok' Hs Hold Hi. apply option_eq. intros d. rewrite !live_rollout_iff, Hs by done.
  split; intros (Hd & Hg & Hl); (split; [|done]).
  - destruct (decide (cr_id c = cr_id d)) as [E|Hne]; [|by rewrite lookup_insert_ne in Hd].
    rewrite E, lookup_insert_eq in Hd. injection Hd as <-. by rewrite Hg in Hi.
  - rewrite lookup_insert_ne; [done|]. intros E. rewrite <-E in Hd. specialize (Hold _ Hd). congruence.
Qed.

Lemma live_same s s' i : config_rollouts s' = config_rollouts s → live_rollout s' i = live_rollout s i.
Proof using Type. unfold live_rollout. by intros ->. Qed.

Lemma version_for_same s s' b g g' : g_id g' = g_id g → g_current_version g' = g_current_version g →
  live_rollout s' (g_id g) = live_rollout s (g_id g) → (version_for s' b g').1 = (version_for s b g).1.
Proof using Type. intros Hi Hc Hl. unfold version_for. rewrite Hi, Hl, Hc. by destruct (live_rollout s (g_id g)); [destruct (_ && _)|]. Qed.

(** The groups after a step on the group [j] *)
Lemma delivered_at s s' b i j g' : groups s' = <[j := g']> (groups s) → g_id g' = j → configs_ok s →
  (∀ g, groups s !! j = Some g → (version_for s b g).1 ≤ (version_for s' b g').1) →
  (i ≠ j → live_rollout s' i = live_rollout s i) →
  ∀ v, delivered s b i = Some v → ∃ v', delivered s' b i = Some v' ∧ v ≤ v'.
Proof using Type.
  intros Hg Hid Hok Hat Hother v Hv. unfold delivered in *. destruct (groups s !! i) as [g|] eqn:Hgi; [|done]. injection Hv as <-.
  rewrite Hg. destruct (decide (i = j)) as [E|Hne].
  - subst i. rewrite lookup_insert_eq. eexists. split; [done|]. by apply Hat.
  - rewrite lookup_insert_ne, Hgi by done. eexists. split; [done|]. apply Z.eq_le_incl. symmetry.
    apply version_for_same; [done..|]. rewrite (ck_group _ Hok _ _ Hgi). by apply Hother.
Qed.

(** The groups after a step on a rollout alone *)
Lemma delivered_still s s' b i : configs_ok s → groups s' = groups s →
  (∀ g, groups s !! i = Some g → (version_for s b g).1 ≤ (version_for s' b g).1) →
  ∀ v, delivered s b i = Some v → ∃ v', delivered s' b i = Some v' ∧ v ≤ v'.
Proof using Type.
  intros Hok Hg Hat v Hv. unfold delivered in *. rewrite Hg. destruct (groups s !! i) as [g|] eqn:Hgi; [|done]. injection Hv as <-.
  eexists. split; [done|]. by apply Hat.
Qed.

(** A rollout that covers more buckets *)
Lemma version_for_grows s s' b g c c' : live_rollout s (g_id g) = Some c → live_rollout s' (g_id g) = Some c' →
  cr_target c' = cr_target c → (rollout_covers b (Some (cr_rollout c)) = true → rollout_covers b (Some (cr_rollout c')) = true) →
  (version_for s b g).1 ≤ (version_for s' b g).1.
Proof using Type.
  intros Hl Hl' Ht Hcov. pose proof (version_for_ge s' b g) as Hge. unfold version_for in *. rewrite Hl, Hl' in *.
  destruct (rollout_covers b (Some (cr_rollout c))); [|done]. rewrite (Hcov eq_refl), Ht in *. apply Z.le_refl.
Qed.

Lemma calm_delivers s s' b i v : configs_ok s → configs_ok s' → forward s → config_step true s s' → delivered s b i = Some v →
  ∃ v', delivered s' b i = Some v' ∧ v ≤ v'.
Proof using Type.
  intros Hok Hok' Hf St. revert v.
  destruct St as [[Hg Hc] Hn|g v Hnone Hcur Hsys Hv Hp Hg Hc|g g' Hold (Hid & _) Hcur Hg Hc Hn|g g' v Hnl Hold (Hid & _) Hv Hcur Hp Hg Hc
    |g g' v c Hlive Hfresh Hold (Hid & _) Hcur Hv Hp Hcg Ht (l & t & Htiers & Hnew) Hg Hc|g g' v now Hold (Hid & _) Hv Hcur Hp Hg Hc
    |c r Hc Hl Hm Hs Hg Hcs Hn|c r g g' Hc Hl Hm Hs Hold (Hid & _) Hcur Hg Hcs Hn|c r Hcalm Hc Hl Hm Hs Hg Hcs Hn|c now Hcalm Hc Hl Hg Hcs Hn
    |g Hcalm Hold Hsys Hg Hvs Hn Hcs]; [| | | | | | | |done..].
  - apply delivered_still; [done..|]. intros g _. apply Z.eq_le_incl. symmetry. apply version_for_same; [done..|]. by apply live_same.
  - eapply delivered_at; [exact Hg|done|done| |]; [intros h Hh; congruence|intros _; by apply live_same].
  - eapply delivered_at; [exact Hg|done|done| |intros _; by apply live_same]. intros h Hh. rewrite Hold in Hh. injection Hh as <-.
    apply Z.eq_le_incl. symmetry. apply version_for_same; [done..|]. by apply live_same.
  - eapply delivered_at; [exact Hg|done|done| |intros _; by apply live_same]. intros h Hh. rewrite Hold in Hh. injection Hh as <-.
    pose proof (version_for_lt s b _ _ Hok Hold) as Hlt. pose proof (version_for_ge s' b g') as Hge.
    rewrite Hcur in Hge. destruct Hp as (_ & Hvn & _). rewrite Hvn, Hv in Hge. etrans; [by apply Z.lt_le_incl|done].
  - eapply delivered_at; [exact Hg|done|done| |].
    + intros h Hh. rewrite Hold in Hh. injection Hh as <-. pose proof (version_for_ge s' b g') as Hge. rewrite Hcur in Hge.
      unfold version_for at 1. by rewrite Hlive.
    + intros Hi. rewrite <-Hcg in Hi. eapply live_other; [done|done|exact Hc| |done]. intros d Hd. congruence.
  - eapply delivered_at; [exact Hg|done|done| |].
    + intros h Hh. rewrite Hold in Hh. injection Hh as <-.
      pose proof (version_for_lt s b _ _ Hok Hold) as Hlt. pose proof (version_for_ge s' b g') as Hge.
      rewrite Hcur in Hge. destruct Hp as (_ & Hvn & _). rewrite Hvn, Hv in Hge. etrans; [by apply Z.lt_le_incl|done].
    + intros Hi. destruct (live_rollout s (g_id g)) as [c|] eqn:El; [|by apply live_same].
      apply (live_rollout_iff _ _ _ Hok) in El as (Hcc & Hcg & _).
      eapply (live_other _ _ (with_rollout c (cancel (cr_rollout c) now))); [done|done|exact Hc| |cbn; congruence].
      intros d Hd. cbn in *. congruence.
  - destruct (ck_rollout _ Hok _ _ Hc) as (Hro & _). specialize (Hm Hro). assert (live r = true) as Hlr by (unfold live; by rewrite Hs).
    apply delivered_still; [done..|]. intros g Hgi. pose proof (ck_group _ Hok _ _ Hgi) as Hid. destruct (decide (g_id g = cr_group c)) as [E|Hne].
    + eapply (version_for_grows _ _ _ _ c (with_rollout c r)); [by apply live_rollout_iff| |done|].
      * apply live_rollout_iff; [done|]. cbn. rewrite Hcs, lookup_insert_eq. done.
      * by apply covers_grows.
    + apply Z.eq_le_incl. symmetry. apply version_for_same; [done..|].
      eapply (live_other _ _ (with_rollout c r)); [done|done|exact Hcs| |done]. intros d Hd. cbn in *. congruence.
  - pose proof (ck_group _ Hok _ _ Hold) as Hgid. eapply delivered_at; [exact Hg|done|done| |].
    + intros h Hh. rewrite Hgid, Hold in Hh. injection Hh as <-. pose proof (version_for_ge s' b g') as Hge. rewrite Hcur in Hge.
      etrans; [|exact Hge]. unfold version_for. rewrite Hgid, (proj2 (live_rollout_iff _ (cr_group c) c Hok)) by done.
      destruct (_ && _); [apply Z.le_refl|]. cbn. apply Z.lt_le_incl. by eapply Hf.
    + intros Hi. rewrite Hgid in Hi. eapply (live_other _ _ (with_rollout c r)); [done|done|exact Hcs| |done]. intros d Hd. cbn in *. congruence.
Qed.

(** Whether the rollouts of one group are ahead of a version *)
Definition ahead (s : Configs) (i n : Z) : Prop :=
  ∀ k c, config_rollouts s !! k = Some c → live (cr_rollout c) = true → cr_group c = i → n < cr_target c.

Lemma forward_ahead s : forward s ↔ ∀ i g, groups s !! i = Some g → ahead s i (g_current_version g).
Proof using Type.
  split.
  - intros H i g Hg k c Hc Hl E. subst i. by eapply H.
  - intros H k c g Hc Hl Hg. by eapply H.
Qed.

Lemma forward_at s s' j g' : forward s → groups s' = <[j := g']> (groups s) → ahead s' j (g_current_version g') →
  (∀ i, i ≠ j → ∀ n, ahead s i n → ahead s' i n) → forward s'.
Proof using Type.
  rewrite !forward_ahead. intros H Hg Hj Ho i g Hi. rewrite Hg in Hi. destruct (decide (i = j)) as [E|Hne].
  - subst i. rewrite lookup_insert_eq in Hi. by injection Hi as <-.
  - rewrite lookup_insert_ne in Hi by done. apply Ho; [done|]. by apply H.
Qed.

Lemma ahead_same s s' i n : config_rollouts s' = config_rollouts s → ahead s i n → ahead s' i n.
Proof using Type. unfold ahead. by intros ->. Qed.

Lemma ahead_none s i n : configs_ok s → live_rollout s i = None → ahead s i n.
Proof using Type. intros Hok Hn k c Hc Hl Hg. by rewrite (live_rollout_none _ _ _ _ Hn Hc Hg) in Hl. Qed.

(** A rollout that only moves *)
Lemma ahead_set s s' c c' i n : config_rollouts s !! cr_id c = Some c → cr_id c' = cr_id c → cr_group c' = cr_group c → cr_target c' = cr_target c →
  (live (cr_rollout c') = true → live (cr_rollout c) = true) →
  config_rollouts s' = <[cr_id c' := c']> (config_rollouts s) → ahead s i n → ahead s' i n.
Proof using Type.
  intros Hc Hid Hg Ht Hl Hs H k d Hd Hld Hgd. rewrite Hs in Hd. destruct (decide (cr_id c' = k)) as [E|Hne].
  - subst k. rewrite lookup_insert_eq in Hd. injection Hd as <-. rewrite Ht. eapply H; [exact Hc|by apply Hl|congruence].
  - rewrite lookup_insert_ne in Hd by done. by eapply H.
Qed.

(** A rollout that is not of the group *)
Lemma ahead_other s s' c i n : cr_group c ≠ i → config_rollouts s' = <[cr_id c := c]> (config_rollouts s) → ahead s i n → ahead s' i n.
Proof using Type.
  intros Hg Hs H k d Hd Hld Hgd. rewrite Hs in Hd. destruct (decide (cr_id c = k)) as [E|Hne].
  - subst k. rewrite lookup_insert_eq in Hd. injection Hd as <-. done.
  - rewrite lookup_insert_ne in Hd by done. by eapply H.
Qed.

(** The only live rollout of the group is over. *)
Lemma ahead_over s s' c c' i n : configs_ok s → live_rollout s i = Some c → cr_id c' = cr_id c → live (cr_rollout c') = false →
  config_rollouts s' = <[cr_id c' := c']> (config_rollouts s) → ahead s' i n.
Proof using Type.
  intros Hok Hl Hid Hlc Hs k d Hd Hld Hgd. apply (live_rollout_iff _ _ _ Hok) in Hl as (Hc & Hg & Hl).
  rewrite Hs, Hid in Hd. destruct (decide (cr_id c = k)) as [E|Hne].
  - subst k. rewrite lookup_insert_eq in Hd. injection Hd as <-. congruence.
  - rewrite lookup_insert_ne in Hd by done. exfalso. apply Hne. eapply (ck_live _ Hok); [exact Hc|exact Hd|done|done|congruence].
Qed.

Lemma calm_forward s s' : configs_ok s → configs_ok s' → forward s → config_step true s s' → forward s'.
Proof using Type.
  intros Hok Hok' Hf St.
  destruct St as [[Hg Hc] Hn|g v Hnone Hcur Hsys Hv Hp Hg Hc|g g' Hold (Hid & _) Hcur Hg Hc Hn|g g' v Hnl Hold (Hid & _) Hv Hcur Hp Hg Hc
    |g g' v c Hlive Hfresh Hold (Hid & _) Hcur Hv Hp Hcg Ht (l & t & Htiers & Hnew) Hg Hc|g g' v now Hold (Hid & _) Hv Hcur Hp Hg Hc
    |c r Hc Hl Hm Hs Hg Hcs Hn|c r g g' Hc Hl Hm Hs Hold (Hid & _) Hcur Hg Hcs Hn|c r Hcalm Hc Hl Hm Hs Hg Hcs Hn|c now Hcalm Hc Hl Hg Hcs Hn
    |g Hcalm Hold Hsys Hg Hvs Hn Hcs]; [| | | | | | | |done..].
  - intros i c g. rewrite Hg, Hc. apply Hf.
  - eapply (forward_at _ _ _ g Hf Hg); [|intros i _ n; by apply ahead_same]. intros k c Hk _ E. rewrite Hc in Hk.
    destruct (ck_rollout _ Hok _ _ Hk) as (_ & [x Hx] & _). congruence.
  - eapply (forward_at _ _ _ g' Hf Hg); [|intros i _ n; by apply ahead_same]. rewrite Hcur. eapply ahead_same; [done|].
    by apply forward_ahead.
  - eapply (forward_at _ _ _ g' Hf Hg); [|intros i _ n; by apply ahead_same]. eapply ahead_same; [done|]. apply ahead_none; [done|by apply Hnl].
  - eapply (forward_at _ _ _ g' Hf Hg).
    + intros k d Hd Hld Hgd. rewrite Hc in Hd. destruct (decide (cr_id c = k)) as [E|Hne].
      * subst k. rewrite lookup_insert_eq in Hd. injection Hd as <-. rewrite Hcur, Ht. destruct Hp as (_ & -> & _). rewrite Hv.
        apply (ck_current _ Hok _ _ Hold).
      * rewrite lookup_insert_ne in Hd by done. by rewrite (live_rollout_none _ _ _ _ Hlive Hd Hgd) in Hld.
    + intros i Hi n. eapply ahead_other; [|done]. congruence.
  - destruct (live_rollout s (g_id g)) as [c|] eqn:El.
    + pose proof El as Hlc. apply (live_rollout_iff _ _ _ Hok) in Hlc as (Hcc & Hcg & Hl).
      eapply (forward_at _ _ _ g' Hf Hg).
      * eapply (ahead_over _ _ c (with_rollout c (cancel (cr_rollout c) now))); [exact Hok|exact El|done|done|exact Hc].
      * intros i Hi n. by eapply (ahead_set _ _ c (with_rollout c (cancel (cr_rollout c) now))).
    + eapply (forward_at _ _ _ g' Hf Hg); [|intros i _ n; by apply ahead_same]. eapply ahead_same; [done|]. by apply ahead_none.
  - apply forward_ahead. intros i g Hi. rewrite Hg in Hi. eapply (ahead_set _ _ c (with_rollout c r)); try done. by apply forward_ahead.
  - pose proof (ck_group _ Hok _ _ Hold) as Hgid. eapply (forward_at _ _ _ g' Hf Hg).
    + eapply (ahead_over _ _ c (with_rollout c r)); [exact Hok|rewrite Hgid; by apply live_rollout_iff|done|cbn; unfold live; by rewrite Hs|done].
    + intros i Hi n. by eapply (ahead_set _ _ c (with_rollout c r)).
Qed.

Lemma calm_run_delivers b i s s' : rtc (config_step true) s s' → configs_ok s → forward s → ∀ v, delivered s b i = Some v →
  ∃ v', delivered s' b i = Some v' ∧ v ≤ v'.
Proof using Type.
  induction 1 as [s|s t u Hst _ IH]; intros Hok Hf v Hv; [exists v; split; [done|apply Z.le_refl]|].
  pose proof (config_step_ok _ _ _ Hst Hok) as Hok'. destruct (calm_delivers _ _ _ _ _ Hok Hok' Hf Hst Hv) as (v1 & Hv1 & H1).
  destruct (IH Hok' (calm_forward _ _ Hok Hok' Hf Hst) _ Hv1) as (v2 & Hv2 & H2). exists v2. split; [done|]. by etrans.
Qed.

(** ** The merged document *)

















(** *** The order of the merge *)






(** *** The version of a group *)








(** ** Ticks complete a rollout *)

Definition all_due (D t : Z) (s : Configs) : Prop :=
  ∀ i c, config_rollouts s !! i = Some c → live (cr_rollout c) = true → due D t (cr_rollout c).

(** The group of a completed rollout delivers its target to everybody. *)
Definition delivers (s : Configs) (c : ConfigRollout) : Prop := ∃ g, groups s !! cr_group c = Some g ∧ g_current_version g = cr_target c.

(** What a tick makes of the rows of a list, and leaves of everything else *)
Record ticked (t : Z) (l : list ConfigRollout) (s s' : Configs) : Prop := {
  tk_row c : c ∈ l → ∃ r, config_rollouts s' !! cr_id c = Some (with_rollout c r) ∧ progressed t (cr_rollout c) r ∧
    (status r = completed → delivers s' c);
  tk_other i : i ∉ map cr_id l → config_rollouts s' !! i = config_rollouts s !! i;
  tk_group i : (∀ c, c ∈ l → cr_group c ≠ i) → groups s' !! i = groups s !! i;
}.


Lemma waiting_groups s c l : configs_ok s → waiting s (c :: l) → ∀ d, d ∈ l → cr_group d ≠ cr_group c.
Proof using Type.
  intros Hok [Hnd H] d Hd E. destruct (H c ltac:(by left)) as [Hc Hl]. destruct (H d ltac:(by right)) as [Hd1 Hd2].
  pose proof (ck_live _ Hok _ _ _ _ Hd1 Hc Hd2 Hl E) as Eid. apply NoDup_cons in Hnd as [Hnin _]. apply Hnin. rewrite <-Eid.
  by apply list_elem_of_In, in_map, list_elem_of_In.
Qed.

(** The state after one row of the loop *)
Definition after_row (s : Configs) (c : ConfigRollout) (r : Rollout) (t : Z) : Configs :=
  let s' := put_rollout s (with_rollout c r) in if bool_decide (status r = completed) then finish s' (with_rollout c r) t else s'.

Lemma advance_all_row s t c r l done_ : advance_config (cr_rollout c) t = Advanced r →
  advance_all s t None (c :: l) done_ = advance_all (after_row s c r t) t None l (cr_id c :: done_).
Proof using Type. intros Ha. cbn [advance_all]. rewrite Ha. cbn. unfold after_row. by destruct (bool_decide _). Qed.

Lemma after_row_delivers s c r t : configs_ok s → config_rollouts s !! cr_id c = Some c → status r = completed → delivers (after_row s c r t) c.
Proof using Type.
  intros Hok Hc Hr. destruct (ck_rollout _ Hok _ _ Hc) as (_ & [g Hg] & _). unfold after_row. rewrite bool_decide_eq_true_2 by done.
  unfold finish. cbn. rewrite Hg. assert (same_group g (set_current g (cr_target c))) as Hs by done.
  destruct (updated_same g _ t Hs) as [[E _] E']. eexists. cbn. rewrite E, (ck_group _ Hok _ _ Hg), lookup_insert_eq. split; [done|]. by rewrite E'.
Qed.

Lemma after_row_group s c r t i : configs_ok s → i ≠ cr_group c → groups (after_row s c r t) !! i = groups s !! i.
Proof using Type.
  intros Hok Hi. unfold after_row. cbn zeta. destruct (bool_decide _); [|done].
  unfold finish. cbn. destruct (groups s !! cr_group c) as [g|] eqn:Hg; [|done]. cbn.
  pose proof (ck_group _ Hok _ _ Hg) as Hid. assert (same_group g (set_current g (cr_target c))) as Hs by done.
  destruct (updated_same g _ t Hs) as [[E _] _]. rewrite E, lookup_insert_ne; [done|]. congruence.
Qed.

Lemma advance_all_ticks D t l s done_ : configs_ok s → waiting s l → (∀ c, c ∈ l → due D t (cr_rollout c)) →
  ticked t l s (advance_all s t None l done_).1.
Proof using Type.
  revert s done_. induction l as [|c l IH]; intros s done_ Hok Hw Hd; [by split; [intros c H; by apply not_elem_of_nil in H|..]|].
  destruct (proj2 Hw c ltac:(by left)) as [Hc Hl]. destruct (ck_rollout _ Hok _ _ Hc) as (Hro & _).
  destruct (advance_due D t _ Hro Hl (Hd c ltac:(by left))) as (r & Ha & Hp). rewrite (advance_all_row _ _ _ _ _ _ Ha).
  assert (config_rollouts (after_row s c r t) = <[cr_id c := with_rollout c r]> (config_rollouts s)) as Hrows by exact (put_move_rollouts s c r t).
  assert (configs_ok (after_row s c r t)) as Hok1 by (eapply config_step_ok; [by eapply (move_step false); [..|apply Hp]|done]).
  assert (waiting (after_row s c r t) l) as Hw1 by (by eapply waiting_tail).
  destruct (IH _ (cr_id c :: done_) Hok1 Hw1) as [Hrow Hother Hgroup]; [intros d Hin; apply Hd; by right|].
  pose proof (waiting_groups _ _ _ Hok Hw) as Hgs. destruct (proj1 (NoDup_cons _ _) (proj1 Hw)) as [Hnin _]. split.
  - intros d [->|Hin]%elem_of_cons; [|by apply Hrow]. exists r. split; [by rewrite Hother, Hrows, lookup_insert_eq|]. split; [done|].
    intros Hr. destruct (after_row_delivers _ _ _ t Hok Hc Hr) as (g & Hg & Hv). exists g. split; [|done].
    rewrite Hgroup; [done|]. intros d' Hd'. by apply Hgs.
  - intros i Hi. rewrite map_cons, not_elem_of_cons in Hi. destruct Hi as [Hi1 Hi2]. rewrite Hother by done.
    by rewrite Hrows, lookup_insert_ne.
  - intros i Hi. rewrite Hgroup by (intros d Hin; apply Hi; by right). apply after_row_group; [done|]. intros E.
    eapply Hi; [by left|by symmetry].
Qed.

Definition tick_at (s : Configs) (t : Z) : Configs := (serve s t (QTick false None)).1.

Lemma tick_ok s t : configs_ok s → configs_ok (tick_at s t).
Proof using row_order_perm. intros Hok. eapply config_steps_ok; [|exact Hok]. by apply (serve_steps false). Qed.

Lemma tick_ticked D s t : configs_ok s → all_due D t s → ∃ l, ticked t l s (tick_at s t) ∧ waiting s l ∧
  ∀ i c, config_rollouts s !! i = Some c → live (cr_rollout c) = true → c ∈ l.
Proof using row_order_perm.
  intros Hok Hd. set (l := merge_sort created_le (filterb (λ c, live (cr_rollout c)) (row_order (map snd (map_to_list (config_rollouts s)))))).
  pose proof (live_rows_waiting s Hok) as Hw. fold l in Hw. exists l. split; [|split; [done|]].
  - apply (advance_all_ticks D); [done|done|]. intros c Hc. destruct (proj2 Hw c Hc) as [H1 H2]. by eapply Hd.
  - intros i c Hc Hl. subst l. rewrite merge_sort_Permutation, list_elem_of_In, filter_In, <-list_elem_of_In, row_order_perm.
    split; [|done]. apply all_rollouts. by exists i.
Qed.

(** A rollout that is over stays as it is, and so does its group while none of its own is live. *)
Lemma ticked_settled t l s s' i c : configs_ok s → ticked t l s s' → waiting s l → config_rollouts s !! i = Some c → live (cr_rollout c) = false →
  config_rollouts s' !! i = Some c.
Proof using Type.
  intros Hok Ht Hw Hc Hl. rewrite (tk_other _ _ _ _ Ht); [done|]. intros Hin. apply list_elem_of_In, in_map_iff in Hin as (d & Hd & Hin).
  apply list_elem_of_In in Hin. destruct (proj2 Hw _ Hin) as [Hd1 Hd2]. rewrite Hd, Hc in Hd1. injection Hd1 as ->. congruence.
Qed.

Lemma ticked_group t l s s' i : ticked t l s s' → waiting s l → live_rollout s i = None → groups s' !! i = groups s !! i.
Proof using Type.
  intros Ht Hw Hn. apply (tk_group _ _ _ _ Ht). intros c Hin E. destruct (proj2 Hw _ Hin) as [H1 H2].
  by rewrite (live_rollout_none _ _ _ _ Hn H1 E) in H2.
Qed.

(** Where a live row of the next state comes from *)
Lemma ticked_back t l s s' i c' : ticked t l s s' → configs_ok s → waiting s l → (∀ i c, config_rollouts s !! i = Some c → live (cr_rollout c) = true → c ∈ l) →
  config_rollouts s' !! i = Some c' → live (cr_rollout c') = true →
  ∃ c r, config_rollouts s !! i = Some c ∧ live (cr_rollout c) = true ∧ c' = with_rollout c r ∧ progressed t (cr_rollout c) r.
Proof using Type.
  intros Ht Hok Hw Hall Hc' Hl'. destruct (decide (i ∈ map cr_id l)) as [Hin|Hout].
  - apply list_elem_of_In, in_map_iff in Hin as (c & <- & Hin). apply list_elem_of_In in Hin.
    destruct (tk_row _ _ _ _ Ht _ Hin) as (r & Hr & Hp & _). destruct (proj2 Hw _ Hin) as [H1 H2].
    exists c, r. rewrite Hr in Hc'. injection Hc' as <-. done.
  - exfalso. rewrite (tk_other _ _ _ _ Ht) in Hc' by done. apply Hout, list_elem_of_In, in_map_iff. exists c'.
    split; [by apply (ck_rollout_id _ Hok)|]. apply list_elem_of_In. by eapply Hall.
Qed.

Lemma ticked_none t l s s' i : ticked t l s s' → configs_ok s → waiting s l → (∀ i c, config_rollouts s !! i = Some c → live (cr_rollout c) = true → c ∈ l) →
  live_rollout s i = None → live_rollout s' i = None.
Proof using Type.
  intros Ht Hok Hw Hall Hn. destruct (live_rollout s' i) as [c'|] eqn:E; [|done]. exfalso.
  apply live_rollout_some in E as ((j & Hj) & Hg & Hl). destruct (ticked_back _ _ _ _ _ _ Ht Hok Hw Hall Hj Hl) as (c & r & Hc & Hlc & -> & _).
  cbn in Hg. by rewrite (live_rollout_none _ _ _ _ Hn Hc Hg) in Hlc.
Qed.

(** Ticks at least [D] minutes apart *)
Fixpoint spaced (D : Z) (ts : list Z) : Prop :=
  match ts with [] => True | t :: ts' => match ts' with t' :: _ => t + D * MINUTE ≤ t' ≤ MAX_TIME | [] => True end ∧ spaced D ts' end.

Lemma tick_due D s t t' : configs_ok s → all_due D t s → t + D * MINUTE ≤ t' ≤ MAX_TIME → all_due D t' (tick_at s t).
Proof using row_order_perm.
  intros Hok Hd [H1 H2] i c' Hc' Hl'. destruct (tick_ticked D s t Hok Hd) as (l & Ht & Hw & Hall).
  destruct (ticked_back _ _ _ _ _ _ Ht Hok Hw Hall Hc' Hl') as (c & r & Hc & Hlc & -> & Hm & Hp). cbn in *.
  pose proof Hm as (Htiers & _ & Hst & _). destruct (live_cases _ Hl') as [E|E]; [destruct Hst; congruence|].
  destruct (Hp E) as [Hts _]. split; [congruence| | |done].
  - intros x _ Hx. rewrite Hts in Hx. by injection Hx as <-.
  - rewrite Htiers. by eapply du_delays, Hd.
Qed.

Definition settled (s : Configs) (i : Z) (c : ConfigRollout) : Prop :=
  (∃ r, config_rollouts s !! i = Some (with_rollout c r) ∧ status r = completed) ∧ delivers s c ∧ live_rollout s (cr_group c) = None.

Definition tick_all (s : Configs) (ts : list Z) : Configs := run s (map (λ t, (t, QTick false None)) ts).

Lemma tick_all_settled D s ts i c : configs_ok s → spaced D ts → (∀ t, head ts = Some t → all_due D t s) → settled s i c → settled (tick_all s ts) i c.
Proof using row_order_perm.
  revert s. induction ts as [|t ts IH]; intros s Hok Hsp Hd Hs; [done|]. change (tick_all s (t :: ts)) with (tick_all (tick_at s t) ts).
  specialize (Hd t eq_refl). destruct (tick_ticked D s t Hok Hd) as (l & Ht & Hw & Hall). cbn [spaced] in Hsp. destruct Hsp as [Hnext Hsp].
  apply IH; [by apply tick_ok|done| |].
  - intros t' Ht'. destruct ts as [|t1 ts]; [done|]. injection Ht' as <-. by eapply tick_due.
  - destruct Hs as ((r & Hr & Hc) & (g & Hg & Hv) & Hn). split; [|split].
    + exists r. split; [|done]. eapply ticked_settled; [done|done|done|done|]. cbn. unfold live. by rewrite Hc.
    + exists g. by rewrite (ticked_group _ _ _ _ _ Ht Hw Hn).
    + by eapply ticked_none.
Qed.

(** One tick of a live rollout: it is over, or nearer to its end *)
Lemma tick_progress D s t i c : configs_ok s → all_due D t s → config_rollouts s !! i = Some c → live (cr_rollout c) = true →
  ∃ r, config_rollouts (tick_at s t) !! i = Some (with_rollout c r) ∧ rollout_ok r ∧
    (settled (tick_at s t) i c ∨ status r = running ∧ steps_left r < steps_left (cr_rollout c)).
Proof using row_order_perm.
  intros Hok Hd Hc Hl. destruct (tick_ticked D s t Hok Hd) as (l & Ht & Hw & Hall).
  pose proof (ck_rollout_id _ Hok _ _ Hc) as Hid. destruct (tk_row _ _ _ _ Ht _ (Hall _ _ Hc Hl)) as (r & Hr & [Hm Hp] & Hdel).
  rewrite Hid in Hr. exists r. split; [done|]. split; [by apply Hm|]. destruct (moved_status _ _ Hm) as [E|E]; [right; split; [done|by apply Hp]|].
  left. split; [by exists r|]. split; [by apply Hdel|].
  destruct (live_rollout (tick_at s t) (cr_group c)) as [d|] eqn:El; [|done]. exfalso.
  apply live_rollout_some in El as ((j & Hj) & Hg & Hld). destruct (ticked_back _ _ _ _ _ _ Ht Hok Hw Hall Hj Hld) as (c1 & r1 & Hc1 & Hl1 & -> & _).
  cbn in Hg, Hld. assert (i = j) as <- by (by eapply (ck_live _ Hok)). rewrite Hr in Hj. assert (r1 = r) as -> by (unfold with_rollout in Hj; congruence). unfold live in Hld. by rewrite E in Hld.
Qed.

Lemma ticks_settle D s ts i c : configs_ok s → spaced D ts → (∀ t, head ts = Some t → all_due D t s) →
  config_rollouts s !! i = Some c → live (cr_rollout c) = true → steps_left (cr_rollout c) ≤ Z.of_nat (length ts) → settled (tick_all s ts) i c.
Proof using row_order_perm.
  revert s c. induction ts as [|t ts IH]; intros s c Hok Hsp Hd Hc Hl Hlen.
  { destruct (ck_rollout _ Hok _ _ Hc) as (Hro & _). pose proof (steps_left_pos _ Hro Hl) as H. by destruct (Zlt_not_le _ _ H). }
  change (tick_all s (t :: ts)) with (tick_all (tick_at s t) ts). specialize (Hd t eq_refl).
  assert (∀ t', head ts = Some t' → all_due D t' (tick_at s t)) as Hd'.
  { intros t' Ht'. cbn [spaced] in Hsp. destruct Hsp as [Hnext _]. destruct ts as [|t1 ts]; [done|]. injection Ht' as <-. by eapply tick_due. }
  destruct (tick_progress D s t i c Hok Hd Hc Hl) as (r & Hr & Hro & [Hs|[E Hlt]]).
  - apply (tick_all_settled D); [by apply tick_ok|by apply Hsp|done|done].
  - assert (settled (tick_all (tick_at s t) ts) i (with_rollout c r)) as Hs; [|exact Hs].
    apply IH; [by apply tick_ok|by apply Hsp|done|done|cbn; unfold live; by rewrite E|]. cbn.
    apply Z.lt_succ_r. rewrite <-Nat2Z.inj_succ. by eapply Z.lt_le_trans.
Qed.

(** C35: Starting from a well-formed state, whatever sequence of requests, agent polls, minute ticks (also ticks whose worker dies between two commits) and changes elsewhere is served, the groups, snapshots and rollouts only take the steps of the life cycle, and the state stays well-formed: the snapshots of each group are numbered 1, 2, 3, ... without gaps and their sequence numbers increase strictly, the current version of a group and the target of every rollout are existing snapshots of that group, the tier of a rollout matches its status, and at most one rollout of a group is live. *)
Theorem config_lifecycle s trace : configs_ok s → rtc (config_step false) s (run s trace) ∧ configs_ok (run s trace).
Proof using row_order_perm. apply run_steps. Qed.

(** C36: As long as nobody cancels a rollout or deletes a group, no document is published at once beside a live rollout of its group, and no worker dies within a tick, the version of a group that a given agent is delivered never goes down, across publications, phased rollouts, promotions, completions and rollbacks. *)
Theorem delivery_monotone s trace bucket i v : configs_ok s → forward s → calm_trace s trace = true → delivered s bucket i = Some v →
  ∃ v', delivered (run s trace) bucket i = Some v' ∧ v ≤ v'.
Proof using row_order_perm. intros Hok Hf Ht. apply calm_run_delivers; [by apply calm_run|done|done]. Qed.

(** C37: A live rollout completes: left to the ticks of the worker, once each tick finds the delays of the live rollouts passed, it is completed after at most one tick more than it has tiers left, however many other rollouts advance with it, and from then on its group delivers the target to everybody. *)
Theorem rollout_completes D s ts i c : configs_ok s → spaced D ts → (∀ t, head ts = Some t → all_due D t s) →
  config_rollouts s !! i = Some c → live (cr_rollout c) = true → steps_left (cr_rollout c) ≤ Z.of_nat (length ts) →
  ∃ r g, config_rollouts (tick_all s ts) !! i = Some (with_rollout c r) ∧ status r = completed ∧
    groups (tick_all s ts) !! cr_group c = Some g ∧ ∀ bucket, version_for (tick_all s ts) bucket g = (cr_target c, false).
Proof using row_order_perm.
  intros Hok Hsp Hd Hc Hl Hlen. destruct (ticks_settle D s ts i c Hok Hsp Hd Hc Hl Hlen) as ((r & Hr & E) & (g & Hg & Hv) & Hn).
  exists r, g. split; [done|]. split; [done|]. split; [done|]. intros b. unfold version_for.
  assert (configs_ok (tick_all s ts)) as Hok' by apply run_steps, Hok. by rewrite (ck_group _ Hok' _ _ Hg), Hn, Hv.
Qed.
End configs.

Module Demo.
(** The group of every agent, at its first snapshot, and one agent *)
Definition everyone : Group := mkGroup 1 (txt "Everyone") None ∅ ∅ 100 true 1 0 0.
Definition agent7 : Agent := mkAgent 7 (txt "a") (txt "a") None None None 0 None None.
Definition start : Configs :=
  mkConfigs (mkFleet (mkCentral ∅ [] {[7 := agent7]} ∅ ∅ ∅ 0 0 0) ∅ ∅ 0 ∅) ∅ {[1 := everyone]} [mkVersion 1 1 1 ∅ ∅ None None 0] 1 ∅ 0 0 ∅.
Definition settings : SyncSettings := mkSyncSettings true "none" [] 100 100 100 100 100.
Definition call : OperatorCall := mkCall None None (mkRequest ∅ ∅ None).
Definition as_bool (j : json) : option bool := match j with JBool b => Some b | _ => None end.
Definition as_int (j : json) : option Z := match j with JInt n => Some n | _ => None end.
Definition digest (l : list Z) : list Z := l.
Definition hex (l : list Z) : string := "0123456789abcdef".
Definition group_id (n : nat) : Z := Z.of_nat n + 2.

Local Abbreviation serve := (ConfigGroups.serve (λ c, [c]) (λ _, []) (λ _, None) as_bool as_int (λ _, true) (λ _, true) (λ _, ZoneKnown)
  (λ _, None) [] digest hex text_le (λ l, l) id settings false ∅ 65536 group_id Z.of_nat id).
Local Abbreviation run := (ConfigGroups.run (λ c, [c]) (λ _, []) (λ _, None) as_bool as_int (λ _, true) (λ _, true) (λ _, ZoneKnown)
  (λ _, None) [] digest hex text_le (λ l, l) id settings false ∅ 65536 group_id Z.of_nat id).
Local Abbreviation tick_all := (ConfigFacts.tick_all (λ c, [c]) (λ _, []) (λ _, None) as_bool as_int (λ _, true) (λ _, true) (λ _, ZoneKnown)
  (λ _, None) [] digest hex text_le (λ l, l) id settings false ∅ 65536 group_id Z.of_nat id).

Definition level (t : string) : list (text * json) := [(txt "log_level", JText (txt t))].
Definition tier (p d : Z) : json := JDict [(txt "percent", JInt p); (txt "delay_minutes", JInt d)].
Definition edit (t : string) (rollout : option (list json * option request_time)) : config_request :=
  QUpdate call 2 (mkGroupUpdate None None None (Some (level t)) None None rollout).

(** A group of agent 7, and an edit that goes to 1% at once and to everybody an hour later *)
Definition made : list (Z * config_request) :=
  [(0, QCreate call (mkGroupIn (txt "Lab") None (level "info") [] 200)); (0, QMembers call 7 [2])].
Definition staged : list (Z * config_request) := made ++ [(1, edit "debug" (Some ([tier 1 0; tier 100 60], None)))].

Definition minute_ticks : list Z := [1; 1 + 60 * MINUTE; 1 + 120 * MINUTE].
Definition tick (t : Z) : Z * config_request := (t, QTick false None).

Lemma config_start_ok : configs_ok start.
Proof.
  split; cbn -[numbers next_version].
  - by intros i g [<- <-]%lookup_singleton_Some.
  - intros i c H. by rewrite lookup_empty in H.
  - intros i c H. by rewrite lookup_empty in H.
  - intros v ->%list_elem_of_singleton. by eexists.
  - intros i. unfold numbers, next_version. cbn -[Z.eqb]. by destruct (Z.eqb_spec 1 i) as [<-|].
  - intros i g [<- <-]%lookup_singleton_Some. by vm_compute.
  - by repeat constructor.
  - by intros v ->%list_elem_of_singleton.
  - intros i j c c' H. by rewrite lookup_empty in H.
Qed.

Lemma config_run_ok trace : configs_ok (run start trace).
Proof. apply run_steps; [done|apply config_start_ok]. Qed.

Lemma config_lifecycle_witness : configs_ok start ∧ configs_ok (run start (staged ++ map tick minute_ticks)) ∧
  g_current_version <$> groups (run start (staged ++ map tick minute_ticks)) !! 2 = Some 2.
Proof.
  split; [apply config_start_ok|]. split; [|vm_compute; reflexivity].
  refine (proj2 (config_lifecycle _ _ _ _ _ _ _ _ _ _ _ _ _ _ _ _ _ _ _ _ _ _ _ start (staged ++ map tick minute_ticks) _));
    [intros l; reflexivity|apply config_start_ok].
Defined.

(** The edit, its first tick, and a rollback beside it *)
Definition calm : list (Z * config_request) := [(1, edit "debug" (Some ([tier 1 0; tier 100 60], None))); tick 2; (3, QRollback call 2 1 None)].
Lemma delivery_monotone_witness : calm_trace (λ c, [c]) (λ _, []) (λ _, None) as_bool as_int (λ _, true) (λ _, true) (λ _, ZoneKnown)
  (λ _, None) [] digest hex text_le (λ l, l) id settings false ∅ 65536 group_id Z.of_nat id (run start made) calm = true ∧
  ∃ v', delivered (run (run start made) calm) 0 2 = Some v' ∧ 1 ≤ v'.
Proof.
  split; [vm_compute; reflexivity|].
  refine (delivery_monotone _ _ _ _ _ _ _ _ _ _ _ _ _ _ _ _ _ _ _ _ _ _ _ (run start made) calm 0 2 1 _ _ _ _);
    [intros l; reflexivity|apply config_run_ok| |vm_compute; reflexivity|vm_compute; reflexivity].
  intros i c g H. assert (config_rollouts (run start made) = ∅) as E by (vm_compute; reflexivity). rewrite E, lookup_empty in H; clear E; discriminate H.
Defined.

Definition staged_rollout : ConfigRollout := mkConfigRollout 0 2 2 (new_rollout [mkTier 1 0; mkTier 100 60] None) None 1.
Lemma staged_rollouts : config_rollouts (run start staged) = {[0 := staged_rollout]}.
Proof. by vm_compute. Qed.

Lemma minute_ticks_spaced : spaced 60 minute_ticks.
Proof. cbn. unfold MINUTE, MAX_TIME. lia. Qed.

Lemma staged_due t : head minute_ticks = Some t → all_due 60 t (run start staged).
Proof.
  intros [= <-] i c H. rewrite staged_rollouts in H. apply lookup_singleton_Some in H as [<- <-]. intros _. split; try done.
  repeat constructor; cbn; lia.
Qed.

Lemma rollout_completes_witness : config_rollouts (run start staged) !! 0 = Some staged_rollout ∧ ∃ r g,
  config_rollouts (tick_all (run start staged) minute_ticks) !! 0 = Some (with_rollout staged_rollout r) ∧ status r = completed ∧
  groups (tick_all (run start staged) minute_ticks) !! cr_group staged_rollout = Some g ∧
  ∀ bucket, version_for (tick_all (run start staged) minute_ticks) bucket g = (cr_target staged_rollout, false).
Proof.
  split; [rewrite staged_rollouts; reflexivity|].
  apply (rollout_completes (λ c, [c]) (λ _, []) (λ _, None) as_bool as_int (λ _, true) (λ _, true) (λ _, ZoneKnown)
    (λ _, None) [] digest hex text_le (λ l, l) id settings false ∅ 65536 group_id Z.of_nat id) with (D := 60).
  - intros l. reflexivity.
  - apply config_run_ok.
  - exact minute_ticks_spaced.
  - exact staged_due.
  - rewrite staged_rollouts. reflexivity.
  - reflexivity.
  - vm_compute. discriminate.
Defined.



(** ** What the modelling showed *)

Definition version_of (trace : list (Z * config_request)) : option Z := g_current_version <$> groups (run start trace) !! 2.

(** A document published at once while a rollout runs is undone by the promotion: the group
    goes back from version 3 to version 2. *)
Example promotion_downgrades :
  let before := staged ++ [tick 1; (2, edit "warn" None)] in
  version_of before = Some 3 ∧ version_of (before ++ [(3, QPromote call 0)]) = Some 2.
Proof. by vm_compute. Qed.

(** So does the tick that completes the rollout. *)
Example completion_downgrades :
  let before := staged ++ [tick 1; (2, edit "warn" None)] in version_of (before ++ [tick (1 + 60 * MINUTE)]) = Some 2.
Proof. by vm_compute. Qed.

(** A worker that dies between the commit of a completion and the commit of its group leaves
    a completed rollout whose target nobody is delivered, and no later tick repairs it. *)
Definition at_once : list (Z * config_request) := made ++ [(1, edit "debug" (Some ([tier 100 0], None)))].
Example completion_lost :
  let s := run start (at_once ++ [(1, QTick false (Some 1%nat))]) in
  (status ∘ cr_rollout) <$> config_rollouts s !! 0 = Some completed ∧
  g_current_version <$> groups s !! 2 = Some 1 ∧ config_rollouts (run s [tick 2]) = config_rollouts s ∧ groups (run s [tick 2]) = groups s.
Proof. by vm_compute. Qed.

(** A name that is taken is a conflict alone, and a failure together with a document. *)
Definition rename (l : option (list (text * json))) : config_request := QUpdate call 2 (mkGroupUpdate (Some (txt "Everyone")) None None l None None None).
Example taken_name_fails :
  (serve (run start made) 1 (rename None)).2 = GHttpError 409 ∧ (serve (run start made) 1 (rename (Some (level "warn")))).2 = GHttpError 500.
Proof. by vm_compute. Qed.

(** A delay past the year 9999 ends every tick that reaches its rollout: the one of another
    group, created later, never starts. *)
Definition far : list (Z * config_request) :=
  made ++ [(1, edit "debug" (Some ([tier 1 0; tier 100 (10 ^ 12)], None))); tick 1;
    (2, QCreate call (mkGroupIn (txt "Other") None [] [] 300));
    (2, QUpdate call 3 (mkGroupUpdate None None None (Some []) None None (Some ([tier 100 0], None))))].
Example overflow_blocks :
  let s := run start far in
  serve s 3 (QTick false None) = (s, GHttpError 500) ∧ (status ∘ cr_rollout) <$> config_rollouts s !! 1 = Some scheduled ∧
  (serve s 3 (QRollouts call None 10)).2 = GHttpError 500.
Proof. by vm_compute. Qed.
End Demo.
